(* ===== verification/_CoqProject ===== *)
-Q . S2P
Prelude.v
Bytes.v
Text.v
NetAddr.v
Ipv6.v
Cell.v
Civil.v
State.v
Registry.v
SampleRegistry.v
RegistryTheorems.v
RegistryCache.v
Frame.v
Noise.v
SampleNoise.v
Layer.v
Circuit.v
Token.v
Config.v
Exit.v
ConfigTheorems.v
RelayRegistry.v
Relay.v
RelayTheorems.v
StaticKey.v
Http.v
Metrics.v
Path.v
Blind.v
Dial.v
Client.v
Socks5.v
Daemon.v
RelayNode.v
Tls.v
Interleave.v
Isolation.v
EndToEnd.v
Telescope.v
Service.v
Load.v
Shutdown.v
Flight.v
Splice.v
Traffic.v
Life.v
UnitTest.v
Fixtures.v
CryptoUnit.v
RegistryUnit.v
RelayUnit.v
ClientUnit.v
