(* ===== verification/Prelude.v ===== *)
(** QuietHop: a verification of the Rust workspace.

    QuietHop routes a user's TCP connections through three relays (guard,
    middle, exit).  A local daemon speaks SOCKS5, buys access with blind-signed
    tokens, picks a path from a signed registry of relays, and telescopes a
    circuit of Noise NK sessions, one per hop, over TLS.  This library models
    the four crates under src/ ([quiethop-crypto], [relay], [client],
    [quiethop-client]) and proves what makes them correct.  The names of
    definitions follow the source; a method [T::f] is [T_f], or [f] where that
    is unambiguous.

    * How the program is put together, and where each part is modelled

    The shared protocol, quiethop-crypto/src:
    - wire.rs, cell.rs: [Cell] (constants, link sizes, the cell, EXTEND and
      CONNECT codecs);
    - noise.rs: [Noise], with [SampleNoise], an executable instance of the
      interface to the snow crate;
    - layer.rs: [Frame] ([FrameAccumulator], [FrameReader]) and [Layer]
      ([seal_to_me], [seal_forward], [peel]);
    - registry.rs: [Registry] (entries, envelopes, [verify], [remember]), with
      [Civil] (timestamps and the calendar), [NetAddr] (address literals and
      canonical addresses), [Bytes] (integers, hex, UTF-8) and [Text] (string
      slices, integer parsing); its theorems are in [RegistryTheorems], sample
      dependencies in [SampleRegistry];
    - state.rs: [State], over a disk with faults and crashes;
    - registry_cache.rs: [RegistryCache], over that disk and a network.

    The relay, relay/src:
    - config.rs: [Config], its theorem in [ConfigTheorems]; token.rs: [Token];
      circuit.rs: [Circuit]; exit.rs: [Exit]; registry.rs: [RelayRegistry];
      static_key.rs: [StaticKey]; port80.rs and the endpoint of metrics.rs:
      [Http]; the statics of metrics.rs: [Metrics];
    - the connection handler of main.rs, with [dial_tls] and the counters:
      [Relay], its theorems in [RelayTheorems];
    - the process of main.rs (keygen, startup, refresh task, accepting), with
      authority.rs and heartbeat.rs: [RelayNode], which takes a connection in
      one event; [Interleave] cuts it at its waits, for any number of
      connections at once, and [Isolation] puts the pieces together again;
    - tls.rs (the ACME bundle and its driver, the routed accept, the connector,
      [dial_tls]): [Tls], of which [RelayNode] and [Relay] use the abstract
      answers;
    - the four tasks of that process (heartbeat, two accept loops, redirector)
      and how main stops them: [Shutdown].

    The client, client/src and quiethop-client/src:
    - path.rs and error.rs: [Path]; blind.rs and tokens.rs: [Blind]; dial.rs and
      [dial] of tls.rs: [Dial];
    - lib.rs, auth.rs, the requests of tokens.rs, and the daemon's
      configuration and startup: [Client];
    - socks5.rs: [Socks5], with [Ipv6], the text form of an IPv6 address; its
      last lines, the two copies, with the pipe of dial.rs: [Splice], which
      [Life] puts behind the rest of a session and [Traffic] in front of three
      relays;
    - the daemon's accept loop, sessions and refresh task (main.rs): [Daemon].

    [EndToEnd] and [Telescope] compose the client's circuits with three relays,
    [Service] the whole system, from an application's request on, and [Load] the
    same with the relays busy; [Flight] holds what is known of layers that are
    under way.  [Prelude] (this file) holds what all of them
    share: the outcome and state monads, the bounds-checked slices, list lemmas,
    tactics and hint databases.

    The sources' own unit tests, translated and evaluated: [CryptoUnit],
    [RegistryUnit], [RelayUnit] and [ClientUnit], with the assertions of
    [UnitTest] and the crates of [Fixtures].

    * How code becomes definitions

    - A fallible function returns an [outcome]: [Ok], [Err], or [Panic] for a
      failed bounds check, an [expect] or an [unreachable!]; that nothing panics
      is proved.  A method with [&mut self] is an [st]: a function from the state
      to the state and an outcome, so that changes made before an error stay.
    - Bytes are [Byte.byte]; integers are [Z] with their width and wrap-around
      written out; lengths are [nat]; strings are UTF-8 byte strings.
    - I/O is a log of what was done and a script of what the outside answers: a
      theorem over all scripts covers every failure and every peer.  The disk
      takes a fault for each operation; an error of a write may leave a prefix.
      A crash loses nothing that was renamed into place: [store] syncs the file
      and not its directory, and the model takes a rename to be durable.
    - A [tokio::select!] loop is a function of a list of events, one for each
      branch that fires, and a history of a component is a list of calls or
      events, so that a theorem over all lists covers every interleaving at the
      granularity of those turns.
    - Other crates are classes with the laws the sources rely on: [Snow],
      [SnowLaws] and [SnowFlight] (snow), [Base64], [Sha256], [Ed25519],
      [RegistryJson], [StateJson], [ModInverse], [UrlParser], [Urls], [ApiJson],
      [Pem], [ServerNames], [Notify] and [TokioCopy] (tokio's), [Prometheus],
      [TextEncoder], [RustlsAcme], [RustlsRoots].  The Sample instances satisfy
      the laws and run, so the witnesses evaluate the programs on concrete
      inputs.  No law says that signatures or ciphertexts cannot be forged: the
      theorems are about what the code does with the answers of those
      primitives.

    * What the theorems show

    - A circuit works: [Service] (a request of an application is served, from
      the token to the exit's connection), [Load] (also while each relay serves
      any number of other connections), [Telescope] (dialling through three
      honest relays succeeds and leaves all four parties in step) and [EndToEnd]
      (bytes arrive exactly and in order, both ways); [Traffic] runs the user's
      copies, the pipe, the task and the three relays in any order, with both
      directions under way at once (nothing fails, no byte is lost, and every
      schedule comes to its end with all of them delivered), [Splice] says what
      a session waits for, and [Life] puts the daemon in front (an application
      from its first byte to its last, among any number of others, whatever
      fails).
    - Only the entitled are served: [Interleave] (over every interleaving of
      a relay's connections and refreshes; no race on a token; effects turn by
      turn; and that the turns are the handler), [Isolation] (connections are
      linearizable: the relay answers each as if it served them one after
      another, in the order their tokens are checked), [RelayNode] (whole
      connections),
      [RelayTheorems] (one connection; what a relay may ever write or dial),
      [Token] (double spending, order of the checks), [Exit] (ports), [Tls] (the
      name under which a next hop is verified).
    - More concurrency: [Daemon] (any interleaving of sessions and refreshes is a
      sequence of whole turns of one client, and fetches only when the document
      is stale), [Shutdown] (when a relay can be stopped, exactly).
    - The registry is trusted for the right reason and never goes back:
      [RegistryTheorems] (acceptance, exactly), [RegistryCache] (histories,
      windows, fetch policy), [State] (atomicity under crashes), [RelayRegistry]
      (decisions on peers and next hops), [Client] (every path a client builds).
    - Startup fails closed: [ConfigTheorems] (a configuration that says what
      the environment says, or a true error), [RelayNode] (no listener before trust), [Client] (the
      daemon), [StaticKey] (the key file), [Tls] (the detailed TLS code refines
      the answers the rest of the relay is proved with).
    - Privacy of the protocol: [Blind] (the authority learns nothing of the
      message; honest issuing succeeds; what is kept is accepted), [Socks5]
      (neither the authority nor the guard's wire depends on the destination),
      [Path] (selection is sound, complete and uniform).
    - Codecs and parsers: [Cell], [Layer], [Frame], [Civil], [Ipv6], [Socks5]
      (requests, exactly), [Http] (a bounded head, a fixed redirect),
      [Metrics] (the lazily built counters are the counters of [Relay]).
    - The model answers as the authors expect: the unit tests of the sources,
      but for four that the test files name (of other crates, or statistical),
      evaluate to [true].

    * Bounds and fuel

    Recursion that is not structural takes fuel, and the fuel is shown or seen
    to be enough: [chunks] and [utf8_valid] use the length, as every turn takes
    a byte; [trim] likewise; [to_bytes_be] one turn per bit; the head reader of
    [Http] runs once more than the head has bytes, and running out is [Panic],
    which is proved not to happen; a poll of [Frame] recurses on the events of
    its stream.  A schedule of [Traffic] is a list of moves, of which it is
    proved that there are at most six for each byte up and seven for each byte
    down.  [blind] draws until a draw is usable: its draws are a list,
    and it is proved to stop at the first usable one.

    * Not modelled

    Timers and signals are events, and logging is left out: it decides nothing.
    rustls, rustls-acme, reqwest, tokio's scheduler and the encoder of the
    prometheus crate are other crates' work, present as answers, events or
    classes; a certificate is what those classes say of it.  The three-relay
    test of relay/src/integration_test.rs runs real sockets and is not
    translated: [Telescope] and [Service] prove what it samples.  The zeroing of
    key buffers is invisible in a functional model.  A turn of a task begins
    when what it waits for has arrived and is atomic; where it waits again
    before it ends (a dial, a write), it has used the shared state before that.
    The links between client and relays hold whatever is written on them: that a
    full TCP buffer may make a writer wait is not modelled, while the pipe's
    bounds are.  The mutexes of the replay window and of the client are taken to
    serialise their holders, which is what they are for, and [Daemon] steps at
    that granularity; how long a session holds the client's lock (the whole of
    its dial) has no place in a model without time.  The Go authority, the
    dashboard and the scripts are other languages: the authority is the answers
    of its HTTP interface. *)

From Stdlib Require Export ZArith Lia.
From Stdlib Require Export Strings.Byte Strings.String.
From stdpp Require Export base list gmap strings numbers sorting.

(** ** Outcomes of a Rust computation

    [Ok a] and [Err e] are the two constructors of [Result<A, E>].  [Panic]
    is the third way a Rust function can end: an out-of-range index or slice,
    a [copy_from_slice] between slices of different lengths, an [expect] on
    [None] or an [unreachable!].  Keeping it apart from [Err] lets a theorem
    say that a function never panics. *)
Inductive outcome (E A : Type) : Type :=
  | Ok (a : A)
  | Err (e : E)
  | Panic.
Arguments Ok {E A} a.
Arguments Err {E A} e.
Arguments Panic {E A}.

#[export] Instance outcome_ret E : MRet (outcome E) := @Ok E.
#[export] Instance outcome_bind E : MBind (outcome E) := λ A B f m,
  match m with Ok a => f a | Err e => Err e | Panic => Panic end.
#[export] Instance outcome_fmap E : FMap (outcome E) := λ A B f m,
  match m with Ok a => Ok (f a) | Err e => Err e | Panic => Panic end.

(** [Result::map_err], the conversion a [?] applies to the error. *)
Definition map_err {E F A} (f : E → F) (m : outcome E A) : outcome F A :=
  match m with Ok a => Ok a | Err e => Err (f e) | Panic => Panic end.

(** [Option::ok_or]. *)
Definition ok_or {E A} (o : option A) (e : E) : outcome E A :=
  match o with Some a => Ok a | None => Err e end.

(** [Result::ok]. A panic is not caught by it. *)
Definition ok {E F A} (m : outcome E A) : outcome F (option A) :=
  match m with Ok a => Ok (Some a) | Err _ => Ok None | Panic => Panic end.

(** [Option::is_some]. *)
Definition is_some {A} (o : option A) : bool := match o with Some _ => true | None => false end.

Definition is_ok {E A} (m : outcome E A) : bool :=
  match m with Ok _ => true | _ => false end.

(** The value of an outcome that is known to be [Ok]. *)
Definition get_ok {E A} (m : outcome E A) : is_ok m = true → A :=
  match m with Ok a => λ _, a | _ => λ H, False_rect _ (Bool.diff_false_true H) end.

Definition is_err {E A} (m : outcome E A) : bool :=
  match m with Err _ => true | _ => false end.

(** ** Computations on a mutable state

    A method that takes [&mut S] and returns a [Result]: the state afterwards
    and the outcome.  The state changes made before an error stay made, as they
    do in the source. *)
Definition st (S E A : Type) : Type := S → S * outcome E A.

#[export] Instance st_ret S E : MRet (st S E) := λ A a s, (s, Ok a).
#[export] Instance st_bind S E : MBind (st S E) := λ A B f m s,
  match m s with
  | (s, Ok a) => f a s
  | (s, Err e) => (s, Err e)
  | (s, Panic) => (s, Panic)
  end.

(** A computation that does not touch the state. *)
Definition lift {S E A} (m : outcome E A) : st S E A := λ s, (s, m).

Definition fail {S E A} (e : E) : st S E A := λ s, (s, Err e).

(** [map_err] on a method's result, the conversion of [?]. *)
Definition st_map_err {S E F A} (f : E → F) (m : st S E A) : st S F A := λ s,
  let '(s, o) := m s in (s, map_err f o).

(** Run a method on one field of a larger state. *)
Definition on_field {S T E A} (get : S → T) (set : T → S → S) (m : st T E A) : st S E A := λ s,
  let '(t, o) := m (get s) in (set t s, o).

(** ** Errors of [std::io] and polls of a future *)

(** The kinds of [std::io::Error] the sources construct or test; every other
    kind is [IoOther]. *)
Inductive io_error :=
  | UnexpectedEof | TimedOut | InvalidData | NotFound | AlreadyExists | IoOther.

#[export] Instance io_error_eq_dec : EqDecision io_error.
Proof. solve_decision. Defined.

(** One poll of a future: it is not ready, or it is ready with a value. *)
Inductive poll (A : Type) : Type :=
  | NotReady
  | Ready (a : A).
Arguments NotReady {A}.
Arguments Ready {A} a.

(** ** Slices, with the bounds checks Rust inserts *)

(** [l[from..to]]. *)
Definition slice {E A} (l : list A) (from to : nat) : outcome E (list A) :=
  if decide (from ≤ to ∧ to ≤ length l) then Ok (take (to - from) (drop from l)) else Panic.

(** [l[from..]]. *)
Definition slice_from {E A} (l : list A) (from : nat) : outcome E (list A) :=
  slice l from (length l).

(** [l[..to]]. *)
Definition slice_to {E A} (l : list A) (to : nat) : outcome E (list A) :=
  slice l 0 to.

(** [l[i]]. *)
Definition index {E A} (l : list A) (i : nat) : outcome E A :=
  match l !! i with Some x => Ok x | None => Panic end.

(** [l[i] = x]. *)
Definition index_set {E A} (l : list A) (i : nat) (x : A) : outcome E (list A) :=
  if decide (i < length l) then Ok (<[i := x]> l) else Panic.

(** [l[from..to].copy_from_slice(src)]. *)
Definition copy_at {E A} (l : list A) (from to : nat) (src : list A) : outcome E (list A) :=
  if decide (from ≤ to ∧ to ≤ length l ∧ length src = to - from)
  then Ok (take from l ++ src ++ drop to l) else Panic.

(** [for b in l[from..].iter_mut() { *b = x; }]. *)
Definition fill_from {E A} (l : list A) (from : nat) (x : A) : outcome E (list A) :=
  if decide (from ≤ length l) then Ok (take from l ++ replicate (length l - from) x) else Panic.

(** [l.chunks(n)]: consecutive pieces of [n] elements, the last one shorter
    when [n] does not divide the length.  The fuel is the length, because every
    piece of a non-empty list takes at least one element. *)
Fixpoint chunks_fuel {A} (fuel n : nat) (l : list A) : list (list A) :=
  match fuel, l with
  | S fuel, _ :: _ => take n l :: chunks_fuel fuel n (drop n l)
  | _, _ => []
  end.
Definition chunks {A} (n : nat) (l : list A) : list (list A) :=
  chunks_fuel (length l) n l.

(** [iter().any]/[iter().all]/[iter().find]/[iter().position]. *)
Definition list_any {A} (p : A → bool) (l : list A) : bool := existsb p l.
Definition list_all {A} (p : A → bool) (l : list A) : bool := forallb p l.

(** Fallible map over a list: stops at the first error, as a [for] loop with
    [?] in its body does. *)
Fixpoint try_map {E A B} (f : A → outcome E B) (l : list A) : outcome E (list B) :=
  match l with
  | [] => Ok []
  | x :: l => y ← f x; ys ← try_map f l; Ok (y :: ys)
  end.

(** ** Rust strings are UTF-8 byte strings *)
Definition as_bytes (s : string) : list byte := list_byte_of_string s.
Definition of_bytes (l : list byte) : string := string_of_list_byte l.

#[export] Instance byte_eq_dec : EqDecision byte := Byte.byte_eq_dec.

#[export] Program Instance byte_countable : Countable byte :=
  inj_countable Byte.to_N Byte.of_N _.
Next Obligation. intros b. apply Byte.of_to_N. Qed.

(** ** Automation *)

Create HintDb rs discriminated.
Create Rewrite HintDb rs_len.

(** ** Lemmas on outcomes *)

Section outcome_lemmas.
Context {E F A B : Type}.

Lemma bind_Ok (m : outcome E A) (f : A → outcome E B) b :
  m ≫= f = Ok b ↔ ∃ a, m = Ok a ∧ f a = Ok b.
Proof. destruct m; naive_solver. Qed.

Lemma bind_Err (m : outcome E A) (f : A → outcome E B) e :
  m ≫= f = Err e ↔ m = Err e ∨ ∃ a, m = Ok a ∧ f a = Err e.
Proof. destruct m; naive_solver. Qed.

Lemma bind_Panic (m : outcome E A) (f : A → outcome E B) :
  m ≫= f = Panic ↔ m = Panic ∨ ∃ a, m = Ok a ∧ f a = Panic.
Proof. destruct m; naive_solver. Qed.

Lemma fmap_Ok (m : outcome E A) (f : A → B) b :
  f <$> m = Ok b ↔ ∃ a, m = Ok a ∧ b = f a.
Proof. destruct m; naive_solver. Qed.

Lemma map_err_Ok (f : E → F) (m : outcome E A) a :
  map_err f m = Ok a ↔ m = Ok a.
Proof. destruct m; naive_solver. Qed.

Lemma map_err_Err (f : E → F) (m : outcome E A) e :
  map_err f m = Err e ↔ ∃ e', m = Err e' ∧ e = f e'.
Proof. destruct m; naive_solver. Qed.

Lemma get_ok_eq (m : outcome E A) (H : is_ok m = true) : m = Ok (get_ok m H).
Proof. by destruct m. Qed.

Lemma ok_or_Ok (o : option A) (e : E) a : ok_or o e = Ok a ↔ o = Some a.
Proof. destruct o; naive_solver. Qed.

Lemma ok_or_Err (o : option A) (e e' : E) : ok_or o e = Err e' ↔ o = None ∧ e' = e.
Proof. destruct o; naive_solver. Qed.
End outcome_lemmas.

Section st_lemmas.
Context {S T E F A B : Type}.

Lemma st_bind_Ok (m : st S E A) (f : A → st S E B) s s' b :
  (m ≫= f) s = (s', Ok b) ↔ ∃ s1 a, m s = (s1, Ok a) ∧ f a s1 = (s', Ok b).
Proof. unfold mbind, st_bind. destruct (m s) as [s1 [a|e|]]; naive_solver. Qed.

Lemma st_bind_Ok_eq (m : st S E A) (f : A → st S E B) s s1 a :
  m s = (s1, Ok a) → (m ≫= f) s = f a s1.
Proof. unfold mbind, st_bind. by intros ->. Qed.

Lemma st_bind_Err_eq (m : st S E A) (f : A → st S E B) s s1 e :
  m s = (s1, Err e) → (m ≫= f) s = (s1, Err e).
Proof. unfold mbind, st_bind. by intros ->. Qed.

Lemma st_map_err_Ok (f : E → F) (m : st S E A) s s' a :
  st_map_err f m s = (s', Ok a) ↔ m s = (s', Ok a).
Proof. unfold st_map_err. destruct (m s) as [s1 [x|e|]]; naive_solver. Qed.

Lemma st_map_err_Ok_eq (f : E → F) (m : st S E A) s s' a :
  m s = (s', Ok a) → st_map_err f m s = (s', Ok a).
Proof. apply st_map_err_Ok. Qed.

Lemma st_map_err_Err_eq (f : E → F) (m : st S E A) s s' e :
  m s = (s', Err e) → st_map_err f m s = (s', Err (f e)).
Proof. unfold st_map_err. by intros ->. Qed.

Lemma lift_eq (m : outcome E A) (s : S) : lift m s = (s, m).
Proof. done. Qed.
End st_lemmas.

(** Take a hypothesis saying that a monadic computation returned [Ok] apart
    into the results of its steps. *)
Ltac ok_inv_step :=
  match goal with
  | H : (_ ≫= _) = Ok _ |- _ => apply bind_Ok in H as (? & ? & H)
  | H : (_ <$> _) = Ok _ |- _ => apply fmap_Ok in H as (? & ? & ?)
  | H : map_err _ _ = Ok _ |- _ => apply map_err_Ok in H
  | H : ok_or _ _ = Ok _ |- _ => apply ok_or_Ok in H
  | H : Ok _ = Ok _ |- _ => injection H as H; subst
  | H : Err _ = Ok _ |- _ => discriminate H
  | H : Panic = Ok _ |- _ => discriminate H
  | H : Some _ = Some _ |- _ => injection H as H; subst
  | H : None = Some _ |- _ => discriminate H
  | H : (if ?b then _ else _) = Ok _ |- _ => destruct b eqn:?
  | H : match ?x with _ => _ end = Ok _ |- _ => destruct x eqn:?
  end.
Ltac ok_inv := repeat (ok_inv_step; simpl in *).

(** Case analysis on the test of an [if] or the scrutinee of a [match]. *)
Ltac case_all := repeat (case_match; simplify_eq/=).

(** ** Lemmas on slices *)

Section slice_lemmas.
Context {E A : Type}.
Implicit Types l k : list A.

Lemma slice_Ok l from to r :
  slice (E:=E) l from to = Ok r →
  from ≤ to ∧ to ≤ length l ∧ r = take (to - from) (drop from l) ∧ length r = to - from.
Proof.
  unfold slice. intros H. case_decide; simplify_eq.
  rewrite length_take, length_drop. repeat split; lia.
Qed.

Lemma slice_in_range l from to :
  from ≤ to → to ≤ length l →
  slice (E:=E) l from to = Ok (take (to - from) (drop from l)).
Proof. intros. unfold slice. by rewrite decide_True. Qed.

Lemma slice_app_mid l1 l2 l3 from to :
  from = length l1 → to = length l1 + length l2 →
  slice (E:=E) (l1 ++ l2 ++ l3) from to = Ok l2.
Proof.
  intros -> ->. rewrite slice_in_range by (rewrite ?length_app; lia).
  rewrite drop_app_length, take_app_length'; [done|lia].
Qed.

Lemma slice_app_l l1 l2 to :
  to = length l1 → slice_to (E:=E) (l1 ++ l2) to = Ok l1.
Proof.
  intros ->. unfold slice_to. rewrite slice_in_range by (rewrite ?length_app; lia).
  by rewrite Nat.sub_0_r, drop_0, take_app_length.
Qed.

Lemma slice_app_0 l1 l2 to :
  to = length l1 → slice (E:=E) (l1 ++ l2) 0 to = Ok l1.
Proof. apply slice_app_l. Qed.

Lemma slice_app_r l1 l2 from :
  from = length l1 → slice_from (E:=E) (l1 ++ l2) from = Ok l2.
Proof.
  intros ->. unfold slice_from. rewrite slice_in_range by (rewrite ?length_app; lia).
  rewrite drop_app_length, take_ge; [done|]. rewrite length_app; lia.
Qed.

Lemma slice_cons_tail l x from to :
  slice (E:=E) (x :: l) (S from) (S to) = slice l from to.
Proof. unfold slice. cbn [length drop]. repeat case_decide; try done; lia. Qed.

Lemma index_Ok l i x : index (E:=E) l i = Ok x ↔ l !! i = Some x.
Proof. unfold index. case_match; naive_solver. Qed.

Lemma index_in_range l i : i < length l → ∃ x, index (E:=E) l i = Ok x ∧ l !! i = Some x.
Proof.
  intros Hi. destruct (lookup_lt_is_Some_2 l i Hi) as [x Hx].
  exists x. by rewrite index_Ok.
Qed.

Lemma index_app_r l1 l2 n i :
  n = length l1 + i → index (E:=E) (l1 ++ l2) n = index l2 i.
Proof. intros ->. unfold index. rewrite lookup_app_r by lia. by rewrite Nat.add_sub'. Qed.

Lemma copy_at_in_range l from to k :
  from ≤ to → to ≤ length l → length k = to - from →
  copy_at (E:=E) l from to k = Ok (take from l ++ k ++ drop to l).
Proof. intros. unfold copy_at. by rewrite decide_True. Qed.

Lemma index_set_in_range l i x : i < length l → index_set (E:=E) l i x = Ok (<[i := x]> l).
Proof. intros. unfold index_set. by rewrite decide_True. Qed.

Lemma fill_from_in_range l from x :
  from ≤ length l →
  fill_from (E:=E) l from x = Ok (take from l ++ replicate (length l - from) x).
Proof. intros. unfold fill_from. by rewrite decide_True. Qed.
End slice_lemmas.

(** ** Lemmas on chunks *)

Section chunks_lemmas.
Context {A : Type}.
Implicit Types l : list A.

Lemma chunks_fuel_concat fuel n l :
  0 < n → length l ≤ fuel → concat (chunks_fuel fuel n l) = l.
Proof.
  intros Hn. revert l. induction fuel as [|fuel IH]; intros [|x l] Hl; try done; [simpl in *; lia|].
  cbn [chunks_fuel concat]. rewrite IH.
  - apply take_drop.
  - rewrite length_drop. simpl in *. lia.
Qed.

Lemma chunks_concat n l : 0 < n → concat (chunks n l) = l.
Proof. intros. by apply chunks_fuel_concat. Qed.

Lemma chunks_fuel_bound fuel n l :
  0 < n → Forall (λ c, 0 < length c ≤ n) (chunks_fuel fuel n l).
Proof.
  intros Hn. revert l. induction fuel as [|fuel IH]; intros [|x l]; cbn [chunks_fuel]; constructor; auto.
  rewrite length_take. simpl. lia.
Qed.

Lemma chunks_bound n l : 0 < n → Forall (λ c, 0 < length c ≤ n) (chunks n l).
Proof. apply chunks_fuel_bound. Qed.

Lemma chunks_nil_inv n l : chunks n l = [] → l = [].
Proof. by destruct l. Qed.
End chunks_lemmas.

(** ** Lemmas on fallible maps *)

Lemma try_map_Ok {E A B} (f : A → outcome E B) l ys :
  try_map f l = Ok ys ↔ Forall2 (λ x y, f x = Ok y) l ys.
Proof.
  revert ys. induction l as [|x l IH]; intros ys; simpl.
  - split; [intros; ok_inv; constructor | inversion 1; done].
  - rewrite bind_Ok. setoid_rewrite bind_Ok. split.
    + intros (y & Hy & ys' & Hys & ?). ok_inv. constructor; [done|]. by apply IH.
    + inversion 1; subst. eexists; split; [done|]. eexists. by rewrite IH.
Qed.

(** ** Lemmas on byte strings *)

Lemma as_bytes_of_bytes l : as_bytes (of_bytes l) = l.
Proof. apply list_byte_of_string_of_list_byte. Qed.

Lemma of_bytes_as_bytes s : of_bytes (as_bytes s) = s.
Proof. apply string_of_list_byte_of_string. Qed.

Lemma as_bytes_inj s t : as_bytes s = as_bytes t → s = t.
Proof. intros H. by rewrite <- (of_bytes_as_bytes s), H, of_bytes_as_bytes. Qed.

Lemma length_as_bytes s : length (as_bytes s) = String.length s.
Proof.
  unfold as_bytes, list_byte_of_string. rewrite length_map.
  induction s; simpl; auto.
Qed.

#[export] Hint Rewrite @length_app @length_take @length_drop @length_replicate
  @length_insert @length_map @length_as_bytes @as_bytes_of_bytes : rs_len.

(** Arithmetic on lengths. *)
Ltac len := simpl in *; autorewrite with rs_len in *; simpl in *; try lia.

#[export] Hint Resolve as_bytes_of_bytes of_bytes_as_bytes as_bytes_inj : rs.

(** [injection] without simplification of the tails. *)
Lemma cons_eq_inv {A} (x y : A) l k : x :: l = y :: k → x = y ∧ l = k.
Proof. by intros [= -> ->]. Qed.

(** Induction over a list two elements at a time, for loops over pairs. *)
Lemma list_pair_ind {A} (P : list A → Prop) :
  P [] → (∀ x, P [x]) → (∀ x y l, P l → P (x :: y :: l)) → ∀ l, P l.
Proof.
  intros H0 H1 H2 l. enough (P l ∧ ∀ x, P (x :: l)) by tauto.
  induction l as [|y l [IH1 IH2]]; split; auto.
Qed.

(** ** Replicated padding *)

Lemma forallb_replicate {A} (p : A → bool) n x : p x = true → forallb p (replicate n x) = true.
Proof. intros Hp. induction n; simpl; rewrite ?Hp; done. Qed.

Lemma existsb_replicate {A} (p : A → bool) n x : p x = false → existsb p (replicate n x) = false.
Proof. intros Hp. induction n; simpl; rewrite ?Hp; done. Qed.

Lemma existsb_ne_replicate `{EqDecision A} (z : A) l :
  existsb (λ b, bool_decide (b ≠ z)) l = false → l = replicate (length l) z.
Proof.
  induction l as [|x l IH]; simpl; [done|].
  rewrite orb_false_iff. intros [Hx Hl]. rewrite <- IH by done. f_equal.
  apply bool_decide_eq_false in Hx. by destruct (decide (x = z)).
Qed.

(** ** Effects with a log

    A computation on a state that carries a log of effects is [safe] when it
    only appends effects satisfying [P], never panics, and returns a value
    satisfying [Q] if it returns one.  The rules below take a handler apart
    along its monadic structure. *)
Section safe.
Context {S X : Type} (lg : S → list X) (P : X → Prop).

Definition safe {E A} (m : st S E A) (Q : A → Prop) : Prop := ∀ s,
  (∃ new, lg (fst (m s)) = lg s ++ new ∧ Forall P new) ∧
  match snd (m s) with Ok a => Q a | Err _ => True | Panic => False end.

Lemma safe_bind {E A B} (m : st S E A) (f : A → st S E B) Q R :
  safe m Q → (∀ a, Q a → safe (f a) R) → safe (m ≫= f) R.
Proof.
  intros Hm Hf s. specialize (Hm s). unfold mbind, st_bind.
  destruct (m s) as [s1 [a|e|]]; simpl in *; [|done|by destruct Hm].
  destruct Hm as [(new & Hnew & HP) Ha]. destruct (Hf a Ha s1) as [(new' & Hnew' & HP') Hr].
  split; [|done]. exists (new ++ new'). rewrite Hnew', Hnew, app_assoc. split; [done|]. by apply Forall_app.
Qed.

Lemma safe_ret {E A} (a : A) (Q : A → Prop) : Q a → safe (mret a : st S E A) Q.
Proof. intros Ha s. split; [|done]. exists []. by rewrite app_nil_r. Qed.

Lemma safe_fail {E A} (e : E) (Q : A → Prop) : safe (fail e : st S E A) Q.
Proof. intros s. split; [|done]. exists []. by rewrite app_nil_r. Qed.

Lemma safe_lift {E A} (m : outcome E A) (Q : A → Prop) :
  m ≠ Panic → (∀ a, m = Ok a → Q a) → safe (lift m : st S E A) Q.
Proof.
  intros Hp Hq s. split; [exists []; by rewrite app_nil_r|]. simpl. destruct m; auto.
Qed.

Lemma safe_weaken {E A} (m : st S E A) (Q R : A → Prop) : safe m Q → (∀ a, Q a → R a) → safe m R.
Proof. intros Hm Hq s. destruct (Hm s) as [? Hr]. split; [done|]. destruct (snd (m s)); auto. Qed.

(** A computation that leaves the log alone. *)
Lemma safe_silent {E A} (m : st S E A) (Q : A → Prop) :
  (∀ s, lg (fst (m s)) = lg s) → (∀ s, snd (m s) ≠ Panic) →
  (∀ s s' a, m s = (s', Ok a) → Q a) → safe m Q.
Proof.
  intros Hl Hp Hq s. split; [exists []; by rewrite app_nil_r, Hl|].
  specialize (Hp s). specialize (Hq s). destruct (m s) as [s' [a|e|]]; simpl in *; eauto.
Qed.
End safe.

(** A computation on a field, for a log that lives in that field. *)
Lemma safe_on_field {S T X E A} (lgS : S → list X) (lgT : T → list X) P get set
    (m : st T E A) (Q : A → Prop) :
  (∀ s, lgS s = lgT (get s)) → (∀ t s, get (set t s) = t) →
  safe lgT P m Q → safe lgS P (on_field (S:=S) get set m) Q.
Proof.
  intros Hlg Hgs Hm s. specialize (Hm (get s)). unfold on_field.
  destruct (m (get s)) as [t o]; simpl in *. by rewrite !Hlg, Hgs.
Qed.
