(* ===== verification/Bytes.v ===== *)
(** QuietHop: bytes, fixed-width integers, hexadecimal and UTF-8.

    The parts of the Rust standard library the wire formats rest on: the
    value of a byte, [as u8], [u16::to_be_bytes] and [from_be_bytes],
    [char::to_digit(16)] and [char::from_digit(_, 16)], [str::from_utf8], and
    the two hexadecimal codecs of the crates: [decode_hex]/[decode_hex32] and
    the [nibble] of [registry.rs] with the encoders [hex_of] and [pubkey_hex]
    of the relay, and [hex_lower]/[hex_decode] of the client's [tokens.rs]. *)

From S2P Require Import Prelude.

Local Open Scope Z_scope.

(** ** Bytes as integers *)

(** The value of a [u8]. *)
Definition u8 (b : byte) : Z := Z.of_N (Byte.to_N b).

(** The cast [z as u8]: reduction modulo 256. *)
Definition as_u8 (z : Z) : byte := default x00 (Byte.of_N (Z.to_N (z mod 256))).

(** [u16::to_be_bytes]. *)
Definition u16_to_be_bytes (z : Z) : list byte := [as_u8 (Z.shiftr z 8); as_u8 z].

(** [u16::from_be_bytes]. *)
Definition u16_from_be_bytes (hi lo : byte) : Z := Z.lor (Z.shiftl (u8 hi) 8) (u8 lo).

(** The cast [n as u16] of a [usize]. *)
Definition usize_as_u16 (n : nat) : Z := Z.of_nat n mod 65536.

Definition u16_in_range (z : Z) : Prop := 0 ≤ z < 65536.

(** ** Hexadecimal *)

(** [char::to_digit(16)] on a byte taken as a Latin-1 character. *)
Definition to_digit16 (b : byte) : option Z :=
  let c := u8 b in
  if (48 <=? c) && (c <=? 57) then Some (c - 48)
  else if (97 <=? c) && (c <=? 102) then Some (c - 97 + 10)
  else if (65 <=? c) && (c <=? 70) then Some (c - 65 + 10)
  else None.

(** [char::from_digit(v, 16)]. *)
Definition from_digit16 (v : Z) : option byte :=
  if (0 <=? v) && (v <? 10) then Some (as_u8 (48 + v))
  else if (10 <=? v) && (v <? 16) then Some (as_u8 (97 + v - 10))
  else None.

(** [u8::is_ascii_hexdigit]. *)
Definition is_ascii_hexdigit (b : byte) : bool :=
  let c := u8 b in
  ((48 <=? c) && (c <=? 57)) || ((97 <=? c) && (c <=? 102)) || ((65 <=? c) && (c <=? 70)).

(** [nibble] of [registry.rs]: [char::from_digit(v, 16).unwrap_or('0')]. *)
Definition nibble (v : Z) : byte := default x30 (from_digit16 v).

(** One byte as two lower-case digits, the body of the loops of [key_id_for],
    [hex_of] and [pubkey_hex]. *)
Definition hex_byte (b : byte) : list byte :=
  [nibble (Z.shiftr (u8 b) 4); nibble (Z.land (u8 b) 15)].

(** [hex_of] of the relay's [static_key.rs]. *)
Definition hex_of (bytes : list byte) : string := of_bytes (flat_map hex_byte bytes).

(** [pubkey_hex] of the relay's [heartbeat.rs]. *)
Definition pubkey_hex (key : list byte) : string := of_bytes (flat_map hex_byte key).

(** The loop of [decode_hex]: pairs of digits, failing at the first byte that
    is not one.  A trailing single byte cannot occur, because the caller has
    checked that the length is even. *)
Fixpoint decode_hex_pairs (l : list byte) : option (list byte) :=
  match l with
  | hi :: lo :: l =>
      h ← to_digit16 hi; d ← to_digit16 lo;
      rest ← decode_hex_pairs l;
      Some (as_u8 (h * 16 + d) :: rest)
  | _ => Some []
  end.

(** [decode_hex] of [registry.rs]. *)
Definition decode_hex (s : string) : option (list byte) :=
  if Nat.even (String.length s) then decode_hex_pairs (as_bytes s) else None.

(** [decode_hex32] of [registry.rs]. *)
Definition decode_hex32 (s : string) : option (list byte) :=
  if bool_decide (String.length s = 64%nat) then decode_hex_pairs (as_bytes s) else None.

(** [nibble] of the client's [tokens.rs]. *)
Definition tokens_nibble (n : Z) : byte :=
  if (0 <=? n) && (n <=? 9) then as_u8 (48 + n)
  else if (10 <=? n) && (n <=? 15) then as_u8 (97 + n - 10)
  else x3f.

(** [hex_lower] of the client's [tokens.rs]. *)
Definition hex_lower (bytes : list byte) : string :=
  of_bytes (flat_map (λ b, [tokens_nibble (Z.shiftr (u8 b) 4);
                            tokens_nibble (Z.land (u8 b) 15)]) bytes).

(** [hex_nibble] of [tokens.rs]; the error carries the offending byte. *)
Definition hex_nibble (b : byte) : outcome byte Z :=
  let c := u8 b in
  if (48 <=? c) && (c <=? 57) then Ok (c - 48)
  else if (97 <=? c) && (c <=? 102) then Ok (c - 97 + 10)
  else if (65 <=? c) && (c <=? 70) then Ok (c - 65 + 10)
  else Err b.

(** The two [InvalidResponse] errors of [hex_decode]. *)
Inductive hex_error := HexLengthOdd | BadHexByte (b : byte).

Fixpoint hex_decode_pairs (l : list byte) : outcome hex_error (list byte) :=
  match l with
  | c0 :: c1 :: l =>
      hi ← map_err BadHexByte (hex_nibble c0);
      lo ← map_err BadHexByte (hex_nibble c1);
      rest ← hex_decode_pairs l;
      Ok (as_u8 (Z.lor (Z.shiftl hi 4) lo) :: rest)
  | _ => Ok []
  end.

(** [hex_decode] of [tokens.rs]. *)
Definition hex_decode (s : string) : outcome hex_error (list byte) :=
  if Nat.even (String.length s) then hex_decode_pairs (as_bytes s) else Err HexLengthOdd.

(** ** UTF-8 validation, [str::from_utf8]

    The well-formed byte sequences of the Unicode standard, table 3-7: no
    overlong forms, no surrogates, nothing above U+10FFFF. *)

Definition in_range (lo hi : Z) (b : byte) : bool := (lo <=? u8 b) && (u8 b <=? hi).
Definition is_cont : byte → bool := in_range 128 191.

(** The length of the character at the front of [l], if it is well formed. *)
Definition utf8_char_len (l : list byte) : option nat :=
  match l with
  | [] => None
  | b0 :: l' =>
      let c := u8 b0 in
      if c <? 128 then Some 1%nat
      else if (194 <=? c) && (c <=? 223) then
        match l' with b1 :: _ => if is_cont b1 then Some 2%nat else None | _ => None end
      else if (224 <=? c) && (c <=? 239) then
        match l' with
        | b1 :: b2 :: _ =>
            let first := if c =? 224 then in_range 160 191
                         else if c =? 237 then in_range 128 159
                         else is_cont in
            if first b1 && is_cont b2 then Some 3%nat else None
        | _ => None
        end
      else if (240 <=? c) && (c <=? 244) then
        match l' with
        | b1 :: b2 :: b3 :: _ =>
            let first := if c =? 240 then in_range 144 191
                         else if c =? 244 then in_range 128 143
                         else is_cont in
            if first b1 && is_cont b2 && is_cont b3 then Some 4%nat else None
        | _ => None
        end
      else None
  end.

(** Every character takes at least one byte, so the length is enough fuel. *)
Fixpoint utf8_valid_fuel (fuel : nat) (l : list byte) : bool :=
  match l with
  | [] => true
  | _ =>
      match fuel with
      | O => false
      | S fuel =>
          match utf8_char_len l with
          | Some n => utf8_valid_fuel fuel (drop n l)
          | None => false
          end
      end
  end.
Definition utf8_valid (l : list byte) : bool := utf8_valid_fuel (length l) l.

(** [std::str::from_utf8]. *)
Definition from_utf8 (l : list byte) : option string :=
  if utf8_valid l then Some (of_bytes l) else None.

(** ** Lemmas: bytes *)

Lemma u8_range b : 0 ≤ u8 b < 256.
Proof.
  unfold u8. pose proof (Byte.to_N_bounded b). lia.
Qed.
#[export] Hint Resolve u8_range : rs.

Lemma u8_inj a b : u8 a = u8 b → a = b.
Proof.
  unfold u8. intros H%N2Z.inj.
  pose proof (Byte.of_to_N a) as Ha. rewrite H, Byte.of_to_N in Ha. by injection Ha.
Qed.

Lemma u8_as_u8 z : u8 (as_u8 z) = z mod 256.
Proof.
  unfold u8, as_u8. pose proof (Z.mod_pos_bound z 256 ltac:(lia)).
  destruct (Byte.of_N (Z.to_N (z mod 256))) as [b|] eqn:Hb; simpl.
  - apply Byte.to_of_N in Hb. rewrite Hb. lia.
  - apply Byte.of_N_None_iff in Hb. lia.
Qed.

Lemma u8_as_u8_small z : 0 ≤ z < 256 → u8 (as_u8 z) = z.
Proof. intros. rewrite u8_as_u8. by apply Z.mod_small. Qed.

Lemma as_u8_u8 b : as_u8 (u8 b) = b.
Proof. apply u8_inj. apply u8_as_u8_small, u8_range. Qed.

Lemma as_u8_eq z b : z mod 256 = u8 b → as_u8 z = b.
Proof. intros H. apply u8_inj. by rewrite u8_as_u8. Qed.

(** ** Lemmas: big-endian 16-bit integers *)

Lemma u16_from_be_bytes_arith hi lo : u16_from_be_bytes hi lo = 256 * u8 hi + u8 lo.
Proof.
  unfold u16_from_be_bytes. pose proof (u8_range lo).
  assert (Z.land (Z.shiftl (u8 hi) 8) (u8 lo) = 0) as Hdisj.
  { apply Z.bits_inj'. intros n Hn. rewrite Z.land_spec, Z.bits_0, Z.shiftl_spec by lia.
    destruct (decide (n < 8)).
    - by rewrite Z.testbit_neg_r by lia.
    - rewrite andb_comm, Z.bits_above_log2; [done|lia|].
      destruct (decide (u8 lo = 0)) as [->|]; [simpl; lia|].
      apply Z.log2_lt_pow2; [lia|].
      apply Z.lt_le_trans with (2 ^ 8); [lia|]. apply Z.pow_le_mono_r; lia. }
  rewrite <- Z.lxor_lor by done. rewrite <- Z.add_nocarry_lxor by done.
  rewrite Z.shiftl_mul_pow2 by lia. change (2 ^ 8) with 256. lia.
Qed.

Lemma u16_from_be_bytes_range hi lo : u16_in_range (u16_from_be_bytes hi lo).
Proof.
  rewrite u16_from_be_bytes_arith. unfold u16_in_range.
  pose proof (u8_range hi). pose proof (u8_range lo). lia.
Qed.

Lemma length_u16_to_be_bytes z : length (u16_to_be_bytes z) = 2%nat.
Proof. done. Qed.
#[export] Hint Rewrite length_u16_to_be_bytes : rs_len.

Lemma u16_from_to_be_bytes z :
  u16_in_range z → u16_from_be_bytes (as_u8 (Z.shiftr z 8)) (as_u8 z) = z.
Proof.
  unfold u16_in_range. intros Hz.
  rewrite u16_from_be_bytes_arith, !u8_as_u8, Z.shiftr_div_pow2 by lia.
  change (2 ^ 8) with 256. rewrite (Z.mod_small (z / 256)).
  - pose proof (Z.div_mod z 256). lia.
  - split; [apply Z.div_pos; lia | apply Z.div_lt_upper_bound; lia].
Qed.

Lemma u16_to_from_be_bytes hi lo : u16_to_be_bytes (u16_from_be_bytes hi lo) = [hi; lo].
Proof.
  unfold u16_to_be_bytes. rewrite u16_from_be_bytes_arith.
  pose proof (u8_range hi). pose proof (u8_range lo).
  rewrite Z.shiftr_div_pow2 by lia. change (2 ^ 8) with 256.
  f_equal; [|f_equal]; apply as_u8_eq.
  - replace ((256 * u8 hi + u8 lo) / 256) with (u8 hi) by (apply Z.div_unique with (u8 lo); lia).
    apply Z.mod_small. lia.
  - symmetry. apply Z.mod_unique with (u8 hi); lia.
Qed.

Lemma usize_as_u16_small n : (n < Z.to_nat 65536)%nat → usize_as_u16 n = Z.of_nat n.
Proof. intros. unfold usize_as_u16. apply Z.mod_small. lia. Qed.

(** ** Lemmas: hexadecimal *)

(** A statement about every byte is decided by running through the 256 of
    them. *)
Ltac all_bytes b := destruct b; vm_compute; reflexivity.

Lemma decode_hex_byte b l :
  decode_hex_pairs (hex_byte b ++ l) = (λ r, b :: r) <$> decode_hex_pairs l.
Proof.
  assert (∃ h d, to_digit16 (nibble (Z.shiftr (u8 b) 4)) = Some h ∧
                 to_digit16 (nibble (Z.land (u8 b) 15)) = Some d ∧
                 as_u8 (h * 16 + d) = b) as (h & d & Hh & Hd & Hb).
  { exists (Z.shiftr (u8 b) 4), (Z.land (u8 b) 15). repeat split; all_bytes b. }
  unfold hex_byte. cbn [app decode_hex_pairs]. rewrite Hh, Hd. simpl. rewrite Hb.
  by destruct (decode_hex_pairs l).
Qed.

Lemma decode_hex_pairs_encode l : decode_hex_pairs (flat_map hex_byte l) = Some l.
Proof.
  induction l as [|b l IH]; [done|].
  cbn [flat_map]. by rewrite decode_hex_byte, IH.
Qed.

Lemma length_hex_bytes l : length (flat_map hex_byte l) = (2 * length l)%nat.
Proof. induction l as [|b l IH]; [done|]. simpl in *. rewrite IH. lia. Qed.

Lemma decode_hex_as_bytes s l : as_bytes s = flat_map hex_byte l → decode_hex s = Some l.
Proof.
  intros Hs. unfold decode_hex. rewrite <- length_as_bytes, Hs, length_hex_bytes.
  rewrite Nat.even_mul. simpl. apply decode_hex_pairs_encode.
Qed.

Lemma decode_hex_hex_of l : decode_hex (hex_of l) = Some l.
Proof. apply decode_hex_as_bytes. unfold hex_of. by rewrite as_bytes_of_bytes. Qed.

Lemma length_hex_of l : String.length (hex_of l) = (2 * length l)%nat.
Proof. unfold hex_of. by rewrite <- length_as_bytes, as_bytes_of_bytes, length_hex_bytes. Qed.

(** The three encoders of the workspace write the same digits. *)
Lemma hex_lower_eq l : hex_lower l = hex_of l.
Proof.
  unfold hex_lower, hex_of. f_equal. apply flat_map_ext. intros b.
  unfold hex_byte. f_equal; [|f_equal]; all_bytes b.
Qed.

(** The client's decoder accepts and returns what the registry's does. *)
Lemma hex_nibble_to_digit16 b :
  hex_nibble b = match to_digit16 b with Some v => Ok v | None => Err b end.
Proof. all_bytes b. Qed.

Lemma to_digit16_range b v : to_digit16 b = Some v → 0 ≤ v < 16.
Proof.
  pose proof (u8_range b). unfold to_digit16. intros. case_all;
    repeat match goal with H : _ && _ = true |- _ => apply andb_true_iff in H as [??] end; lia.
Qed.

Lemma nibbles_combine h d : 0 ≤ h < 16 → 0 ≤ d < 16 → Z.lor (Z.shiftl h 4) d = h * 16 + d.
Proof.
  intros Hh Hd.
  assert (h ∈ seqZ 0 16) as Hhs by (apply elem_of_seqZ; lia).
  assert (d ∈ seqZ 0 16) as Hds by (apply elem_of_seqZ; lia).
  revert h Hhs Hh d Hds Hd.
  assert (Forall (λ h, Forall (λ d, Z.lor (Z.shiftl h 4) d = h * 16 + d) (seqZ 0 16)) (seqZ 0 16)) as Hall.
  { apply (bool_decide_unpack _). vm_compute. exact I. }
  rewrite Forall_forall in Hall. intros h Hhs _ d Hds _.
  specialize (Hall h Hhs). rewrite Forall_forall in Hall. auto.
Qed.

Lemma hex_decode_pairs_agree l :
  match decode_hex_pairs l with
  | Some r => hex_decode_pairs l = Ok r
  | None => ∃ b, hex_decode_pairs l = Err (BadHexByte b) ∧ b ∈ l ∧ to_digit16 b = None
  end.
Proof.
  induction l as [|c0 | c0 c1 l IH] using list_pair_ind; try done.
  cbn [decode_hex_pairs hex_decode_pairs]. rewrite !hex_nibble_to_digit16.
  destruct (to_digit16 c0) as [h|] eqn:H0; simpl; [|exists c0; set_solver].
  destruct (to_digit16 c1) as [d|] eqn:H1; simpl; [|exists c1; set_solver].
  destruct (decode_hex_pairs l) as [r|]; simpl.
  - rewrite IH. simpl. rewrite nibbles_combine; eauto using to_digit16_range.
  - destruct IH as (b & -> & Hb & ?). exists b. set_solver.
Qed.

Lemma decode_hex_pairs_length l r :
  decode_hex_pairs l = Some r → Nat.even (length l) = true → length l = (2 * length r)%nat.
Proof.
  revert r. induction l as [|c0 | c0 c1 l IH] using list_pair_ind; intros r Hr He; simplify_eq/=; try done.
  destruct (to_digit16 c0), (to_digit16 c1); simplify_eq/=.
  destruct (decode_hex_pairs l) as [r'|]; simplify_eq/=. specialize (IH r' eq_refl He). lia.
Qed.

Lemma decode_hex_length s r : decode_hex s = Some r → String.length s = (2 * length r)%nat.
Proof.
  unfold decode_hex. destruct (Nat.even _) eqn:He; [|done]. rewrite <- length_as_bytes in *.
  intros. by apply decode_hex_pairs_length.
Qed.

Lemma is_ascii_hexdigit_spec b : is_ascii_hexdigit b = true ↔ is_Some (to_digit16 b).
Proof.
  assert (is_ascii_hexdigit b = match to_digit16 b with Some _ => true | None => false end)
    as -> by all_bytes b.
  destruct (to_digit16 b); naive_solver.
Qed.

Lemma decode_hex_pairs_hexdigits l :
  forallb is_ascii_hexdigit l = true → is_Some (decode_hex_pairs l).
Proof.
  induction l as [|c0 | c0 c1 l IH] using list_pair_ind; try (simpl; eauto; fail).
  cbn [forallb decode_hex_pairs].
  rewrite !andb_true_iff, !is_ascii_hexdigit_spec. intros ([h ->] & [d ->] & [r Hr]%IH).
  simpl. rewrite Hr. simpl. eauto.
Qed.

(** ** Lemmas: UTF-8 *)

Lemma utf8_char_len_bounds l n : utf8_char_len l = Some n → (1 ≤ n ≤ length l)%nat.
Proof.
  unfold utf8_char_len. intros. repeat (case_match; simplify_eq/=); lia.
Qed.

Lemma utf8_valid_fuel_mono fuel fuel' l :
  (length l ≤ fuel)%nat → (length l ≤ fuel')%nat →
  utf8_valid_fuel fuel l = utf8_valid_fuel fuel' l.
Proof.
  revert fuel' l. induction fuel as [|fuel IH]; intros [|fuel'] [|b l] H1 H2; cbn [length utf8_valid_fuel] in *; try lia; try done.
  destruct (utf8_char_len (b :: l)) as [n|] eqn:Hn; [|done].
  apply utf8_char_len_bounds in Hn. simpl in *.
  apply IH; rewrite length_drop; simpl; lia.
Qed.

Lemma utf8_valid_cons_char l n :
  utf8_char_len l = Some n → utf8_valid l = utf8_valid (drop n l).
Proof.
  intros Hn. pose proof (utf8_char_len_bounds _ _ Hn) as Hb.
  unfold utf8_valid. destruct l as [|b l]; [simpl in *; lia|].
  cbn [length utf8_valid_fuel]. rewrite Hn.
  apply utf8_valid_fuel_mono; rewrite ?length_drop; simpl in *; lia.
Qed.

Lemma utf8_char_len_ascii b l : u8 b < 128 → utf8_char_len (b :: l) = Some 1%nat.
Proof. intros Hb. unfold utf8_char_len. rewrite (proj2 (Z.ltb_lt _ _) Hb). done. Qed.

Lemma utf8_valid_ascii l : Forall (λ b, u8 b < 128) l → utf8_valid l = true.
Proof.
  induction 1 as [|b l Hb _ IH]; [done|].
  rewrite (utf8_valid_cons_char _ _ (utf8_char_len_ascii _ _ Hb)). done.
Qed.

Lemma from_utf8_Some l s : from_utf8 l = Some s → as_bytes s = l ∧ utf8_valid l = true.
Proof. unfold from_utf8. case_match; intros; simplify_eq. by rewrite as_bytes_of_bytes. Qed.

Lemma from_utf8_as_bytes s : utf8_valid (as_bytes s) = true → from_utf8 (as_bytes s) = Some s.
Proof. unfold from_utf8. intros ->. by rewrite of_bytes_as_bytes. Qed.
