(* ===== verification/Text.v ===== *)
(** QuietHop: what the sources use of Rust's string slices and integer parsing.

    [str::get] with its character-boundary check, and [str::parse] on the
    integer types: an optional sign, then decimal digits, with the checked
    accumulation of [from_str_radix].  A lone sign is an error; a minus sign is
    an error for an unsigned type. *)

From S2P Require Import Prelude Bytes.

#[local] Open Scope Z_scope.

Definition i64_MIN : Z := - 2 ^ 63.
Definition i64_MAX : Z := 2 ^ 63 - 1.
Definition in_i64 (z : Z) : Prop := i64_MIN ≤ z ≤ i64_MAX.

(** Two's-complement wrap-around, what release builds do on overflow. *)
Definition wrap_i64 (z : Z) : Z := (z + 2 ^ 63) mod 2 ^ 64 - 2 ^ 63.
Definition i64_add (a b : Z) : Z := wrap_i64 (a + b).

(** [str::is_char_boundary]. *)
Definition is_char_boundary (s : list byte) (i : nat) : bool :=
  if (i =? 0)%nat then true
  else match s !! i with
       | None => (i =? length s)%nat
       | Some b => negb (is_cont b)
       end.

(** [s.get(from..to)]. *)
Definition str_get (s : list byte) (from to : nat) : option (list byte) :=
  if bool_decide (from ≤ to)%nat && bool_decide (to ≤ length s)%nat &&
     is_char_boundary s from && is_char_boundary s to
  then Some (take (to - from) (drop from s)) else None.

Definition dec_digit (b : byte) : option Z :=
  if (48 <=? u8 b) && (u8 b <=? 57) then Some (u8 b - 48) else None.

(** The accumulation of [from_str_radix] in a type with bounds [lo] and [hi]:
    [checked_mul] by ten, then [checked_add] or [checked_sub]. *)
Fixpoint parse_digits (lo hi : Z) (neg : bool) (acc : Z) (l : list byte) : option Z :=
  match l with
  | [] => Some acc
  | b :: l =>
      d ← dec_digit b;
      let m := acc * 10 in
      if bool_decide (lo ≤ m ≤ hi) then
        let v := if neg then m - d else m + d in
        if bool_decide (lo ≤ v ≤ hi) then parse_digits lo hi neg v l else None
      else None
  end.

Definition parse_int (lo hi : Z) (l : list byte) : option Z :=
  match l with
  | [] => None
  | [x2b] | [x2d] => None
  | x2b :: r => parse_digits lo hi false 0 r
  | x2d :: r => if lo <? 0 then parse_digits lo hi true 0 r else None
  | _ => parse_digits lo hi false 0 l
  end.

Definition parse_i64 : list byte → option Z := parse_int i64_MIN i64_MAX.
Definition parse_u16 : list byte → option Z := parse_int 0 65535.
Definition parse_usize : list byte → option Z := parse_int 0 (2 ^ 64 - 1).

(** ** Decimal printing of a number in a fixed width *)

Definition dec_char (v : Z) : byte := as_u8 (48 + v mod 10).

Fixpoint dec_width (w : nat) (v : Z) : list byte :=
  match w with
  | O => []
  | S w => dec_width w (v / 10) ++ [dec_char v]
  end.

(** ** Lemmas *)

Lemma wrap_i64_small z : in_i64 z → wrap_i64 z = z.
Proof. unfold in_i64, wrap_i64, i64_MIN, i64_MAX. intros. rewrite Z.mod_small; lia. Qed.

Lemma i64_add_small a b : in_i64 (a + b) → i64_add a b = a + b.
Proof. apply wrap_i64_small. Qed.

Lemma dec_digit_char v : dec_digit (dec_char v) = Some (v mod 10).
Proof.
  unfold dec_digit, dec_char. pose proof (Z.mod_pos_bound v 10 ltac:(lia)).
  rewrite u8_as_u8_small by lia.
  rewrite (proj2 (Z.leb_le _ _)), (proj2 (Z.leb_le _ _)) by lia. simpl. f_equal. lia.
Qed.

Lemma dec_digit_range b d : dec_digit b = Some d → 0 ≤ d ≤ 9.
Proof. unfold dec_digit. intros. case_match; simplify_eq. lia. Qed.

Lemma length_dec_width w v : length (dec_width w v) = w.
Proof. revert v. induction w; intros v; simpl; [done|]. rewrite length_app, IHw. simpl. lia. Qed.

Lemma parse_digits_app lo hi neg acc l k :
  parse_digits lo hi neg acc (l ++ k) =
  v ← parse_digits lo hi neg acc l; parse_digits lo hi neg v k.
Proof.
  revert acc. induction l as [|b l IH]; intros acc; cbn [app parse_digits]; [done|].
  destruct (dec_digit b); simpl; [|done]. repeat case_bool_decide; simpl; auto.
Qed.

Lemma parse_digits_width lo hi w v :
  lo ≤ 0 → 0 ≤ v < 10 ^ Z.of_nat w → 10 ^ Z.of_nat w - 1 ≤ hi →
  parse_digits lo hi false 0 (dec_width w v) = Some v.
Proof.
  intros Hlo. revert v. induction w as [|w IH]; intros v Hv Hhi.
  - simpl in *. f_equal. lia.
  - rewrite Nat2Z.inj_succ, Z.pow_succ_r in * by lia. cbn [dec_width].
    pose proof (Z.div_mod v 10 ltac:(lia)) as Hd. pose proof (Z.mod_pos_bound v 10 ltac:(lia)).
    rewrite parse_digits_app, IH by lia. cbn [mbind option_bind parse_digits].
    rewrite dec_digit_char. cbn [mbind option_bind].
    rewrite !bool_decide_true by lia. f_equal. lia.
Qed.

Lemma parse_digits_abs lo hi neg acc l v :
  parse_digits lo hi neg acc l = Some v →
  Z.abs v ≤ (Z.abs acc + 1) * 10 ^ Z.of_nat (length l) - 1.
Proof.
  revert acc. induction l as [|b l IH]; intros acc; cbn [parse_digits length].
  - intros [= ->]. rewrite Z.mul_1_r. lia.
  - intros (d & Hd & Hv)%bind_Some. apply dec_digit_range in Hd.
    repeat case_bool_decide; try done. apply IH in Hv.
    rewrite Nat2Z.inj_succ, Z.pow_succ_r by lia.
    assert (0 < 10 ^ Z.of_nat (length l)) by (apply Z.pow_pos_nonneg; lia).
    etransitivity; [exact Hv|]. destruct neg; nia.
Qed.

(** A field of [n] bytes parses to fewer than [n] nines and a sign. *)
Lemma parse_int_abs lo hi l v :
  parse_int lo hi l = Some v → Z.abs v ≤ 10 ^ Z.of_nat (length l) - 1.
Proof.
  assert (∀ neg k, parse_digits lo hi neg 0 k = Some v → (length k ≤ length l)%nat →
            Z.abs v ≤ 10 ^ Z.of_nat (length l) - 1) as Hk.
  { intros neg k Hp Hlen. apply parse_digits_abs in Hp.
    assert (10 ^ Z.of_nat (length k) ≤ 10 ^ Z.of_nat (length l)) by (apply Z.pow_le_mono_r; lia).
    lia. }
  unfold parse_int. intros Hp.
  repeat case_match; simplify_eq; (eapply Hk; [exact Hp|simpl; lia]).
Qed.

Lemma parse_i64_width w v :
  (1 ≤ w ≤ 18)%nat → 0 ≤ v < 10 ^ Z.of_nat w → parse_i64 (dec_width w v) = Some v.
Proof.
  intros Hw Hv. unfold parse_i64.
  assert (10 ^ Z.of_nat w ≤ 10 ^ 18) by (apply Z.pow_le_mono_r; lia).
  rewrite <- (parse_digits_width i64_MIN i64_MAX w v); unfold i64_MIN, i64_MAX; [|lia..].
  assert (∃ b r, dec_width w v = b :: r ∧ is_Some (dec_digit b)) as (b & r & -> & Hb).
  { destruct w as [|w]; [lia|]. clear Hv H Hw. revert v. induction w as [|w IH]; intros v.
    - eexists _, _. split; [done|]. rewrite dec_digit_char. eauto.
    - destruct (IH (v / 10)) as (b & r & Heq & Hb). exists b, (r ++ [dec_char v]).
      split; [|done]. change (dec_width (S (S w)) v) with (dec_width (S w) (v / 10) ++ [dec_char v]).
      by rewrite Heq. }
  unfold parse_int. destruct b; try done; by destruct Hb.
Qed.
