(* ===== verification/NetAddr.v ===== *)
(** QuietHop: internet addresses.

    [std::net::IpAddr] and [SocketAddr] as the crates use them: the octets of
    an address, the IPv4-mapped form, [to_canonical], and the literal parser
    behind [str::parse::<IpAddr>()] (which never resolves a name), followed by
    [canonical_ip] and [canonical_addr] of [quiethop-crypto/src/registry.rs]. *)

From S2P Require Import Prelude Bytes.

Local Open Scope Z_scope.

(** ** Addresses *)

Inductive Ipv4Addr := Ipv4 (a b c d : byte).

(** The sixteen octets of an IPv6 address. *)
Record Ipv6Addr := Ipv6 { v6_octets : list byte }.

Inductive IpAddr :=
  | V4 (a : Ipv4Addr)
  | V6 (a : Ipv6Addr).

(** [SocketAddr::new(ip, port)]. *)
Record SocketAddr := mkSocketAddr { sa_ip : IpAddr; sa_port : Z }.

#[export] Instance Ipv4Addr_eq_dec : EqDecision Ipv4Addr.
Proof. solve_decision. Defined.
#[export] Instance Ipv6Addr_eq_dec : EqDecision Ipv6Addr.
Proof. solve_decision. Defined.
#[export] Instance IpAddr_eq_dec : EqDecision IpAddr.
Proof. solve_decision. Defined.
#[export] Instance SocketAddr_eq_dec : EqDecision SocketAddr.
Proof. solve_decision. Defined.

Definition ip_wf (ip : IpAddr) : Prop :=
  match ip with V4 _ => True | V6 a => length (v6_octets a) = 16%nat end.

Definition sockaddr_wf (a : SocketAddr) : Prop := ip_wf (sa_ip a) ∧ u16_in_range (sa_port a).

(** [Ipv4Addr::octets]. *)
Definition v4_octets (a : Ipv4Addr) : list byte := let 'Ipv4 a b c d := a in [a; b; c; d].

(** The first twelve octets of an IPv4-mapped address, [::ffff:0:0/96]. *)
Definition mapped_prefix : list byte := replicate 10 x00 ++ [xff; xff].

(** [Ipv4Addr::to_ipv6_mapped]. *)
Definition to_ipv6_mapped (a : Ipv4Addr) : Ipv6Addr := Ipv6 (mapped_prefix ++ v4_octets a).

(** [Ipv6Addr::to_ipv4_mapped]. *)
Definition to_ipv4_mapped (a : Ipv6Addr) : option Ipv4Addr :=
  if bool_decide (take 12 (v6_octets a) = mapped_prefix) then
    match drop 12 (v6_octets a) with
    | [a; b; c; d] => Some (Ipv4 a b c d)
    | _ => None
    end
  else None.

(** [IpAddr::to_canonical]. *)
Definition to_canonical (ip : IpAddr) : IpAddr :=
  match ip with
  | V4 a => V4 a
  | V6 a => match to_ipv4_mapped a with Some v4 => V4 v4 | None => V6 a end
  end.

(** [canonical_ip] of [registry.rs]. *)
Definition canonical_ip (ip : IpAddr) : IpAddr := to_canonical ip.

(** [canonical_addr] of [registry.rs]. *)
Definition canonical_addr (addr : SocketAddr) : SocketAddr :=
  mkSocketAddr (canonical_ip (sa_ip addr)) (sa_port addr).

(** ** The literal parser of [core::net]

    A parser takes the remaining bytes and returns the value read with the
    bytes after it; a failing parser consumes nothing ([read_atomically]). *)

Definition parser (A : Type) := list byte → option (A * list byte).

Definition to_digit10 (b : byte) : option Z :=
  let c := u8 b in if (48 <=? c) && (c <=? 57) then Some (c - 48) else None.

(** The digit loop of [read_number] with a digit limit: fails on the digit
    after the last permitted one. *)
Fixpoint read_digits (digit : byte → option Z) (radix : Z) (max cnt : nat) (acc : Z)
    (l : list byte) : option (nat * Z * list byte) :=
  match l with
  | b :: l' =>
      match digit b with
      | Some d =>
          if (max <? S cnt)%nat then None
          else read_digits digit radix max (S cnt) (acc * radix + d) l'
      | None => Some (cnt, acc, l)
      end
  | [] => Some (cnt, acc, [])
  end.

(** [read_number(radix, Some(max), allow_zero_prefix)] into a type whose
    greatest value is [bound]. *)
Definition read_number (digit : byte → option Z) (radix : Z) (max : nat)
    (allow_zero_prefix : bool) (bound : Z) : parser Z := λ l,
  let has_leading_zero := bool_decide (head l = Some x30) in
  match read_digits digit radix max 0 0 l with
  | Some (cnt, v, rest) =>
      if (cnt =? 0)%nat then None
      else if negb allow_zero_prefix && has_leading_zero && (1 <? cnt)%nat then None
      else if v <=? bound then Some (v, rest) else None
  | None => None
  end.

(** [read_given_char]. *)
Definition read_given_char (c : byte) : parser unit := λ l,
  match l with b :: rest => if bool_decide (b = c) then Some (tt, rest) else None | [] => None end.

(** [read_separator(sep, index, inner)]. *)
Definition read_separator {A} (sep : byte) (i : nat) (inner : parser A) : parser A := λ l,
  match i with
  | O => inner l
  | S _ => '(_, l) ← read_given_char sep l; inner l
  end.

(** [read_ipv4_addr]: four groups of at most three digits, no octal form. *)
Definition read_ipv4_addr : parser Ipv4Addr := λ l,
  let group i := read_separator x2e i (read_number to_digit10 10 3 false 255) in
  '(a, l) ← group 0%nat l;
  '(b, l) ← group 1%nat l;
  '(c, l) ← group 2%nat l;
  '(d, l) ← group 3%nat l;
  Some (Ipv4 (as_u8 a) (as_u8 b) (as_u8 c) (as_u8 d), l).

(** [read_groups]: up to [todo] sixteen-bit groups from index [i] on, with a
    trailing dotted IPv4 address allowed while two groups are left.  Returns
    the groups, whether an IPv4 address ended them, and the rest. *)
Fixpoint read_groups (todo i : nat) (l : list byte) : list Z * bool * list byte :=
  match todo with
  | O => ([], false, l)
  | S todo' =>
      match (if (2 <=? todo)%nat then read_separator x3a i read_ipv4_addr l else None) with
      | Some (Ipv4 a b c d, l') => ([u16_from_be_bytes a b; u16_from_be_bytes c d], true, l')
      | None =>
          match read_separator x3a i (read_number to_digit16 16 4 true 65535) l with
          | Some (g, l') =>
              let '(gs, v4, rest) := read_groups todo' (S i) l' in (g :: gs, v4, rest)
          | None => ([], false, l)
          end
      end
  end.

Definition v6_of_groups (gs : list Z) : Ipv6Addr := Ipv6 (flat_map u16_to_be_bytes gs).

(** [read_ipv6_addr]. *)
Definition read_ipv6_addr : parser Ipv6Addr := λ l,
  let '(head, head_ipv4, l) := read_groups 8 0 l in
  if (length head =? 8)%nat then Some (v6_of_groups head, l)
  else if (head_ipv4 : bool) then None
  else
    '(_, l) ← read_given_char x3a l;
    '(_, l) ← read_given_char x3a l;
    let limit := (8 - (length head + 1))%nat in
    let '(tail, _, l) := read_groups limit 0 l in
    Some (v6_of_groups (head ++ replicate (8 - length head - length tail) 0 ++ tail), l).

(** [read_ip_addr]. *)
Definition read_ip_addr : parser IpAddr := λ l,
  match read_ipv4_addr l with
  | Some (a, l) => Some (V4 a, l)
  | None => '(a, l) ← read_ipv6_addr l; Some (V6 a, l)
  end.

(** [s.parse::<IpAddr>()]: the parser must consume the whole string. *)
Definition parse_ip (s : string) : option IpAddr :=
  match read_ip_addr (as_bytes s) with
  | Some (ip, []) => Some ip
  | _ => None
  end.

(** The decimal digits of a byte, as [{}] prints a [u8]. *)
Definition dec_u8 (b : byte) : list byte :=
  let v := u8 b in
  if v <? 10 then [as_u8 (48 + v)]
  else if v <? 100 then [as_u8 (48 + v / 10); as_u8 (48 + v mod 10)]
  else [as_u8 (48 + v / 100); as_u8 (48 + v / 10 mod 10); as_u8 (48 + v mod 10)].

(** [a.b.c.d], the [Display] of [Ipv4Addr]. *)
Definition show_ipv4 (a : Ipv4Addr) : list byte :=
  let 'Ipv4 a b c d := a in
  dec_u8 a ++ x2e :: dec_u8 b ++ x2e :: dec_u8 c ++ x2e :: dec_u8 d.

(** ** Canonical form *)

Lemma length_mapped_prefix : length mapped_prefix = 12%nat.
Proof. done. Qed.

Lemma to_ipv4_mapped_to_ipv6_mapped a : to_ipv4_mapped (to_ipv6_mapped a) = Some a.
Proof. by destruct a. Qed.

Lemma to_ipv4_mapped_Some a v4 : to_ipv4_mapped a = Some v4 → a = to_ipv6_mapped v4.
Proof.
  unfold to_ipv4_mapped, to_ipv6_mapped. destruct a as [l]; simpl. intros H.
  case_bool_decide as Hp; [|done].
  destruct (drop 12 l) as [|a [|b [|c [|d [|]]]]] eqn:Hd; simplify_eq.
  rewrite <- (take_drop 12 l) at 1. by rewrite Hp, Hd.
Qed.

Lemma canonical_ip_idemp ip : canonical_ip (canonical_ip ip) = canonical_ip ip.
Proof.
  unfold canonical_ip. destruct ip as [a|a]; simpl; [done|].
  destruct (to_ipv4_mapped a) eqn:Ha; simpl; [done|]. by rewrite Ha.
Qed.

Lemma canonical_ip_mapped a : canonical_ip (V6 (to_ipv6_mapped a)) = V4 a.
Proof. unfold canonical_ip, to_canonical. by rewrite to_ipv4_mapped_to_ipv6_mapped. Qed.

Lemma canonical_ip_wf ip : ip_wf ip → ip_wf (canonical_ip ip).
Proof. destruct ip as [|a]; simpl; [done|]. by destruct (to_ipv4_mapped a). Qed.

(** Two spellings are identified exactly when they name the same host. *)
Lemma canonical_ip_eq ip1 ip2 :
  canonical_ip ip1 = canonical_ip ip2 ↔
  ip1 = ip2 ∨ (∃ a, (ip1 = V4 a ∧ ip2 = V6 (to_ipv6_mapped a)) ∨
                    (ip1 = V6 (to_ipv6_mapped a) ∧ ip2 = V4 a)).
Proof.
  split.
  - unfold canonical_ip. destruct ip1 as [a1|a1], ip2 as [a2|a2]; simpl; intros H.
    + by left.
    + destruct (to_ipv4_mapped a2) eqn:H2; simplify_eq. apply to_ipv4_mapped_Some in H2 as ->. eauto.
    + destruct (to_ipv4_mapped a1) eqn:H1; simplify_eq. apply to_ipv4_mapped_Some in H1 as ->. eauto.
    + destruct (to_ipv4_mapped a1) eqn:H1, (to_ipv4_mapped a2) eqn:H2; simplify_eq; [|by left].
      apply to_ipv4_mapped_Some in H1 as ->. apply to_ipv4_mapped_Some in H2 as ->. by left.
  - intros [->|(a & [[-> ->]|[-> ->]])]; rewrite ?canonical_ip_mapped; done.
Qed.

(** ** The parser *)

(** [rest] does not go on with a decimal digit. *)
Definition no_digit (rest : list byte) : Prop :=
  match rest with [] => True | b :: _ => to_digit10 b = None end.

Lemma read_digits_app digit radix max cnt acc l cnt' acc' rest :
  read_digits digit radix max cnt acc l = Some (cnt', acc', []) →
  match rest with [] => True | b :: _ => digit b = None end →
  read_digits digit radix max cnt acc (l ++ rest) = Some (cnt', acc', rest).
Proof.
  intros Hl Hrest. revert cnt acc Hl.
  induction l as [|b l IH]; intros cnt acc Hl; simpl in *.
  - simplify_eq. destruct rest as [|b rest]; simpl; [done|]. by rewrite Hrest.
  - destruct (digit b); [|done]. destruct (_ <? _)%nat; [done|]. by apply IH.
Qed.

Lemma read_given_char_eq c l : read_given_char c (c :: l) = Some (tt, l).
Proof. unfold read_given_char. by rewrite bool_decide_true. Qed.

Lemma read_number_dec_u8 b rest :
  no_digit rest → read_number to_digit10 10 3 false 255 (dec_u8 b ++ rest) = Some (u8 b, rest).
Proof.
  intros Hrest. unfold read_number.
  assert (read_digits to_digit10 10 3 0 0 (dec_u8 b) = Some (length (dec_u8 b), u8 b, []))
    as Hd by all_bytes b.
  rewrite (read_digits_app _ _ _ _ _ _ _ _ _ Hd Hrest).
  assert (head (dec_u8 b ++ rest) = head (dec_u8 b)) as -> by (by destruct b).
  clear Hrest Hd. by destruct b.
Qed.

Lemma read_ipv4_addr_show a rest :
  no_digit rest → read_ipv4_addr (show_ipv4 a ++ rest) = Some (a, rest).
Proof.
  intros Hrest. destruct a as [a b c d]. unfold read_ipv4_addr, show_ipv4, read_separator.
  rewrite <- !app_assoc. cbn [app]. rewrite <- !app_assoc. cbn [app]. rewrite <- !app_assoc. cbn [app].
  rewrite read_number_dec_u8 by done. simpl.
  rewrite read_number_dec_u8 by done. simpl.
  rewrite read_number_dec_u8 by done. simpl.
  rewrite read_number_dec_u8 by done. simpl.
  by rewrite !as_u8_u8.
Qed.

Lemma parse_ip_show_ipv4 a : parse_ip (of_bytes (show_ipv4 a)) = Some (V4 a).
Proof.
  unfold parse_ip, read_ip_addr. rewrite as_bytes_of_bytes.
  rewrite <- (app_nil_r (show_ipv4 a)). by rewrite read_ipv4_addr_show.
Qed.

(** A mapped literal, [::ffff:a.b.c.d], is read as the mapped address. *)
Definition show_mapped (a : Ipv4Addr) : list byte := as_bytes "::ffff:" ++ show_ipv4 a.

Lemma parse_ip_show_mapped a : parse_ip (of_bytes (show_mapped a)) = Some (V6 (to_ipv6_mapped a)).
Proof.
  unfold parse_ip, read_ip_addr, show_mapped. rewrite as_bytes_of_bytes.
  change (as_bytes "::ffff:") with [x3a; x3a; x66; x66; x66; x66; x3a]. cbn [app].
  assert (read_ipv4_addr (x3a :: x3a :: x66 :: x66 :: x66 :: x66 :: x3a :: show_ipv4 a) = None)
    as -> by done.
  unfold read_ipv6_addr.
  assert (∀ t, read_groups 8 0 (x3a :: x3a :: t) = ([], false, x3a :: x3a :: t)) as -> by done.
  cbn [length Nat.eqb app Nat.sub Nat.add]. rewrite read_given_char_eq. cbn [mbind option_bind].
  rewrite read_given_char_eq. cbn [mbind option_bind].
  assert (read_groups 7 0 (x66 :: x66 :: x66 :: x66 :: x3a :: show_ipv4 a) =
    ([65535; match a with Ipv4 a b _ _ => u16_from_be_bytes a b end;
             match a with Ipv4 _ _ c d => u16_from_be_bytes c d end], true, [])) as ->.
  { cbn [read_groups Nat.leb]. unfold read_separator at 1.
    assert (∀ t, read_ipv4_addr (x66 :: t) = None) as -> by done.
    unfold read_separator at 1.
    assert (∀ t, read_number to_digit16 16 4 true 65535 (x66 :: x66 :: x66 :: x66 :: x3a :: t)
                 = Some (65535, x3a :: t)) as -> by done.
    unfold read_separator at 1. rewrite read_given_char_eq. cbn [mbind option_bind]. rewrite <- (app_nil_r (show_ipv4 a)).
    rewrite read_ipv4_addr_show by done. by destruct a. }
  destruct a as [a b c d]. cbn [length Nat.sub Nat.add app replicate v6_of_groups flat_map].
  unfold v6_of_groups. cbn [flat_map]. rewrite !u16_to_from_be_bytes. done.
Qed.

(** Both spellings of an IPv4 host reach every comparison as one value. *)
Lemma canonical_spellings a :
  canonical_ip <$> parse_ip (of_bytes (show_mapped a)) =
  canonical_ip <$> parse_ip (of_bytes (show_ipv4 a)).
Proof.
  rewrite parse_ip_show_mapped, parse_ip_show_ipv4. cbn [fmap option_fmap option_map].
  by rewrite canonical_ip_mapped.
Qed.

(** What the parser returns is a well-formed address. *)
Lemma length_v6_of_groups gs : length (v6_octets (v6_of_groups gs)) = (2 * length gs)%nat.
Proof. simpl. induction gs; simpl in *; lia. Qed.

Lemma read_groups_length todo i l gs v4 rest :
  read_groups todo i l = (gs, v4, rest) → (length gs ≤ todo)%nat.
Proof.
  revert i l gs v4 rest. induction todo as [|todo IH]; intros i l gs v4 rest.
  - simpl. intros. simplify_eq/=. lia.
  - cbn [read_groups]. intros H. destruct (Nat.leb_spec 2 (S todo)) as [Hle|].
    + destruct (read_separator _ _ read_ipv4_addr _) as [[[????]?]|]; [simplify_eq/=; lia|].
      destruct (read_separator _ _ _ _) as [[g l']|]; [|simplify_eq/=; lia].
      destruct (read_groups todo _ _) as [[gs' v'] r'] eqn:Hg. apply IH in Hg. simplify_eq/=. lia.
    + destruct (read_separator _ _ _ _) as [[g l']|]; [|simplify_eq/=; lia].
      destruct (read_groups todo _ _) as [[gs' v'] r'] eqn:Hg. apply IH in Hg. simplify_eq/=. lia.
Qed.

Lemma read_ipv6_addr_wf l a rest : read_ipv6_addr l = Some (a, rest) → ip_wf (V6 a).
Proof.
  unfold read_ipv6_addr, ip_wf. destruct (read_groups 8 0 l) as [[hd hv4] l1] eqn:Hhd.
  apply read_groups_length in Hhd.
  destruct (Nat.eqb_spec (length hd) 8) as [H8|].
  { intros. simplify_eq. rewrite length_v6_of_groups. lia. }
  destruct hv4; [done|]. intros H. repeat (case_match; simplify_eq/=).
  apply bind_Some in H as ([? l2] & _ & H). apply bind_Some in H as ([? l3] & _ & H).
  destruct (read_groups _ 0 l3) as [[tl v] l4] eqn:Htl. apply read_groups_length in Htl.
  simplify_eq. rewrite length_v6_of_groups, !length_app, length_replicate. lia.
Qed.

Lemma parse_ip_wf s ip : parse_ip s = Some ip → ip_wf ip.
Proof.
  unfold parse_ip, read_ip_addr. intros H. destruct (read_ipv4_addr _) as [[a r]|].
  - case_all. done.
  - destruct (read_ipv6_addr (as_bytes s)) as [[a r]|] eqn:H6; simplify_eq/=.
    apply read_ipv6_addr_wf in H6. destruct r; by simplify_eq.
Qed.
