(* ===== verification/Ipv6.v ===== *)
(** QuietHop: the text form of an IPv6 address.

    [Display] of [std::net::Ipv6Addr], which the SOCKS5 server uses to turn a
    binary address into the host of a CONNECT, and the proof that the literal
    parser of [NetAddr] reads every address back from it. *)

From S2P Require Import Prelude Bytes Text NetAddr.

#[local] Open Scope Z_scope.

(** ** [Display] *)

(** [Ipv6Addr::segments]. *)
Fixpoint segments_of (l : list byte) : list Z :=
  match l with
  | a :: b :: l => u16_from_be_bytes a b :: segments_of l
  | _ => []
  end.
Definition segments (a : Ipv6Addr) : list Z := segments_of (v6_octets a).

(** [{:x}] of a [u16]: lower case, no leading zeros. *)
Definition hex_u16 (g : Z) : list byte :=
  if g <? 16 then [nibble g]
  else if g <? 256 then [nibble (g / 16); nibble (g mod 16)]
  else if g <? 4096 then [nibble (g / 256); nibble (g / 16 mod 16); nibble (g mod 16)]
  else [nibble (g / 4096); nibble (g / 256 mod 16); nibble (g / 16 mod 16); nibble (g mod 16)].

(** A run of zero segments. *)
Record span := mkSpan { sp_start : nat; sp_len : nat }.

(** One turn of the search for the longest run, at index [i]. *)
Definition span_step (st : nat * span * span) (g : Z) : nat * span * span :=
  let '(i, longest, current) := st in
  if g =? 0 then
    let current := mkSpan (if (sp_len current =? 0)%nat then i else sp_start current) (S (sp_len current)) in
    (S i, if (sp_len longest <? sp_len current)%nat then current else longest, current)
  else (S i, longest, mkSpan 0 0).

Definition zero_span (gs : list Z) : span :=
  let '(_, longest, _) := fold_left span_step gs (0%nat, mkSpan 0 0, mkSpan 0 0) in longest.

(** [fmt_subslice]. *)
Definition colon_groups (gs : list Z) : list byte := flat_map (λ g, x3a :: hex_u16 g) gs.
Definition fmt_subslice (gs : list Z) : list byte :=
  match gs with [] => [] | g :: gs => hex_u16 g ++ colon_groups gs end.

Definition show_ipv6 (a : Ipv6Addr) : list byte :=
  match to_ipv4_mapped a with
  | Some v4 => show_mapped v4
  | None =>
      let gs := segments a in
      let z := zero_span gs in
      if (1 <? sp_len z)%nat
      then fmt_subslice (take (sp_start z) gs) ++ [x3a; x3a] ++ fmt_subslice (drop (sp_start z + sp_len z) gs)
      else fmt_subslice gs
  end.

(** [IpAddr]'s [Display]. *)
Definition show_ip (ip : IpAddr) : string :=
  of_bytes (match ip with V4 a => show_ipv4 a | V6 a => show_ipv6 a end).

(** ** Segments *)

Lemma segments_of_spec l :
  Nat.even (length l) = true →
  flat_map u16_to_be_bytes (segments_of l) = l ∧ (2 * length (segments_of l) = length l)%nat ∧
  Forall u16_in_range (segments_of l).
Proof.
  remember (length l) as n eqn:Hn. revert l Hn. induction n as [n IH] using lt_wf_ind. intros l -> He.
  destruct l as [|a [|b l]]; [by repeat constructor|done|].
  destruct (IH (length l) ltac:(simpl; lia) l eq_refl He) as (Hf & Hl & Hr).
  cbn [segments_of flat_map length]. rewrite u16_to_from_be_bytes, Hf. split; [done|]. split; [lia|]. constructor; [|done]. apply u16_from_be_bytes_range.
Qed.

Lemma v6_of_groups_segments a : length (v6_octets a) = 16%nat → v6_of_groups (segments a) = a.
Proof.
  intros Ha. destruct a as [l]. simpl in Ha. unfold v6_of_groups, segments. simpl.
  destruct (segments_of_spec l) as (-> & _); [by rewrite Ha|done].
Qed.

(** ** The longest run *)

(** [z] is a run of zeros within the first [i] segments. *)
Definition zero_run (gs : list Z) (z : span) : Prop :=
  (sp_start z + sp_len z ≤ length gs)%nat ∧ ∀ j, (sp_start z ≤ j < sp_start z + sp_len z)%nat → gs !! j = Some 0.

Lemma zero_run_app gs hs z : zero_run gs z → zero_run (gs ++ hs) z.
Proof.
  intros [Hl Hz]. split; [rewrite length_app; lia|]. intros j Hj. by apply lookup_app_l_Some, Hz.
Qed.

Lemma span_steps_run gs pre longest current :
  zero_run pre longest → zero_run pre current →
  (sp_len current ≠ 0%nat → (sp_start current + sp_len current = length pre)%nat) →
  zero_run (pre ++ gs) (snd (fst (fold_left span_step gs (length pre, longest, current)))).
Proof.
  revert pre longest current. induction gs as [|g gs IH]; intros pre longest current Hl Hc Hend; simpl.
  { by rewrite app_nil_r. }
  replace (pre ++ g :: gs) with ((pre ++ [g]) ++ gs) by (by rewrite <- app_assoc).
  replace (S (length pre)) with (length (pre ++ [g])) by (rewrite length_app; simpl; lia).
  destruct (Z.eqb_spec g 0) as [->|Hg]; cbn zeta.
  - set (cur := mkSpan _ _).
    assert (zero_run (pre ++ [0]) cur ∧ (sp_start cur + sp_len cur = length (pre ++ [0%Z]))%nat) as [Hcur He].
    { subst cur. rewrite length_app. simpl.
      destruct (Nat.eqb_spec (sp_len current) 0) as [Hz|Hz].
      - rewrite Hz. split; [|lia]. split; simpl; [rewrite length_app; simpl; lia|].
        intros j Hj. assert (j = length pre) as -> by lia. by rewrite list_lookup_middle.
      - specialize (Hend Hz). split; [|lia]. split; simpl; [rewrite length_app; simpl; lia|].
        intros j Hj. destruct (decide (j = length pre)) as [->|]; [by rewrite list_lookup_middle|].
        apply lookup_app_l_Some, Hc. lia. }
    apply IH; [destruct (_ <? _)%nat; [done|by apply zero_run_app]|done|auto].
  - apply IH; [by apply zero_run_app| |done]. split; simpl; [lia|intros; lia].
Qed.

Lemma zero_span_run gs : zero_run gs (zero_span gs).
Proof.
  assert (zero_run [] (mkSpan 0 0)) as H0 by (split; simpl; [lia|intros; lia]).
  pose proof (span_steps_run gs [] _ _ H0 H0 ltac:(done)) as Hs. unfold zero_span. simpl in Hs.
  by destruct (fold_left span_step gs _) as [[? ?] ?].
Qed.

(** The segments are the ones before the run, zeros, and the ones after it. *)
Lemma zero_run_split gs z :
  zero_run gs z → take (sp_start z) gs ++ replicate (sp_len z) 0 ++ drop (sp_start z + sp_len z) gs = gs.
Proof.
  intros [Hl Hz]. rewrite <- (take_drop (sp_start z) gs) at 3. f_equal.
  etransitivity; [|apply (take_drop (sp_len z))]. rewrite drop_drop. f_equal.
  apply list_eq. intros j. destruct (decide (j < sp_len z)%nat) as [Hj|Hj].
  - rewrite lookup_replicate_2, lookup_take_lt, lookup_drop by done. symmetry. apply Hz. lia.
  - rewrite !lookup_ge_None_2; [done|rewrite length_take; lia|rewrite length_replicate; lia].
Qed.

(** ** Reading a text without a dot *)

Definition no_dot (l : list byte) : Prop := x2e ∉ l.

Lemma read_digits_suffix digit radix max cnt acc l cnt' acc' rest :
  read_digits digit radix max cnt acc l = Some (cnt', acc', rest) → rest `suffix_of` l.
Proof.
  revert cnt acc. induction l as [|b l IH]; intros cnt acc; simpl; [by intros [= <- <- <-]|].
  destruct (digit b); [|by intros [= <- <- <-]]. case_match; [done|]. intros ?%IH. by apply suffix_cons_r.
Qed.

Lemma read_ipv4_addr_no_dot l : no_dot l → read_ipv4_addr l = None.
Proof.
  intros Hl. unfold read_ipv4_addr. cbn [read_separator].
  destruct (read_number to_digit10 10 3 false 255 l) as [[v rest]|] eqn:Hn; [|done]. cbn [mbind option_bind].
  assert (rest `suffix_of` l) as Hs.
  { unfold read_number in Hn. destruct (read_digits _ _ _ _ _ _) as [[[cnt v'] rest']|] eqn:Hd; [|done].
    apply read_digits_suffix in Hd. by repeat (case_match; simplify_eq). }
  destruct Hs as [k ->]. unfold read_given_char. destruct rest as [|b rest]; [done|].
  rewrite bool_decide_false; [done|]. intros ->. apply Hl. set_solver.
Qed.

Lemma nibble_digit v : 0 ≤ v < 16 → to_digit16 (nibble v) = Some v ∧ nibble v ≠ x2e.
Proof.
  intros Hv. assert (v = 0 ∨ v = 1 ∨ v = 2 ∨ v = 3 ∨ v = 4 ∨ v = 5 ∨ v = 6 ∨ v = 7 ∨ v = 8 ∨ v = 9 ∨ v = 10 ∨ v = 11 ∨
    v = 12 ∨ v = 13 ∨ v = 14 ∨ v = 15) as Hc by lia.
  destruct_or! Hc; subst v; vm_compute; split; congruence.
Qed.

(** What may follow a group: nothing, or a colon. *)
Definition group_end (rest : list byte) : Prop := match rest with [] => True | b :: _ => b = x3a end.

Lemma read_number_hex_u16 g rest :
  u16_in_range g → group_end rest →
  read_number to_digit16 16 4 true 65535 (hex_u16 g ++ rest) = Some (g, rest).
Proof.
  intros Hg Hr. unfold u16_in_range in Hg. unfold read_number.
  assert (∃ n, (0 < n)%nat ∧ read_digits to_digit16 16 4 0 0 (hex_u16 g) = Some (n, g, [])) as (n & Hn & Hd).
  { unfold hex_u16. pose proof (Z.div_mod g 16). pose proof (Z.mod_pos_bound g 16).
    pose proof (Z.div_mod (g / 16) 16). pose proof (Z.mod_pos_bound (g / 16) 16).
    pose proof (Z.div_mod (g / 256) 16). pose proof (Z.mod_pos_bound (g / 256) 16).
    assert (g / 256 = g / 16 / 16) as E2 by (by rewrite Z.div_div by lia).
    assert (g / 4096 = g / 256 / 16) as E3 by (by rewrite Z.div_div by lia).
    repeat match goal with |- context [?a <? ?b] => destruct (Z.ltb_spec a b) end; cbn [read_digits Nat.ltb Nat.leb];
      rewrite !(fun v H => proj1 (nibble_digit v H)) by lia; cbn [read_digits Nat.ltb Nat.leb];
      rewrite ?(fun v H => proj1 (nibble_digit v H)) by lia; cbn [read_digits Nat.ltb Nat.leb];
      rewrite ?(fun v H => proj1 (nibble_digit v H)) by lia; cbn [read_digits Nat.ltb Nat.leb];
      rewrite ?(fun v H => proj1 (nibble_digit v H)) by lia; cbn [read_digits Nat.ltb Nat.leb];
      eexists; (split; [|repeat f_equal; lia]); lia. }
  rewrite (read_digits_app _ _ _ _ _ _ _ _ rest Hd) by (destruct rest; [done|]; simpl in Hr; by subst).
  rewrite (proj2 (Nat.eqb_neq _ _)), (proj2 (Z.leb_le _ _)) by lia. done.
Qed.

Lemma hex_u16_no_dot g : u16_in_range g → no_dot (hex_u16 g).
Proof.
  unfold u16_in_range, hex_u16, no_dot. intros Hg.
  pose proof (Z.mod_pos_bound g 16). pose proof (Z.mod_pos_bound (g / 16) 16). pose proof (Z.mod_pos_bound (g / 256) 16).
  repeat match goal with |- context [?a <? ?b] => destruct (Z.ltb_spec a b) end;
    rewrite ?not_elem_of_cons; split_and!; try (apply not_elem_of_nil);
    apply not_eq_sym, nibble_digit; try lia; split; (apply Z.div_pos || apply Z.div_lt_upper_bound); lia.
Qed.

(** ** Reading groups *)

(** What may follow a list of groups: nothing, or the double colon before a
    text without a dot. *)
Definition groups_end (rest : list byte) : Prop := rest = [] ∨ ∃ t, rest = x3a :: x3a :: t.

Lemma colon_groups_no_dot gs : Forall u16_in_range gs → no_dot (colon_groups gs).
Proof.
  unfold no_dot. induction 1 as [|g gs Hg _ IH]; simpl; [apply not_elem_of_nil|].
  apply hex_u16_no_dot in Hg. unfold no_dot in Hg. rewrite not_elem_of_cons, elem_of_app. naive_solver.
Qed.

Lemma fmt_subslice_no_dot gs : Forall u16_in_range gs → no_dot (fmt_subslice gs).
Proof.
  destruct 1 as [|g gs Hg Hgs]; simpl; [apply not_elem_of_nil|].
  apply hex_u16_no_dot in Hg. apply colon_groups_no_dot in Hgs. unfold no_dot in *. rewrite elem_of_app. tauto.
Qed.

Lemma no_dot_app l k : no_dot l → no_dot k → no_dot (l ++ k).
Proof. unfold no_dot. rewrite elem_of_app. tauto. Qed.

Lemma group_end_groups gs rest : groups_end rest → group_end (colon_groups gs ++ rest).
Proof. destruct gs; simpl; [|done]. by intros [->|[t ->]]. Qed.

(** The reader stops at the end of the groups. *)
Lemma read_groups_stop todo i rest : groups_end rest → no_dot rest → read_groups todo i rest = ([], false, rest).
Proof.
  intros Hr Hd. destruct todo as [|todo]; [done|]. cbn [read_groups].
  assert (∀ A (inner : parser A), inner [] = None → (∀ t, x3a :: t `suffix_of` rest → inner (x3a :: t) = None) →
    read_separator x3a i inner rest = None) as Hsep.
  { intros A inner Hnil Hcons. destruct Hr as [->|[t ->]]; destruct i as [|i]; cbn [read_separator]; try done.
    - by apply Hcons.
    - rewrite read_given_char_eq. cbn [mbind option_bind]. apply Hcons. by exists [x3a]. }
  rewrite !Hsep; [by destruct (_ <=? _)%nat|done|done|done|].
  - intros t [k ->]. apply read_ipv4_addr_no_dot. unfold no_dot in *. set_solver.
Qed.

Lemma read_groups_colon gs todo i rest :
  Forall u16_in_range gs → (length gs ≤ todo)%nat → groups_end rest → no_dot rest →
  read_groups todo (S i) (colon_groups gs ++ rest) = (gs, false, rest).
Proof.
  intros Hgs. revert todo i. induction Hgs as [|g gs Hg Hgs IH]; intros todo i Hl Hr Hd; [by apply read_groups_stop|].
  destruct todo as [|todo]; [simpl in Hl; lia|]. cbn [read_groups colon_groups flat_map]. fold (colon_groups gs).
  rewrite <- app_assoc, <- app_comm_cons. unfold read_separator. rewrite !read_given_char_eq. cbn [mbind option_bind].
  rewrite read_ipv4_addr_no_dot by (auto using no_dot_app, hex_u16_no_dot, colon_groups_no_dot).
  rewrite read_number_hex_u16 by auto using group_end_groups.
  rewrite IH by (simpl in Hl; auto; lia). by destruct (_ <=? _)%nat.
Qed.

Lemma read_groups_fmt gs todo rest :
  Forall u16_in_range gs → (length gs ≤ todo)%nat → groups_end rest → no_dot rest →
  read_groups todo 0 (fmt_subslice gs ++ rest) = (gs, false, rest).
Proof.
  intros Hgs Hl Hr Hd. destruct Hgs as [|g gs Hg Hgs]; [by apply read_groups_stop|].
  destruct todo as [|todo]; [simpl in Hl; lia|]. cbn [read_groups fmt_subslice read_separator].
  rewrite <- app_assoc, read_ipv4_addr_no_dot by (auto using no_dot_app, hex_u16_no_dot, colon_groups_no_dot).
  rewrite read_number_hex_u16 by auto using group_end_groups.
  rewrite read_groups_colon by (simpl in Hl; auto; lia). by destruct (_ <=? _)%nat.
Qed.

Lemma read_ipv6_show a :
  length (v6_octets a) = 16%nat → to_ipv4_mapped a = None →
  no_dot (show_ipv6 a) ∧ read_ipv6_addr (show_ipv6 a) = Some (a, []).
Proof.
  intros Ha Hm. unfold show_ipv6. rewrite Hm. cbn zeta. pose proof (v6_of_groups_segments a Ha) as Hv.
  destruct (segments_of_spec (v6_octets a)) as (_ & Hl & Hgs); [by rewrite Ha|]. fold (segments a) in *.
  assert (length (segments a) = 8%nat) as Hlen by lia.
  destruct (zero_span_run (segments a)) as [Hz1 Hz2].
  pose proof (zero_run_split (segments a) (zero_span (segments a)) (conj Hz1 Hz2)) as Hsplit.
  set (z := zero_span (segments a)) in *. destruct (Nat.ltb_spec 1 (sp_len z)) as [Hlong|Hshort].
  - set (hd := take (sp_start z) (segments a)) in *. set (tl := drop (sp_start z + sp_len z) (segments a)) in *.
    assert (Forall u16_in_range hd ∧ Forall u16_in_range tl) as [Hhd Htl] by (split; [by apply Forall_take|by apply Forall_drop]).
    assert (length hd = sp_start z ∧ length tl = (8 - (sp_start z + sp_len z))%nat) as [Hlh Hlt]
      by (unfold hd, tl; rewrite length_take, length_drop; lia).
    assert (no_dot (fmt_subslice tl)) as Hdt by (by apply fmt_subslice_no_dot).
    assert (no_dot ([x3a; x3a] ++ fmt_subslice tl)) as Hdc.
    { apply no_dot_app; [|done]. unfold no_dot. rewrite !not_elem_of_cons. split_and!; try done. apply not_elem_of_nil. }
    split; [by apply no_dot_app; [apply fmt_subslice_no_dot|]|].
    unfold read_ipv6_addr. rewrite read_groups_fmt by (lia || auto; right; by eexists).
    rewrite (proj2 (Nat.eqb_neq _ _)) by lia. cbn [app]. rewrite !read_given_char_eq. cbn [mbind option_bind].
    rewrite read_given_char_eq. cbn [mbind option_bind].
    rewrite <- (app_nil_r (fmt_subslice tl)), read_groups_fmt; [|done|lia|by left|apply not_elem_of_nil].
    rewrite Hlh, Hlt. replace (8 - sp_start z - (8 - (sp_start z + sp_len z)))%nat with (sp_len z) by lia.
    by rewrite Hsplit, Hv.
  - split; [by apply fmt_subslice_no_dot|]. unfold read_ipv6_addr.
    rewrite <- (app_nil_r (fmt_subslice _)), read_groups_fmt; [|done|lia|by left|apply not_elem_of_nil].
    by rewrite Hlen, Nat.eqb_refl, Hv.
Qed.

(** Every address is read back from its text form. *)
Theorem show_ip_round_trip ip : ip_wf ip → parse_ip (show_ip ip) = Some ip.
Proof.
  intros Hw. unfold show_ip. destruct ip as [a|a]; [apply parse_ip_show_ipv4|].
  destruct (to_ipv4_mapped a) as [v4|] eqn:Hm.
  - unfold show_ipv6. rewrite Hm, parse_ip_show_mapped. by apply to_ipv4_mapped_Some in Hm as ->.
  - destruct (read_ipv6_show a Hw Hm) as [Hd Hr]. unfold parse_ip, read_ip_addr.
    by rewrite as_bytes_of_bytes, read_ipv4_addr_no_dot, Hr.
Qed.

Lemma show_ip_round_trip_witness :
  show_ip (V6 (v6_of_groups [8193; 3512; 0; 0; 1; 0; 0; 0])) = "2001:db8:0:0:1::" ∧
  parse_ip (show_ip (V6 (v6_of_groups [8193; 3512; 0; 0; 1; 0; 0; 0]))) =
    Some (V6 (v6_of_groups [8193; 3512; 0; 0; 1; 0; 0; 0])).
Proof. split; [vm_compute; reflexivity|]. apply show_ip_round_trip. vm_compute. reflexivity. Defined.

(** ** An address fits a CONNECT *)

Definition ascii (l : list byte) : Prop := Forall (λ b, u8 b < 128) l.

Lemma dec_u8_ascii b : ascii (dec_u8 b) ∧ (length (dec_u8 b) ≤ 3)%nat.
Proof.
  assert (forallb (λ c, u8 c <? 128) (dec_u8 b) = true) as Ha by all_bytes b.
  assert ((length (dec_u8 b) <=? 3)%nat = true) as Hl by all_bytes b. split; [|by apply Nat.leb_le].
  apply Forall_forall. intros c Hc. apply forallb_forall with (x := c) in Ha; [by apply Z.ltb_lt|by apply list_elem_of_In].
Qed.

Lemma show_ipv4_ascii a : ascii (show_ipv4 a) ∧ (length (show_ipv4 a) ≤ 15)%nat.
Proof.
  destruct a as [a b c d]. destruct (dec_u8_ascii a), (dec_u8_ascii b), (dec_u8_ascii c), (dec_u8_ascii d).
  unfold show_ipv4, ascii in *. split.
  - repeat first [apply Forall_app; split|apply Forall_cons; split]; try done.
  - rewrite !length_app; simpl; rewrite !length_app; simpl; rewrite !length_app; simpl. lia.
Qed.

Lemma nibble_ascii v : 0 ≤ v < 16 → u8 (nibble v) < 128.
Proof.
  intros Hv. assert (v = 0 ∨ v = 1 ∨ v = 2 ∨ v = 3 ∨ v = 4 ∨ v = 5 ∨ v = 6 ∨ v = 7 ∨ v = 8 ∨ v = 9 ∨ v = 10 ∨ v = 11 ∨
    v = 12 ∨ v = 13 ∨ v = 14 ∨ v = 15) as Hc by lia.
  destruct_or! Hc; subst v; vm_compute; congruence.
Qed.

Lemma hex_u16_ascii g : u16_in_range g → ascii (hex_u16 g) ∧ (length (hex_u16 g) ≤ 4)%nat.
Proof.
  unfold u16_in_range, hex_u16, ascii. intros Hg.
  pose proof (Z.mod_pos_bound g 16). pose proof (Z.mod_pos_bound (g / 16) 16). pose proof (Z.mod_pos_bound (g / 256) 16).
  repeat match goal with |- context [?a <? ?b] => destruct (Z.ltb_spec a b) end; (split; [|simpl; lia]);
    repeat constructor; apply nibble_ascii; try lia; split; (apply Z.div_pos || apply Z.div_lt_upper_bound); lia.
Qed.

Lemma fmt_subslice_ascii gs :
  Forall u16_in_range gs → ascii (fmt_subslice gs) ∧ (length (fmt_subslice gs) ≤ 5 * length gs)%nat.
Proof.
  assert (∀ gs, Forall u16_in_range gs → ascii (colon_groups gs) ∧ (length (colon_groups gs) ≤ 5 * length gs)%nat) as Hc.
  { induction 1 as [|g l [Hg Hl]%hex_u16_ascii _ [IH IHl]]; [by repeat constructor|]. unfold ascii in *.
    cbn [colon_groups flat_map]. fold (colon_groups l). split.
    - apply Forall_app. split; [|done]. by constructor.
    - rewrite length_app. cbn [length]. lia. }
  destruct 1 as [|g l [Hg Hl]%hex_u16_ascii [Hr Hrl]%Hc]; [by repeat constructor|]. unfold ascii in *. cbn [fmt_subslice]. split.
  - by apply Forall_app.
  - rewrite length_app. cbn [length]. lia.
Qed.

Lemma show_ip_fits ip :
  ip_wf ip → utf8_valid (as_bytes (show_ip ip)) = true ∧ (length (as_bytes (show_ip ip)) ≤ 90)%nat.
Proof.
  intros Hw. unfold show_ip. rewrite as_bytes_of_bytes.
  cut (∃ l, (match ip with V4 a => show_ipv4 a | V6 a => show_ipv6 a end) = l ∧ ascii l ∧ (length l ≤ 90)%nat).
  { intros (l & -> & Ha & Hl). split; [by apply utf8_valid_ascii|done]. }
  eexists. split; [done|]. destruct ip as [a|a]; [destruct (show_ipv4_ascii a); split; [done|lia]|].
  unfold show_ipv6. destruct (to_ipv4_mapped a) as [v4|].
  { destruct (show_ipv4_ascii v4). unfold show_mapped, ascii. split; [apply Forall_app; split; [by repeat constructor|done]|].
    rewrite length_app. change (length (as_bytes "::ffff:")) with 7%nat. lia. }
  destruct (segments_of_spec (v6_octets a)) as (_ & Hl & Hgs); [by rewrite Hw|]. fold (segments a) in *. cbn zeta.
  simpl in Hw. destruct (_ <? _)%nat.
  - destruct (fmt_subslice_ascii (take (sp_start (zero_span (segments a))) (segments a))) as [Ha1 Hl1]; [by apply Forall_take|].
    destruct (fmt_subslice_ascii (drop (sp_start (zero_span (segments a)) + sp_len (zero_span (segments a))) (segments a)))
      as [Ha2 Hl2]; [by apply Forall_drop|]. rewrite length_take in Hl1. rewrite length_drop in Hl2.
    unfold ascii in *. split; [apply Forall_app; split; [done|]; apply Forall_app; split; [by repeat constructor|done]|].
    rewrite !length_app. cbn [length]. lia.
  - destruct (fmt_subslice_ascii (segments a) Hgs). split; [done|lia].
Qed.
