(* ===== verification/Cell.v ===== *)
(** QuietHop: fixed-length wire cells.

    [quiethop-crypto/src/wire.rs] (the protocol constants) and
    [quiethop-crypto/src/cell.rs]: the size arithmetic of the links, the cell
    codec [Cell::{new, encode_into, encode, decode}], and the EXTEND and
    CONNECT payload codecs.  Buffers are byte lists; every index and slice of
    the source is a bounds-checked operation of the prelude, so that the
    theorems also say that no codec panics. *)

From S2P Require Import Prelude Bytes NetAddr.

(** ** Protocol constants ([wire.rs], and the lengths of [noise.rs]) *)

Definition PROTO_CLIENT : byte := x01.
Definition PROTO_RELAY : byte := x02.
Definition CIRCUIT_START : byte := xc1.
Definition M_RAW_LEN : nat := 32.
Definition TOKEN_LEN : nat := 256.
Definition PRESENTATION_LEN : nat := M_RAW_LEN + TOKEN_LEN.
Definition DISPOSITION_LEN : nat := 1.
Definition DISPOSITION_TO_ME : byte := x01.
Definition DISPOSITION_FORWARD : byte := x02.
Definition NOISE_TAG_LEN : nat := 16.
Definition NOISE_MSG_LEN : nat := 48.
Definition STATIC_KEY_LEN : nat := 32.

(** ** Sizes *)

Definition CELL_PAYLOAD_LEN : nat := 509.
Definition CELL_HEADER_LEN : nat := 4.
Definition CELL_PLAINTEXT_LEN : nat := CELL_HEADER_LEN + CELL_PAYLOAD_LEN.

Definition link_cell_len (layers : nat) : nat :=
  CELL_PLAINTEXT_LEN + layers * (DISPOSITION_LEN + NOISE_TAG_LEN).

Definition peeled_len (layers : nat) : nat := link_cell_len layers - NOISE_TAG_LEN.

Definition body_len (layers : nat) : nat := peeled_len layers - DISPOSITION_LEN.

(** ** Cells *)

Inductive CellType := Extend | Connect | Data | CloseRequest | CloseAck.

#[export] Instance CellType_eq_dec : EqDecision CellType.
Proof. solve_decision. Defined.

(** The [#[repr(u8)]] discriminant. *)
Definition CellType_as_u8 (t : CellType) : byte :=
  match t with
  | Extend => x01 | Connect => x03 | Data => x04 | CloseRequest => x05 | CloseAck => x06
  end.

Inductive CellError :=
  | WrongSize (got : nat)
  | TooLarge (n : nat)
  | UnknownType (b : byte)
  | ReservedFlags
  | BadExtend (why : string)
  | BadConnect (why : string)
  | BadAddress.

Definition CellType_try_from (b : byte) : outcome CellError CellType :=
  match b with
  | x01 => Ok Extend
  | x03 => Ok Connect
  | x04 => Ok Data
  | x05 => Ok CloseRequest
  | x06 => Ok CloseAck
  | other => Err (UnknownType other)
  end.

Record Cell := mkCell { cell_type : CellType; payload : list byte }.

#[export] Instance Cell_eq_dec : EqDecision Cell.
Proof. solve_decision. Defined.

Definition Cell_new (t : CellType) (payload : list byte) : outcome CellError Cell :=
  if CELL_PAYLOAD_LEN <? length payload then Err (TooLarge (length payload))
  else Ok (mkCell t payload).

(** [Cell::encode_into]: the buffer [out] after the writes. *)
Definition Cell_encode_into (c : Cell) (out : list byte) : outcome CellError (list byte) :=
  if negb (length out =? CELL_PLAINTEXT_LEN) then Err (WrongSize (length out)) else
  let n := length (payload c) in
  if CELL_PAYLOAD_LEN <? n then Err (TooLarge n) else
  out ← index_set out 0 (CellType_as_u8 (cell_type c));
  out ← index_set out 1 x00;
  out ← copy_at out 2 4 (u16_to_be_bytes (usize_as_u16 n));
  out ← copy_at out CELL_HEADER_LEN (CELL_HEADER_LEN + n) (payload c);
  fill_from out (CELL_HEADER_LEN + n) x00.

Definition Cell_encode (c : Cell) : outcome CellError (list byte) :=
  Cell_encode_into c (replicate CELL_PLAINTEXT_LEN x00).

Definition Cell_decode (bytes : list byte) : outcome CellError Cell :=
  if negb (length bytes =? CELL_PLAINTEXT_LEN) then Err (WrongSize (length bytes)) else
  b0 ← index bytes 0;
  t ← CellType_try_from b0;
  b1 ← index bytes 1;
  if bool_decide (b1 ≠ x00) then Err ReservedFlags else
  b2 ← index bytes 2;
  b3 ← index bytes 3;
  let n := Z.to_nat (u16_from_be_bytes b2 b3) in
  if CELL_PAYLOAD_LEN <? n then Err (TooLarge n) else
  data ← slice bytes CELL_HEADER_LEN (CELL_HEADER_LEN + n);
  Ok (mkCell t data).

(** ** EXTEND *)

Definition EXTEND_ADDR_LEN : nat := 16.
Definition EXTEND_FORWARD_LEN : nat := EXTEND_ADDR_LEN + 2 + NOISE_MSG_LEN.

Record ExtendForward := mkExtendForward { next_hop : SocketAddr; noise_msg1 : list byte }.

Definition ExtendForward_wf (f : ExtendForward) : Prop :=
  sockaddr_wf (next_hop f) ∧ length (noise_msg1 f) = NOISE_MSG_LEN.

Definition ExtendForward_encode (f : ExtendForward) : list byte :=
  let v6 := match sa_ip (next_hop f) with V4 v4 => to_ipv6_mapped v4 | V6 v6 => v6 end in
  v6_octets v6 ++ u16_to_be_bytes (sa_port (next_hop f)) ++ noise_msg1 f.

Definition ExtendForward_decode (bytes : list byte) : outcome CellError ExtendForward :=
  if negb (length bytes =? EXTEND_FORWARD_LEN)
  then Err (BadExtend "payload is not the fixed EXTEND length") else
  octets ← slice_to bytes EXTEND_ADDR_LEN;
  let v6 := Ipv6 octets in
  let ip := match to_ipv4_mapped v6 with Some v4 => V4 v4 | None => V6 v6 end in
  p0 ← index bytes EXTEND_ADDR_LEN;
  p1 ← index bytes (EXTEND_ADDR_LEN + 1);
  msg1 ← slice_from bytes (EXTEND_ADDR_LEN + 2);
  Ok (mkExtendForward (mkSocketAddr ip (u16_from_be_bytes p0 p1)) msg1).

Definition extend_backward_payload (msg2 : list byte) : list byte := msg2.

Definition parse_extend_backward (bytes : list byte) : outcome CellError (list byte) :=
  if negb (length bytes =? NOISE_MSG_LEN)
  then Err (BadExtend "backward payload is not one Noise message")
  else copy_at (replicate NOISE_MSG_LEN x00) 0 NOISE_MSG_LEN bytes.

(** ** CONNECT *)

Record ConnectPayload := mkConnectPayload { cp_host : string; cp_port : Z }.

(** A Rust [String] is valid UTF-8 and a [u16] is in range. *)
Definition ConnectPayload_wf (c : ConnectPayload) : Prop :=
  utf8_valid (as_bytes (cp_host c)) = true ∧ u16_in_range (cp_port c).

Definition MAX_CONNECT_HOST_LEN : nat := CELL_PAYLOAD_LEN - 4.

Definition ConnectPayload_encode (c : ConnectPayload) : outcome CellError (list byte) :=
  let host_bytes := as_bytes (cp_host c) in
  if MAX_CONNECT_HOST_LEN <? length host_bytes
  then Err (BadConnect "host does not fit one cell")
  else Ok (u16_to_be_bytes (usize_as_u16 (length host_bytes)) ++ host_bytes ++
           u16_to_be_bytes (cp_port c)).

Definition ConnectPayload_decode (bytes : list byte) : outcome CellError ConnectPayload :=
  if length bytes <? 4
  then Err (BadConnect "payload shorter than length prefix and port") else
  b0 ← index bytes 0;
  b1 ← index bytes 1;
  let host_len := Z.to_nat (u16_from_be_bytes b0 b1) in
  if negb (length bytes =? 2 + host_len + 2)
  then Err (BadConnect "payload length does not match host_len and port") else
  raw ← slice bytes 2 (2 + host_len);
  host ← ok_or (from_utf8 raw) BadAddress;
  p0 ← index bytes (2 + host_len);
  p1 ← index bytes (2 + host_len + 1);
  Ok (mkConnectPayload host (u16_from_be_bytes p0 p1)).

#[global] Arguments CELL_PAYLOAD_LEN : simpl never.
#[global] Arguments CELL_PLAINTEXT_LEN : simpl never.
#[global] Arguments EXTEND_FORWARD_LEN : simpl never.
#[global] Arguments NOISE_MSG_LEN : simpl never.
#[global] Arguments NOISE_TAG_LEN : simpl never.
#[global] Arguments TOKEN_LEN : simpl never.
#[global] Arguments PRESENTATION_LEN : simpl never.
#[global] Arguments MAX_CONNECT_HOST_LEN : simpl never.
#[global] Arguments link_cell_len : simpl never.
#[global] Arguments peeled_len : simpl never.
#[global] Arguments body_len : simpl never.

(** Arithmetic on the sizes. *)
Ltac sizes :=
  unfold PRESENTATION_LEN, EXTEND_FORWARD_LEN, EXTEND_ADDR_LEN, MAX_CONNECT_HOST_LEN,
    body_len, peeled_len, link_cell_len,
    CELL_PLAINTEXT_LEN, CELL_HEADER_LEN, CELL_PAYLOAD_LEN, DISPOSITION_LEN,
    NOISE_TAG_LEN, NOISE_MSG_LEN, M_RAW_LEN, TOKEN_LEN, STATIC_KEY_LEN in *; len.

(** ** Sizes of the links *)

(** The body of a layer is the adjacent link's cell, and the innermost body is
    one cell. *)
Lemma body_len_succ layers : body_len (S layers) = link_cell_len layers.
Proof. sizes. Qed.

Lemma link_cell_len_succ layers :
  link_cell_len (S layers) = DISPOSITION_LEN + link_cell_len layers + NOISE_TAG_LEN.
Proof. sizes. Qed.

Lemma body_len_ge layers : 1 ≤ layers → CELL_PLAINTEXT_LEN ≤ body_len layers.
Proof. intros. sizes. Qed.

Lemma link_cell_len_body layers :
  1 ≤ layers → link_cell_len layers = DISPOSITION_LEN + body_len layers + NOISE_TAG_LEN.
Proof. intros. sizes. Qed.

(** ** The cell codec *)

Lemma CellType_try_from_as_u8 t : CellType_try_from (CellType_as_u8 t) = Ok t.
Proof. by destruct t. Qed.

Lemma CellType_try_from_Ok b t : CellType_try_from b = Ok t → b = CellType_as_u8 t.
Proof. by destruct b; simpl; intros; simplify_eq. Qed.

Lemma CellType_try_from_no_panic b : CellType_try_from b ≠ Panic.
Proof. by destruct b. Qed.

(** The wire image of a cell with [pad] after its payload. *)
Definition cell_image (c : Cell) (pad : list byte) : list byte :=
  [CellType_as_u8 (cell_type c); x00] ++ u16_to_be_bytes (Z.of_nat (length (payload c)))
    ++ payload c ++ pad.

(** The image [encode] writes: zero padding up to the fixed size. *)
Definition cell_frame (c : Cell) : list byte :=
  cell_image c (replicate (CELL_PAYLOAD_LEN - length (payload c)) x00).

Lemma length_cell_image c pad :
  length (cell_image c pad) = CELL_HEADER_LEN + length (payload c) + length pad.
Proof. unfold cell_image. sizes. Qed.

Lemma length_cell_frame c :
  length (payload c) ≤ CELL_PAYLOAD_LEN → length (cell_frame c) = CELL_PLAINTEXT_LEN.
Proof. intros. unfold cell_frame. rewrite length_cell_image. sizes. Qed.

Lemma Cell_encode_into_frame c out :
  length out = CELL_PLAINTEXT_LEN → length (payload c) ≤ CELL_PAYLOAD_LEN →
  Cell_encode_into c out = Ok (cell_frame c).
Proof.
  intros Hout Hn. unfold Cell_encode_into.
  rewrite (proj2 (Nat.eqb_eq _ _) Hout). cbn [negb].
  rewrite (proj2 (Nat.ltb_ge _ _) Hn).
  rewrite usize_as_u16_small by sizes.
  destruct out as [|o0 [|o1 [|o2 [|o3 out]]]]; [sizes..|].
  assert (length out = CELL_PAYLOAD_LEN) as Hlen by sizes. clear Hout.
  rewrite index_set_in_range by (simpl; lia). cbn [mbind outcome_bind].
  rewrite index_set_in_range by (simpl; lia). cbn [mbind outcome_bind].
  rewrite copy_at_in_range by (simpl; lia). cbn [mbind outcome_bind].
  unfold CELL_HEADER_LEN. cbn [insert list_insert take drop app u16_to_be_bytes length].
  rewrite drop_0, copy_at_in_range by (simpl; lia).
  cbn [mbind outcome_bind Nat.add take drop app].
  rewrite fill_from_in_range by (simpl; rewrite length_app, length_drop; lia).
  unfold cell_frame, cell_image. rewrite take_0. cbn [app u16_to_be_bytes take length].
  do 5 f_equal. rewrite take_app_length. rewrite length_app, length_drop.
  do 2 f_equal. lia.
Qed.

(** Every outcome of [encode_into], on any buffer: the result never depends on
    what the buffer held, and nothing panics. *)
Lemma Cell_encode_into_spec c out :
  Cell_encode_into c out =
    if negb (length out =? CELL_PLAINTEXT_LEN) then Err (WrongSize (length out))
    else if CELL_PAYLOAD_LEN <? length (payload c) then Err (TooLarge (length (payload c)))
    else Ok (cell_frame c).
Proof.
  destruct (Nat.eqb_spec (length out) CELL_PLAINTEXT_LEN) as [Ho|Ho].
  - destruct (Nat.ltb_spec CELL_PAYLOAD_LEN (length (payload c))) as [Hn|Hn].
    + unfold Cell_encode_into. rewrite (proj2 (Nat.eqb_eq _ _) Ho).
      by rewrite (proj2 (Nat.ltb_lt _ _) Hn).
    + by apply Cell_encode_into_frame.
  - unfold Cell_encode_into. by rewrite (proj2 (Nat.eqb_neq _ _) Ho).
Qed.

Lemma Cell_encode_spec c :
  Cell_encode c = if CELL_PAYLOAD_LEN <? length (payload c)
                  then Err (TooLarge (length (payload c))) else Ok (cell_frame c).
Proof.
  unfold Cell_encode. rewrite Cell_encode_into_spec, length_replicate.
  by rewrite Nat.eqb_refl.
Qed.

Lemma Cell_decode_image c pad :
  length (cell_image c pad) = CELL_PLAINTEXT_LEN → Cell_decode (cell_image c pad) = Ok c.
Proof.
  intros Hlen. unfold Cell_decode. rewrite (proj2 (Nat.eqb_eq _ _) Hlen). cbn [negb].
  rewrite length_cell_image in Hlen. unfold cell_image.
  change (u16_to_be_bytes (Z.of_nat (length (payload c))))
    with [as_u8 (Z.shiftr (Z.of_nat (length (payload c))) 8); as_u8 (Z.of_nat (length (payload c)))].
  cbn [app index lookup list_lookup mbind outcome_bind].
  rewrite CellType_try_from_as_u8. cbn [mbind outcome_bind].
  rewrite bool_decide_false by naive_solver.
  rewrite u16_from_to_be_bytes by (unfold u16_in_range; sizes). rewrite Nat2Z.id.
  rewrite (proj2 (Nat.ltb_ge _ _)) by sizes.
  match goal with |- context [slice (?a :: ?b :: ?c :: ?d :: ?r) _ _] =>
    change (a :: b :: c :: d :: r) with ([a; b; c; d] ++ r) end.
  rewrite slice_app_mid by done. cbn [mbind outcome_bind]. by destruct c.
Qed.

(** What [decode] accepts: a full-size buffer that is the image of the cell
    with arbitrary bytes after the payload. *)
Lemma Cell_decode_Ok bytes c :
  Cell_decode bytes = Ok c ↔
  length bytes = CELL_PLAINTEXT_LEN ∧ ∃ pad, bytes = cell_image c pad.
Proof.
  split; [|by intros (Hlen & pad & ->); apply Cell_decode_image].
  unfold Cell_decode. destruct (Nat.eqb_spec (length bytes) CELL_PLAINTEXT_LEN) as [Hlen|]; [|done].
  cbn [negb]. destruct bytes as [|b0 [|b1 [|b2 [|b3 bytes]]]]; [sizes..|].
  cbn [index lookup list_lookup mbind outcome_bind]. intros H.
  apply bind_Ok in H as (t & Ht & H). apply CellType_try_from_Ok in Ht as ->.
  case_bool_decide as Hf; [done|]. assert (b1 = x00) as -> by (by destruct (decide (b1 = x00))).
  pose proof (u16_from_be_bytes_range b2 b3) as Hr. unfold u16_in_range in Hr.
  set (n := Z.to_nat (u16_from_be_bytes b2 b3)) in *.
  destruct (Nat.ltb_spec CELL_PAYLOAD_LEN n) as [|Hn]; [done|].
  apply bind_Ok in H as (data & Hs & H). apply slice_Ok in Hs as (_ & _ & Hdata & Hd).
  injection H as <-. split; [done|].
  replace (CELL_HEADER_LEN + n - CELL_HEADER_LEN) with n in * by lia.
  exists (drop n bytes). unfold cell_image. cbn [cell_type payload]. rewrite Hd.
  replace (Z.of_nat n) with (u16_from_be_bytes b2 b3) by lia.
  rewrite u16_to_from_be_bytes, Hdata. unfold CELL_HEADER_LEN. cbn [app drop].
  by rewrite drop_0, take_drop.
Qed.

Lemma Cell_decode_payload_le bytes c :
  Cell_decode bytes = Ok c → length (payload c) ≤ CELL_PAYLOAD_LEN.
Proof.
  intros (Hlen & pad & ->)%Cell_decode_Ok. rewrite length_cell_image in Hlen. sizes.
Qed.

(** [decode] never panics: each index is in range once the size test passed,
    and the slice is in range once the length test passed. *)
Lemma Cell_decode_no_panic bytes : Cell_decode bytes ≠ Panic.
Proof.
  unfold Cell_decode. destruct (Nat.eqb_spec (length bytes) CELL_PLAINTEXT_LEN) as [Hlen|]; [|done].
  cbn [negb]. destruct bytes as [|b0 [|b1 [|b2 [|b3 bytes]]]]; [sizes..|].
  cbn [index lookup list_lookup mbind outcome_bind].
  destruct (CellType_try_from b0) eqn:Ht; cbn [mbind outcome_bind]; [|done|by apply CellType_try_from_no_panic in Ht].
  case_bool_decide; [done|]. destruct (Nat.ltb_spec CELL_PAYLOAD_LEN (Z.to_nat (u16_from_be_bytes b2 b3))); [done|].
  rewrite slice_in_range by sizes. done.
Qed.

Lemma Cell_round_trip_aux c :
  length (payload c) ≤ CELL_PAYLOAD_LEN → Cell_decode (cell_frame c) = Ok c.
Proof. intros. apply Cell_decode_image. by apply length_cell_frame. Qed.
#[export] Hint Resolve Cell_round_trip_aux length_cell_frame : rs.

(** ** The EXTEND codec *)

Lemma length_ExtendForward_encode f :
  ExtendForward_wf f → length (ExtendForward_encode f) = EXTEND_FORWARD_LEN.
Proof.
  intros [[Hip _] Hm]. unfold ExtendForward_encode.
  destruct (sa_ip (next_hop f)) as [[a b c d]|a]; simpl in Hip; rewrite !length_app, Hm; simpl; sizes.
Qed.

Lemma ExtendForward_decode_parts octets port msg :
  length octets = EXTEND_ADDR_LEN → u16_in_range port → length msg = NOISE_MSG_LEN →
  ExtendForward_decode (octets ++ u16_to_be_bytes port ++ msg) =
  Ok (mkExtendForward (mkSocketAddr (canonical_ip (V6 (Ipv6 octets))) port) msg).
Proof.
  intros Ho Hp Hm. unfold ExtendForward_decode.
  rewrite (proj2 (Nat.eqb_eq _ _)) by sizes. cbn [negb].
  rewrite slice_app_l by done. cbn [mbind outcome_bind].
  rewrite (index_app_r _ _ EXTEND_ADDR_LEN 0), (index_app_r _ _ (EXTEND_ADDR_LEN + 1) 1) by lia.
  cbn [u16_to_be_bytes app index lookup list_lookup mbind outcome_bind].
  change (as_u8 (Z.shiftr port 8) :: as_u8 port :: msg)
    with ([as_u8 (Z.shiftr port 8); as_u8 port] ++ msg).
  rewrite app_assoc, slice_app_r by sizes. cbn [mbind outcome_bind].
  by rewrite u16_from_to_be_bytes.
Qed.

(** Decoding an encoded EXTEND gives the same port and Noise message, and the
    next hop in canonical form. *)
Lemma ExtendForward_decode_encode f :
  ExtendForward_wf f →
  ExtendForward_decode (ExtendForward_encode f) =
  Ok (mkExtendForward (canonical_addr (next_hop f)) (noise_msg1 f)).
Proof.
  intros [[Hip Hp] Hm]. destruct f as [[ip port] msg]. unfold ExtendForward_encode, canonical_addr.
  cbn [next_hop sa_ip sa_port noise_msg1] in *. destruct ip as [v4|[octets]]; simpl in Hip.
  - rewrite ExtendForward_decode_parts by (by destruct v4 || done).
    change (Ipv6 (v6_octets (to_ipv6_mapped v4))) with (to_ipv6_mapped v4).
    by rewrite canonical_ip_mapped.
  - by rewrite ExtendForward_decode_parts.
Qed.

Lemma ExtendForward_decode_no_panic bytes : ExtendForward_decode bytes ≠ Panic.
Proof.
  unfold ExtendForward_decode.
  destruct (Nat.eqb_spec (length bytes) EXTEND_FORWARD_LEN) as [Hlen|]; [|done]. cbn [negb].
  unfold slice_to, slice_from. rewrite slice_in_range by sizes. cbn [mbind outcome_bind].
  destruct (index_in_range (E:=CellError) bytes EXTEND_ADDR_LEN) as (x & -> & _); [sizes|].
  cbn [mbind outcome_bind].
  destruct (index_in_range (E:=CellError) bytes (EXTEND_ADDR_LEN + 1)) as (y & -> & _); [sizes|].
  cbn [mbind outcome_bind]. by rewrite slice_in_range by sizes.
Qed.

Lemma ExtendForward_decode_wf bytes f :
  ExtendForward_decode bytes = Ok f →
  ExtendForward_wf f ∧ canonical_addr (next_hop f) = next_hop f.
Proof.
  unfold ExtendForward_decode.
  destruct (Nat.eqb_spec (length bytes) EXTEND_FORWARD_LEN) as [Hlen|]; [|done]. cbn [negb].
  intros H. apply bind_Ok in H as (octets & Hoct & H). apply slice_Ok in Hoct as (_ & _ & _ & Hoct).
  apply bind_Ok in H as (p0 & _ & H). apply bind_Ok in H as (p1 & _ & H).
  apply bind_Ok in H as (msg & Hmsg & H). apply slice_Ok in Hmsg as (_ & _ & _ & Hmsg).
  injection H as <-. change (match to_ipv4_mapped (Ipv6 octets) with Some v4 => V4 v4
    | None => V6 (Ipv6 octets) end) with (canonical_ip (V6 (Ipv6 octets))).
  split; [split; [split|]|].
  - apply canonical_ip_wf. simpl. sizes.
  - apply u16_from_be_bytes_range.
  - cbn [noise_msg1]. sizes.
  - unfold canonical_addr. cbn [next_hop sa_ip sa_port]. by rewrite canonical_ip_idemp.
Qed.

Lemma parse_extend_backward_spec bytes :
  parse_extend_backward bytes =
    if negb (length bytes =? NOISE_MSG_LEN)
    then Err (BadExtend "backward payload is not one Noise message") else Ok bytes.
Proof.
  unfold parse_extend_backward. destruct (Nat.eqb_spec (length bytes) NOISE_MSG_LEN) as [Hl|]; [|done].
  cbn [negb]. rewrite copy_at_in_range by (rewrite ?length_replicate; lia).
  rewrite take_0, drop_ge by (rewrite length_replicate; lia). by rewrite app_nil_r.
Qed.

(** ** The CONNECT codec *)

Lemma ConnectPayload_encode_Ok c bytes :
  ConnectPayload_encode c = Ok bytes →
  length (as_bytes (cp_host c)) ≤ MAX_CONNECT_HOST_LEN ∧
  bytes = u16_to_be_bytes (Z.of_nat (length (as_bytes (cp_host c)))) ++ as_bytes (cp_host c)
            ++ u16_to_be_bytes (cp_port c).
Proof.
  unfold ConnectPayload_encode.
  destruct (Nat.ltb_spec MAX_CONNECT_HOST_LEN (length (as_bytes (cp_host c)))); [done|].
  rewrite usize_as_u16_small by sizes. intros. by simplify_eq.
Qed.

Lemma ConnectPayload_decode_parts host port :
  utf8_valid host = true → u16_in_range port → length host < Z.to_nat 65536 →
  ConnectPayload_decode (u16_to_be_bytes (Z.of_nat (length host)) ++ host ++ u16_to_be_bytes port) =
  Ok (mkConnectPayload (of_bytes host) port).
Proof.
  intros Hu Hp Hl. unfold ConnectPayload_decode.
  rewrite (proj2 (Nat.ltb_ge _ _)) by len.
  cbn [u16_to_be_bytes app index lookup list_lookup mbind outcome_bind].
  rewrite u16_from_to_be_bytes by (unfold u16_in_range; lia). rewrite Nat2Z.id.
  rewrite (proj2 (Nat.eqb_eq _ _)) by len. cbn [negb].
  match goal with |- context [slice (?a :: ?b :: ?r) _ _] =>
    change (a :: b :: r) with ([a; b] ++ r) end.
  rewrite slice_app_mid by done. cbn [mbind outcome_bind].
  unfold from_utf8. rewrite Hu. cbn [ok_or mbind outcome_bind].
  rewrite (app_assoc [_; _]).
  rewrite (index_app_r _ _ (2 + length host) 0), (index_app_r _ _ (2 + length host + 1) 1) by len.
  cbn [u16_to_be_bytes index lookup list_lookup mbind outcome_bind].
  by rewrite u16_from_to_be_bytes.
Qed.

Lemma ConnectPayload_fits c :
  ConnectPayload_wf c → length (as_bytes (cp_host c)) ≤ MAX_CONNECT_HOST_LEN →
  ∃ bytes, ConnectPayload_encode c = Ok bytes ∧ length bytes ≤ CELL_PAYLOAD_LEN ∧ ConnectPayload_decode bytes = Ok c.
Proof.
  intros [Hu Hp] Hl. destruct (ConnectPayload_encode c) as [bytes|e|] eqn:He.
  2,3: unfold ConnectPayload_encode in He; by rewrite (proj2 (Nat.ltb_ge _ _) Hl) in He.
  apply ConnectPayload_encode_Ok in He as [_ ->]. eexists; split; [done|]. split; [sizes|].
  rewrite ConnectPayload_decode_parts by (done || sizes). rewrite of_bytes_as_bytes. by destruct c.
Qed.

Lemma ConnectPayload_decode_no_panic bytes : ConnectPayload_decode bytes ≠ Panic.
Proof.
  unfold ConnectPayload_decode. destruct (Nat.ltb_spec (length bytes) 4); [done|].
  destruct bytes as [|b0 [|b1 bytes]]; [simpl in *; lia..|].
  cbn [index lookup list_lookup mbind outcome_bind].
  set (n := Z.to_nat (u16_from_be_bytes b0 b1)).
  destruct (Nat.eqb_spec (length (b0 :: b1 :: bytes)) (2 + n + 2)) as [Hl|]; [|done]. cbn [negb].
  rewrite slice_in_range by lia. cbn [mbind outcome_bind].
  destruct (from_utf8 _); cbn [ok_or mbind outcome_bind]; [|done].
  destruct (index_in_range (E:=CellError) (b0 :: b1 :: bytes) (2 + n)) as (x & -> & _); [lia|].
  cbn [mbind outcome_bind].
  by destruct (index_in_range (E:=CellError) (b0 :: b1 :: bytes) (2 + n + 1)) as (y & -> & _); [lia|].
Qed.

(** What [decode] returns is a [String] and a [u16], and encoding it gives the
    bytes back. *)
Lemma ConnectPayload_decode_Ok bytes c :
  ConnectPayload_decode bytes = Ok c →
  ConnectPayload_wf c ∧
  bytes = u16_to_be_bytes (Z.of_nat (length (as_bytes (cp_host c)))) ++ as_bytes (cp_host c)
            ++ u16_to_be_bytes (cp_port c).
Proof.
  unfold ConnectPayload_decode. destruct (Nat.ltb_spec (length bytes) 4); [done|].
  destruct bytes as [|b0 [|b1 bytes]]; [simpl in *; lia..|].
  cbn [index lookup list_lookup mbind outcome_bind].
  pose proof (u16_from_be_bytes_range b0 b1) as Hr. unfold u16_in_range in Hr.
  set (n := Z.to_nat (u16_from_be_bytes b0 b1)) in *.
  destruct (Nat.eqb_spec (length (b0 :: b1 :: bytes)) (2 + n + 2)) as [Hl|]; [|done]. cbn [negb].
  intros H'. apply bind_Ok in H' as (raw & Hraw & H'). apply slice_Ok in Hraw as (_ & _ & Hraw & Hrl).
  apply bind_Ok in H' as (host & Hhost & H'). apply ok_or_Ok in Hhost.
  apply from_utf8_Some in Hhost as [Hhost Hu].
  apply bind_Ok in H' as (p0 & Hp0 & H'). apply index_Ok in Hp0.
  apply bind_Ok in H' as (p1 & Hp1 & H'). apply index_Ok in Hp1. injection H' as <-.
  cbn [cp_host cp_port]. split.
  { split; cbn [cp_host cp_port]; [by rewrite Hhost | apply u16_from_be_bytes_range]. }
  rewrite Hhost, Hrl. replace (Z.of_nat (2 + n - 2)) with (u16_from_be_bytes b0 b1) by lia.
  rewrite !u16_to_from_be_bytes. cbn [app]. do 2 f_equal. subst raw.
  replace (2 + n - 2) with n by lia.
  change (drop 2 (b0 :: b1 :: bytes)) with (drop 0 bytes). rewrite drop_0.
  change (bytes !! n = Some p0) in Hp0. change (bytes !! (n + 1) = Some p1) in Hp1.
  rewrite <- (take_drop n bytes) at 1. f_equal.
  assert (length (drop n bytes) = 2) as Hd by (rewrite length_drop; simpl in *; lia).
  rewrite <- (Nat.add_0_r n), <- lookup_drop in Hp0. rewrite <- lookup_drop in Hp1.
  destruct (drop n bytes) as [|x [|y [|]]]; by simplify_eq/=.
Qed.

(** ** Properties *)

(** Cell round trip: whatever cell [Cell::new] builds, [encode] succeeds,
    writes exactly [CELL_PLAINTEXT_LEN] bytes whatever the payload, and
    [decode] gives the cell back. *)
Theorem Cell_round_trip t p c :
  Cell_new t p = Ok c →
  ∃ bytes, Cell_encode c = Ok bytes ∧ length bytes = CELL_PLAINTEXT_LEN ∧
           Cell_decode bytes = Ok c.
Proof.
  unfold Cell_new. destruct (Nat.ltb_spec CELL_PAYLOAD_LEN (length p)) as [|Hp]; [done|].
  intros [= <-]. exists (cell_frame (mkCell t p)). rewrite Cell_encode_spec. cbn [payload].
  rewrite (proj2 (Nat.ltb_ge _ _) Hp). auto using length_cell_frame, Cell_round_trip_aux.
Qed.

Lemma Cell_round_trip_witness :
  ∃ bytes, Cell_encode (mkCell Data [x5a; xa5; x00]) = Ok bytes ∧ length bytes = 513 ∧
           Cell_decode bytes = Ok (mkCell Data [x5a; xa5; x00]).
Proof. apply (Cell_round_trip Data [x5a; xa5; x00]). reflexivity. Defined.

(** [encode_into] on every buffer: a buffer of the wrong size and an
    oversize payload are refused with the size in the error; otherwise the
    buffer afterwards is the header, the payload and zeros, whatever it held
    before.  There is no panic. *)
Theorem Cell_encode_into_total c out :
  Cell_encode_into c out =
    if negb (length out =? CELL_PLAINTEXT_LEN) then Err (WrongSize (length out))
    else if CELL_PAYLOAD_LEN <? length (payload c) then Err (TooLarge (length (payload c)))
    else Ok ([CellType_as_u8 (cell_type c); x00] ++
             u16_to_be_bytes (Z.of_nat (length (payload c))) ++ payload c ++
             replicate (CELL_PAYLOAD_LEN - length (payload c)) x00).
Proof. apply Cell_encode_into_spec. Qed.

(** [decode] accepts exactly the full-size buffers that are an image of the
    returned cell, and it does not look at the bytes after the payload: any
    padding decodes to the same cell. *)
Theorem Cell_decode_accepts bytes c :
  Cell_decode bytes = Ok c ↔
  length bytes = CELL_PLAINTEXT_LEN ∧
  ∃ pad, bytes = [CellType_as_u8 (cell_type c); x00] ++
                 u16_to_be_bytes (Z.of_nat (length (payload c))) ++ payload c ++ pad.
Proof. apply Cell_decode_Ok. Qed.

(** No decoder of the cell layer panics, on any input. *)
Theorem decoders_never_panic bytes :
  Cell_decode bytes ≠ Panic ∧ ExtendForward_decode bytes ≠ Panic ∧
  parse_extend_backward bytes ≠ Panic ∧ ConnectPayload_decode bytes ≠ Panic.
Proof.
  repeat split; auto using Cell_decode_no_panic, ExtendForward_decode_no_panic,
    ConnectPayload_decode_no_panic.
  rewrite parse_extend_backward_spec. by case_match.
Qed.

(** EXTEND round trip: a well-formed EXTEND encodes to the fixed 66 bytes,
    fits one cell, and decodes to the same Noise message and the canonical
    form of the next hop, so that a mapped and a plain IPv4 next hop are one
    wire image. *)
Theorem ExtendForward_round_trip f :
  ExtendForward_wf f →
  length (ExtendForward_encode f) = 66 ∧
  length (ExtendForward_encode f) ≤ CELL_PAYLOAD_LEN ∧
  ExtendForward_decode (ExtendForward_encode f) =
    Ok (mkExtendForward (canonical_addr (next_hop f)) (noise_msg1 f)).
Proof.
  intros Hf. rewrite (length_ExtendForward_encode f Hf).
  repeat split; [sizes|]. by apply ExtendForward_decode_encode.
Qed.

Definition example_extend : ExtendForward :=
  mkExtendForward (mkSocketAddr (V6 (to_ipv6_mapped (Ipv4 x0a x01 x00 x01))) 443)
    (replicate 48 x07).

Lemma ExtendForward_round_trip_witness :
  ExtendForward_decode (ExtendForward_encode example_extend) =
  Ok (mkExtendForward (mkSocketAddr (V4 (Ipv4 x0a x01 x00 x01)) 443) (replicate 48 x07)).
Proof. apply (ExtendForward_round_trip example_extend). by vm_compute. Defined.

(** CONNECT round trip: a destination whose host is at most
    [MAX_CONNECT_HOST_LEN] bytes of UTF-8 encodes to a payload that fits one
    cell and decodes to itself; a longer host is refused. *)
Theorem ConnectPayload_round_trip c :
  ConnectPayload_wf c →
  if String.length (cp_host c) <=? MAX_CONNECT_HOST_LEN then
    ∃ bytes, ConnectPayload_encode c = Ok bytes ∧ length bytes ≤ CELL_PAYLOAD_LEN ∧
             ConnectPayload_decode bytes = Ok c
  else ConnectPayload_encode c = Err (BadConnect "host does not fit one cell").
Proof.
  intros Hwf. rewrite <- length_as_bytes.
  destruct (Nat.leb_spec (length (as_bytes (cp_host c))) MAX_CONNECT_HOST_LEN) as [Hl|Hl].
  - by apply ConnectPayload_fits.
  - unfold ConnectPayload_encode. by rewrite (proj2 (Nat.ltb_lt _ _) Hl).
Qed.

Lemma ConnectPayload_round_trip_witness :
  ∃ bytes, ConnectPayload_encode (mkConnectPayload "example.com" 443) = Ok bytes ∧
           length bytes ≤ CELL_PAYLOAD_LEN ∧
           ConnectPayload_decode bytes = Ok (mkConnectPayload "example.com" 443).
Proof. apply (ConnectPayload_round_trip (mkConnectPayload "example.com" 443)). by vm_compute. Defined.
