(* ===== verification/Civil.v ===== *)
(** QuietHop: timestamps and the proleptic Gregorian calendar.

    [parse_rfc3339], [is_leap_year], [days_in_month] and [days_from_civil] of
    [quiethop-crypto/src/registry.rs], and the reference calendar its date
    tests count with ([ref_is_leap], [ref_month_len], [reference_days]).  The
    tests compare the two over 1970-2100; here the comparison is a theorem over
    every year.  Rust's [/] and [%] truncate, so they are [Z.quot] and
    [Z.rem]. *)

From S2P Require Import Prelude Bytes Text.

#[local] Open Scope Z_scope.

(** ** The production calendar *)

Definition is_leap_year (y : Z) : bool :=
  (Z.rem y 4 =? 0) && negb (Z.rem y 100 =? 0) || (Z.rem y 400 =? 0).

Definition days_in_month (y m : Z) : Z :=
  match m with
  | 1 | 3 | 5 | 7 | 8 | 10 | 12 => 31
  | 4 | 6 | 9 | 11 => 30
  | 2 => if is_leap_year y then 29 else 28
  | _ => 0
  end.

Definition days_from_civil (y m d : Z) : Z :=
  let y := if m <=? 2 then y - 1 else y in
  let era := Z.quot (if 0 <=? y then y else y - 399) 400 in
  let yoe := y - era * 400 in
  let mp := Z.rem (m + 9) 12 in
  let doy := Z.quot (153 * mp + 2) 5 + d - 1 in
  let doe := yoe * 365 + Z.quot yoe 4 - Z.quot yoe 100 + doy in
  era * 146097 + doe - 719468.

(** ** The reference calendar of the date tests *)

Definition ref_is_leap (y : Z) : bool :=
  if Z.rem y 400 =? 0 then true else if Z.rem y 100 =? 0 then false else Z.rem y 4 =? 0.

Definition ref_LENGTHS : list Z := [31; 28; 31; 30; 31; 30; 31; 31; 30; 31; 30; 31].

Definition ref_month_len (y m : Z) : Z :=
  let base := default 0 (ref_LENGTHS !! Z.to_nat (m - 1)) in
  if (m =? 2) && ref_is_leap y then base + 1 else base.

(** The day after a day, the step of the reference counter's three loops. *)
Definition next_day (t : Z * Z * Z) : Z * Z * Z :=
  let '(y, m, d) := t in
  if d <? ref_month_len y m then (y, m, d + 1)
  else if m <? 12 then (y, m + 1, 1)
  else (y + 1, 1, 1).

(** The innermost loop: the days of one month from day [d], [fuel] of them. *)
Fixpoint ref_days (y m d : Z) (fuel : nat) (secs : Z) : list (Z * Z * Z * Z) :=
  match fuel with
  | O => []
  | S fuel => (y, m, d, secs) :: ref_days y m (d + 1) fuel (secs + 86400)
  end.

(** [for d in 1..=ref_month_len(y, m)]. *)
Definition ref_month (y m secs : Z) : list (Z * Z * Z * Z) :=
  ref_days y m 1 (Z.to_nat (ref_month_len y m)) secs.

(** [for m in m..=12], [fuel] months of it. *)
Fixpoint ref_months (y m : Z) (fuel : nat) (secs : Z) : list (Z * Z * Z * Z) * Z :=
  match fuel with
  | O => ([], secs)
  | S fuel =>
      let '(rest, secs') := ref_months y (m + 1) fuel (secs + 86400 * ref_month_len y m) in
      (ref_month y m secs ++ rest, secs')
  end.

(** [for y in y..], [fuel] years of it. *)
Fixpoint ref_years (y : Z) (fuel : nat) (secs : Z) : list (Z * Z * Z * Z) :=
  match fuel with
  | O => []
  | S fuel =>
      let '(out, secs') := ref_months y 1 12 secs in
      out ++ ref_years (y + 1) fuel secs'
  end.

Definition FIRST_YEAR : Z := 1970.
Definition LAST_YEAR : Z := 2100.

(** [reference_days], with the last year as an argument. *)
Definition reference_days (last : Z) : list (Z * Z * Z * Z) :=
  ref_years FIRST_YEAR (Z.to_nat (last - FIRST_YEAR + 1)) 0.

(** ** The parser *)

(** [b[i] != sep], with the bounds check of the index. *)
Definition byte_is {E} (b : list byte) (i : nat) (sep : byte) : outcome E bool :=
  x ← index b i; Ok (bool_decide (x = sep)).

(** The shape test; [||] stops at the first difference, so no index is
    evaluated on a string of another length. *)
Definition rfc3339_shape {E} (b : list byte) : outcome E bool :=
  if negb (length b =? 20)%nat then Ok false else
  c ← byte_is b 4 x2d; if negb c then Ok false else
  c ← byte_is b 7 x2d; if negb c then Ok false else
  c ← byte_is b 10 x54; if negb c then Ok false else
  c ← byte_is b 13 x3a; if negb c then Ok false else
  c ← byte_is b 16 x3a; if negb c then Ok false else
  byte_is b 19 x5a.

(** [parse_rfc3339]; its one error is the message about the timestamp [s]. *)
Definition parse_rfc3339 (s : string) : outcome string Z :=
  let b := as_bytes s in
  shape ← rfc3339_shape b;
  if negb shape then Err s else
  let num (from to : nat) := ok_or (part ← str_get b from to; parse_i64 part) s in
  y ← num 0%nat 4%nat; mo ← num 5%nat 7%nat; d ← num 8%nat 10%nat;
  h ← num 11%nat 13%nat; mi ← num 14%nat 16%nat; sec ← num 17%nat 19%nat;
  if negb ((1 <=? mo) && (mo <=? 12)) || (23 <? h) || (59 <? mi) || (60 <? sec) then Err s else
  if (d <? 1) || (days_in_month y mo <? d) then Err s else
  Ok (days_from_civil y mo d * 86400 + h * 3600 + mi * 60 + sec).

(** The timestamp the authority prints for a date and a time. *)
Definition rfc3339 (y mo d h mi sec : Z) : string :=
  of_bytes (dec_width 4 y ++ [x2d] ++ dec_width 2 mo ++ [x2d] ++ dec_width 2 d ++ [x54] ++
            dec_width 2 h ++ [x3a] ++ dec_width 2 mi ++ [x3a] ++ dec_width 2 sec ++ [x5a]).

(** ** Calendar arithmetic *)

Definition valid_date (y m d : Z) : Prop := 1 ≤ m ≤ 12 ∧ 1 ≤ d ≤ ref_month_len y m.

(** Case analysis on a month. *)
Lemma month_cases m : 1 ≤ m ≤ 12 →
  m = 1 ∨ m = 2 ∨ m = 3 ∨ m = 4 ∨ m = 5 ∨ m = 6 ∨ m = 7 ∨ m = 8 ∨ m = 9 ∨ m = 10 ∨ m = 11 ∨ m = 12.
Proof. lia. Qed.
Ltac month_cases m H := destruct (month_cases m H) as [?|[?|[?|[?|[?|[?|[?|[?|[?|[?|[?|?]]]]]]]]]]]; subst m.

Lemma rem_eqb y n : 0 < n → (Z.rem y n =? 0) = (y mod n =? 0).
Proof.
  intros Hn. apply eq_true_iff_eq. rewrite !Z.eqb_eq. split; intros H.
  - apply Z.rem_divide in H; [|lia]. by apply Z.mod_divide; [lia|].
  - apply Z.mod_divide in H; [|lia]. by apply Z.rem_divide; [lia|].
Qed.

Lemma is_leap_year_ref y : is_leap_year y = ref_is_leap y.
Proof.
  unfold is_leap_year, ref_is_leap. rewrite !rem_eqb by lia.
  destruct (Z.eqb_spec (y mod 4) 0), (Z.eqb_spec (y mod 100) 0), (Z.eqb_spec (y mod 400) 0);
    simpl; try done; Z.to_euclidean_division_equations; lia.
Qed.

Lemma days_in_month_ref y m : 1 ≤ m ≤ 12 → days_in_month y m = ref_month_len y m.
Proof.
  intros Hm. month_cases m Hm; try done. unfold days_in_month, ref_month_len.
  rewrite is_leap_year_ref. by destruct (ref_is_leap y).
Qed.

Lemma ref_month_len_range y m : 1 ≤ m ≤ 12 → 28 ≤ ref_month_len y m ≤ 31.
Proof. intros Hm. month_cases m Hm; unfold ref_month_len; simpl; try case_match; lia. Qed.

(** Days before the first of March of year [y], a plain sum. *)
Definition march_days (y : Z) : Z := 365 * y + y / 4 - y / 100 + y / 400.

Lemma march_days_succ y :
  march_days y - march_days (y - 1) = 365 + (if ref_is_leap y then 1 else 0).
Proof.
  unfold march_days, ref_is_leap. rewrite !rem_eqb by lia.
  destruct (Z.eqb_spec (y mod 400) 0), (Z.eqb_spec (y mod 100) 0), (Z.eqb_spec (y mod 4) 0);
    Z.to_euclidean_division_equations; lia.
Qed.

(** Days from the first of March to the first of month [m]. *)
Definition month_start (m : Z) : Z := (153 * ((m + 9) mod 12) + 2) / 5.

Lemma month_start_succ y m :
  1 ≤ m ≤ 11 → m ≠ 2 → month_start (m + 1) = month_start m + ref_month_len y m.
Proof.
  intros Hm Hn. assert (1 ≤ m ≤ 12) as Hm' by lia. month_cases m Hm'; try done; lia.
Qed.

(** [days_from_civil] as a sum of whole years and a day of the March year. *)
Lemma days_from_civil_sum y m d :
  1 ≤ m ≤ 12 →
  days_from_civil y m d =
  march_days (if m <=? 2 then y - 1 else y) + month_start m + d - 1 - 719468.
Proof.
  intros Hm. unfold days_from_civil, march_days, month_start. set (y' := if m <=? 2 then y - 1 else y).
  assert (Z.quot (if 0 <=? y' then y' else y' - 399) 400 = y' / 400) as ->
    by (case_match; Z.to_euclidean_division_equations; lia).
  rewrite Z.rem_mod_nonneg by lia. pose proof (Z.mod_pos_bound (m + 9) 12 ltac:(lia)).
  rewrite !Z.quot_div_nonneg by (Z.to_euclidean_division_equations; lia).
  set (k := (153 * ((m + 9) mod 12) + 2) / 5). clearbody k y'.
  Z.to_euclidean_division_equations; lia.
Qed.

(** The heart of the calendar: the next day is one day later. *)
Lemma days_from_civil_next y m d :
  valid_date y m d →
  let '(y', m', d') := next_day (y, m, d) in
  valid_date y' m' d' ∧ days_from_civil y' m' d' = days_from_civil y m d + 1.
Proof.
  intros [Hm Hd]. unfold next_day. destruct (Z.ltb_spec d (ref_month_len y m)) as [Hlt|Hge].
  { split; [split; lia|]. rewrite !days_from_civil_sum by lia. lia. }
  assert (d = ref_month_len y m) as -> by lia. destruct (Z.ltb_spec m 12).
  - split. { pose proof (ref_month_len_range y (m + 1) ltac:(lia)). split; lia. }
    rewrite !days_from_civil_sum by lia. destruct (decide (m = 2)) as [->|Hne].
    + pose proof (march_days_succ y). unfold ref_month_len.
      change (month_start (2 + 1)) with 0. change (month_start 2) with 337. simpl.
      destruct (ref_is_leap y); simpl in *; lia.
    + rewrite (month_start_succ y) by lia.
      destruct (Z.leb_spec (m + 1) 2), (Z.leb_spec m 2); lia.
  - assert (m = 12) as -> by lia. split. { pose proof (ref_month_len_range (y + 1) 1 ltac:(lia)). split; lia. }
    rewrite !days_from_civil_sum by lia. change (ref_month_len y 12) with 31.
    change (month_start 1) with 306. change (month_start 12) with 275. change (1 <=? 2) with true. change (12 <=? 2) with false. cbv match.
    replace (y + 1 - 1) with y by lia. lia.
Qed.

Lemma days_from_civil_epoch : days_from_civil 1970 1 1 = 0.
Proof. done. Qed.

(** ** The reference counter *)

(** An entry of the counter: a date that exists, with its midnight. *)
Definition ref_entry_ok (e : Z * Z * Z * Z) : Prop :=
  let '(y, m, d, secs) := e in valid_date y m d ∧ secs = 86400 * days_from_civil y m d.

Lemma days_from_civil_day y m d k :
  1 ≤ m ≤ 12 → days_from_civil y m (d + k) = days_from_civil y m d + k.
Proof. intros. rewrite !days_from_civil_sum by done. lia. Qed.

Lemma days_from_civil_month y m :
  1 ≤ m < 12 → days_from_civil y (m + 1) 1 = days_from_civil y m 1 + ref_month_len y m.
Proof.
  intros Hm. pose proof (ref_month_len_range y m ltac:(lia)).
  pose proof (days_from_civil_next y m (ref_month_len y m)) as Hn. unfold next_day in Hn.
  rewrite Z.ltb_irrefl, (proj2 (Z.ltb_lt m 12)) in Hn by lia.
  destruct Hn as [_ ->]; [split; lia|].
  rewrite <- (Z.add_simpl_l 1 (ref_month_len y m)) at 1.
  replace (1 + ref_month_len y m - 1) with (1 + (ref_month_len y m - 1)) by lia.
  rewrite days_from_civil_day by lia. lia.
Qed.

Lemma days_from_civil_year y :
  days_from_civil (y + 1) 1 1 = days_from_civil y 12 1 + ref_month_len y 12.
Proof.
  pose proof (days_from_civil_next y 12 31) as Hn. unfold next_day in Hn.
  change (ref_month_len y 12) with 31 in *. simpl in Hn.
  destruct Hn as [_ ->]; [split; [lia|change (ref_month_len y 12) with 31; lia]|].
  change 31 with (1 + 30) at 1. rewrite days_from_civil_day by lia. lia.
Qed.

Lemma ref_days_ok y m d fuel secs :
  1 ≤ m ≤ 12 → 1 ≤ d → d + Z.of_nat fuel - 1 ≤ ref_month_len y m →
  secs = 86400 * days_from_civil y m d →
  Forall ref_entry_ok (ref_days y m d fuel secs).
Proof.
  intros Hm. revert d secs. induction fuel as [|fuel IH]; intros d secs Hd Hf ->; constructor.
  - split; [|done]. split; [done|]. lia.
  - apply IH; [lia..|]. rewrite days_from_civil_day by done. lia.
Qed.

Lemma ref_month_ok y m secs :
  1 ≤ m ≤ 12 → secs = 86400 * days_from_civil y m 1 → Forall ref_entry_ok (ref_month y m secs).
Proof.
  intros Hm Hs. pose proof (ref_month_len_range y m Hm). apply ref_days_ok; try done; lia.
Qed.

Lemma ref_months_ok y m fuel secs :
  1 ≤ m → m + Z.of_nat fuel = 13 → secs = 86400 * days_from_civil y m 1 →
  (0 < fuel)%nat →
  let '(out, secs') := ref_months y m fuel secs in
  Forall ref_entry_ok out ∧ secs' = 86400 * days_from_civil (y + 1) 1 1.
Proof.
  revert m secs. induction fuel as [|fuel IH]; intros m secs Hm Hf -> Hpos; [lia|].
  cbn [ref_months]. destruct fuel as [|fuel].
  - assert (m = 12) as -> by lia. cbn [ref_months]. rewrite app_nil_r. split.
    + by apply ref_month_ok.
    + rewrite days_from_civil_year. lia.
  - specialize (IH (m + 1) (86400 * days_from_civil y m 1 + 86400 * ref_month_len y m)).
    destruct (ref_months y (m + 1) (S fuel) _) as [rest secs'].
    destruct IH as [Hrest Hsecs]; [lia..| |lia|].
    + rewrite days_from_civil_month by lia. lia.
    + split; [|done]. apply Forall_app. split; [|done]. apply ref_month_ok; [lia|done].
Qed.

Lemma ref_years_ok y fuel secs :
  secs = 86400 * days_from_civil y 1 1 → Forall ref_entry_ok (ref_years y fuel secs).
Proof.
  revert y secs. induction fuel as [|fuel IH]; intros y secs Hs; cbn [ref_years]; [constructor|].
  pose proof (ref_months_ok y 1 12 secs ltac:(lia) ltac:(done) Hs ltac:(lia)) as Hm.
  destruct (ref_months y 1 12 secs) as [out secs']. destruct Hm as [Hout ->].
  apply Forall_app. split; [done|]. by apply IH.
Qed.

(** The year of an entry. *)
Definition ref_year (e : Z * Z * Z * Z) : Z := e.1.1.1.

Lemma ref_days_year y m d fuel secs : Forall (λ e, ref_year e = y) (ref_days y m d fuel secs).
Proof. revert d secs. induction fuel; intros; constructor; auto. Qed.

Lemma ref_months_year y m fuel secs : Forall (λ e, ref_year e = y) (ref_months y m fuel secs).1.
Proof.
  revert m secs. induction fuel as [|fuel IH]; intros m secs; cbn [ref_months]; [constructor|].
  specialize (IH (m + 1) (secs + 86400 * ref_month_len y m)).
  destruct (ref_months _ _ _ _) as [rest secs']. apply Forall_app. split; [apply ref_days_year|done].
Qed.

Lemma ref_years_year y fuel secs :
  Forall (λ e, y ≤ ref_year e < y + Z.of_nat fuel) (ref_years y fuel secs).
Proof.
  revert y secs. induction fuel as [|fuel IH]; intros y secs; cbn [ref_years]; [constructor|].
  pose proof (ref_months_year y 1 12 secs) as Hm. destruct (ref_months y 1 12 secs) as [out secs'].
  apply Forall_app. split.
  - eapply Forall_impl; [exact Hm|]. simpl. intros. lia.
  - eapply Forall_impl; [apply IH|]. simpl. intros. lia.
Qed.

(** Every entry of the counter is a date that exists, with its midnight. *)
Lemma reference_days_ok last :
  last ≤ 9999 →
  Forall (λ e, let '(y, m, d, secs) := e in
            0 ≤ y ≤ 9999 ∧ valid_date y m d ∧ secs = 86400 * days_from_civil y m d) (reference_days last).
Proof.
  intros Hlast. unfold reference_days.
  pose proof (ref_years_ok 1970 (Z.to_nat (last - FIRST_YEAR + 1)) 0 eq_refl) as Hall.
  pose proof (ref_years_year 1970 (Z.to_nat (last - FIRST_YEAR + 1)) 0) as Hyear.
  rewrite Forall_forall in Hall, Hyear. apply Forall_forall. intros [[[y m] d] secs] Hin.
  apply Hyear in Hin as Hy. apply Hall in Hin as [Hv ->]. unfold ref_year, FIRST_YEAR in Hy. simpl in Hy.
  split; [lia|done].
Qed.

(** ** The parser on the authority's timestamps *)

Lemma is_cont_dec_char v : is_cont (dec_char v) = false.
Proof.
  unfold is_cont, in_range, dec_char. pose proof (Z.mod_pos_bound v 10 ltac:(lia)).
  rewrite u8_as_u8_small by lia. by rewrite (proj2 (Z.leb_gt _ _)) by lia.
Qed.

Definition time_ok (h mi sec : Z) : Prop := 0 ≤ h ≤ 23 ∧ 0 ≤ mi ≤ 59 ∧ 0 ≤ sec ≤ 60.

Lemma dec_width_2 v : dec_width 2 v = [dec_char (v / 10); dec_char v].
Proof. done. Qed.
Lemma dec_width_4 v :
  dec_width 4 v = [dec_char (v / 10 / 10 / 10); dec_char (v / 10 / 10); dec_char (v / 10); dec_char v].
Proof. done. Qed.

Lemma parse_rfc3339_fields y mo d h mi sec :
  0 ≤ y ≤ 9999 → valid_date y mo d → time_ok h mi sec →
  parse_rfc3339 (rfc3339 y mo d h mi sec) =
  Ok (days_from_civil y mo d * 86400 + h * 3600 + mi * 60 + sec).
Proof.
  intros Hy [Hmo Hd] (Hh & Hmi & Hsec). pose proof (ref_month_len_range y mo Hmo) as Hlen.
  assert (as_bytes (rfc3339 y mo d h mi sec) = _) as Hb by apply as_bytes_of_bytes.
  rewrite dec_width_4, !dec_width_2 in Hb. cbn [app] in Hb. unfold parse_rfc3339. rewrite Hb.
  cbv beta iota zeta delta [rfc3339_shape byte_is index lookup list_lookup length Nat.eqb negb].
  cbn [mbind outcome_bind]. rewrite !bool_decide_true by done. cbn [mbind outcome_bind negb].
  cbv beta iota zeta delta [str_get is_char_boundary lookup list_lookup length Nat.eqb negb].
  rewrite !is_cont_dec_char. rewrite !bool_decide_true by (simpl; lia).
  change (is_cont x2d) with false. change (is_cont x54) with false.
  change (is_cont x3a) with false. change (is_cont x5a) with false.
  cbn [andb take drop Nat.sub mbind option_bind].
  rewrite <- !dec_width_2, <- dec_width_4, !parse_i64_width by lia.
  cbn [mbind outcome_bind ok_or].
  rewrite (days_in_month_ref y mo) by done.
  rewrite (proj2 (Z.leb_le 1 mo)), (proj2 (Z.leb_le mo 12)), (proj2 (Z.ltb_ge 23 h)),
    (proj2 (Z.ltb_ge 59 mi)), (proj2 (Z.ltb_ge 60 sec)), (proj2 (Z.ltb_ge d 1)),
    (proj2 (Z.ltb_ge (ref_month_len y mo) d)) by lia. done.
Qed.

(** ** The parser on arbitrary strings *)

Lemma rfc3339_shape_total {E} b : ∃ c, @rfc3339_shape E b = Ok c.
Proof.
  unfold rfc3339_shape. destruct (Nat.eqb_spec (length b) 20) as [Hl|]; [|by eexists]. cbn [negb].
  assert (∀ i sep, (i < 20)%nat → ∃ c, @byte_is E b i sep = Ok c) as Hb.
  { intros i sep Hi. unfold byte_is. destruct (index_in_range (E:=E) b i) as (x & -> & _); [lia|].
    simpl. eauto. }
  repeat match goal with
  | |- context [byte_is b ?i ?sep] =>
      let c := fresh "c" in destruct (Hb i sep ltac:(lia)) as [c ->]; simpl; destruct c; simpl; [|by eexists]
  end. by eexists.
Qed.

(** The only error is the one about the string itself. *)
Lemma parse_rfc3339_fails s : (∃ t, parse_rfc3339 s = Ok t) ∨ parse_rfc3339 s = Err s.
Proof.
  unfold parse_rfc3339. destruct (@rfc3339_shape_total string (as_bytes s)) as [[] ->]; simpl; [|by right].
  repeat match goal with
  | |- context [ok_or ?o s] => destruct o; simpl; [|by right]
  end. repeat case_match; eauto.
Qed.

Lemma parse_rfc3339_no_panic s : parse_rfc3339 s ≠ Panic.
Proof. destruct (parse_rfc3339_fails s) as [[t ->]| ->]; done. Qed.

(** A field of [n] bytes, read back. *)
Lemma rfc3339_field b from to v :
  (part ← str_get b from to; parse_i64 part) = Some v → Z.abs v ≤ 10 ^ Z.of_nat (to - from) - 1.
Proof.
  intros (part & Hg & Hp)%bind_Some. apply parse_int_abs in Hp. unfold str_get in Hg.
  case_match; simplify_eq. etransitivity; [exact Hp|]. apply Z.sub_le_mono_r, Z.pow_le_mono_r; [lia|].
  rewrite length_take. lia.
Qed.

Lemma parse_rfc3339_Ok s t :
  parse_rfc3339 s = Ok t →
  ∃ y mo d h mi sec,
    t = days_from_civil y mo d * 86400 + h * 3600 + mi * 60 + sec ∧
    valid_date y mo d ∧ -9999 ≤ y ≤ 9999 ∧ -99 ≤ h ≤ 23 ∧ -99 ≤ mi ≤ 59 ∧ -99 ≤ sec ≤ 60.
Proof.
  unfold parse_rfc3339. intros (shape & _ & Hp)%bind_Ok. destruct shape; [|done]. simpl in Hp.
  apply bind_Ok in Hp as (y & Hy%ok_or_Ok%rfc3339_field & Hp).
  apply bind_Ok in Hp as (mo & _ & Hp). apply bind_Ok in Hp as (d & _ & Hp).
  apply bind_Ok in Hp as (h & Hh%ok_or_Ok%rfc3339_field & Hp).
  apply bind_Ok in Hp as (mi & Hmi%ok_or_Ok%rfc3339_field & Hp).
  apply bind_Ok in Hp as (sec & Hsec%ok_or_Ok%rfc3339_field & Hp).
  simpl in Hy, Hh, Hmi, Hsec.
  destruct (_ || _) eqn:Hr1 in Hp; [done|]. destruct (_ || _) eqn:Hr2 in Hp; [done|].
  injection Hp as <-. rewrite !orb_false_iff, negb_false_iff, andb_true_iff in Hr1.
  rewrite orb_false_iff in Hr2. destruct Hr1 as [[[[Hm1 Hm2] Hh'] Hmi'] Hsec'], Hr2 as [Hd1 Hd2].
  rewrite Z.leb_le in Hm1, Hm2. rewrite Z.ltb_ge in Hh', Hmi', Hsec', Hd1, Hd2.
  rewrite days_in_month_ref in Hd2 by lia.
  exists y, mo, d, h, mi, sec. repeat split; lia.
Qed.

Lemma days_from_civil_range y m d :
  valid_date y m d → -10000 ≤ y ≤ 10000 → -5000000 ≤ days_from_civil y m d ≤ 5000000.
Proof.
  intros [Hm Hd] Hy. rewrite days_from_civil_sum by done.
  pose proof (ref_month_len_range y m Hm). unfold march_days, month_start.
  case_match; Z.to_euclidean_division_equations; lia.
Qed.

(** Every timestamp that parses is far inside the range of [i64]. *)
Lemma parse_rfc3339_range s t : parse_rfc3339 s = Ok t → Z.abs t ≤ 2 ^ 40.
Proof.
  intros (y & mo & d & h & mi & sec & -> & Hd & Hy & Hh & Hmi & Hsec)%parse_rfc3339_Ok.
  pose proof (days_from_civil_range y mo d Hd ltac:(lia)). lia.
Qed.

(** ** Properties *)

(** [days_from_civil] counts days.  Starting at 1970-01-01 and stepping one
    calendar day at a time with the reference month lengths, the [n]-th date
    exists and [days_from_civil] of it is [n], for every [n]. *)
Theorem days_from_civil_counts n :
  let '(y, m, d) := Nat.iter n next_day (1970, 1, 1) in
  valid_date y m d ∧ days_from_civil y m d = Z.of_nat n.
Proof.
  induction n as [|n IH]; [done|]. rewrite Nat.iter_succ.
  destruct (Nat.iter n next_day (1970, 1, 1)) as [[y m] d]. destruct IH as [Hv Hd].
  pose proof (days_from_civil_next y m d Hv) as Hn.
  destruct (next_day (y, m, d)) as [[y' m'] d']. destruct Hn as [Hv' ->]. split; [done|lia].
Qed.

(** C40. The production parser agrees with the tests' reference counter on
    every day up to the year 9999 (the tests run it up to 2100) and every time
    of day: each entry of [reference_days] is a date that exists, and
    [parse_rfc3339] of any time of that day, a leap second included, is the
    counter's number of seconds at midnight and the seconds since. *)
Theorem parse_rfc3339_reference last y m d secs h mi sec :
  last ≤ 9999 → In (y, m, d, secs) (reference_days last) →
  0 ≤ h ≤ 23 → 0 ≤ mi ≤ 59 → 0 ≤ sec ≤ 60 →
  valid_date y m d ∧ parse_rfc3339 (rfc3339 y m d h mi sec) = Ok (secs + (h * 60 + mi) * 60 + sec).
Proof.
  intros Hlast Hin%list_elem_of_In Hh Hmi Hsec.
  pose proof (reference_days_ok last Hlast) as Hall. rewrite Forall_forall in Hall.
  apply Hall in Hin as (Hy & Hv & ->). split; [done|].
  rewrite parse_rfc3339_fields; [f_equal; lia|lia|done|repeat split; lia].
Qed.

Lemma parse_rfc3339_reference_witness :
  In (1970, 3, 1, 5097600) (reference_days 1970) ∧ parse_rfc3339 (rfc3339 1970 3 1 13 45 9) = Ok 5147109.
Proof.
  assert (In (1970, 3, 1, 5097600) (reference_days 1970)) as Hin
    by (apply list_elem_of_In; eapply bool_decide_eq_true_1; vm_compute; reflexivity).
  split; [exact Hin|]. apply (parse_rfc3339_reference 1970 1970 3 1 5097600 13 45 9); [lia|exact Hin|lia..].
Defined.

(** The parser never panics, on any string, and reads back every timestamp
    the authority prints; a value it returns is the time of a date that exists
    and lies far inside [i64], so none of its arithmetic overflows. *)
Theorem parse_rfc3339_total s :
  match parse_rfc3339 s with
  | Ok t => Z.abs t ≤ 2 ^ 40 ∧
      ∃ y mo d h mi sec, valid_date y mo d ∧ h ≤ 23 ∧ mi ≤ 59 ∧ sec ≤ 60 ∧
        t = days_from_civil y mo d * 86400 + h * 3600 + mi * 60 + sec ∧
        (0 ≤ y → 0 ≤ h → 0 ≤ mi → 0 ≤ sec → parse_rfc3339 (rfc3339 y mo d h mi sec) = Ok t)
  | Err s' => s' = s
  | Panic => False
  end.
Proof.
  destruct (parse_rfc3339 s) as [t|e|] eqn:Hp.
  - split; [by eapply parse_rfc3339_range|].
    apply parse_rfc3339_Ok in Hp as (y & mo & d & h & mi & sec & -> & Hd & Hy & Hh & Hmi & Hsec).
    exists y, mo, d, h, mi, sec. repeat split; try apply Hd; try lia.
    intros. apply parse_rfc3339_fields; [lia|done|repeat split; lia].
  - destruct (parse_rfc3339_fails s) as [[t Hs]|Hs]; congruence.
  - by eapply parse_rfc3339_no_panic.
Qed.

(** The parser is wider than the one shape its comment promises: a field
    is read by [i64]'s own parser, which takes a sign, and the hour, minute and
    second are only bounded from above.  An hour of [-5] and a day of [+1] are
    accepted. *)
Theorem parse_rfc3339_accepts_signs :
  parse_rfc3339 "2026-01-01T-5:00:00Z" = Ok (days_from_civil 2026 1 1 * 86400 - 5 * 3600) ∧
  parse_rfc3339 "2026-01-+1T00:-9:+0Z" = Ok (days_from_civil 2026 1 1 * 86400 - 9 * 60).
Proof. split; vm_compute; reflexivity. Qed.
