(* ===== verification/State.v ===== *)
(** QuietHop: the persistent registry state and the disk under it.

    [quiethop-crypto/src/state.rs] ([state_dir], [state_path], [load],
    [store]) over a model of the file system.  A file has its bytes, its mode
    and a flag saying whether its bytes have reached stable storage.  Every
    operation that can fail takes its next verdict from a script of faults, so
    a theorem over all scripts covers a failure, or a crash, at every point of
    [store].  JSON encoding is [serde_json]'s: the class [StateJson]. *)

From S2P Require Import Prelude Bytes Text.

#[local] Open Scope Z_scope.

(** ** Errors of the registry modules

    A message is represented by its template, with the values the template
    prints. *)
Inductive reason :=
  | BadTimestamp (s : string)
  | NoIpLiteral | PortZero | KeyNotHex | KeyNot32Bytes
  | ThresholdZero | NotAnEnvelope | DocumentNotBase64
  | TooFewSignatures (got want : nat)
  | DocumentDoesNotParse
  | UntilNotAfter | NotOnExactHour (s : string)
  | VersionMismatch (version expected : Z)
  | NotYetValid (s : string) | Expired (s : string)
  | Rollback (version highest : Z)
  | NoPinnedKey | ThresholdTooHigh (threshold pinned : nat)
  | FetchFailed | FetchStatus (code : Z) | BodyUnreadable
  | NothingAccepted | OutsideValidity.

Inductive state_reason :=
  | NoStateDir | NotReadable | Corrupt | NonPositiveVersion
  | CannotCreate | CannotEncode | CannotOpen | CannotWrite | CannotSync | CannotReplace
  | StoredNotBase64.

Inductive RegistryError :=
  | RegRegistry (why : reason)
  | RegEquivocation (version : Z)
  | RegInvalidKey
  | RegState (why : state_reason).

Record RegistryState := mkRegistryState {
  highest_version : Z;
  document_b64 : string;
  key_ids : list string;
  envelope_b64 : option string;
}.

#[export] Instance RegistryState_eq_dec : EqDecision RegistryState.
Proof. solve_decision. Defined.

(** ** The disk *)

Record file := mkFile { f_data : list byte; f_mode : Z; f_synced : bool }.

(** The verdict on one operation.  A failed write may have written a prefix. *)
Inductive fault := Works | Fails (written : nat).

Record disk := mkDisk { files : gmap string file; faults : list fault }.

(** Take the next verdict; an exhausted script means that nothing fails. *)
Definition next_fault : st disk io_error fault := λ d,
  match faults d with
  | [] => (d, Ok Works)
  | f :: r => (mkDisk (files d) r, Ok f)
  end.

Definition get_files : st disk io_error (gmap string file) := λ d, (d, Ok (files d)).

Definition modify_files (f : gmap string file → gmap string file) : st disk io_error unit := λ d,
  (mkDisk (f (files d)) (faults d), Ok ()).

(** An operation that changes the files when it works and not otherwise. *)
Definition fs_simple (f : gmap string file → gmap string file) : st disk io_error unit :=
  v ← next_fault;
  match v with Works => modify_files f | Fails _ => fail IoOther end.

(** [std::fs::read]. *)
Definition fs_read (path : string) : st disk io_error (list byte) :=
  v ← next_fault;
  m ← get_files;
  match v, m !! path with
  | Fails _, _ => fail IoOther
  | Works, None => fail NotFound
  | Works, Some f => mret (f_data f)
  end.

(** [std::fs::create_dir_all]: directories are not part of the model. *)
Definition fs_create_dir_all (dir : string) : st disk io_error unit := fs_simple id.

(** [OpenOptions] with write, create and truncate: an existing file keeps its
    mode. *)
Definition fs_open_truncate (path : string) (mode : Z) : st disk io_error unit :=
  fs_simple (λ m, <[path := mkFile [] (from_option f_mode mode (m !! path)) false]> m).

(** [write_all] on the file just opened. *)
Definition fs_write_all (path : string) (body : list byte) : st disk io_error unit :=
  v ← next_fault;
  let put bytes := modify_files (alter (λ f, mkFile (f_data f ++ bytes) (f_mode f) false) path) in
  match v with
  | Works => put body
  | Fails n => _ ← put (take n body); fail IoOther
  end.

(** [sync_all]. *)
Definition fs_sync_all (path : string) : st disk io_error unit :=
  fs_simple (alter (λ f, mkFile (f_data f) (f_mode f) true) path).

(** [std::fs::rename]. *)
Definition fs_rename (src dst : string) : st disk io_error unit :=
  fs_simple (λ m, match m !! src with Some f => <[dst := f]> (delete src m) | None => m end).

(** What a power failure may do: files that were not synced end up with any
    bytes; synced ones keep theirs.  A rename that has returned counts as durable:
    [store] does not sync the directory, so on a file system that may lose such
    a rename the old state file can come back after a success. *)
Definition crash (m m' : gmap string file) : Prop :=
  ∀ p, match m !! p, m' !! p with
       | None, None => True
       | Some f, Some f' => f_synced f = true → f' = f
       | _, _ => False
       end.

(** ** Paths and the environment *)

Definition last_is_slash (s : string) : bool :=
  bool_decide (last (as_bytes s) = Some x2f).

(** [Path::join] with a relative component. *)
Definition path_join (dir name : string) : string :=
  if bool_decide (dir = EmptyString) then name
  else if last_is_slash dir then dir +:+ name
  else dir +:+ "/" +:+ name.

(** [state_dir]; [env] is [std::env::var], with [None] for its error. *)
Definition state_dir (env : string → option string) : outcome RegistryError string :=
  match env "QUIETHOP_STATE_DIR" with
  | Some (String _ _ as dir) => Ok dir
  | _ =>
      match env "XDG_STATE_HOME" with
      | Some (String _ _ as dir) => Ok (path_join dir "quiethop")
      | _ =>
          home ← ok_or (env "HOME") (RegState NoStateDir);
          Ok (path_join home ".local/state/quiethop")
      end
  end.

Definition state_path (dir : string) : string := path_join dir "registry.json".
Definition tmp_path (dir : string) : string := path_join dir "registry.json.tmp".

(** ** [load] and [store] *)

Class StateJson := {
  state_from_slice : list byte → option RegistryState;
  state_to_vec_pretty : RegistryState → option (list byte);
}.

(** What a serialisation library promises: what it writes, it reads back. *)
Class StateJsonLaws `{StateJson} := {
  state_json_round_trip s : ∃ body, state_to_vec_pretty s = Some body ∧ state_from_slice body = Some s;
}.

Definition STATE_MODE : Z := 384. (* 0o600 *)

Section state.
Context `{StateJson}.

Definition load (dir : string) : st disk RegistryError (option RegistryState) := λ d,
  match fs_read (state_path dir) d with
  | (d, Err NotFound) => (d, Ok None)
  | (d, Err _) => (d, Err (RegState NotReadable))
  | (d, Panic) => (d, Panic)
  | (d, Ok raw) =>
      match state_from_slice raw with
      | None => (d, Err (RegState Corrupt))
      | Some s =>
          if highest_version s <=? 0 then (d, Err (RegState NonPositiveVersion))
          else (d, Ok (Some s))
      end
  end.

Definition store (dir : string) (s : RegistryState) : st disk RegistryError unit :=
  _ ← st_map_err (λ _, RegState CannotCreate) (fs_create_dir_all dir);
  let target := state_path dir in
  let tmp := tmp_path dir in
  body ← lift (ok_or (state_to_vec_pretty s) (RegState CannotEncode));
  _ ← st_map_err (λ _, RegState CannotOpen) (fs_open_truncate tmp STATE_MODE);
  _ ← st_map_err (λ _, RegState CannotWrite) (fs_write_all tmp body);
  _ ← st_map_err (λ _, RegState CannotSync) (fs_sync_all tmp);
  st_map_err (λ _, RegState CannotReplace) (fs_rename tmp target).
End state.

(** ** Lemmas on the disk *)

Lemma fs_simple_cases f d :
  ∃ r, fs_simple f d = (mkDisk (files d) r, Err IoOther) ∨
       fs_simple f d = (mkDisk (f (files d)) r, Ok ()).
Proof.
  unfold fs_simple, next_fault, mbind, st_bind. destruct d as [m [|[|n] r]]; simpl; eauto.
Qed.

Lemma fs_write_all_cases path body d :
  ∃ r k, fs_write_all path body d =
         (mkDisk (alter (λ f, mkFile (f_data f ++ take k body) (f_mode f) false) path (files d)) r,
          Err IoOther) ∨
       fs_write_all path body d =
         (mkDisk (alter (λ f, mkFile (f_data f ++ body) (f_mode f) false) path (files d)) r, Ok ()).
Proof.
  unfold fs_write_all, next_fault, mbind, st_bind. destruct d as [m [|[|n] r]]; simpl.
  - exists [], 0%nat. by right.
  - exists r, 0%nat. by right.
  - exists r, n. by left.
Qed.

Lemma fs_read_works path d :
  faults d = [] →
  fs_read path d = match files d !! path with
                   | Some f => (d, Ok (f_data f)) | None => (d, Err NotFound) end.
Proof.
  intros Hf. unfold fs_read, next_fault, get_files, mbind, st_bind. rewrite Hf. simpl.
  by destruct (files d !! path).
Qed.

Lemma fs_read_files path d d' r : fs_read path d = (d', r) → files d' = files d.
Proof.
  unfold fs_read, next_fault, get_files, mbind, st_bind, fail, mret, st_ret.
  destruct d as [m [|[|n] fs]]; simpl; destruct (m !! path); simpl; by intros [= <- <-].
Qed.

Lemma fs_read_no_panic path d : snd (fs_read path d) ≠ Panic.
Proof.
  unfold fs_read, next_fault, get_files, mbind, st_bind, fail, mret, st_ret.
  destruct d as [m [|[|n] fs]]; simpl; by destruct (m !! path).
Qed.

Lemma path_join_inj dir a b : path_join dir a = path_join dir b → a = b.
Proof.
  unfold path_join. repeat case_match; intros Heq; [done|by simplify_eq..].
Qed.

Lemma state_path_ne_tmp dir : state_path dir ≠ tmp_path dir.
Proof. intros Heq%path_join_inj. done. Qed.

(** The file [store] leaves at its target. *)
Definition stored_file (m : gmap string file) (dir : string) (body : list byte) : file :=
  mkFile body (from_option f_mode STATE_MODE (m !! tmp_path dir)) true.

Section state_lemmas.
Context `{StateJson}.

(** All that [store] can do to the files, whatever fails. *)
Lemma store_cases dir s d d' r :
  store dir s d = (d', r) →
  (r = Ok () ∧ ∃ body, state_to_vec_pretty s = Some body ∧
     files d' = <[state_path dir := stored_file (files d) dir body]> (delete (tmp_path dir) (files d))) ∨
  (∃ why, r = Err (RegState why) ∧ ∀ p, p ≠ tmp_path dir → files d' !! p = files d !! p).
Proof.
  unfold store, fs_create_dir_all.
  destruct (fs_simple_cases id d) as [r1 [E1|E1]].
  { erewrite st_bind_Err_eq by (by apply st_map_err_Err_eq). intros; simplify_eq/=. eauto. }
  erewrite st_bind_Ok_eq by (by apply st_map_err_Ok_eq). simpl. clear E1.
  destruct (state_to_vec_pretty s) as [body|];
    [erewrite st_bind_Ok_eq by apply lift_eq|erewrite st_bind_Err_eq by apply lift_eq;
     intros; simplify_eq/=; eauto].
  unfold fs_open_truncate.
  match goal with |- context [fs_simple ?f] => set (opn := f) end.
  destruct (fs_simple_cases opn (mkDisk (files d) r1)) as [r2 [E2|E2]].
  { erewrite st_bind_Err_eq by (by apply st_map_err_Err_eq). intros; simplify_eq/=. eauto. }
  erewrite st_bind_Ok_eq by (by apply st_map_err_Ok_eq). clear E2.
  destruct (fs_write_all_cases (tmp_path dir) body (mkDisk (opn (files d)) r2)) as (r3 & k & [E3|E3]);
    cbn [files] in E3; unfold opn in E3; rewrite alter_insert_eq in E3; cbn [f_data f_mode app] in E3.
  { erewrite st_bind_Err_eq by (by apply st_map_err_Err_eq). intros; simplify_eq/=.
    right. eexists. split; [done|]. intros p Hp. by rewrite lookup_insert_ne. }
  erewrite st_bind_Ok_eq by (by apply st_map_err_Ok_eq). clear E3.
  unfold fs_sync_all.
  match goal with |- context [fs_simple ?f] => set (syn := f) end.
  match goal with |- context [mkDisk ?m r3] => destruct (fs_simple_cases syn (mkDisk m r3)) as [r4 [E4|E4]] end.
  { erewrite st_bind_Err_eq by (by apply st_map_err_Err_eq). intros; simplify_eq/=.
    right. eexists. split; [done|]. intros p Hp. by rewrite lookup_insert_ne. }
  erewrite st_bind_Ok_eq by (by apply st_map_err_Ok_eq). clear E4. unfold syn. cbn [files].
  rewrite alter_insert_eq. cbn [f_data f_mode]. unfold fs_rename.
  match goal with |- context [fs_simple ?f] => set (ren := f) end.
  match goal with |- context [mkDisk ?m r4] => destruct (fs_simple_cases ren (mkDisk m r4)) as [r5 [E5|E5]] end.
  { erewrite st_map_err_Err_eq by done. intros; simplify_eq/=.
    right. eexists. split; [done|]. intros p Hp. by rewrite lookup_insert_ne. }
  erewrite st_map_err_Ok_eq by done. intros; simplify_eq/=. left. split; [done|]. exists body. split; [done|].
  unfold ren. rewrite lookup_insert_eq, delete_insert_eq. done.
Qed.

Lemma load_no_panic dir d : snd (load dir d) ≠ Panic.
Proof.
  unfold load. pose proof (fs_read_no_panic (state_path dir) d).
  destruct (fs_read _ d) as [d1 [raw|[]|]]; try done. by repeat case_match.
Qed.

(** [load] leaves the files as they are. *)
Lemma load_files dir d d' r : load dir d = (d', r) → files d' = files d.
Proof.
  unfold load. destruct (fs_read _ d) as [d1 o] eqn:Hr. apply fs_read_files in Hr.
  intros Hl. repeat case_match; by simplify_eq.
Qed.

(** What a stored state looks like to [load]. *)
Lemma load_stored dir d f s :
  faults d = [] → files d !! state_path dir = Some f → state_from_slice (f_data f) = Some s →
  load dir d = (d, if highest_version s <=? 0 then Err (RegState NonPositiveVersion) else Ok (Some s)).
Proof.
  intros Hf Hl Hs. unfold load. rewrite fs_read_works, Hl by done. rewrite Hs. by case_match.
Qed.

Lemma load_absent dir d :
  faults d = [] → files d !! state_path dir = None → load dir d = (d, Ok None).
Proof. intros Hf Hl. unfold load. by rewrite fs_read_works, Hl. Qed.

(** A version [load] returns is positive. *)
Lemma load_positive dir d d' s : load dir d = (d', Ok (Some s)) → 0 < highest_version s.
Proof.
  unfold load. destruct (fs_read _ d) as [d1 [raw|[]|]]; try done.
  destruct (state_from_slice raw) as [s'|]; [|done].
  destruct (Z.leb_spec (highest_version s') 0); [done|]. by intros [= _ ->].
Qed.
End state_lemmas.

(** ** Properties *)

(** C32. The replacement of the state file is atomic and survives crashes.
    Whatever operations of [store] fail, and if the machine crashes right after
    it stopped, the state file is either untouched or holds the complete new
    state, synced; it is the new one exactly when [store] reported success.  No
    file other than the state file and its temporary is changed. *)
Theorem store_atomic `{StateJson} dir s d d' r m :
  (∀ f, files d !! state_path dir = Some f → f_synced f = true) →
  store dir s d = (d', r) → crash (files d') m →
  match r with
  | Ok _ => ∃ body f, state_to_vec_pretty s = Some body ∧
              m !! state_path dir = Some f ∧ f_data f = body ∧ f_synced f = true
  | Err _ => m !! state_path dir = files d !! state_path dir
  | Panic => False
  end ∧
  (∀ p, p ≠ state_path dir → p ≠ tmp_path dir → files d' !! p = files d !! p).
Proof.
  intros Hsync Hst Hcrash. pose proof (state_path_ne_tmp dir) as Hne. specialize (Hcrash (state_path dir)).
  apply store_cases in Hst as [(-> & body & Hbody & Hf)|(why & -> & Hf)].
  - split.
    + rewrite Hf, lookup_insert_eq in Hcrash. destruct (m !! state_path dir) as [f|] eqn:Hm; [|done].
      specialize (Hcrash eq_refl) as ->. eexists _, _. done.
    + intros p Hp Ht. by rewrite Hf, lookup_insert_ne, lookup_delete_ne by done.
  - split; [|by intros; apply Hf]. rewrite Hf in Hcrash by done.
    destruct (files d !! state_path dir) as [f|] eqn:Hd.
    + destruct (m !! state_path dir) as [f'|]; [|done]. f_equal. apply Hcrash. by apply Hsync.
    + by destruct (m !! state_path dir).
Qed.

(** A sample serialiser for the witnesses: the fields of a state numbered by
    [Countable], the number written bit by bit. *)
Definition state_tuple (s : RegistryState) : Z * string * list string * option string :=
  (highest_version s, document_b64 s, key_ids s, envelope_b64 s).
Definition tuple_state (t : Z * string * list string * option string) : RegistryState :=
  mkRegistryState t.1.1.1 t.1.1.2 t.1.2 t.2.

Fixpoint bits_of_pos (p : positive) : list byte :=
  match p with xH => [] | xO p => x00 :: bits_of_pos p | xI p => x01 :: bits_of_pos p end.
Fixpoint pos_of_bits (l : list byte) : positive :=
  match l with [] => xH | x00 :: l => xO (pos_of_bits l) | _ :: l => xI (pos_of_bits l) end.

Lemma pos_of_bits_of_pos p : pos_of_bits (bits_of_pos p) = p.
Proof. induction p; simpl; congruence. Qed.

#[export] Instance sample_state_json : StateJson := {|
  state_from_slice l := tuple_state <$> decode (pos_of_bits l);
  state_to_vec_pretty s := Some (bits_of_pos (encode (state_tuple s)));
|}.

#[export] Instance sample_state_json_laws : StateJsonLaws.
Proof.
  constructor. intros s. exists (bits_of_pos (encode (state_tuple s))). split; [done|].
  simpl. rewrite pos_of_bits_of_pos, decode_encode. by destruct s.
Qed.

Definition sample_state (v : Z) : RegistryState := mkRegistryState v "ZG9j" ["0707070707070707"] None.
Definition empty_disk : disk := mkDisk ∅ [].

Lemma store_atomic_witness :
  store "d" (sample_state 7) (mkDisk ∅ [Works; Works; Fails 3]) =
    (fst (store "d" (sample_state 7) (mkDisk ∅ [Works; Works; Fails 3])), Err (RegState CannotWrite)) ∧
  files (fst (store "d" (sample_state 7) (mkDisk ∅ [Works; Works; Fails 3]))) !! state_path "d" = None.
Proof.
  split; [by vm_compute|].
  pose proof (store_atomic "d" (sample_state 7) (mkDisk ∅ [Works; Works; Fails 3])
    (fst (store "d" (sample_state 7) (mkDisk ∅ [Works; Works; Fails 3])))
    (snd (store "d" (sample_state 7) (mkDisk ∅ [Works; Works; Fails 3])))
    (files (fst (store "d" (sample_state 7) (mkDisk ∅ [Works; Works; Fails 3]))))) as Hs.
  destruct Hs as [Hs _].
  - intros f Hf. vm_compute in Hf. discriminate.
  - reflexivity.
  - intros p. destruct (files _ !! p); auto.
  - exact Hs.
Defined.

(** C33. What [store] writes [load] reads back, with a condition the writer does
    not check: [load] refuses a stored version that is not positive, so storing
    one makes every later [load] fail. *)
Theorem store_load_round_trip `{StateJsonLaws} dir s d d' :
  store dir s d = (d', Ok ()) → faults d' = [] →
  load dir d' = (d', if highest_version s <=? 0 then Err (RegState NonPositiveVersion) else Ok (Some s)).
Proof.
  intros Hst Hf. destruct (state_json_round_trip s) as (body & Hb & Hd).
  apply store_cases in Hst as [(_ & body' & Hb' & Hfiles)|(why & ? & _)]; [|done].
  rewrite Hb in Hb'. injection Hb' as <-.
  eapply load_stored; [done|by rewrite Hfiles, lookup_insert_eq|done].
Qed.

Lemma store_load_round_trip_witness :
  snd (load "d" (fst (store "d" (sample_state 7) empty_disk))) = Ok (Some (sample_state 7)) ∧
  snd (load "d" (fst (store "d" (sample_state 0) empty_disk))) = Err (RegState NonPositiveVersion).
Proof.
  split.
  - rewrite (store_load_round_trip "d" (sample_state 7) empty_disk); reflexivity.
  - rewrite (store_load_round_trip "d" (sample_state 0) empty_disk); reflexivity.
Defined.
