(* ===== verification/Registry.v ===== *)
(** QuietHop: the signed relay registry.

    [quiethop-crypto/src/registry.rs]: pinned keys, the envelope verifier
    [verify] with [check_validity] and [check_rollback], the accessors of an
    entry and of a document, and [remember].  Base64, SHA-256, Ed25519 and the
    JSON decoders are other crates' code: the classes below.  Clock values are
    [i64]; the one addition to a clock value wraps as in a release build. *)

From S2P Require Import Prelude Bytes Text NetAddr Civil State.

#[local] Open Scope Z_scope.

Record RelayEntry := mkRelayEntry {
  re_id : string; operator_id : string; host_id : string; role : string;
  ip : string; port : Z; tls_name : string; static_pubkey : string;
}.

#[export] Instance RelayEntry_eq_dec : EqDecision RelayEntry.
Proof. solve_decision. Defined.

Record Document := mkDocument {
  version : Z; valid_after : string; fresh_until : string; valid_until : string;
  relays : list RelayEntry;
}.

Record SignatureEntry := mkSignatureEntry { se_key_id : string; se_sig : string }.
Record Envelope := mkEnvelope { env_document : string; env_signatures : list SignatureEntry }.

(** ** Code of other crates *)

Class Base64 := {
  b64_decode : list byte → option (list byte);
  b64_encode : list byte → string;
}.
Class Base64Laws `{Base64} := {
  b64_round_trip l : b64_decode (as_bytes (b64_encode l)) = Some l;
}.

Class Sha256 := { sha256 : list byte → list byte }.
Class Sha256Laws `{Sha256} := { sha256_length l : length (sha256 l) = 32%nat }.

Class Ed25519 := {
  VerifyingKey : Type;
  vk_from_bytes : list byte → option VerifyingKey;
  verify_strict : VerifyingKey → list byte → list byte → bool;
}.

Class RegistryJson := {
  envelope_from_slice : list byte → option Envelope;
  document_from_slice : list byte → option Document;
}.

(** ** Constants *)

Definition DOMAIN : list byte := as_bytes "quiethop/v1/registry".
Definition SKEW_ALLOWANCE_SECS : Z := 60.
Definition DEFAULT_THRESHOLD : nat := 1.
Definition SIGNATURE_LENGTH : nat := 64.

(** [BTreeSet<String>::insert]: a sorted list without duplicates. *)
Fixpoint sorted_insert (x : string) (l : list string) : list string :=
  match l with
  | [] => [x]
  | y :: r => if String.leb x y then x :: l else y :: sorted_insert x r
  end.
Definition btree_insert (x : string) (l : list string) : list string :=
  if decide (x ∈ l) then l else sorted_insert x l.

(** [parse_rfc3339] with its error as a [RegistryError]. *)
Definition timestamp (s : string) : outcome RegistryError Z :=
  map_err (λ s, RegRegistry (BadTimestamp s)) (parse_rfc3339 s).

(** ** Entries and documents *)

Definition RelayEntry_ip_addr (e : RelayEntry) : outcome RegistryError IpAddr :=
  a ← ok_or (parse_ip (ip e)) (RegRegistry NoIpLiteral);
  Ok (canonical_ip a).

Definition RelayEntry_addr (e : RelayEntry) : outcome RegistryError SocketAddr :=
  a ← RelayEntry_ip_addr e;
  if port e =? 0 then Err (RegRegistry PortZero)
  else Ok (mkSocketAddr a (port e)).

Definition RelayEntry_static_key (e : RelayEntry) : outcome RegistryError (list byte) :=
  raw ← ok_or (decode_hex (static_pubkey e)) (RegRegistry KeyNotHex);
  if (length raw =? 32)%nat then Ok raw else Err (RegRegistry KeyNot32Bytes).

Definition Document_valid_after_unix (d : Document) : outcome RegistryError Z := timestamp (valid_after d).
Definition Document_fresh_until_unix (d : Document) : outcome RegistryError Z := timestamp (fresh_until d).
Definition Document_valid_until_unix (d : Document) : outcome RegistryError Z := timestamp (valid_until d).

Definition Document_is_usable_at (d : Document) (now_unix : Z) : outcome RegistryError bool :=
  after ← Document_valid_after_unix d;
  until ← Document_valid_until_unix d;
  Ok ((after <=? i64_add now_unix SKEW_ALLOWANCE_SECS) && (now_unix <? until)).

(** ** Verification *)

Section registry.
Context `{Base64, Sha256, Ed25519, RegistryJson}.

Record PinnedKey := mkPinnedKey { pk_key_id : string; pk_key : VerifyingKey }.

(** [key_id_for]: [digest[..8]] in hex. *)
Definition key_id_for (raw : list byte) : outcome RegistryError string :=
  head ← slice_to (sha256 raw) 8; Ok (hex_of head).

Definition PinnedKey_from_bytes (raw : list byte) : outcome RegistryError PinnedKey :=
  key ← ok_or (vk_from_bytes raw) RegInvalidKey;
  kid ← key_id_for raw;
  Ok (mkPinnedKey kid key).

Definition PinnedKey_from_hex (hex : string) : outcome RegistryError PinnedKey :=
  raw ← ok_or (decode_hex32 hex) RegInvalidKey;
  PinnedKey_from_bytes raw.

Definition signed_message (document : list byte) : list byte := DOMAIN ++ [x00] ++ document.

Record Verified := mkVerified {
  document : Document; bytes : list byte; v_key_ids : list string;
}.

(** One turn of the loop over [envelope.signatures]. *)
Definition accept_signature (pinned : list PinnedKey) (msg : list byte)
    (accepted : list string) (entry : SignatureEntry) : list string :=
  match find (λ p, String.eqb (pk_key_id p) (se_key_id entry)) pinned with
  | None => accepted
  | Some pin =>
      match b64_decode (as_bytes (se_sig entry)) with
      | None => accepted
      | Some raw =>
          if negb (length raw =? SIGNATURE_LENGTH)%nat then accepted
          else if verify_strict (pk_key pin) msg raw then btree_insert (pk_key_id pin) accepted
          else accepted
      end
  end.

Definition check_validity (doc : Document) (now_unix : Z) : outcome RegistryError unit :=
  after ← timestamp (valid_after doc);
  until ← timestamp (valid_until doc);
  if until <=? after then Err (RegRegistry UntilNotAfter) else
  if negb (Z.rem after 3600 =? 0) then Err (RegRegistry (NotOnExactHour (valid_after doc))) else
  let expected := Z.quot after 3600 in
  if negb (version doc =? expected) then Err (RegRegistry (VersionMismatch (version doc) expected)) else
  if i64_add now_unix SKEW_ALLOWANCE_SECS <? after then Err (RegRegistry (NotYetValid (valid_after doc))) else
  if until <=? now_unix then Err (RegRegistry (Expired (valid_until doc))) else
  Ok ().

Definition check_rollback (doc : Document) (bytes : list byte) (previous : option RegistryState)
    : outcome RegistryError unit :=
  match previous with
  | None => Ok ()
  | Some prev =>
      if version doc <? highest_version prev
      then Err (RegRegistry (Rollback (version doc) (highest_version prev)))
      else if version doc =? highest_version prev then
        stored ← ok_or (b64_decode (as_bytes (document_b64 prev))) (RegState StoredNotBase64);
        if bool_decide (stored ≠ bytes) then Err (RegEquivocation (version doc)) else Ok ()
      else Ok ()
  end.

Definition verify (body : list byte) (pinned : list PinnedKey) (threshold : nat)
    (now_unix : Z) (previous : option RegistryState) : outcome RegistryError Verified :=
  if (threshold =? 0)%nat then Err (RegRegistry ThresholdZero) else
  envelope ← ok_or (envelope_from_slice body) (RegRegistry NotAnEnvelope);
  bytes ← ok_or (b64_decode (as_bytes (env_document envelope))) (RegRegistry DocumentNotBase64);
  let msg := signed_message bytes in
  let accepted := fold_left (accept_signature pinned msg) (env_signatures envelope) [] in
  if (length accepted <? threshold)%nat
  then Err (RegRegistry (TooFewSignatures (length accepted) threshold)) else
  document ← ok_or (document_from_slice bytes) (RegRegistry DocumentDoesNotParse);
  _ ← check_validity document now_unix;
  _ ← check_rollback document bytes previous;
  Ok (mkVerified document bytes accepted).

Context `{StateJson}.

Definition remember (dir : string) (verified : Verified) (envelope : list byte)
    : st disk RegistryError unit :=
  let state := mkRegistryState (version (document verified)) (b64_encode (bytes verified))
                 (v_key_ids verified) (Some (b64_encode envelope)) in
  prev ← load dir;
  match prev with
  | Some prev =>
      if highest_version state <=? highest_version prev then mret () else store dir state
  | None => store dir state
  end.
End registry.

(** ** Lemmas *)

(** Clock readings are far from the ends of [i64]. *)
Definition clock_ok (now : Z) : Prop := Z.abs now ≤ 2 ^ 62.

Lemma clock_skew now : clock_ok now → i64_add now SKEW_ALLOWANCE_SECS = now + SKEW_ALLOWANCE_SECS.
Proof.
  unfold clock_ok, SKEW_ALLOWANCE_SECS. intros. apply i64_add_small.
  unfold in_i64, i64_MIN, i64_MAX. lia.
Qed.

Lemma timestamp_Ok s t : timestamp s = Ok t ↔ parse_rfc3339 s = Ok t.
Proof. apply map_err_Ok. Qed.

Lemma timestamp_no_panic s : timestamp s ≠ Panic.
Proof. unfold timestamp. pose proof (parse_rfc3339_no_panic s). by destruct (parse_rfc3339 s). Qed.

Lemma elem_of_sorted_insert x y l : y ∈ sorted_insert x l ↔ y = x ∨ y ∈ l.
Proof. induction l as [|z l IH]; simpl; [|case_match]; set_solver. Qed.

Lemma elem_of_btree_insert x y l : y ∈ btree_insert x l ↔ y = x ∨ y ∈ l.
Proof. unfold btree_insert. case_decide; [set_solver|apply elem_of_sorted_insert]. Qed.

Lemma NoDup_sorted_insert x l : x ∉ l → NoDup l → NoDup (sorted_insert x l).
Proof.
  induction l as [|z l IH]; simpl; intros Hx Hl.
  - apply NoDup_singleton.
  - apply NoDup_cons in Hl as [Hz Hl]. case_match.
    + by repeat (apply NoDup_cons; split).
    + apply NoDup_cons. split; [rewrite elem_of_sorted_insert; set_solver|apply IH; set_solver].
Qed.

Lemma NoDup_btree_insert x l : NoDup l → NoDup (btree_insert x l).
Proof. unfold btree_insert. case_decide; auto using NoDup_sorted_insert. Qed.

(** What [is_usable_at] decides. *)
Lemma is_usable_at_Ok d now :
  clock_ok now →
  Document_is_usable_at d now = Ok true ↔
  ∃ after until, timestamp (valid_after d) = Ok after ∧ timestamp (valid_until d) = Ok until ∧
                 after ≤ now + SKEW_ALLOWANCE_SECS ∧ now < until.
Proof.
  intros Hc. unfold Document_is_usable_at, Document_valid_after_unix, Document_valid_until_unix.
  rewrite clock_skew by done. split.
  - intros (after & Ha & Hu)%bind_Ok. apply bind_Ok in Hu as (until & Hu & Ht).
    injection Ht as Ht. apply andb_true_iff in Ht as [Ht1 Ht2].
    exists after, until. repeat split; try done; lia.
  - intros (after & until & -> & -> & H1 & H2). simpl. f_equal. apply andb_true_iff. lia.
Qed.

Lemma is_usable_at_no_panic d now : Document_is_usable_at d now ≠ Panic.
Proof.
  unfold Document_is_usable_at, Document_valid_after_unix, Document_valid_until_unix.
  pose proof (timestamp_no_panic (valid_after d)). pose proof (timestamp_no_panic (valid_until d)).
  destruct (timestamp (valid_after d)); try done. simpl. by destruct (timestamp (valid_until d)).
Qed.

Lemma check_validity_no_panic d now : check_validity d now ≠ Panic.
Proof.
  unfold check_validity.
  pose proof (timestamp_no_panic (valid_after d)). pose proof (timestamp_no_panic (valid_until d)).
  destruct (timestamp (valid_after d)); try done. simpl. destruct (timestamp (valid_until d)); try done.
  simpl. by repeat case_match.
Qed.

(** The window of a document at a clock reading. *)
Definition in_window (d : Document) (now : Z) : Prop :=
  ∃ after until, timestamp (valid_after d) = Ok after ∧ timestamp (valid_until d) = Ok until ∧
    after = 3600 * version d ∧ after < until ∧ after ≤ now + SKEW_ALLOWANCE_SECS ∧ now < until.

Lemma check_validity_Ok d now : clock_ok now → check_validity d now = Ok () ↔ in_window d now.
Proof.
  intros Hc. unfold check_validity, in_window. rewrite clock_skew by done. split.
  - intros (after & Ha & Hv)%bind_Ok. apply bind_Ok in Hv as (until & Hu & Hv).
    exists after, until. repeat (case_match; [done|]).
    repeat match goal with
    | H : negb _ = false |- _ => apply negb_false_iff in H
    | H : (_ =? _) = true |- _ => apply Z.eqb_eq in H
    end.
    pose proof (Z.quot_rem' after 3600). repeat split; try done; lia.
  - intros (after & until & -> & -> & -> & H1 & H2 & H3). simpl.
    rewrite Z.mul_comm, Z.rem_mul, Z.quot_mul, !Z.eqb_refl by lia. simpl.
    repeat (case_match; [lia|]). done.
Qed.

(** Documents at most as old as the baseline are refused, and one of the same
    version must be the very same bytes. *)
Definition not_rollback `{Base64} (d : Document) (bytes : list byte) (previous : option RegistryState) : Prop :=
  ∀ prev, previous = Some prev →
    highest_version prev ≤ version d ∧
    (version d = highest_version prev → b64_decode (as_bytes (document_b64 prev)) = Some bytes).

Lemma check_rollback_Ok `{Base64} d bytes previous :
  check_rollback d bytes previous = Ok () ↔ not_rollback d bytes previous.
Proof.
  unfold check_rollback, not_rollback. destruct previous as [prev|]; [|naive_solver].
  destruct (Z.ltb_spec (version d) (highest_version prev)).
  { split; [done|]. intros Hp. destruct (Hp prev eq_refl). lia. }
  destruct (Z.eqb_spec (version d) (highest_version prev)) as [Heq|Hne].
  - destruct (b64_decode (as_bytes (document_b64 prev))) as [stored|] eqn:Hdec; simpl.
    + case_bool_decide as Hb.
      * split; [done|]. intros Hp. destruct (Hp prev eq_refl) as [_ Hs]. specialize (Hs Heq). congruence.
      * subst stored. split; [|done]. intros _ ? [= <-]; split; [lia|done].
    + split; [done|]. intros Hp. destruct (Hp prev eq_refl) as [_ Hs]. specialize (Hs Heq). congruence.
  - split; [|done]. intros _ ? [= <-]. split; [lia|done].
Qed.

Lemma check_rollback_no_panic `{Base64} d bytes previous : check_rollback d bytes previous ≠ Panic.
Proof. unfold check_rollback. repeat case_match; try done. by destruct (b64_decode _); simpl; repeat case_match. Qed.

Section verify_lemmas.
Context `{Base64, Ed25519, RegistryJson}.

(** [kid] is the id of a pinned key, and one of the entries carries a
    signature of [msg] that this key verifies. *)
Definition signed_by (pinned : list PinnedKey) (msg : list byte) (entries : list SignatureEntry)
    (kid : string) : Prop :=
  ∃ entry pin raw, entry ∈ entries ∧
    find (λ p, String.eqb (pk_key_id p) (se_key_id entry)) pinned = Some pin ∧ pk_key_id pin = kid ∧
    b64_decode (as_bytes (se_sig entry)) = Some raw ∧ length raw = SIGNATURE_LENGTH ∧
    verify_strict (pk_key pin) msg raw = true.

Lemma accept_signature_elem pinned msg acc entry kid :
  kid ∈ accept_signature pinned msg acc entry ↔ kid ∈ acc ∨ signed_by pinned msg [entry] kid.
Proof.
  unfold accept_signature, signed_by. split.
  - repeat case_match; try (by left). intros [->|?]%elem_of_btree_insert; [right|by left].
    apply negb_false_iff, Nat.eqb_eq in H4. eexists _, _, _. split; [by left|]. eauto 10.
  - intros [?|(e & pin & raw & He & Hf & Hk & Hd & Hl & Hv)].
    + repeat case_match; try done. rewrite elem_of_btree_insert. by right.
    + apply list_elem_of_singleton in He as ->. rewrite Hf, Hd, Hl, Nat.eqb_refl, Hv. simpl.
      apply elem_of_btree_insert. by left.
Qed.

Lemma accept_signatures_elem pinned msg entries acc kid :
  kid ∈ fold_left (accept_signature pinned msg) entries acc ↔ kid ∈ acc ∨ signed_by pinned msg entries kid.
Proof.
  revert acc. induction entries as [|e entries IH]; intros acc; simpl.
  - split; [by left|]. intros [?|(? & ? & ? & He & _)]; [done|]. by apply not_elem_of_nil in He.
  - rewrite IH, accept_signature_elem. unfold signed_by. set_unfold. naive_solver.
Qed.

Lemma accept_signatures_NoDup pinned msg entries acc :
  NoDup acc → NoDup (fold_left (accept_signature pinned msg) entries acc).
Proof.
  revert acc. induction entries as [|e entries IH]; intros acc Hacc; simpl; [done|]. apply IH.
  unfold accept_signature. repeat case_match; auto using NoDup_btree_insert.
Qed.

(** [verify] succeeded, step by step. *)
Lemma verify_Ok_inv body pinned threshold now previous v :
  verify body pinned threshold now previous = Ok v →
  ∃ env, (1 ≤ threshold)%nat ∧ envelope_from_slice body = Some env ∧
    b64_decode (as_bytes (env_document env)) = Some (bytes v) ∧
    v_key_ids v = fold_left (accept_signature pinned (signed_message (bytes v))) (env_signatures env) [] ∧
    (threshold ≤ length (v_key_ids v))%nat ∧
    document_from_slice (bytes v) = Some (document v) ∧
    check_validity (document v) now = Ok () ∧ check_rollback (document v) (bytes v) previous = Ok ().
Proof.
  unfold verify. destruct (Nat.eqb_spec threshold 0) as [|Ht]; [done|].
  intros (env & Henv%ok_or_Ok & Hv)%bind_Ok. apply bind_Ok in Hv as (bs & Hbs%ok_or_Ok & Hv).
  destruct (Nat.ltb_spec (length (fold_left (accept_signature pinned (signed_message bs)) (env_signatures env) []))
    threshold); [done|].
  apply bind_Ok in Hv as (doc & Hdoc%ok_or_Ok & Hv). apply bind_Ok in Hv as ([] & Hval & Hv).
  apply bind_Ok in Hv as ([] & Hrb & Hv). injection Hv as <-. exists env. simpl.
  repeat split; try done. lia.
Qed.

Lemma verify_no_panic body pinned threshold now previous :
  verify body pinned threshold now previous ≠ Panic.
Proof.
  unfold verify. case_match; [done|]. destruct (envelope_from_slice body) as [env|]; [|done]. simpl.
  destruct (b64_decode _) as [bs|]; [|done]. simpl. case_match; [done|].
  destruct (document_from_slice bs) as [doc|]; [|done]. simpl.
  pose proof (check_validity_no_panic doc now). destruct (check_validity doc now); try done. simpl.
  pose proof (check_rollback_no_panic doc bs previous). by destruct (check_rollback doc bs previous).
Qed.
End verify_lemmas.
