(* ===== verification/SampleRegistry.v ===== *)
(** QuietHop: sample implementations of the registry's dependencies.

    Base64 is played by hex, a signature is the key followed by the front of
    the message, and a document is three bytes: a day of January 2026, an hour
    and a byte that tells documents of one hour apart (with [0xff] the
    document's [fresh_until] is not a timestamp).  They satisfy the laws
    of [Registry] and are executable, for the witnesses. *)

From S2P Require Import Prelude Bytes Text NetAddr Civil State Registry.

#[local] Open Scope Z_scope.

Module SampleReg.

(** The signature of [msg] under [key]. *)
Definition sign (key msg : list byte) : list byte :=
  take 64 (key ++ drop 20 msg ++ replicate 64 x00).

Definition relay_of (d : Z) (i : Z) (r : string) : RelayEntry :=
  mkRelayEntry (of_bytes (dec_width 2 i)) (of_bytes (dec_width 2 i)) (of_bytes (dec_width 2 i)) r
    (of_bytes (show_ipv4 (Ipv4 (as_u8 10) (as_u8 i) (as_u8 d) (as_u8 1)))) 443 "relay.example"
    (hex_of (replicate 32 (as_u8 i))).

Definition doc_of (l : list byte) : option Document :=
  match l with
  | [d; h; k] =>
      let d := u8 d in let h := u8 h in
      if (1 <=? d) && (d <=? 28) && (h <=? 22) then
        Some (mkDocument (24 * days_from_civil 2026 1 d + h) (rfc3339 2026 1 d h 0 0)
                (if bool_decide (k = xff) then "soon" else rfc3339 2026 1 d (h + 1) 0 0)
                (rfc3339 2026 1 (d + 1) h 0 0)
                [relay_of d 1 "guard"; relay_of d 2 "middle"; relay_of d 3 "exit"])
      else None
  | _ => None
  end.

Definition env_of (body : list byte) : option Envelope :=
  if (length body =? 67)%nat then
    Some (mkEnvelope (hex_of (take 3 body)) [mkSignatureEntry "0707070707070707" (hex_of (drop 3 body))])
  else None.

Definition key : list byte := replicate 32 x07.

(** The authority's envelope for a document. *)
Definition publish (doc : list byte) : list byte :=
  doc ++ sign key (DOMAIN ++ [x00] ++ doc).
End SampleReg.

#[export] Instance sample_base64 : Base64 := {|
  b64_decode l := decode_hex (of_bytes l);
  b64_encode := hex_of;
|}.
#[export] Instance sample_base64_laws : Base64Laws.
Proof. constructor. intros l. simpl. rewrite of_bytes_as_bytes. apply decode_hex_hex_of. Qed.

#[export] Instance sample_sha256 : Sha256 := {| sha256 l := take 32 (l ++ replicate 32 x00) |}.
#[export] Instance sample_sha256_laws : Sha256Laws.
Proof. constructor. intros l. change (length (take 32 (l ++ replicate 32 x00)) = 32%nat). rewrite length_take, length_app, length_replicate. lia. Qed.

#[export] Instance sample_ed25519 : Ed25519 := {|
  VerifyingKey := list byte;
  vk_from_bytes raw := if (length raw =? 32)%nat then Some raw else None;
  verify_strict k msg s := bool_decide (s = SampleReg.sign k msg);
|}.

#[export] Instance sample_registry_json : RegistryJson := {|
  envelope_from_slice := SampleReg.env_of;
  document_from_slice := SampleReg.doc_of;
|}.

Definition sample_pins : list PinnedKey := [mkPinnedKey "0707070707070707" (SampleReg.key : VerifyingKey)].

(** Noon of 2 January 2026. *)
Definition sample_now : Z := 86400 * days_from_civil 2026 1 2 + 12 * 3600.
