(* ===== verification/RegistryTheorems.v ===== *)
(** QuietHop: the properties of the registry verifier.

    What [Registry.verify] accepts, exactly; that it reads nothing of a
    document before the signatures; and that the signed message cannot be
    confused with one of another domain. *)

From S2P Require Import Prelude Bytes Text NetAddr Civil State Registry SampleRegistry.

#[local] Open Scope Z_scope.

Section verify_iff.
Context `{Base64, Ed25519, RegistryJson}.

(** The declarative contract of the verifier: an envelope whose document
    decodes to [bs], at least [threshold] distinct pinned keys with a good
    signature over exactly those bytes, a document that parses, lies in its
    validity window and neither rolls back nor equivocates. *)
Definition acceptable (body : list byte) (pinned : list PinnedKey) (threshold : nat) (now : Z)
    (previous : option RegistryState) (bs : list byte) (doc : Document) : Prop :=
  ∃ env ids,
    (1 ≤ threshold)%nat ∧ envelope_from_slice body = Some env ∧
    b64_decode (as_bytes (env_document env)) = Some bs ∧
    NoDup ids ∧ (threshold ≤ length ids)%nat ∧
    (∀ kid, kid ∈ ids → signed_by pinned (signed_message bs) (env_signatures env) kid) ∧
    document_from_slice bs = Some doc ∧ in_window doc now ∧ not_rollback doc bs previous.

Lemma verify_acceptable body pinned threshold now previous v :
  clock_ok now → verify body pinned threshold now previous = Ok v →
  acceptable body pinned threshold now previous (bytes v) (document v).
Proof.
  intros Hc (env & Ht & Henv & Hbs & Hids & Hlen & Hdoc & Hval & Hrb)%verify_Ok_inv.
  exists env, (v_key_ids v). split_and!; try done.
  - rewrite Hids. apply accept_signatures_NoDup, NoDup_nil_2.
  - intros kid Hk. rewrite Hids, accept_signatures_elem in Hk.
    destruct Hk as [Hk|Hk]; [by apply not_elem_of_nil in Hk|done].
  - by apply check_validity_Ok.
  - by apply check_rollback_Ok.
Qed.

Lemma acceptable_verify body pinned threshold now previous bs doc :
  clock_ok now → acceptable body pinned threshold now previous bs doc →
  ∃ ids, verify body pinned threshold now previous = Ok (mkVerified doc bs ids).
Proof.
  intros Hc (env & ids & Ht & Henv & Hbs & Hnd & Hlen & Hids & Hdoc & Hval & Hrb).
  eexists. unfold verify. rewrite (proj2 (Nat.eqb_neq threshold 0)) by lia.
  rewrite Henv. cbn [ok_or mbind outcome_bind]. rewrite Hbs. cbn [ok_or mbind outcome_bind].
  rewrite (proj2 (Nat.ltb_ge _ _)).
  - rewrite Hdoc. cbn [ok_or mbind outcome_bind].
    rewrite (proj2 (check_validity_Ok doc now Hc)) by done. cbn [mbind outcome_bind].
    rewrite (proj2 (check_rollback_Ok doc bs previous)) by done. done.
  - etransitivity; [exact Hlen|]. apply submseteq_length, NoDup_submseteq; [done|].
    intros kid Hk. apply accept_signatures_elem. right. by apply Hids.
Qed.
End verify_iff.

(** C16. [verify] accepts exactly what the contract admits: it returns a
    document precisely when the envelope decodes, a threshold of distinct
    pinned keys signed the exact document bytes, the document parses, its
    version is the hour of its [valid_after], the clock lies inside its window
    (with the skew only at the start), and it is neither older than the stored
    baseline nor a different document of the same version. *)
Theorem verify_exact `{Base64, Ed25519, RegistryJson} body pinned threshold now previous bs doc :
  clock_ok now →
  (∃ v, verify body pinned threshold now previous = Ok v ∧ bytes v = bs ∧ document v = doc) ↔
  acceptable body pinned threshold now previous bs doc.
Proof.
  intros Hc. split.
  - intros (v & Hv & <- & <-). by apply verify_acceptable.
  - intros Ha. apply acceptable_verify in Ha as [ids Hv]; [|done]. eexists. split; [exact Hv|done].
Qed.

Lemma verify_exact_witness :
  clock_ok sample_now ∧
  ∃ doc, acceptable (SampleReg.publish [x02; x0b; x00]) sample_pins 1 sample_now None [x02; x0b; x00] doc.
Proof.
  split; [vm_compute; congruence|].
  destruct (SampleReg.doc_of [x02; x0b; x00]) as [doc|] eqn:Hd; [|discriminate].
  exists doc. eapply verify_exact; [vm_compute; congruence|].
  eexists. split; [vm_compute; reflexivity|]. split; [reflexivity|].
  vm_compute in Hd. injection Hd as <-. reflexivity.
Defined.

(** Nothing inside a document is read before the signatures: when fewer
    than [threshold] pinned keys signed the document's bytes, the result is an
    error and it is the same whatever the document decoder would do, on any
    clock and any stored state. *)
Theorem verify_reads_signed_only `{Base64, Ed25519} (J1 J2 : RegistryJson)
    body pinned threshold now1 now2 prev1 prev2 env bs :
  @envelope_from_slice J1 body = Some env → @envelope_from_slice J2 body = Some env →
  b64_decode (as_bytes (env_document env)) = Some bs →
  (∀ ids, NoDup ids → (∀ kid, kid ∈ ids → signed_by pinned (signed_message bs) (env_signatures env) kid) →
          (length ids < threshold)%nat) →
  @verify _ _ J1 body pinned threshold now1 prev1 = @verify _ _ J2 body pinned threshold now2 prev2 ∧
  is_err (@verify _ _ J1 body pinned threshold now1 prev1) = true.
Proof.
  intros Hj1 Hj2 Hbs Hfew. unfold verify. rewrite Hj1, Hj2.
  destruct (threshold =? 0)%nat; [done|]. cbn [ok_or mbind outcome_bind].
  rewrite Hbs. cbn [ok_or mbind outcome_bind].
  rewrite (proj2 (Nat.ltb_lt _ threshold)); [done|]. apply Hfew.
  - apply accept_signatures_NoDup, NoDup_nil_2.
  - intros kid [Hk|Hk]%accept_signatures_elem; [by apply not_elem_of_nil in Hk|done].
Qed.

(** A decoder that accepts everything. *)
Definition gullible_json : RegistryJson := {|
  envelope_from_slice := SampleReg.env_of;
  document_from_slice _ := SampleReg.doc_of [x02; x0b; x00];
|}.

Lemma verify_reads_signed_only_witness :
  @verify _ _ sample_registry_json (replicate 67 x00) sample_pins 1 0 None =
  @verify _ _ gullible_json (replicate 67 x00) sample_pins 1 sample_now None.
Proof.
  eapply (verify_reads_signed_only sample_registry_json gullible_json (replicate 67 x00) sample_pins 1
    0 sample_now None None).
  - vm_compute. reflexivity.
  - vm_compute. reflexivity.
  - vm_compute. reflexivity.
  - intros [|kid ids] _ Hall; [simpl; lia|]. exfalso.
    destruct (Hall kid ltac:(left)) as (entry & pin & raw & Hin & Hf & _ & Hd & _ & Hv).
    apply list_elem_of_singleton in Hin as ->. vm_compute in Hf. injection Hf as <-.
    vm_compute in Hd. injection Hd as <-. vm_compute in Hv. discriminate.
Defined.

(** A registry signature covers one document in one domain: the signed
    message of a document equals the message built the same way from any label
    without a zero byte only when the label is the registry's own and the
    document is the same. *)
Theorem signed_message_separated label d d' :
  Forall (λ b, b ≠ x00) label →
  label ++ [x00] ++ d' = signed_message d → label = DOMAIN ∧ d' = d.
Proof.
  assert (Forall (λ b, b ≠ x00) DOMAIN) as Hdom by (repeat constructor; discriminate).
  unfold signed_message. revert Hdom. generalize DOMAIN as k. induction label as [|a label IH].
  - intros [|b k] Hk _ Heq; [by simplify_eq|]. apply Forall_cons in Hk as [Hb _].
    simpl in Heq. injection Heq as <- _. done.
  - intros [|b k] Hk Hl Heq; apply Forall_cons in Hl as [Ha Hl].
    + simpl in Heq. injection Heq as -> _. done.
    + apply Forall_cons in Hk as [_ Hk]. apply cons_eq_inv in Heq as [-> Heq].
      destruct (IH k Hk Hl Heq) as [-> ->]. done.
Qed.

Lemma signed_message_separated_witness :
  signed_message [x41] ≠ as_bytes "quiethop/v1/registry2" ++ [x00] ++ [x41].
Proof.
  intros Heq. destruct (signed_message_separated (as_bytes "quiethop/v1/registry2") [x41] [x41]) as [Hl _].
  - repeat constructor; discriminate.
  - symmetry. exact Heq.
  - vm_compute in Hl. discriminate.
Defined.
