(* ===== verification/RegistryCache.v ===== *)
(** QuietHop: fetch, cache and refresh policy of the registry.

    [quiethop-crypto/src/registry_cache.rs].  The world of a holder is its
    cache, the disk under it, and the answers the network will give, so that
    the methods are state transformers and a history is a list of calls.  The
    HTTP client is [reqwest]: an answer is a value of [http_response]. *)

From S2P Require Import Prelude Bytes Text NetAddr Civil State Registry SampleRegistry.

#[local] Open Scope Z_scope.

(** What [reqwest::get] and [Response::bytes] give. *)
Inductive http_response :=
  | NoResponse
  | Response (status : Z) (body : option (list byte)).

Section cache.
Context `{Base64, Ed25519, RegistryJson, StateJson}.

Record RegistryCache := mkCache {
  url : string; dir : string; pinned : list PinnedKey; threshold : nat; current : option Verified;
}.

Record world := mkWorld {
  cache : RegistryCache; w_disk : disk; network : list http_response; fetches : nat;
}.

Definition set_current (v : Verified) (c : RegistryCache) : RegistryCache :=
  mkCache (url c) (dir c) (pinned c) (threshold c) (Some v).

Definition on_disk {A} (m : st disk RegistryError A) : st world RegistryError A :=
  on_field w_disk (λ d w, mkWorld (cache w) d (network w) (fetches w)) m.

Definition get_cache : st world RegistryError RegistryCache := λ w, (w, Ok (cache w)).

(** [self.current = Some(v)]. *)
Definition put_current (v : Verified) : st world RegistryError unit := λ w,
  (mkWorld (set_current v (cache w)) (w_disk w) (network w) (fetches w), Ok ()).

Definition RegistryCache_new (url dir : string) (pinned : list PinnedKey) (threshold : nat)
    : outcome RegistryError RegistryCache :=
  if (length pinned =? 0)%nat then Err (RegRegistry NoPinnedKey) else
  if (threshold =? 0)%nat then Err (RegRegistry ThresholdZero) else
  if (length pinned <? threshold)%nat then Err (RegRegistry (ThresholdTooHigh threshold (length pinned))) else
  Ok (mkCache url dir pinned threshold None).

Definition accept_body (body : list byte) (now_unix : Z) : st world RegistryError unit :=
  self ← get_cache;
  previous ← on_disk (load (dir self));
  verified ← lift (verify body (pinned self) (threshold self) now_unix previous);
  _ ← on_disk (remember (dir self) verified body);
  put_current verified.

(** [fetch]: one request, one answer of the network. *)
Definition fetch : st world RegistryError (list byte) := λ w,
  let '(answer, rest) := match network w with [] => (NoResponse, []) | r :: rest => (r, rest) end in
  let w := mkWorld (cache w) (w_disk w) rest (S (fetches w)) in
  match answer with
  | NoResponse => (w, Err (RegRegistry FetchFailed))
  | Response status body =>
      if negb ((200 <=? status) && (status <? 300)) then (w, Err (RegRegistry (FetchStatus status)))
      else match body with
           | None => (w, Err (RegRegistry BodyUnreadable))
           | Some b => (w, Ok b)
           end
  end.

(** [reuse_stored]: every failure on the way is [None]. *)
Definition reuse_stored (now_unix : Z) : st world RegistryError (option Verified) := λ w,
  let self := cache w in
  match on_disk (load (dir self)) w with
  | (w, Ok (Some stored)) =>
      (w, match (e ← envelope_b64 stored; b64_decode (as_bytes e)) with
          | None => Ok None
          | Some bytes =>
              match verify bytes (pinned self) (threshold self) now_unix (Some stored) with
              | Ok verified =>
                  match Document_fresh_until_unix (document verified) with
                  | Ok fresh => Ok (if now_unix <? fresh then Some verified else None)
                  | Err _ => Ok None
                  | Panic => Panic
                  end
              | Err _ => Ok None
              | Panic => Panic
              end
          end)
  | (w, Ok None) | (w, Err _) => (w, Ok None)
  | (w, Panic) => (w, Panic)
  end.

Definition prime (now_unix : Z) : st world RegistryError unit :=
  reused ← reuse_stored now_unix;
  match reused with
  | Some v => put_current v
  | None => body ← fetch; accept_body body now_unix
  end.

Definition fetch_and_accept (now_unix : Z) : st world RegistryError bool :=
  body ← fetch; _ ← accept_body body now_unix; mret true.

Definition refresh_if_stale (now_unix : Z) : st world RegistryError bool :=
  self ← get_cache;
  match current self with
  | Some cur =>
      fresh ← lift (Document_fresh_until_unix (document cur));
      if now_unix <? fresh then mret false else fetch_and_accept now_unix
  | None => fetch_and_accept now_unix
  end.

Definition usable (c : RegistryCache) (now_unix : Z) : outcome RegistryError Verified :=
  cur ← ok_or (current c) (RegRegistry NothingAccepted);
  u ← Document_is_usable_at (document cur) now_unix;
  if negb u then Err (RegRegistry OutsideValidity) else Ok cur.

Definition is_stale (c : RegistryCache) (now_unix : Z) : outcome RegistryError bool :=
  match current c with
  | Some cur => fresh ← Document_fresh_until_unix (document cur); Ok (fresh <=? now_unix)
  | None => Ok true
  end.

(** ** Histories *)

Inductive call :=
  | AcceptBody (body : list byte) (now : Z)
  | Prime (now : Z)
  | RefreshIfStale (now : Z)
  (** The process restarts: the cache is built again over the same disk. *)
  | Restart.

Definition run_call (c : call) (w : world) : world :=
  match c with
  | AcceptBody body now => fst (accept_body body now w)
  | Prime now => fst (prime now w)
  | RefreshIfStale now => fst (refresh_if_stale now w)
  | Restart =>
      let k := cache w in
      mkWorld (mkCache (url k) (dir k) (pinned k) (threshold k) None) (w_disk w) (network w) (fetches w)
  end.

Definition run_calls (cs : list call) (w : world) : world := fold_left (λ w c, run_call c w) cs w.
End cache.

(** ** The stored baseline *)

Section baseline.
Context `{Base64, Ed25519, RegistryJson, StateJson}.

(** The state the state file holds, if it is one. *)
Definition baseline (dir : string) (d : disk) : option RegistryState :=
  f ← files d !! state_path dir; state_from_slice (f_data f).

Definition w_baseline (w : world) : option RegistryState := baseline (dir (cache w)) (w_disk w).

(** The order in which a baseline may move: never to a lower version, and to
    another document only with a higher one. *)
Definition base_le (a b : option RegistryState) : Prop :=
  ∀ s, a = Some s → ∃ s', b = Some s' ∧
    (highest_version s < highest_version s' ∨ s' = s).

#[export] Instance base_le_preorder : PreOrder base_le.
Proof.
  split.
  - intros a s Hs. eauto.
  - intros a b c Hab Hbc s Hs. destruct (Hab s Hs) as (s1 & Hb & Hlt1).
    destruct (Hbc s1 Hb) as (s2 & Hc & Hlt2). exists s2. split; [done|].
    destruct Hlt1 as [?| ->], Hlt2 as [?| ->]; auto; left; lia.
Qed.

(** The baseline is the one of version [version v] and holds its bytes. *)
Definition holds (b : option RegistryState) (v : Verified) : Prop :=
  ∃ s, b = Some s ∧ highest_version s = version (document v) ∧
       b64_decode (as_bytes (document_b64 s)) = Some (bytes v).

Lemma load_Ok dir d d' o :
  load dir d = (d', Ok o) →
  files d' = files d ∧ o = baseline dir d ∧ (o = None → files d !! state_path dir = None) ∧
  (∀ s, o = Some s → 0 < highest_version s).
Proof.
  intros Hl. pose proof (load_files _ _ _ _ Hl) as Hf. split; [done|].
  unfold load, baseline in *. unfold fs_read, next_fault, get_files, mbind, st_bind in Hl.
  destruct d as [m [|[|n] r]]; simpl in *;
    (destruct (m !! state_path dir) as [f|] eqn:Hm; simpl in Hl; [|naive_solver]);
    try done;
    (destruct (state_from_slice (f_data f)) as [s|] eqn:Hs; [|done]);
    (destruct (Z.leb_spec (highest_version s) 0); [done|]); naive_solver.
Qed.
End baseline.

Section cache_lemmas.
Context `{Base64Laws, Ed25519, RegistryJson, StateJsonLaws}.

(** The envelope stored beside a document is that document's: verifying it
    again can only give the stored version and bytes. *)
Definition coherent (b : option RegistryState) : Prop :=
  ∀ s e body env bs doc, b = Some s → envelope_b64 s = Some e →
    b64_decode (as_bytes e) = Some body → envelope_from_slice body = Some env →
    b64_decode (as_bytes (env_document env)) = Some bs → document_from_slice bs = Some doc →
    highest_version s = version doc ∧ b64_decode (as_bytes (document_b64 s)) = Some bs.

(** The state [remember] writes. *)
Definition state_for (v : Verified) (envelope : list byte) : RegistryState :=
  mkRegistryState (version (document v)) (b64_encode (bytes v)) (v_key_ids v) (Some (b64_encode envelope)).

Lemma state_for_holds v envelope : holds (Some (state_for v envelope)) v.
Proof. eexists. split; [done|]. split; [done|]. apply b64_round_trip. Qed.

Lemma state_for_coherent body pinned threshold now previous v :
  verify body pinned threshold now previous = Ok v → coherent (Some (state_for v body)).
Proof.
  intros (env' & _ & Henv' & Hbs' & _ & _ & Hdoc' & _)%verify_Ok_inv.
  intros s e body' env bs doc [= <-] [= <-] Hd Henv Hbs Hdoc. rewrite b64_round_trip in Hd.
  injection Hd as <-. rewrite Henv' in Henv. injection Henv as <-. rewrite Hbs' in Hbs.
  injection Hbs as <-. rewrite Hdoc' in Hdoc. injection Hdoc as <-.
  split; [done|]. apply b64_round_trip.
Qed.

(** [remember] either leaves the state file alone or replaces it by a newer
    version of exactly the verified bytes. *)
Lemma remember_cases dir v env d d' r :
  remember dir v env d = (d', r) →
  (baseline dir d' = baseline dir d ∧
     ((∃ e, r = Err e) ∨
      r = Ok () ∧ ∃ s, baseline dir d = Some s ∧ version (document v) ≤ highest_version s)) ∨
  (r = Ok () ∧ baseline dir d' = Some (state_for v env) ∧
     ∀ s, baseline dir d = Some s → highest_version s < version (document v)).
Proof.
  unfold remember. destruct (load dir d) as [d1 [o|e|]] eqn:Hl.
  - erewrite st_bind_Ok_eq by done. apply load_Ok in Hl as (Hf & Ho & Hnone & _).
    fold (state_for v env). set (new := state_for v env).
    assert (∀ d2 r2, store dir new d1 = (d2, r2) →
      (r2 = Ok () ∧ baseline dir d2 = Some new) ∨ ((∃ e, r2 = Err e) ∧ baseline dir d2 = baseline dir d)) as Hstore.
    { intros d2 r2 [(-> & body & Hb & Hf2)|(why & -> & Hf2)]%store_cases.
      - left. split; [done|]. destruct (state_json_round_trip new) as (body' & Hb' & Hd).
        rewrite Hb in Hb'. injection Hb' as <-. unfold baseline. by rewrite Hf2, lookup_insert_eq.
      - right. split; [by eexists|]. unfold baseline. by rewrite Hf2, Hf by apply state_path_ne_tmp. }
    destruct o as [prev|].
    + destruct (Z.leb_spec (highest_version new) (highest_version prev)) as [Hle|Hlt].
      * unfold mret, st_ret. intros [= <- <-]. left. unfold baseline in *. rewrite Hf. split; [done|]. right. eauto.
      * intros Hst. apply Hstore in Hst as [[-> Hh]|[Hr Hb]]; [right|left; auto].
        split; [done|]. split; [done|]. intros s Hs. rewrite <- Ho in Hs. injection Hs as <-. done.
    + intros Hst. apply Hstore in Hst as [[-> Hh]|[Hr Hb]]; [right|left; auto].
      split; [done|]. split; [done|]. intros s Hs. by rewrite <- Ho in Hs.
  - erewrite st_bind_Err_eq by done. intros [= <- <-]. left. split; [|eauto].
    unfold baseline. by rewrite (load_files _ _ _ _ Hl).
  - exfalso. apply (load_no_panic dir d). by rewrite Hl.
Qed.

(** The step of every history: a body is accepted, or nothing changes. *)
Lemma accept_body_cases body now w w' r :
  accept_body body now w = (w', r) →
  network w' = network w ∧ fetches w' = fetches w ∧ base_le (w_baseline w) (w_baseline w') ∧
  ((r = Ok () ∧ ∃ v, verify body (pinned (cache w)) (threshold (cache w)) now (w_baseline w) = Ok v ∧
      cache w' = set_current v (cache w) ∧ holds (w_baseline w') v ∧
      (w_baseline w' = w_baseline w ∨ coherent (w_baseline w'))) ∨
   (∃ e, r = Err e ∧ cache w' = cache w ∧ w_baseline w' = w_baseline w)).
Proof.
  unfold accept_body. set (w0 := w). erewrite st_bind_Ok_eq by (unfold get_cache; reflexivity).
  subst w0. unfold on_disk, on_field, mbind, st_bind, lift.
  destruct (load (dir (cache w)) (w_disk w)) as [d1 [o|e|]] eqn:Hl; cycle 1.
  { intros [= <- <-]. unfold w_baseline, baseline. simpl. rewrite (load_files _ _ _ _ Hl).
    repeat split; [done|]. right. eauto. }
  { exfalso. apply (load_no_panic (dir (cache w)) (w_disk w)). by rewrite Hl. }
  apply load_Ok in Hl as (Hf & -> & Hnone & Hpos).
  change (baseline (dir (cache w)) (w_disk w)) with (w_baseline w) in *.
  assert (∀ c n k, w_baseline (mkWorld c d1 n k) = baseline (dir c) (w_disk w)) as Hbase
    by (intros; unfold w_baseline, baseline; simpl; by rewrite Hf).
  pose proof (verify_no_panic body (pinned (cache w)) (threshold (cache w)) now (w_baseline w)) as Hnp.
  destruct (verify _ _ _ _ _) as [v|e|] eqn:Hv; [|intros [= <- <-]; rewrite Hbase; split_and!; [done..|]; right; eauto|done].
  simpl.
  destruct (remember (dir (cache w)) v body d1) as [d2 r2] eqn:Hr.
  apply remember_cases in Hr.
  assert (baseline (dir (cache w)) d1 = w_baseline w) as Hb1 by (unfold baseline; by rewrite Hf).
  rewrite Hb1 in Hr. apply verify_Ok_inv in Hv as Hinv.
  destruct Hinv as (env & _ & _ & _ & _ & _ & _ & _ & Hrb). apply check_rollback_Ok in Hrb.
  destruct Hr as [[Hsame Hge]|(-> & Hh & Hlt)].
  - assert (∀ c n k, dir c = dir (cache w) → w_baseline (mkWorld c d2 n k) = w_baseline w) as Hbase2
      by (intros c n k Hc; unfold w_baseline at 1; simpl; by rewrite Hc).
    destruct Hge as [[e ->]|(-> & s & Hs & Hle)]; cycle 1.
    + intros [= <- <-]. simpl. rewrite Hbase2 by done.
      split; [done|]. split; [done|]. split; [done|]. left. split; [done|].
      exists v. split; [done|]. split; [done|].
      destruct (Hrb s Hs) as [Hle' Heq]. split; [|by left].
      exists s. split; [done|]. split; [lia|]. apply Heq. lia.
    + intros [= <- <-]. simpl. rewrite Hbase2 by done. split_and!; [done..|]. right. eauto.
  - intros [= <- <-]. simpl. split; [done|]. split; [done|]. split.
    + intros s Hs. unfold w_baseline. simpl. rewrite Hh. eexists. split; [done|]. left. by apply Hlt.
    + left. split; [done|]. exists v. split; [done|]. split; [done|].
      assert (∀ n k, w_baseline (mkWorld (set_current v (cache w)) d2 n k) = Some (state_for v body))
        as -> by done. split; [apply state_for_holds|]. right. by eapply state_for_coherent.
Qed.
(** An accepted body that moved the baseline is stored with its document. *)
Lemma accept_body_stores body t w w' v :
  accept_body body t w = (w', Ok ()) → w_baseline w' ≠ w_baseline w → current (cache w') = Some v →
  verify body (pinned (cache w)) (threshold (cache w)) t (w_baseline w) = Ok v ∧
  dir (cache w') = dir (cache w) ∧ pinned (cache w') = pinned (cache w) ∧
  threshold (cache w') = threshold (cache w) ∧ w_baseline w' = Some (state_for v body).
Proof.
  intros Ha Hne Hcur. unfold accept_body in Ha.
  apply st_bind_Ok in Ha as (w1 & c & [= <- <-] & Ha).
  apply st_bind_Ok in Ha as (w1 & o & Hl & Ha). unfold on_disk, on_field in Hl.
  destruct (load _ _) as [d1 o'] eqn:Hload. injection Hl as <- ->.
  apply load_Ok in Hload as (Hf & -> & _ & _). fold (w_baseline w) in Ha.
  apply st_bind_Ok in Ha as (w2 & v' & Hv & Ha). injection Hv as <- Hv.
  apply st_bind_Ok in Ha as (w3 & [] & Hr & Ha). unfold on_disk, on_field in Hr. simpl in Hr.
  destruct (remember _ _ _ _) as [d2 r2] eqn:Hrem. injection Hr as <- ->.
  injection Ha as <-. simpl in *. injection Hcur as ->.
  split_and!; try done. unfold w_baseline. simpl.
  apply remember_cases in Hrem as [[Hsame _]|(_ & Hb & _)]; [|done].
  destruct Hne. unfold w_baseline. simpl. rewrite Hsame. unfold baseline. by rewrite Hf.
Qed.

(** A verified body verifies again, against itself as the baseline, as long
    as the document is in its window. *)
Lemma verify_again body pinned threshold t previous v now :
  verify body pinned threshold t previous = Ok v → clock_ok now → in_window (document v) now →
  verify body pinned threshold now (Some (state_for v body)) = Ok v.
Proof.
  intros (env & Ht & Henv & Hbs & Hids & Hlen & Hdoc & _ & _)%verify_Ok_inv Hc Hwin.
  unfold verify. rewrite (proj2 (Nat.eqb_neq threshold 0)), Henv by lia. cbn [ok_or mbind outcome_bind].
  rewrite Hbs. cbn [ok_or mbind outcome_bind]. rewrite <- Hids, (proj2 (Nat.ltb_ge _ _)) by done.
  rewrite Hdoc. cbn [ok_or mbind outcome_bind].
  rewrite (proj2 (check_validity_Ok _ _ Hc) Hwin). cbn [mbind outcome_bind].
  assert (check_rollback (document v) (bytes v) (Some (state_for v body)) = Ok ()) as ->.
  { apply check_rollback_Ok. intros s [= <-]. simpl. split; [lia|]. intros _. apply b64_round_trip. }
  simpl. by destruct v.
Qed.
End cache_lemmas.

(** ** Histories *)

Section histories.
Context `{Base64Laws, Ed25519, RegistryJson, StateJsonLaws}.

(** [v] came out of [verify] under the cache's pinned keys and threshold. *)
Definition provenance (c : RegistryCache) (v : Verified) : Prop :=
  ∃ body now previous, verify body (pinned c) (threshold c) now previous = Ok v.

Definition cache_inv (w : world) : Prop :=
  coherent (w_baseline w) ∧
  ∀ v, current (cache w) = Some v → holds (w_baseline w) v ∧ provenance (cache w) v.

(** One call: the configuration stays, the baseline moves forward only, and
    the invariant is kept. *)
Definition step_ok (w w' : world) : Prop :=
  dir (cache w') = dir (cache w) ∧ pinned (cache w') = pinned (cache w) ∧
  threshold (cache w') = threshold (cache w) ∧ base_le (w_baseline w) (w_baseline w') ∧ cache_inv w'.

Lemma step_ok_refl w : cache_inv w → step_ok w w.
Proof. intros Hw. split_and!; done. Qed.

Lemma step_ok_trans w1 w2 w3 : step_ok w1 w2 → step_ok w2 w3 → step_ok w1 w3.
Proof.
  intros (Hd1 & Hp1 & Ht1 & Hb1 & _) (Hd2 & Hp2 & Ht2 & Hb2 & Hi).
  split_and!; try congruence. by etransitivity.
Qed.

(** Only the cache and the state file matter. *)
Lemma step_ok_same w w' :
  cache_inv w → cache w' = cache w → w_baseline w' = w_baseline w → step_ok w w'.
Proof.
  intros Hw Hc Hb. unfold step_ok, cache_inv. rewrite Hc, Hb. split_and!; try done; apply Hw.
Qed.

Lemma accept_body_step body now w : cache_inv w → step_ok w (fst (accept_body body now w)).
Proof.
  intros [Hco Hcur]. destruct (accept_body body now w) as [w' r] eqn:Ha. simpl.
  apply accept_body_cases in Ha as (_ & _ & Hle & [(-> & v & Hv & Hc & Hh & Hco')|(e & -> & Hc & Hb)]).
  - unfold step_ok, cache_inv. rewrite Hc. simpl. split_and!; try done.
    + destruct Hco' as [->|]; done.
    + intros v' [= <-]. split; [done|]. unfold provenance. simpl. eauto.
  - apply step_ok_same; [split|..]; done.
Qed.

Lemma fetch_cases w w' r :
  fetch w = (w', r) →
  cache w' = cache w ∧ w_baseline w' = w_baseline w ∧ r ≠ Panic ∧ fetches w' = S (fetches w).
Proof.
  unfold fetch. destruct (network w) as [|[|code [b|]] rest]; simpl; try case_match;
    intros [= <- <-]; done.
Qed.

Lemma fetch_then_accept_step now w :
  cache_inv w → step_ok w (fst ((fetch ≫= λ body, accept_body body now) w)).
Proof.
  intros Hw. unfold mbind, st_bind. destruct (fetch w) as [w1 r] eqn:Hf.
  apply fetch_cases in Hf as (Hc & Hb & _ & _). pose proof (step_ok_same w w1 Hw Hc Hb) as Hs.
  destruct r as [body|e|]; [|done..]. eapply step_ok_trans; [exact Hs|].
  apply accept_body_step, Hs.
Qed.

Lemma reuse_stored_cases now w w' r :
  reuse_stored now w = (w', r) →
  cache w' = cache w ∧ network w' = network w ∧ fetches w' = fetches w ∧ w_baseline w' = w_baseline w ∧
  (r = Ok None ∨ ∃ v s e body, r = Ok (Some v) ∧ w_baseline w = Some s ∧ envelope_b64 s = Some e ∧
     b64_decode (as_bytes e) = Some body ∧
     verify body (pinned (cache w)) (threshold (cache w)) now (Some s) = Ok v).
Proof.
  unfold reuse_stored, on_disk, on_field.
  destruct (load (dir (cache w)) (w_disk w)) as [d1 o] eqn:Hl.
  pose proof (load_files _ _ _ _ Hl) as Hf.
  assert (w_baseline (mkWorld (cache w) d1 (network w) (fetches w)) = w_baseline w) as Hb
    by (unfold w_baseline, baseline; simpl; by rewrite Hf).
  destruct o as [[s|]|e|]; [|intros [= <- <-]; split_and!; auto..|].
  - apply load_Ok in Hl as (_ & Hs & _). fold (w_baseline w) in Hs.
    destruct (e ← envelope_b64 s; b64_decode (as_bytes e)) as [body|] eqn:He;
      [|intros [= <- <-]; split_and!; auto].
    apply bind_Some in He as (e & He & Hd).
    pose proof (verify_no_panic body (pinned (cache w)) (threshold (cache w)) now (Some s)).
    destruct (verify _ _ _ _ _) as [v|x|] eqn:Hv; [|intros [= <- <-]; split_and!; auto|done].
    pose proof (timestamp_no_panic (fresh_until (document v))) as Hnp.
    unfold Document_fresh_until_unix. destruct (timestamp _) as [fresh|x|];
      [|intros [= <- <-]; split_and!; auto|done].
    intros [= <- <-]. split_and!; try done. destruct (now <? fresh); [right|by left].
    exists v, s, e, body. auto.
  - exfalso. apply (load_no_panic (dir (cache w)) (w_disk w)). by rewrite Hl.
Qed.

Lemma prime_step now w : cache_inv w → step_ok w (fst (prime now w)).
Proof.
  intros Hw. unfold prime. destruct (reuse_stored now w) as [w1 r] eqn:Hr. pose proof Hr as Hreuse.
  apply reuse_stored_cases in Hr as (Hc & _ & _ & Hb & [->|(v & s & e & body & -> & Hs & He & Hd & Hv)]);
    erewrite st_bind_Ok_eq by done; pose proof (step_ok_same w w1 Hw Hc Hb) as Hstep;
    (eapply step_ok_trans; [exact Hstep|]).
  - apply fetch_then_accept_step, Hstep.
  - destruct Hstep as (_ & _ & _ & _ & Hco & _).
    assert (w_baseline (fst (put_current v w1)) = w_baseline w1) as Hb1 by done.
    unfold step_ok, cache_inv. rewrite Hb1. split_and!; try done.
    intros v' [= <-]. split; [|unfold provenance; simpl; rewrite Hc; eauto].
    apply verify_Ok_inv in Hv as (env & _ & Henv & Hbs & _ & _ & Hdoc & _).
    rewrite Hb, Hs. exists s. split; [done|].
    destruct (Hco s e body env (bytes v) (document v)); try done; congruence.
Qed.

(** One request, whatever comes of it. *)
Lemma fetch_and_accept_counts now w :
  fetches (fst (fetch_and_accept now w)) = S (fetches w) ∧ snd (fetch_and_accept now w) ≠ Panic.
Proof.
  unfold fetch_and_accept, mbind, st_bind. destruct (fetch w) as [w1 r] eqn:Hf.
  apply fetch_cases in Hf as (_ & _ & Hn & Hf). destruct r as [body|e|]; [|done..].
  destruct (accept_body body now w1) as [w2 r2] eqn:Ha.
  apply accept_body_cases in Ha as (_ & Hf2 & _ & [[-> _]|(e & -> & _)]); simpl; by rewrite Hf2.
Qed.

(** A refresh with a stale document, or none, makes one request; any other
    leaves everything as it is. *)
Lemma refresh_by_staleness now w :
  snd (refresh_if_stale now w) ≠ Panic ∧
  match is_stale (cache w) now with
  | Ok true => fetches (fst (refresh_if_stale now w)) = S (fetches w)
  | _ => fst (refresh_if_stale now w) = w
  end.
Proof.
  destruct (fetch_and_accept_counts now w) as [Hf Hn].
  unfold refresh_if_stale, is_stale. erewrite st_bind_Ok_eq by (unfold get_cache; reflexivity).
  destruct (current (cache w)) as [cur|]; [|done].
  pose proof (timestamp_no_panic (fresh_until (document cur))) as Hnp. unfold Document_fresh_until_unix.
  unfold mbind, st_bind, lift. destruct (timestamp _) as [fresh|e|]; [|done..]. simpl.
  destruct (Z.ltb_spec now fresh), (Z.leb_spec fresh now); try lia; done.
Qed.

Lemma refresh_step now w : cache_inv w → step_ok w (fst (refresh_if_stale now w)).
Proof.
  intros Hw. unfold refresh_if_stale. erewrite st_bind_Ok_eq by (unfold get_cache; reflexivity).
  assert (step_ok w (fst (fetch_and_accept now w))) as Hfetch.
  { pose proof (fetch_then_accept_step now w Hw) as Hs. unfold fetch_and_accept, mbind, st_bind in *.
    destruct (fetch w) as [w1 [body|e|]]; [|done..]. by destruct (accept_body body now w1) as [w2 [|e|]]. }
  destruct (current (cache w)) as [cur|]; [|done].
  unfold mbind, st_bind, lift. destruct (Document_fresh_until_unix _) as [fresh|e|];
    [|by apply step_ok_refl..].
  case_match; [by apply step_ok_refl|done].
Qed.

Lemma run_call_step c w : cache_inv w → step_ok w (run_call c w).
Proof.
  intros Hw. destruct c as [body now|now|now|]; cbn [run_call].
  - by apply accept_body_step.
  - by apply prime_step.
  - by apply refresh_step.
  - split_and!; try done. split; [apply Hw|done].
Qed.

Lemma run_calls_step cs w : cache_inv w → step_ok w (run_calls cs w).
Proof.
  revert w. induction cs as [|c cs IH]; intros w Hw; [by apply step_ok_refl|].
  pose proof (run_call_step c w Hw) as Hs. eapply step_ok_trans; [exact Hs|]. apply IH, Hs.
Qed.

(** Two held documents on an ordered pair of baselines. *)
Lemma holds_ordered b b' v v' :
  base_le b b' → holds b v → holds b' v' →
  version (document v) < version (document v') ∨
  version (document v) = version (document v') ∧ bytes v = bytes v'.
Proof.
  intros Hle (s & Hb & Hver & Hbytes) (s' & Hb' & Hver' & Hbytes').
  destruct (Hle s Hb) as (s2 & Hb2 & [Hlt| ->]); rewrite Hb' in Hb2; injection Hb2 as ->.
  - left. lia.
  - right. split; [lia|]. congruence.
Qed.

Lemma usable_Ok c now v :
  usable c now = Ok v → current c = Some v ∧ Document_is_usable_at (document v) now = Ok true.
Proof.
  unfold usable. intros (cur & Hc%ok_or_Ok & Hu)%bind_Ok. apply bind_Ok in Hu as ([] & Hu & Hv); [|done].
  injection Hv as <-. auto.
Qed.
End histories.

(** ** Properties *)

(** A holder with an empty disk and an empty cache, on the sample
    dependencies. *)
Definition sample_world (net : list http_response) (fs : list fault) : world :=
  mkWorld (mkCache "u" "d" sample_pins 1 None) (mkDisk ∅ fs) net 0.

Lemma sample_world_inv net fs : cache_inv (sample_world net fs).
Proof. split; [intros s e body env bs doc Hs; discriminate|discriminate]. Qed.

(** The answer of the authority with a document. *)
Definition serve (doc : list byte) : http_response := Response 200 (Some (SampleReg.publish doc)).

(** C14. The registry never rolls back and never equivocates.  Over any history
    of calls and restarts, with any answers of the network, any clock readings
    and any disk failures, the stored baseline only moves to higher versions;
    the document held at the end is the stored one, with the stored version and
    the stored bytes, so a held document is never older than the stored one; and
    a document held later has a higher version than one held before, or is the
    same bytes. *)
Theorem registry_never_rolls_back `{Base64Laws, Ed25519, RegistryJson, StateJsonLaws} cs w :
  cache_inv w →
  base_le (w_baseline w) (w_baseline (run_calls cs w)) ∧
  ∀ v', current (cache (run_calls cs w)) = Some v' →
    (∃ s, w_baseline (run_calls cs w) = Some s ∧ highest_version s = version (document v') ∧
       b64_decode (as_bytes (document_b64 s)) = Some (bytes v')) ∧
    ∀ v, current (cache w) = Some v →
      version (document v) < version (document v') ∨
      version (document v) = version (document v') ∧ bytes v = bytes v'.
Proof.
  intros Hw. destruct (run_calls_step cs w Hw) as (_ & _ & _ & Hle & _ & Hcur'). split; [done|].
  intros v' Hv'. destruct (Hcur' v' Hv') as [Hh _]. split; [exact Hh|]. intros v Hv. destruct Hw as [_ Hcur].
  eapply holds_ordered; [exact Hle|by apply Hcur|exact Hh].
Qed.

Definition sample_history : list call := [RefreshIfStale (sample_now + 3600)].
Definition sample_after : world :=
  run_call (Prime sample_now)
    (sample_world [serve [x02; x0b; x00]; serve [x02; x0c; x00]] []).

Lemma registry_never_rolls_back_witness :
  cache_inv sample_after ∧
  ∃ v s, current (cache (run_calls sample_history sample_after)) = Some v ∧ version (document v) = 490932 ∧
    w_baseline (run_calls sample_history sample_after) = Some s ∧ highest_version s = version (document v) ∧
    base_le (w_baseline sample_after) (w_baseline (run_calls sample_history sample_after)).
Proof.
  assert (cache_inv sample_after) as Hinv by apply (run_call_step (Prime sample_now)), sample_world_inv.
  split; [exact Hinv|].
  assert ((version <$> (document <$> current (cache (run_calls sample_history sample_after)))) = Some 490932) as Hver
    by (vm_compute; reflexivity).
  destruct (registry_never_rolls_back sample_history sample_after Hinv) as [Hle Hheld].
  destruct (current (cache (run_calls sample_history sample_after))) as [v|] eqn:Hv; [|discriminate Hver].
  destruct (Hheld v eq_refl) as [(s & Hs & Hsv & _) _]. injection Hver as Hver. exists v, s. auto.
Defined.

(** The cache fails closed.  Whatever happened before, a document [usable]
    hands out came out of [verify] under the cache's pinned keys and threshold,
    is the one the baseline holds, and the clock is inside its window: at most
    the skew before [valid_after], and strictly before [valid_until]. *)
Theorem usable_fails_closed `{Base64Laws, Ed25519, RegistryJson, StateJsonLaws} cs w now v :
  cache_inv w → clock_ok now → usable (cache (run_calls cs w)) now = Ok v →
  holds (w_baseline (run_calls cs w)) v ∧
  (∃ body t previous, verify body (pinned (cache w)) (threshold (cache w)) t previous = Ok v) ∧
  ∃ after until, timestamp (valid_after (document v)) = Ok after ∧
    timestamp (valid_until (document v)) = Ok until ∧
    after ≤ now + SKEW_ALLOWANCE_SECS ∧ now < until.
Proof.
  intros Hw Hc [Hcur Hu]%usable_Ok.
  destruct (run_calls_step cs w Hw) as (_ & Hp & Ht & _ & _ & Hall).
  destruct (Hall v Hcur) as [Hh Hprov]. unfold provenance in Hprov. rewrite Hp, Ht in Hprov.
  split; [done|]. split; [done|]. by apply is_usable_at_Ok.
Qed.

Lemma usable_fails_closed_witness :
  is_ok (usable (cache sample_after) sample_now) = true ∧
  is_err (usable (cache sample_after) (sample_now + 86400)) = true ∧
  ∃ v, usable (cache sample_after) sample_now = Ok v ∧ holds (w_baseline sample_after) v.
Proof.
  split; [vm_compute; reflexivity|]. split; [vm_compute; reflexivity|].
  destruct (usable (cache sample_after) sample_now) as [v| |] eqn:Hu; [|vm_compute in Hu; discriminate..].
  exists v. split; [reflexivity|].
  change (holds (w_baseline (run_calls [] sample_after)) v).
  apply (usable_fails_closed [] sample_after sample_now v).
  - apply (run_call_step (Prime sample_now)), sample_world_inv.
  - vm_compute. congruence.
  - exact Hu.
Defined.

(** When a refresh fetches, exactly.  With a current document that is
    still fresh it returns [false] and nothing at all happens; with a stale one,
    or none, it makes exactly one request.  With a document whose [fresh_until]
    is not a timestamp (which the verifier does not check) it returns the same
    error for ever and makes no request. *)
Theorem refresh_fetch_policy `{Base64Laws, Ed25519, RegistryJson, StateJsonLaws} now w :
  let '(w', r) := refresh_if_stale now w in
  match current (cache w) with
  | None => fetches w' = S (fetches w)
  | Some cur =>
      match Document_fresh_until_unix (document cur) with
      | Ok fresh => if now <? fresh then w' = w ∧ r = Ok false else fetches w' = S (fetches w)
      | Err e => w' = w ∧ r = Err e
      | Panic => False
      end
  end.
Proof.
  pose proof (fetch_and_accept_counts now w) as [Hf _].
  unfold refresh_if_stale. erewrite st_bind_Ok_eq by (unfold get_cache; reflexivity).
  destruct (current (cache w)) as [cur|]; [|by destruct (fetch_and_accept now w)].
  pose proof (timestamp_no_panic (fresh_until (document cur))) as Hnp. unfold Document_fresh_until_unix.
  unfold mbind, st_bind, lift. destruct (timestamp _) as [fresh|e|]; [|done..].
  destruct (now <? fresh); [done|]. by destruct (fetch_and_accept now w).
Qed.

(** The verifier does accept a document without a usable [fresh_until], and the
    holder is then stuck with it. *)
Definition sample_stuck : world :=
  run_call (Prime sample_now) (sample_world [serve [x02; x0b; xff]; serve [x02; x0c; x00]] []).

Lemma refresh_fetch_policy_witness :
  is_ok (usable (cache sample_stuck) sample_now) = true ∧
  refresh_if_stale (sample_now + 80000) sample_stuck =
    (sample_stuck, Err (RegRegistry (BadTimestamp "soon"))).
Proof.
  split; [vm_compute; reflexivity|].
  pose proof (refresh_fetch_policy (sample_now + 80000) sample_stuck) as Hp.
  destruct (refresh_if_stale (sample_now + 80000) sample_stuck) as [w' r].
  destruct (current (cache sample_stuck)) as [cur|] eqn:Hc; [|vm_compute in Hc; discriminate].
  vm_compute in Hc. injection Hc as <-. destruct Hp as [-> ->]. reflexivity.
Defined.

(** A restart inside the fresh window makes no request.  After a new
    document was accepted and stored, a process that starts again over the same
    disk, while the document is fresh and in its window, serves the very same
    verified document from disk without touching the network. *)
Theorem restart_reuses_stored `{Base64Laws, Ed25519, RegistryJson, StateJsonLaws}
    body t now w w' v fresh :
  accept_body body t w = (w', Ok ()) → w_baseline w' ≠ w_baseline w →
  current (cache w') = Some v → faults (w_disk w') = [] → 0 < version (document v) →
  clock_ok now → in_window (document v) now →
  Document_fresh_until_unix (document v) = Ok fresh → now < fresh →
  ∃ w'', prime now (run_call Restart w') = (w'', Ok ()) ∧
    current (cache w'') = Some v ∧ fetches w'' = fetches w' ∧ network w'' = network w'.
Proof.
  intros Ha Hnew Hcur Hfaults Hpos Hc Hwin Hfresh Hlt.
  destruct (accept_body_stores body t w w' v Ha Hnew Hcur) as (Hv & Hdir & Hp & Ht & Hb).
  set (w0 := run_call Restart w').
  assert (load (dir (cache w')) (w_disk w') = (w_disk w', Ok (Some (state_for v body)))) as Hload.
  { unfold w_baseline, baseline in Hb. apply bind_Some in Hb as (f & Hf & Hs).
    erewrite load_stored by done. by rewrite (proj2 (Z.leb_gt _ 0)). }
  assert (reuse_stored now w0 = (w0, Ok (Some v))) as Hreuse.
  { unfold reuse_stored, on_disk, on_field. simpl. rewrite Hload. simpl.
    rewrite b64_round_trip. rewrite Hp, Ht.
    rewrite (verify_again _ _ _ _ _ _ _ Hv Hc Hwin). rewrite Hfresh.
    rewrite (proj2 (Z.ltb_lt _ _)) by done. unfold w0. simpl. by rewrite Hp, Ht. }
  unfold prime. erewrite st_bind_Ok_eq by done. eexists. split; [reflexivity|]. done.
Qed.

Definition sample_accepted : world * outcome RegistryError unit :=
  accept_body (SampleReg.publish [x02; x0b; x00]) sample_now (sample_world [] []).

(** What the witness needs of the accepted document. *)
Definition sample_doc_ok (v : Verified) : bool :=
  (0 <? version (document v)) && bool_decide (is_ok (check_validity (document v) (sample_now - 60)) = true) &&
  match Document_fresh_until_unix (document v) with Ok f => f =? sample_now | _ => false end.

Lemma restart_reuses_stored_witness :
  ∃ w'' v, prime (sample_now - 60) (run_call Restart (fst sample_accepted)) = (w'', Ok ()) ∧
    current (cache w'') = Some v ∧ fetches w'' = fetches (fst sample_accepted).
Proof.
  assert (from_option sample_doc_ok false (current (cache (fst sample_accepted))) = true) as Hok
    by (vm_compute; reflexivity).
  destruct (current (cache (fst sample_accepted))) as [v|] eqn:Hcur; [|discriminate Hok].
  unfold sample_doc_ok in Hok. apply andb_true_iff in Hok as [Hok Hfresh].
  apply andb_true_iff in Hok as [Hpos Hwin]. apply bool_decide_eq_true in Hwin.
  destruct (restart_reuses_stored (SampleReg.publish [x02; x0b; x00]) sample_now (sample_now - 60)
    (sample_world [] []) (fst sample_accepted) v sample_now) as (w'' & Hp & Hc & Hf & _).
  - apply injective_projections; [reflexivity|vm_compute; reflexivity].
  - intros Heq. assert (bool_decide (w_baseline (fst sample_accepted) = None) = false) as Hn
      by (vm_compute; reflexivity). apply bool_decide_eq_false in Hn.
    apply Hn. etransitivity; [exact Heq|vm_compute; reflexivity].
  - exact Hcur.
  - vm_compute. reflexivity.
  - lia.
  - vm_compute. congruence.
  - apply check_validity_Ok; [vm_compute; congruence|].
    destruct (check_validity _ _) as [[]| |]; [reflexivity|discriminate..].
  - destruct (Document_fresh_until_unix _); [|discriminate..]. apply Z.eqb_eq in Hfresh. by rewrite Hfresh.
  - vm_compute. reflexivity.
  - exists w'', v. auto.
Defined.
