(* ===== verification/Frame.v ===== *)
(** QuietHop: reassembly of fixed-length frames.

    [FrameAccumulator] and [FrameReader] of [quiethop-crypto/src/layer.rs].  The
    reader is polled inside [tokio::select!] loops, where the future of
    [next_frame] may be dropped at its only await point, the [read] of the
    underlying stream.  A poll is a function from the reader to the reader and
    a result: all state lives in the struct, so dropping the future and calling
    [next_frame] again is the same as polling it again.

    The underlying stream is a list of the events its successive reads meet: a
    piece of data, a read that is not ready, or an error.  A piece larger than
    the buffer handed to [read] is returned in parts; the empty list and an
    empty piece are end of stream. *)

From S2P Require Import Prelude Bytes NetAddr Cell.

(** ** The byte stream *)

Inductive read_event :=
  | Chunk (bytes : list byte)
  | WouldBlock
  | ReadError (e : io_error).

Abbreviation source := (list read_event).

(** [AsyncReadExt::read] into a buffer of [room] bytes: one poll. *)
Definition async_read (room : nat) (s : source) : source * poll (outcome io_error (list byte)) :=
  match s with
  | [] => ([], Ready (Ok []))
  | WouldBlock :: s => (s, NotReady)
  | ReadError e :: s => (s, Ready (Err e))
  | Chunk bs :: s =>
      (match drop room bs with [] => s | rest => Chunk rest :: s end, Ready (Ok (take room bs)))
  end.

(** The bytes still to come. *)
Definition event_bytes (e : read_event) : list byte :=
  match e with Chunk bs => bs | _ => [] end.
Definition source_bytes (s : source) : list byte := flat_map event_bytes s.

(** ** The accumulator *)

Record FrameAccumulator := mkAccumulator { frame_len : nat; buf : list byte }.

Definition FrameAccumulator_new (frame_len : nat) : FrameAccumulator :=
  mkAccumulator frame_len [].

Definition FrameAccumulator_push (a : FrameAccumulator) (bytes : list byte) : FrameAccumulator :=
  mkAccumulator (frame_len a) (buf a ++ bytes).

Definition FrameAccumulator_next_frame (a : FrameAccumulator)
    : FrameAccumulator * option (list byte) :=
  if length (buf a) <? frame_len a then (a, None)
  else (mkAccumulator (frame_len a) (drop (frame_len a) (buf a)),
        Some (take (frame_len a) (buf a))).

Definition FrameAccumulator_pending (a : FrameAccumulator) : nat := length (buf a).

(** ** The reader *)

(** [scratch] is only ever written by [read] and read back over the same
    length, so its length is what matters. *)
Record FrameReader := mkReader { inner : source; acc : FrameAccumulator; scratch_len : nat }.

Definition FrameReader_new (inner : source) (frame_len : nat) : FrameReader :=
  mkReader inner (FrameAccumulator_new frame_len) frame_len.

(** The loop of [next_frame], polled until it returns or the stream is not
    ready.  [scratch.len() - pending] would underflow when more than a frame is
    held, and the slice [scratch[..room]] is out of range then. *)
Fixpoint next_frame_loop (fuel : nat) (r : FrameReader)
    : FrameReader * poll (outcome io_error (list byte)) :=
  match fuel with
  | O => (r, Ready Panic)
  | S fuel =>
      match FrameAccumulator_next_frame (acc r) with
      | (a, Some frame) => (mkReader (inner r) a (scratch_len r), Ready (Ok frame))
      | (a, None) =>
          if scratch_len r <? FrameAccumulator_pending a then (r, Ready Panic) else
          let room := scratch_len r - FrameAccumulator_pending a in
          match async_read room (inner r) with
          | (s, NotReady) => (mkReader s a (scratch_len r), NotReady)
          | (s, Ready (Err e)) => (mkReader s a (scratch_len r), Ready (Err e))
          | (s, Ready Panic) => (mkReader s a (scratch_len r), Ready Panic)
          | (s, Ready (Ok [])) => (mkReader s a (scratch_len r), Ready (Err UnexpectedEof))
          | (s, Ready (Ok bs)) =>
              next_frame_loop fuel (mkReader s (FrameAccumulator_push a bs) (scratch_len r))
          end
      end
  end.

(** Each turn of the loop uses up an event of the stream, or fills the frame
    and returns on the next turn. *)
Definition FrameReader_next_frame (r : FrameReader)
    : FrameReader * poll (outcome io_error (list byte)) :=
  next_frame_loop (length (inner r) + 2) r.

Definition FrameReader_pending (r : FrameReader) : nat := FrameAccumulator_pending (acc r).

Definition FrameReader_into_inner (r : FrameReader) : source := inner r.

(** A caller polling [n] times, with or without dropping the future in
    between: the frames it got and the reader afterwards.  It stops at the
    first error. *)
Fixpoint poll_frames (n : nat) (r : FrameReader) : list (list byte) * FrameReader :=
  match n with
  | O => ([], r)
  | S n =>
      match FrameReader_next_frame r with
      | (r, NotReady) => poll_frames n r
      | (r, Ready (Ok frame)) => let '(fs, r) := poll_frames n r in (frame :: fs, r)
      | (r, Ready _) => ([], r)
      end
  end.

(** ** The invariant of a reader

    The scratch buffer holds one frame, and less than one frame is buffered
    between calls. *)
Definition reader_inv (r : FrameReader) : Prop :=
  0 < frame_len (acc r) ∧ scratch_len r = frame_len (acc r) ∧
  length (buf (acc r)) < frame_len (acc r).

(** The bytes the reader has not handed out. *)
Definition unread (r : FrameReader) : list byte := buf (acc r) ++ source_bytes (inner r).

Lemma FrameReader_new_inv s n : 0 < n → reader_inv (FrameReader_new s n).
Proof. done. Qed.

Lemma async_read_bytes room s s' bs :
  async_read room s = (s', Ready (Ok bs)) → source_bytes s = bs ++ source_bytes s'.
Proof.
  destruct s as [|[cs| |] s]; simpl; intros; simplify_eq/=; [done|].
  rewrite <- (take_drop room cs) at 1. rewrite <- app_assoc. f_equal.
  by destruct (drop room cs).
Qed.

Lemma async_read_length room s s' bs :
  async_read room s = (s', Ready (Ok bs)) → length bs ≤ room.
Proof. destruct s as [|[cs| |] s]; simpl; intros; simplify_eq/=; rewrite ?length_take; simpl; lia. Qed.

(** A read takes an event off the stream, or fills the buffer. *)
Lemma async_read_progress room s s' bs :
  async_read room s = (s', Ready (Ok bs)) → s ≠ [] →
  length s' < length s ∨ (length s' = length s ∧ length bs = room).
Proof.
  destruct s as [|[cs| |] s]; simpl; intros H Hs; simplify_eq/=.
  destruct (drop room cs) eqn:Hd; simpl; [left; lia|]. right. split; [done|].
  apply length_take_le. assert (length (drop room cs) = S (length l)) as Hl by (by rewrite Hd).
  rewrite length_drop in Hl. lia.
Qed.

(** What a poll may do, as one specification of its result. *)
Definition poll_spec (r r' : FrameReader) (p : poll (outcome io_error (list byte))) : Prop :=
  frame_len (acc r') = frame_len (acc r) ∧ reader_inv r' ∧
  match p with
  | NotReady | Ready (Err _) => unread r' = unread r
  | Ready (Ok frame) =>
      unread r = frame ++ unread r' ∧ length frame = frame_len (acc r) ∧ buf (acc r') = []
  | Ready Panic => False
  end.

Lemma next_frame_loop_spec fuel r r' p :
  0 < frame_len (acc r) → scratch_len r = frame_len (acc r) →
  length (buf (acc r)) ≤ frame_len (acc r) →
  (length (buf (acc r)) < frame_len (acc r) → length (inner r) + 2 ≤ fuel) →
  1 ≤ fuel →
  next_frame_loop fuel r = (r', p) → poll_spec r r' p.
Proof.
  revert r. induction fuel as [|fuel IH]; intros [s [fl b] sl] Hfl Hsl Hle Hfuel H1 H; [lia|].
  cbn [inner acc scratch_len frame_len buf] in *. subst sl.
  cbn [next_frame_loop FrameAccumulator_next_frame acc frame_len buf] in H.
  unfold FrameAccumulator_next_frame in H. cbn [frame_len buf] in H.
  destruct (Nat.ltb_spec (length b) fl) as [Hlt|Hge].
  - unfold FrameAccumulator_pending in H. cbn [buf inner scratch_len] in H.
    rewrite (proj2 (Nat.ltb_ge _ _) Hle) in H.
    destruct (async_read (fl - length b) s) as [s' [|[bs|e|]]] eqn:Hread.
    + simplify_eq. unfold poll_spec, reader_inv, unread. simpl. repeat split; try done.
      destruct s as [|[cs| |] s]; by simplify_eq/=.
    + pose proof (async_read_length _ _ _ _ Hread).
      destruct bs as [|b0 bs].
      { simplify_eq. unfold poll_spec, reader_inv, unread. simpl. repeat split; try done.
        apply async_read_bytes in Hread. by rewrite Hread. }
      assert (s ≠ []) as Hs by (intros ->; by simplify_eq/=).
      pose proof (async_read_progress _ _ _ _ Hread Hs) as Hprog.
      apply IH in H as (Hf & Hinv & Hp); cbn [inner acc scratch_len frame_len buf
        FrameAccumulator_push] in *; try done; rewrite ?length_app; try lia.
      split; [done|]. split; [done|].
      replace (unread (mkReader s (mkAccumulator fl b) fl))
        with (unread (mkReader s' (mkAccumulator fl (b ++ b0 :: bs)) fl)); [done|].
      unfold unread. cbn [inner acc buf]. apply async_read_bytes in Hread.
      by rewrite Hread, <- app_assoc.
    + simplify_eq. unfold poll_spec, reader_inv, unread. simpl. repeat split; try done.
      destruct s as [|[cs| |] s]; by simplify_eq/=.
    + destruct s as [|[cs| |] s]; by simplify_eq/=.
  - assert (length b = fl) as Hb by lia. simplify_eq. unfold poll_spec, reader_inv, unread. simpl.
    rewrite take_ge, drop_ge by lia. simpl. repeat split; try done.
Qed.

Lemma next_frame_poll_spec r r' p :
  reader_inv r → FrameReader_next_frame r = (r', p) → poll_spec r r' p.
Proof.
  intros (Hfl & Hsl & Hlt) H. eapply next_frame_loop_spec; eauto; lia.
Qed.

(** A stream with no unready read and no error has data to give. *)
Definition is_data (e : read_event) : Prop :=
  match e with Chunk bs => bs ≠ [] | _ => False end.

Lemma async_read_data room s :
  Forall is_data s → s ≠ [] → 0 < room →
  ∃ s' bs, async_read room s = (s', Ready (Ok bs)) ∧ Forall is_data s' ∧ bs ≠ [].
Proof.
  intros Hs Hne Hroom. destruct Hs as [|e s He Hs]; [done|].
  destruct e as [cs| |]; simpl in *; [|done..]. eexists _, _. split; [done|]. split.
  - destruct (drop room cs) eqn:Hd; [done|]. constructor; done.
  - destruct cs, room; simpl; try done; lia.
Qed.

Lemma next_frame_loop_live fuel r :
  0 < frame_len (acc r) → scratch_len r = frame_len (acc r) →
  length (buf (acc r)) ≤ frame_len (acc r) →
  (length (buf (acc r)) < frame_len (acc r) → length (inner r) + 2 ≤ fuel) →
  1 ≤ fuel → Forall is_data (inner r) → frame_len (acc r) ≤ length (unread r) →
  ∃ r' frame, next_frame_loop fuel r = (r', Ready (Ok frame)).
Proof.
  revert r. induction fuel as [|fuel IH]; intros [s [fl b] sl] Hfl Hsl Hle Hfuel H1 Hd Hun; [lia|].
  unfold unread in Hun. cbn [inner acc scratch_len frame_len buf] in *. subst sl.
  cbn [next_frame_loop acc]. unfold FrameAccumulator_next_frame. cbn [frame_len buf].
  destruct (Nat.ltb_spec (length b) fl) as [Hlt|Hge]; [|by eauto].
  unfold FrameAccumulator_pending. cbn [buf inner scratch_len].
  rewrite (proj2 (Nat.ltb_ge _ _) Hle).
  assert (s ≠ []) as Hs by (intros ->; rewrite length_app in Hun; simpl in Hun; lia).
  destruct (async_read_data (fl - length b) s Hd Hs ltac:(lia)) as (s' & bs & Hread & Hd' & Hbs).
  rewrite Hread. destruct bs as [|b0 bs]; [done|].
  pose proof (async_read_length _ _ _ _ Hread).
  pose proof (async_read_progress _ _ _ _ Hread Hs) as Hprog.
  pose proof (async_read_bytes _ _ _ _ Hread) as Hbytes.
  apply IH; cbn [inner acc scratch_len frame_len buf FrameAccumulator_push]; try done;
    rewrite ?length_app; try lia.
  unfold unread, FrameAccumulator_push. cbn [inner acc buf]. by rewrite <- app_assoc, <- Hbytes.
Qed.

(** ** Properties *)

(** C36. Cancellation safety.  However the stream is cut into pieces, whichever
    reads are not ready, and however often the caller drops the future and
    polls again, the frames handed out are frames of the right length, in
    order, and together with what is still buffered and still in the stream
    they are exactly the bytes of the stream: nothing is lost, duplicated or
    reordered, less than one frame stays buffered, and no poll panics. *)
Theorem poll_frames_conservation n s len :
  0 < len →
  let '(frames, r) := poll_frames n (FrameReader_new s len) in
  source_bytes s = concat frames ++ unread r ∧
  Forall (λ f, length f = len) frames ∧
  FrameReader_pending r < len.
Proof.
  intros Hlen.
  assert (∀ r, reader_inv r → let '(frames, r') := poll_frames n r in
    unread r = concat frames ++ unread r' ∧
    Forall (λ f, length f = frame_len (acc r)) frames ∧
    FrameReader_pending r' < frame_len (acc r)) as H.
  { induction n as [|n IH]; intros r Hr; simpl.
    - split; [done|]. split; [constructor|]. apply Hr.
    - destruct (FrameReader_next_frame r) as [r1 p] eqn:Hp.
      apply next_frame_poll_spec in Hp as (Hfl & Hinv & Hspec); [|done].
      destruct p as [|[frame|e|]].
      + specialize (IH r1 Hinv). rewrite Hfl, Hspec in IH. done.
      + specialize (IH r1 Hinv). destruct (poll_frames n r1) as [fs r2].
        destruct Hspec as (Hu & Hf & _). destruct IH as (Hu' & Hfs & Hpend). rewrite Hfl in *.
        simpl. rewrite <- app_assoc, <- Hu'. auto.
      + rewrite Hspec, <- Hfl. split; [done|]. split; [constructor|]. apply Hinv.
      + done. }
  specialize (H (FrameReader_new s len) (FrameReader_new_inv s len Hlen)).
  destruct (poll_frames n _) as [fs r]. done.
Qed.

Lemma poll_frames_conservation_witness :
  let s := [Chunk [x01; x02; x03]; WouldBlock; Chunk [x04; x05; x06; x07; x08; xaa; xbb]] in
  let '(frames, r) := poll_frames 5 (FrameReader_new s 4) in
  source_bytes s = concat frames ++ unread r ∧
  Forall (λ f, length f = 4) frames ∧ FrameReader_pending r < 4.
Proof.
  apply (poll_frames_conservation 5
    [Chunk [x01; x02; x03]; WouldBlock; Chunk [x04; x05; x06; x07; x08; xaa; xbb]] 4). lia.
Defined.

(** A read never reaches past the frame being assembled: when [next_frame]
    returns a frame, the reader holds no byte, and the stream continues at the
    byte after the frame, so handing the stream on loses nothing. *)
Theorem next_frame_stops_at_frame_end r r' frame :
  reader_inv r → FrameReader_next_frame r = (r', Ready (Ok frame)) →
  FrameReader_pending r' = 0 ∧ length frame = frame_len (acc r) ∧
  unread r = frame ++ source_bytes (FrameReader_into_inner r').
Proof.
  intros Hr H. apply next_frame_poll_spec in H as (_ & _ & Hu & Hl & Hb); [|done].
  unfold FrameReader_pending, FrameAccumulator_pending, FrameReader_into_inner.
  unfold unread in Hu at 2. rewrite Hb in *. done.
Qed.

Lemma next_frame_stops_at_frame_end_witness :
  let r := mkReader [Chunk [x03; x04; xaa; xbb]] (mkAccumulator 4 [x01; x02]) 4 in
  FrameReader_pending (fst (FrameReader_next_frame r)) = 0 ∧
  length [x01; x02; x03; x04] = 4 ∧
  unread r = [x01; x02; x03; x04] ++
    source_bytes (FrameReader_into_inner (fst (FrameReader_next_frame r))).
Proof.
  apply (next_frame_stops_at_frame_end
    (mkReader [Chunk [x03; x04; xaa; xbb]] (mkAccumulator 4 [x01; x02]) 4)).
  - repeat split; simpl; lia.
  - reflexivity.
Defined.

(** Progress: while the stream delivers data, one call of [next_frame]
    returns a frame as soon as the buffered and the arriving bytes make one,
    and that frame is their first [frame_len] bytes. *)
Theorem next_frame_live r :
  reader_inv r → Forall is_data (inner r) → frame_len (acc r) ≤ length (unread r) →
  ∃ r', FrameReader_next_frame r = (r', Ready (Ok (take (frame_len (acc r)) (unread r)))).
Proof.
  intros Hr Hd Hlen.
  destruct (next_frame_loop_live (length (inner r) + 2) r) as (r' & frame & H);
    [apply Hr|apply Hr|destruct Hr as (?&?&?); lia|lia|lia|done|done|].
  exists r'. unfold FrameReader_next_frame. rewrite H. do 3 f_equal.
  change (FrameReader_next_frame r = (r', Ready (Ok frame))) in H.
  apply next_frame_poll_spec in H as (_ & _ & Hu & Hl & _); [|done].
  by rewrite Hu, <- Hl, take_app_length.
Qed.

Lemma next_frame_live_witness :
  ∃ r', FrameReader_next_frame (FrameReader_new [Chunk [x01]; Chunk [x02; x03; x04]] 3) =
        (r', Ready (Ok [x01; x02; x03])).
Proof.
  apply (next_frame_live (FrameReader_new [Chunk [x01]; Chunk [x02; x03; x04]] 3)).
  - repeat split; simpl; lia.
  - by repeat constructor.
  - vm_compute. lia.
Defined.
