(* ===== verification/Noise.v ===== *)
(** QuietHop: the per-hop Noise NK session.

    [quiethop-crypto/src/noise.rs] over the [snow] crate.  [snow] is not part
    of the repository: its types and the functions the source calls are the
    fields of the class [Snow], and what the source relies on is the class
    [SnowLaws]: a completed NK handshake pairs the two transports, and a
    transport decrypts what its peer encrypted, in order.  The Rust side (the
    length checks, the fixed prologue and suite, the mapping of every failure
    to a [NoiseError], the key-pair self-test) is modelled in full.

    The operating system's random bytes are an explicit argument [rng]. *)

From S2P Require Import Prelude Bytes NetAddr Cell.

(** ** What the source calls of [snow]

    [write_message(payload, out)] returns how many bytes it wrote at the front
    of [out]; here it is given the length of [out] and returns those bytes.
    [read_message] likewise. *)
Class Snow := {
  NoiseParams : Type;
  Builder : Type;
  HandshakeState : Type;
  TransportState : Type;
  params_parse : string → option NoiseParams;
  builder_new : NoiseParams → Builder;
  builder_prologue : Builder → list byte → option Builder;
  builder_remote_public_key : Builder → list byte → option Builder;
  builder_local_private_key : Builder → list byte → option Builder;
  builder_build_initiator : Builder → option HandshakeState;
  builder_build_responder : Builder → option HandshakeState;
  (** The generated private and public halves. *)
  builder_generate_keypair : Builder → list byte → option (list byte * list byte);
  hs_write_message : HandshakeState → list byte → list byte → nat →
                     HandshakeState * option (list byte);
  hs_read_message : HandshakeState → list byte → nat → HandshakeState * option (list byte);
  hs_into_transport_mode : HandshakeState → option TransportState;
  ts_write_message : TransportState → list byte → nat → TransportState * option (list byte);
  ts_read_message : TransportState → list byte → nat → TransportState * option (list byte);
}.

(** ** [noise.rs] *)

Definition NOISE_PARAMS : string := "Noise_NK_25519_ChaChaPoly_SHA256".
Definition NOISE_PROLOGUE : list byte := as_bytes "quiethop/v1/nk".

Inductive NoiseError :=
  | Handshake
  | TransportFailed
  | KeyLength
  | Length (got want : nat).

Record StaticKeypair := mkKeypair { kp_public : list byte; kp_private : list byte }.

Section noise.
Context `{Snow}.

Definition params : outcome NoiseError NoiseParams :=
  ok_or (params_parse NOISE_PARAMS) Handshake.

(** [Transport::encrypt]: the buffer [out] afterwards. *)
Definition Transport_encrypt (plaintext out : list byte)
    : st TransportState NoiseError (list byte) := λ t,
  let want := length plaintext + NOISE_TAG_LEN in
  if negb (length out =? want) then (t, Err (Length (length out) want)) else
  match ts_write_message t plaintext (length out) with
  | (t, None) => (t, Err TransportFailed)
  | (t, Some w) =>
      if negb (length w =? want) then (t, Err (Length (length w) want))
      else (t, Ok (w ++ drop (length w) out))
  end.

(** [Transport::decrypt]. *)
Definition Transport_decrypt (ciphertext out : list byte)
    : st TransportState NoiseError (list byte) := λ t,
  if length ciphertext <? NOISE_TAG_LEN then (t, Err (Length (length ciphertext) NOISE_TAG_LEN)) else
  let want := length ciphertext - NOISE_TAG_LEN in
  if negb (length out =? want) then (t, Err (Length (length out) want)) else
  match ts_read_message t ciphertext (length out) with
  | (t, None) => (t, Err TransportFailed)
  | (t, Some w) =>
      if negb (length w =? want) then (t, Err (Length (length w) want))
      else (t, Ok (w ++ drop (length w) out))
  end.

(** [Initiator::start]: the handshake state and message 1. *)
Definition Initiator_start (remote_static rng : list byte)
    : outcome NoiseError (HandshakeState * list byte) :=
  p ← params;
  b ← ok_or (builder_prologue (builder_new p) NOISE_PROLOGUE) Handshake;
  b ← ok_or (builder_remote_public_key b remote_static) KeyLength;
  inner ← ok_or (builder_build_initiator b) Handshake;
  let '(inner, w) := hs_write_message inner rng [] NOISE_MSG_LEN in
  msg1 ← ok_or w Handshake;
  if negb (length msg1 =? NOISE_MSG_LEN) then Err (Length (length msg1) NOISE_MSG_LEN)
  else Ok (inner, msg1).

(** [Initiator::finish]. *)
Definition Initiator_finish (inner : HandshakeState) (msg2 : list byte)
    : outcome NoiseError TransportState :=
  let '(inner, r) := hs_read_message inner msg2 NOISE_MSG_LEN in
  _ ← ok_or r Handshake;
  ok_or (hs_into_transport_mode inner) Handshake.

(** [respond]: the transport and message 2. *)
Definition respond (static_private msg1 rng : list byte)
    : outcome NoiseError (TransportState * list byte) :=
  p ← params;
  b ← ok_or (builder_prologue (builder_new p) NOISE_PROLOGUE) Handshake;
  b ← ok_or (builder_local_private_key b static_private) KeyLength;
  hs ← ok_or (builder_build_responder b) Handshake;
  let '(hs, r) := hs_read_message hs msg1 NOISE_MSG_LEN in
  _ ← ok_or r Handshake;
  let '(hs, w) := hs_write_message hs rng [] NOISE_MSG_LEN in
  msg2 ← ok_or w Handshake;
  if negb (length msg2 =? NOISE_MSG_LEN) then Err (Length (length msg2) NOISE_MSG_LEN) else
  t ← ok_or (hs_into_transport_mode hs) Handshake;
  Ok (t, msg2).

(** [StaticKeypair::from_parts]: a handshake with oneself. *)
Definition StaticKeypair_from_parts (private public rng_i rng_r : list byte)
    : outcome NoiseError StaticKeypair :=
  '(initiator, msg1) ← Initiator_start public rng_i;
  '(_, msg2) ← respond private msg1 rng_r;
  _ ← Initiator_finish initiator msg2;
  Ok (mkKeypair public private).

(** [generate_static_keypair]. *)
Definition generate_static_keypair (rng : list byte) : outcome NoiseError StaticKeypair :=
  p ← params;
  '(priv, pub) ← ok_or (builder_generate_keypair (builder_new p) rng) Handshake;
  if negb (length priv =? STATIC_KEY_LEN) then Err KeyLength else
  if negb (length pub =? STATIC_KEY_LEN) then Err KeyLength else
  Ok (mkKeypair pub priv).
End noise.

(** ** What the source relies on *)

Class SnowLaws `{Snow} := {
  (** [kp priv pub]: the two halves belong together. *)
  key_pair : list byte → list byte → Prop;
  (** [chan k a b]: [b] decrypts what [a] encrypts next, and the next [k]
      messages will not exhaust the nonce. *)
  chan : nat → TransportState → TransportState → Prop;
  (** How many messages a fresh transport can carry in each direction. *)
  budget : nat;
  budget_pos : 0 < budget;

  (** A pair in step for some more messages is in step for fewer. *)
  chan_weaken k a b : chan (S k) a b → chan k a b;

  (** A message that fits one Noise message, encrypted by [a], is sixteen bytes
      longer, is decrypted by [b], and the pair stays in step; the other
      direction of either end is not affected. *)
  transport_in_step k a b pt :
    chan (S k) a b → length pt + NOISE_TAG_LEN ≤ Z.to_nat 65535 →
    ∃ a' b' ct,
      ts_write_message a pt (length pt + NOISE_TAG_LEN) = (a', Some ct) ∧
      length ct = length pt + NOISE_TAG_LEN ∧
      ts_read_message b ct (length pt) = (b', Some pt) ∧
      chan k a' b' ∧ (∀ j c, chan j c a → chan j c a') ∧ (∀ j c, chan j b c → chan j b' c);

  (** Generating a key pair works and gives two halves of a key's length that
      belong together. *)
  generate_pairs p rng :
    params_parse NOISE_PARAMS = Some p →
    ∃ priv pub, builder_generate_keypair (builder_new p) rng = Some (priv, pub) ∧
      length priv = STATIC_KEY_LEN ∧ length pub = STATIC_KEY_LEN ∧ key_pair priv pub;

  (** The one suite the sources use is known. *)
  suite_known : is_Some (params_parse NOISE_PARAMS);

  (** An NK handshake under one suite and prologue, against the responder's own
      static key, completes in two 48-byte messages and pairs the transports
      both ways. *)
  nk_completes pub priv rng_i rng_r :
    key_pair priv pub →
    ∃ p b bi br hi hi' hi'' hr hr' hr'' msg1 msg2 x y ti tr,
      params_parse NOISE_PARAMS = Some p ∧
      builder_prologue (builder_new p) NOISE_PROLOGUE = Some b ∧
      builder_remote_public_key b pub = Some bi ∧ builder_build_initiator bi = Some hi ∧
      builder_local_private_key b priv = Some br ∧ builder_build_responder br = Some hr ∧
      hs_write_message hi rng_i [] NOISE_MSG_LEN = (hi', Some msg1) ∧ length msg1 = NOISE_MSG_LEN ∧
      hs_read_message hr msg1 NOISE_MSG_LEN = (hr', Some x) ∧
      hs_write_message hr' rng_r [] NOISE_MSG_LEN = (hr'', Some msg2) ∧ length msg2 = NOISE_MSG_LEN ∧
      hs_read_message hi' msg2 NOISE_MSG_LEN = (hi'', Some y) ∧
      hs_into_transport_mode hi'' = Some ti ∧ hs_into_transport_mode hr'' = Some tr ∧
      chan budget ti tr ∧ chan budget tr ti;
}.

(** ** Lemmas *)

Section noise_lemmas.
Context `{SnowLaws}.

(** The NK handshake as the client and a relay run it. *)
Lemma handshake_completes pub priv rng_i rng_r :
  key_pair priv pub →
  ∃ init msg1 ti tr msg2,
    Initiator_start pub rng_i = Ok (init, msg1) ∧ length msg1 = NOISE_MSG_LEN ∧
    respond priv msg1 rng_r = Ok (tr, msg2) ∧ length msg2 = NOISE_MSG_LEN ∧
    Initiator_finish init msg2 = Ok ti ∧ chan budget ti tr ∧ chan budget tr ti.
Proof.
  intros Hkp. destruct (nk_completes pub priv rng_i rng_r Hkp)
    as (p & b & bi & br & hi & hi' & hi'' & hr & hr' & hr'' & msg1 & msg2 & x & y & ti & tr &
        Hp & Hb & Hbi & Hhi & Hbr & Hhr & Hw1 & Hl1 & Hr1 & Hw2 & Hl2 & Hr2 & Hti & Htr & Hc & Hc').
  exists hi', msg1, ti, tr, msg2. unfold Initiator_start, respond, Initiator_finish, params.
  rewrite Hp. simpl. rewrite Hb. simpl. rewrite Hbi, Hbr. simpl. rewrite Hhi, Hhr. simpl.
  rewrite Hw1, Hr1, Hr2. simpl. rewrite Hl1, Hw2. simpl. rewrite Hl2, Hti, Htr.
  rewrite Nat.eqb_refl. simpl. auto 10.
Qed.

Lemma generate_static_keypair_Ok rng :
  ∃ kp, generate_static_keypair rng = Ok kp ∧ key_pair (kp_private kp) (kp_public kp) ∧
        length (kp_private kp) = STATIC_KEY_LEN ∧ length (kp_public kp) = STATIC_KEY_LEN.
Proof.
  destruct suite_known as [p Hp]. destruct (generate_pairs p rng Hp) as (priv & pub & Hg & Hl & Hl' & Hk).
  exists (mkKeypair pub priv). unfold generate_static_keypair, params. rewrite Hp. simpl. rewrite Hg. simpl.
  by rewrite Hl, Hl', Nat.eqb_refl.
Qed.

(** Halves that belong together pass the self-test. *)
Lemma from_parts_Ok priv pub rng_i rng_r :
  key_pair priv pub → StaticKeypair_from_parts priv pub rng_i rng_r = Ok (mkKeypair pub priv).
Proof.
  intros Hk. destruct (handshake_completes pub priv rng_i rng_r Hk) as (i & m1 & ti & tr & m2 & Hs & _ & Hr & _ & Hf & _).
  unfold StaticKeypair_from_parts. rewrite Hs. simpl. rewrite Hr. simpl. by rewrite Hf.
Qed.

Lemma encrypt_decrypt k a b pt out out' :
  chan (S k) a b → length pt + NOISE_TAG_LEN ≤ Z.to_nat 65535 →
  length out = length pt + NOISE_TAG_LEN → length out' = length pt →
  ∃ a' b' ct,
    Transport_encrypt pt out a = (a', Ok ct) ∧ length ct = length pt + NOISE_TAG_LEN ∧
    Transport_decrypt ct out' b = (b', Ok pt) ∧
    chan k a' b' ∧ (∀ j c, chan j c a → chan j c a') ∧ (∀ j c, chan j b c → chan j b' c).
Proof.
  intros Hc Hpt Hout Hout'.
  destruct (transport_in_step k a b pt Hc Hpt) as (a' & b' & ct & Hw & Hl & Hr & Hc' & Ha & Hb).
  exists a', b', ct. unfold Transport_encrypt, Transport_decrypt.
  rewrite Hout, Hl, Nat.eqb_refl. cbn [negb]. rewrite Hw, Hl, Nat.eqb_refl. cbn [negb].
  rewrite (proj2 (Nat.ltb_ge _ _)) by lia. rewrite Hout'.
  replace (length pt + NOISE_TAG_LEN - NOISE_TAG_LEN) with (length pt) by lia.
  rewrite Nat.eqb_refl. cbn [negb]. rewrite Hr, Nat.eqb_refl. cbn [negb].
  rewrite !drop_ge, !app_nil_r by lia. auto 10.
Qed.
End noise_lemmas.

(** Encryption never returns a buffer of another length than asked for, and
    neither direction panics. *)
Lemma Transport_encrypt_Ok `{Snow} pt out t t' ct :
  Transport_encrypt pt out t = (t', Ok ct) →
  length ct = length pt + NOISE_TAG_LEN ∧ length out = length pt + NOISE_TAG_LEN.
Proof.
  unfold Transport_encrypt. destruct (Nat.eqb_spec (length out) (length pt + NOISE_TAG_LEN)) as [Ho|]; [|done].
  cbn [negb]. destruct (ts_write_message _ _ _) as [t1 [w|]]; [|done].
  destruct (Nat.eqb_spec (length w) (length pt + NOISE_TAG_LEN)); [|done]. cbn [negb].
  intros. simplify_eq. rewrite drop_ge by lia. by rewrite app_nil_r.
Qed.

Lemma Transport_decrypt_Ok `{Snow} ct out t t' pt :
  Transport_decrypt ct out t = (t', Ok pt) →
  length ct = length pt + NOISE_TAG_LEN ∧ length out = length pt.
Proof.
  unfold Transport_decrypt. destruct (Nat.ltb_spec (length ct) NOISE_TAG_LEN); [done|].
  destruct (Nat.eqb_spec (length out) (length ct - NOISE_TAG_LEN)) as [Ho|]; [|done].
  cbn [negb]. destruct (ts_read_message _ _ _) as [t1 [w|]]; [|done].
  destruct (Nat.eqb_spec (length w) (length ct - NOISE_TAG_LEN)); [|done]. cbn [negb].
  intros. simplify_eq. rewrite drop_ge by lia. rewrite app_nil_r. lia.
Qed.

Lemma Transport_encrypt_no_panic `{Snow} pt out t : snd (Transport_encrypt pt out t) ≠ Panic.
Proof. unfold Transport_encrypt. by repeat case_match. Qed.

Lemma Transport_decrypt_no_panic `{Snow} ct out t : snd (Transport_decrypt ct out t) ≠ Panic.
Proof. unfold Transport_decrypt. by repeat case_match. Qed.

(** The responder never panics, and its message 2 has the fixed length. *)
Lemma respond_no_panic `{Snow} priv msg1 rng : respond priv msg1 rng ≠ Panic.
Proof.
  unfold respond, params. destruct (params_parse _); [|done]. simpl. destruct (builder_prologue _ _); [|done].
  simpl. destruct (builder_local_private_key _ _); [|done]. simpl.
  destruct (builder_build_responder _); [|done]. simpl. destruct (hs_read_message _ _ _) as [hs []]; [|done].
  simpl. destruct (hs_write_message _ _ _ _) as [hs' []]; [|done]. simpl. case_match; [done|].
  by destruct (hs_into_transport_mode _).
Qed.

Lemma respond_Ok `{Snow} priv msg1 rng t msg2 :
  respond priv msg1 rng = Ok (t, msg2) → length msg2 = NOISE_MSG_LEN.
Proof.
  unfold respond. intros Hr.
  do 4 (apply bind_Ok in Hr as (? & _ & Hr)). destruct (hs_read_message _ _ _).
  apply bind_Ok in Hr as (? & _ & Hr). destruct (hs_write_message _ _ _ _).
  apply bind_Ok in Hr as (m2 & _ & Hr). destruct (Nat.eqb_spec (length m2) NOISE_MSG_LEN); [|done].
  apply bind_Ok in Hr as (? & _ & Hr). by injection Hr as <- <-.
Qed.

Lemma Initiator_start_no_panic `{Snow} pub rng : Initiator_start pub rng ≠ Panic.
Proof.
  unfold Initiator_start, params. destruct (params_parse _); [|done]. simpl.
  destruct (builder_prologue _ _); [|done]. simpl. destruct (builder_remote_public_key _ _); [|done]. simpl.
  destruct (builder_build_initiator _); [|done]. simpl. destruct (hs_write_message _ _ _ _) as [hs []]; [|done].
  simpl. by case_match.
Qed.

Lemma Initiator_start_Ok `{Snow} pub rng hs msg1 :
  Initiator_start pub rng = Ok (hs, msg1) → length msg1 = NOISE_MSG_LEN.
Proof.
  unfold Initiator_start. intros Hr.
  do 4 (apply bind_Ok in Hr as (? & _ & Hr)). destruct (hs_write_message _ _ _ _).
  apply bind_Ok in Hr as (m1 & _ & Hr). destruct (Nat.eqb_spec (length m1) NOISE_MSG_LEN); [|done].
  by injection Hr as <- <-.
Qed.

Lemma Initiator_finish_no_panic `{Snow} hs msg2 : Initiator_finish hs msg2 ≠ Panic.
Proof.
  unfold Initiator_finish. destruct (hs_read_message _ _ _) as [hs' []]; [|done]. simpl.
  by destruct (hs_into_transport_mode _).
Qed.
