(* ===== verification/SampleNoise.v ===== *)
(** QuietHop: a sample implementation of the [Snow] interface.

    It has the shape of the real thing without its cryptography: a key is its
    own public half, a session key is made of the two ephemerals, and a
    ciphertext is a sixteen-byte tag (direction, counter and the front of the
    session key) before the plaintext.  It satisfies [SnowLaws], which shows
    that the laws are consistent, and it is executable, so the witnesses of the
    other files can run the protocol on it. *)

From S2P Require Import Prelude Bytes NetAddr Cell Noise.

Module Sample.

Record builder := mkBuilder { b_prologue : list byte; b_remote : list byte; b_local : list byte }.

Record handshake := mkHandshake {
  h_initiator : bool; h_static : list byte; h_e_i : list byte; h_e_r : list byte; h_stage : nat }.

Record transport := mkTransport {
  t_tx : list byte; t_tx_n : nat; t_rx : list byte; t_rx_n : nat }.

(** A byte string cut or padded to [n] bytes. *)
Definition fit (n : nat) (l : list byte) : list byte := take n (l ++ replicate n x00).

Lemma length_fit n l : length (fit n l) = n.
Proof. unfold fit. len. Qed.

Definition tag (key : list byte) (n : nat) : list byte :=
  u16_to_be_bytes (Z.of_nat n) ++ fit 14 key.

Lemma length_tag key n : length (tag key n) = NOISE_TAG_LEN.
Proof. unfold tag. by rewrite length_app, length_fit. Qed.

Definition write (t : transport) (pt : list byte) (cap : nat) : transport * option (list byte) :=
  if decide (length pt + NOISE_TAG_LEN ≤ cap ∧ (Z.of_nat (length pt + NOISE_TAG_LEN) ≤ 65535)%Z)
  then (mkTransport (t_tx t) (S (t_tx_n t)) (t_rx t) (t_rx_n t), Some (tag (t_tx t) (t_tx_n t) ++ pt))
  else (t, None).

Definition read (t : transport) (ct : list byte) (cap : nat) : transport * option (list byte) :=
  if decide (take NOISE_TAG_LEN ct = tag (t_rx t) (t_rx_n t) ∧ length ct - NOISE_TAG_LEN ≤ cap)
  then (mkTransport (t_tx t) (t_tx_n t) (t_rx t) (S (t_rx_n t)), Some (drop NOISE_TAG_LEN ct))
  else (t, None).

Definition hs_write (h : handshake) (rng pt : list byte) (cap : nat)
    : handshake * option (list byte) :=
  match h_initiator h, h_stage h, pt with
  | true, 0, [] => (mkHandshake true (h_static h) (fit 32 rng) (h_e_r h) 1,
                    Some (fit 32 rng ++ fit 16 (h_static h)))
  | false, 1, [] => (mkHandshake false (h_static h) (h_e_i h) (fit 32 rng) 2,
                     Some (fit 32 rng ++ fit 16 (h_e_i h)))
  | _, _, _ => (h, None)
  end.

Definition hs_read (h : handshake) (msg : list byte) (cap : nat)
    : handshake * option (list byte) :=
  match h_initiator h, h_stage h with
  | false, 0 =>
      if decide (length msg = 48 ∧ drop 32 msg = fit 16 (h_static h))
      then (mkHandshake false (h_static h) (take 32 msg) (h_e_r h) 1, Some [])
      else (h, None)
  | true, 1 =>
      if decide (length msg = 48 ∧ drop 32 msg = fit 16 (h_e_i h))
      then (mkHandshake true (h_static h) (h_e_i h) (take 32 msg) 2, Some [])
      else (h, None)
  | _, _ => (h, None)
  end.

Definition into_transport (h : handshake) : option transport :=
  if h_stage h =? 2 then
    let k1 := x01 :: h_e_i h ++ h_e_r h in
    let k2 := x02 :: h_e_i h ++ h_e_r h in
    Some (if h_initiator h then mkTransport k1 0 k2 0 else mkTransport k2 0 k1 0)
  else None.

Definition fresh (initiator : bool) (static : list byte) : option handshake :=
  if length static =? 32 then Some (mkHandshake initiator static [] [] 0) else None.

End Sample.

#[export] Instance sample_snow : Snow := {|
  NoiseParams := unit;
  Builder := Sample.builder;
  HandshakeState := Sample.handshake;
  TransportState := Sample.transport;
  params_parse s := if String.eqb s NOISE_PARAMS then Some tt else None;
  builder_new _ := Sample.mkBuilder [] [] [];
  builder_prologue b p := Some (Sample.mkBuilder p (Sample.b_remote b) (Sample.b_local b));
  builder_remote_public_key b k := Some (Sample.mkBuilder (Sample.b_prologue b) k (Sample.b_local b));
  builder_local_private_key b k := Some (Sample.mkBuilder (Sample.b_prologue b) (Sample.b_remote b) k);
  builder_build_initiator b := Sample.fresh true (Sample.b_remote b);
  builder_build_responder b := Sample.fresh false (Sample.b_local b);
  builder_generate_keypair _ rng := Some (Sample.fit 32 rng, Sample.fit 32 rng);
  hs_write_message := Sample.hs_write;
  hs_read_message := Sample.hs_read;
  hs_into_transport_mode := Sample.into_transport;
  ts_write_message := Sample.write;
  ts_read_message := Sample.read;
|}.

Lemma sample_transport_in_step (a b : Sample.transport) pt :
  Sample.t_tx a = Sample.t_rx b ∧ Sample.t_tx_n a = Sample.t_rx_n b →
  length pt + NOISE_TAG_LEN ≤ Z.to_nat 65535 →
  ∃ ct, Sample.write a pt (length pt + NOISE_TAG_LEN) =
          (Sample.mkTransport (Sample.t_tx a) (S (Sample.t_tx_n a)) (Sample.t_rx a) (Sample.t_rx_n a), Some ct) ∧
        length ct = length pt + NOISE_TAG_LEN ∧
        Sample.read b ct (length pt) =
          (Sample.mkTransport (Sample.t_tx b) (Sample.t_tx_n b) (Sample.t_rx b) (S (Sample.t_rx_n b)), Some pt).
Proof.
  intros [Hk Hn] Hpt. exists (Sample.tag (Sample.t_tx a) (Sample.t_tx_n a) ++ pt).
  pose proof (Sample.length_tag (Sample.t_tx a) (Sample.t_tx_n a)) as Ht. split_and!.
  - unfold Sample.write. rewrite decide_True; [done|]. split; lia.
  - rewrite length_app, Ht. lia.
  - unfold Sample.read. rewrite Hk, Hn in *. rewrite decide_True.
    + by rewrite drop_app_length' by done.
    + rewrite take_app_length' by done. split; [done|]. rewrite length_app. lia.
Qed.

#[export] Program Instance sample_snow_laws : SnowLaws := {|
  key_pair priv pub := priv = pub ∧ length pub = 32;
  chan _ a b := Sample.t_tx a = Sample.t_rx b ∧ Sample.t_tx_n a = Sample.t_rx_n b;
  budget := 1000;
|}.
Next Obligation. lia. Qed.
Next Obligation. done. Qed.
Next Obligation.
  intros k a b pt Hc Hpt. destruct (sample_transport_in_step a b pt Hc Hpt) as (ct & Hw & Hl & Hr).
  eexists _, _, ct. split; [exact Hw|]. split; [done|]. split; [exact Hr|]. simpl.
  destruct Hc. repeat split; simpl; naive_solver congruence.
Qed.
Next Obligation.
  intros p rng _. exists (Sample.fit 32 rng), (Sample.fit 32 rng). repeat split; apply Sample.length_fit.
Qed.
Next Obligation. by eexists. Qed.
Next Obligation.
  intros pub priv rng_i rng_r [-> Hlen].
  assert (∀ i, Sample.fresh i pub = Some (Sample.mkHandshake i pub [] [] 0)) as Hfresh
    by (intros i; unfold Sample.fresh; by rewrite Hlen).
  assert (∀ x y, length (Sample.fit 32 x ++ Sample.fit 16 y) = 48) as Hfit
    by (intros; by rewrite length_app, !Sample.length_fit).
  assert (∀ x y, take 32 (Sample.fit 32 x ++ Sample.fit 16 y) = Sample.fit 32 x) as Htake
    by (intros; rewrite take_app_length'; [done|by rewrite Sample.length_fit]).
  assert (∀ x y, drop 32 (Sample.fit 32 x ++ Sample.fit 16 y) = Sample.fit 16 y) as Hdrop
    by (intros; rewrite drop_app_length'; [done|by rewrite Sample.length_fit]).
  do 16 eexists. simpl.
  split; [done|]. split; [done|]. split; [done|]. split; [apply Hfresh|].
  split; [done|]. split; [apply Hfresh|]. split; [done|]. split; [apply Hfit|]. simpl.
  split; [unfold Sample.hs_read; simpl; by rewrite decide_True by (by rewrite Hfit, Hdrop)|].
  rewrite Htake. split; [done|]. split; [apply Hfit|]. simpl.
  split; [unfold Sample.hs_read; simpl; by rewrite decide_True by (by rewrite Hfit, Hdrop)|].
  rewrite Htake. by repeat split.
Qed.
