(* ===== verification/Layer.v ===== *)
(** QuietHop: layered framing, one AEAD layer per hop.

    [seal_to_me], [seal_forward] and [peel] of
    [quiethop-crypto/src/layer.rs], as methods on the hop's transport (the
    state of the [st] monad).  The theorems are about sizes (every frame on a
    link has the size of that link), about what a peeled layer can hold, and
    about the round trip through a pair of transports in step. *)

From S2P Require Import Prelude Bytes NetAddr Cell Noise SampleNoise.

Inductive LayerError :=
  | LayerNoise (e : NoiseError)
  | LayerCell (e : CellError)
  | UnknownDisposition (b : byte)
  | DirtyPadding
  | LayerWrongSize (got want : nat)
  | ForwardAtInnermost.

Inductive Peeled :=
  | ToMe (c : Cell)
  | Forward (blob : list byte).

Section layer.
Context `{Snow}.

(** [seal_to_me]. *)
Definition seal_to_me (cell : Cell) (layers : nat) : st TransportState LayerError (list byte) :=
  let body := body_len layers in
  let plain := replicate (DISPOSITION_LEN + body) x00 in
  plain ← lift (index_set plain 0 DISPOSITION_TO_ME);
  part ← lift (slice plain DISPOSITION_LEN (DISPOSITION_LEN + CELL_PLAINTEXT_LEN));
  part ← lift (map_err LayerCell (Cell_encode_into cell part));
  plain ← lift (copy_at plain DISPOSITION_LEN (DISPOSITION_LEN + CELL_PLAINTEXT_LEN) part);
  let out := replicate (length plain + NOISE_TAG_LEN) x00 in
  st_map_err LayerNoise (Transport_encrypt plain out).

(** [seal_forward]; [layers - 1] underflows when [layers] is zero. *)
Definition seal_forward (blob : list byte) (layers : nat) : st TransportState LayerError (list byte) :=
  match layers with
  | O => lift Panic
  | S below =>
      let want := link_cell_len below in
      if negb (length blob =? want) then fail (LayerWrongSize (length blob) want) else
      let plain := replicate (DISPOSITION_LEN + length blob) x00 in
      plain ← lift (index_set plain 0 DISPOSITION_FORWARD);
      plain ← lift (copy_at plain DISPOSITION_LEN (length plain) blob);
      let out := replicate (length plain + NOISE_TAG_LEN) x00 in
      st_map_err LayerNoise (Transport_encrypt plain out)
  end.

(** The body of [peel] after decryption. *)
Definition peel_plain (plain : list byte) (layers : nat) : outcome LayerError Peeled :=
  d ← index plain 0;
  match d with
  | x01 =>
      raw ← slice plain DISPOSITION_LEN (DISPOSITION_LEN + CELL_PLAINTEXT_LEN);
      cell ← map_err LayerCell (Cell_decode raw);
      pad ← slice_from plain (DISPOSITION_LEN + CELL_PLAINTEXT_LEN);
      if list_any (λ b, bool_decide (b ≠ x00)) pad then Err DirtyPadding
      else Ok (ToMe cell)
  | x02 =>
      if layers =? 1 then Err ForwardAtInnermost
      else blob ← slice_from plain DISPOSITION_LEN; Ok (Forward blob)
  | other => Err (UnknownDisposition other)
  end.

(** [peel]. *)
Definition peel (wire : list byte) (layers : nat) : st TransportState LayerError Peeled :=
  let want := link_cell_len layers in
  if negb (length wire =? want) then fail (LayerWrongSize (length wire) want) else
  let body := body_len layers in
  plain ← st_map_err LayerNoise (Transport_decrypt wire (replicate (DISPOSITION_LEN + body) x00));
  lift (peel_plain plain layers).
End layer.

(** ** The plaintexts of a layer *)

(** A TO_ME layer: the cell, then zeros up to the body's size. *)
Definition to_me_plain (c : Cell) (layers : nat) : list byte :=
  DISPOSITION_TO_ME :: cell_frame c ++ replicate (body_len layers - CELL_PLAINTEXT_LEN) x00.

Definition forward_plain (blob : list byte) : list byte := DISPOSITION_FORWARD :: blob.

Lemma length_to_me_plain c layers :
  1 ≤ layers → length (payload c) ≤ CELL_PAYLOAD_LEN →
  length (to_me_plain c layers) = DISPOSITION_LEN + body_len layers.
Proof.
  intros Hl Hc. unfold to_me_plain. cbn [length]. rewrite length_app, length_replicate.
  rewrite length_cell_frame by done. pose proof (body_len_ge layers Hl). unfold DISPOSITION_LEN. lia.
Qed.

Section layer_lemmas.
Context `{Snow}.

Lemma seal_to_me_eq c layers t :
  1 ≤ layers → length (payload c) ≤ CELL_PAYLOAD_LEN →
  seal_to_me c layers t =
  st_map_err LayerNoise (Transport_encrypt (to_me_plain c layers)
    (replicate (DISPOSITION_LEN + body_len layers + NOISE_TAG_LEN) x00)) t.
Proof.
  intros Hl Hc. pose proof (body_len_ge layers Hl) as Hb.
  unfold seal_to_me, DISPOSITION_LEN. cbn [Nat.add replicate].
  rewrite index_set_in_range by (simpl; lia). cbn [insert list_insert].
  erewrite st_bind_Ok_eq by apply lift_eq.
  rewrite slice_in_range by (cbn [length]; rewrite ?length_replicate; lia).
  erewrite st_bind_Ok_eq by apply lift_eq.
  cbn [drop]. rewrite drop_0. replace (S CELL_PLAINTEXT_LEN - 1) with CELL_PLAINTEXT_LEN by lia.
  rewrite Cell_encode_into_frame by (rewrite ?length_take, ?length_replicate; lia).
  cbn [map_err]. erewrite st_bind_Ok_eq by apply lift_eq.
  rewrite copy_at_in_range by (rewrite ?length_cell_frame by done; cbn [length];
    rewrite ?length_replicate; lia).
  erewrite st_bind_Ok_eq by apply lift_eq.
  cbn [take drop app length]. rewrite take_0. cbn [app]. rewrite drop_replicate.
  fold (to_me_plain c layers). rewrite length_app, length_cell_frame, length_replicate by done.
  by replace (S (CELL_PLAINTEXT_LEN + (body_len layers - CELL_PLAINTEXT_LEN)) + NOISE_TAG_LEN)
    with (S (body_len layers + NOISE_TAG_LEN)) by lia.
Qed.

(** The outcome of a seal that does not reach the cipher. *)
Lemma seal_to_me_too_large c layers t :
  1 ≤ layers → CELL_PAYLOAD_LEN < length (payload c) →
  seal_to_me c layers t = (t, Err (LayerCell (TooLarge (length (payload c))))).
Proof.
  intros Hl Hc. pose proof (body_len_ge layers Hl) as Hb.
  unfold seal_to_me, DISPOSITION_LEN. cbn [Nat.add replicate].
  rewrite index_set_in_range by (simpl; lia). cbn [insert list_insert].
  erewrite st_bind_Ok_eq by apply lift_eq.
  rewrite slice_in_range by (cbn [length]; rewrite ?length_replicate; lia).
  erewrite st_bind_Ok_eq by apply lift_eq.
  rewrite Cell_encode_into_spec. cbn [drop]. rewrite drop_0, length_take, length_replicate.
  rewrite (proj2 (Nat.eqb_eq _ _)) by lia. cbn [negb].
  rewrite (proj2 (Nat.ltb_lt _ _)) by done. cbn [map_err].
  by erewrite st_bind_Err_eq by apply lift_eq.
Qed.

Lemma seal_forward_eq blob below t :
  length blob = link_cell_len below →
  seal_forward blob (S below) t =
  st_map_err LayerNoise (Transport_encrypt (forward_plain blob)
    (replicate (DISPOSITION_LEN + link_cell_len below + NOISE_TAG_LEN) x00)) t.
Proof.
  intros Hb. unfold seal_forward. rewrite (proj2 (Nat.eqb_eq _ _) Hb). cbn [negb].
  unfold DISPOSITION_LEN. cbn [Nat.add replicate].
  rewrite index_set_in_range by (simpl; lia). cbn [insert list_insert].
  erewrite st_bind_Ok_eq by apply lift_eq.
  rewrite copy_at_in_range by (cbn [length]; rewrite ?length_replicate; lia).
  erewrite st_bind_Ok_eq by apply lift_eq.
  cbn [take drop app length]. rewrite take_0, drop_ge by (rewrite !length_replicate; lia).
  cbn [app]. rewrite app_nil_r. unfold forward_plain. by rewrite Hb.
Qed.

Lemma seal_forward_wrong_size blob below t :
  length blob ≠ link_cell_len below →
  seal_forward blob (S below) t = (t, Err (LayerWrongSize (length blob) (link_cell_len below))).
Proof. intros Hb. unfold seal_forward. by rewrite (proj2 (Nat.eqb_neq _ _) Hb). Qed.

(** Whatever a seal returns has the size of the link. *)
Lemma seal_to_me_length c layers t t' wire :
  1 ≤ layers → seal_to_me c layers t = (t', Ok wire) → length wire = link_cell_len layers.
Proof.
  intros Hl Hs. destruct (decide (length (payload c) ≤ CELL_PAYLOAD_LEN)) as [Hc|Hc].
  - rewrite seal_to_me_eq in Hs by done. apply st_map_err_Ok in Hs.
    apply Transport_encrypt_Ok in Hs as [Hw _]. rewrite length_to_me_plain in Hw by done.
    rewrite link_cell_len_body by done. lia.
  - rewrite seal_to_me_too_large in Hs by (done || lia). done.
Qed.

Lemma seal_forward_length blob layers t t' wire :
  seal_forward blob layers t = (t', Ok wire) → length wire = link_cell_len layers.
Proof.
  destruct layers as [|below]; [done|]. intros Hs.
  destruct (decide (length blob = link_cell_len below)) as [Hb|Hb].
  - rewrite seal_forward_eq in Hs by done. apply st_map_err_Ok in Hs.
    apply Transport_encrypt_Ok in Hs as [Hw _]. rewrite link_cell_len_succ.
    unfold forward_plain in Hw. cbn [length] in Hw. unfold DISPOSITION_LEN. lia.
  - by rewrite seal_forward_wrong_size in Hs.
Qed.

Lemma seal_no_panic c blob layers t :
  1 ≤ layers → snd (seal_to_me c layers t) ≠ Panic ∧ snd (seal_forward blob layers t) ≠ Panic.
Proof.
  intros Hl. split.
  - destruct (decide (length (payload c) ≤ CELL_PAYLOAD_LEN)) as [Hc|Hc].
    + rewrite seal_to_me_eq by done. unfold st_map_err.
      pose proof (Transport_encrypt_no_panic (to_me_plain c layers)
        (replicate (DISPOSITION_LEN + body_len layers + NOISE_TAG_LEN) x00) t).
      destruct (Transport_encrypt _ _ t) as [? []]; done.
    + by rewrite seal_to_me_too_large by (done || lia).
  - destruct layers as [|below]; [lia|].
    destruct (decide (length blob = link_cell_len below)) as [Hb|Hb].
    + rewrite seal_forward_eq by done. unfold st_map_err.
      pose proof (Transport_encrypt_no_panic (forward_plain blob)
        (replicate (DISPOSITION_LEN + link_cell_len below + NOISE_TAG_LEN) x00) t).
      destruct (Transport_encrypt _ _ t) as [? []]; done.
    + by rewrite seal_forward_wrong_size.
Qed.

(** ** What a peeled layer holds *)

Lemma peel_plain_to_me plain layers c :
  length plain = DISPOSITION_LEN + body_len layers → 1 ≤ layers →
  peel_plain plain layers = Ok (ToMe c) ↔
  ∃ pad, plain = DISPOSITION_TO_ME :: cell_image c pad ++
                 replicate (body_len layers - CELL_PLAINTEXT_LEN) x00 ∧
         length (cell_image c pad) = CELL_PLAINTEXT_LEN.
Proof.
  intros Hp Hl. pose proof (body_len_ge layers Hl) as Hb. unfold peel_plain.
  destruct plain as [|d body]; [simpl in Hp; unfold DISPOSITION_LEN in Hp; lia|].
  assert (length body = body_len layers) as Hbody by (simpl in Hp; unfold DISPOSITION_LEN in Hp; lia).
  cbn [index lookup list_lookup mbind outcome_bind]. clear Hp. split.
  - intros Hpeel. destruct d; simplify_eq; [|by repeat case_match; ok_inv].
    apply bind_Ok in Hpeel as (raw & Hraw & Hpeel).
    rewrite slice_in_range in Hraw by (cbn [length]; unfold DISPOSITION_LEN; lia).
    unfold DISPOSITION_LEN in Hraw. cbn [drop Nat.add] in Hraw. rewrite drop_0 in Hraw.
    replace (S CELL_PLAINTEXT_LEN - 1) with CELL_PLAINTEXT_LEN in Hraw by lia. injection Hraw as <-.
    apply bind_Ok in Hpeel as (c' & Hdec & Hpeel). apply map_err_Ok in Hdec.
    apply bind_Ok in Hpeel as (pad & Hpad & Hpeel). unfold slice_from in Hpad.
    rewrite slice_in_range in Hpad by (cbn [length]; unfold DISPOSITION_LEN; lia).
    unfold DISPOSITION_LEN in Hpad. cbn [drop Nat.add length] in Hpad.
    rewrite take_ge in Hpad by (rewrite length_drop; lia). injection Hpad as <-.
    unfold list_any in Hpeel.
    destruct (existsb _ _) eqn:Hz; [done|]. injection Hpeel as <-.
    apply existsb_ne_replicate in Hz. apply Cell_decode_Ok in Hdec as (Hlen & pad & Himg).
    exists pad. rewrite <- Himg. split; [|done]. f_equal.
    rewrite <- (take_drop CELL_PLAINTEXT_LEN body) at 1. f_equal. rewrite Hz at 1.
    by rewrite length_drop, Hbody.
  - intros (pad & Heq & Himg). apply cons_eq_inv in Heq as [-> ->]. clear Hbody.
    unfold DISPOSITION_TO_ME, DISPOSITION_LEN.
    rewrite (slice_cons_tail _ _ 0 CELL_PLAINTEXT_LEN).
    rewrite slice_app_0 by done. cbn [mbind outcome_bind].
    rewrite Cell_decode_image by done. cbn [map_err mbind outcome_bind].
    unfold slice_from. cbn [length]. rewrite slice_cons_tail.
    fold (slice_from (E:=LayerError) (cell_image c pad ++
      replicate (body_len layers - CELL_PLAINTEXT_LEN) x00) CELL_PLAINTEXT_LEN).
    rewrite slice_app_r by done. cbn [mbind outcome_bind]. unfold list_any.
    by rewrite existsb_replicate by (by rewrite bool_decide_false by naive_solver).
Qed.

Lemma peel_plain_forward plain layers blob :
  length plain = DISPOSITION_LEN + body_len layers →
  peel_plain plain layers = Ok (Forward blob) ↔ layers ≠ 1 ∧ plain = forward_plain blob.
Proof.
  intros Hp. unfold peel_plain, forward_plain.
  destruct plain as [|d body]; [simpl in Hp; unfold DISPOSITION_LEN in Hp; lia|].
  cbn [index lookup list_lookup mbind outcome_bind]. unfold slice_from, DISPOSITION_LEN.
  cbn [length]. split.
  - intros Hpeel. destruct d; try by (simplify_eq; ok_inv).
    destruct (Nat.eqb_spec layers 1); simplify_eq/=.
    rewrite slice_cons_tail, slice_in_range in Hpeel by lia. ok_inv.
    by rewrite drop_0, Nat.sub_0_r, firstn_all.
  - intros [Hl [= -> ->]]. unfold DISPOSITION_FORWARD. rewrite (proj2 (Nat.eqb_neq _ _) Hl).
    rewrite slice_cons_tail, slice_in_range by lia. simpl.
    by rewrite drop_0, Nat.sub_0_r, firstn_all.
Qed.

Lemma peel_plain_no_panic plain layers :
  1 ≤ layers → length plain = DISPOSITION_LEN + body_len layers →
  peel_plain plain layers ≠ Panic.
Proof.
  intros Hl Hp. pose proof (body_len_ge layers Hl) as Hb. unfold peel_plain.
  destruct plain as [|d body]; [simpl in Hp; unfold DISPOSITION_LEN in Hp; lia|].
  cbn [index lookup list_lookup mbind outcome_bind]. unfold slice_from.
  unfold DISPOSITION_LEN in *. cbn [length] in *.
  destruct d; try done.
  - rewrite !slice_in_range by (cbn [length]; lia). cbn [mbind outcome_bind].
    pose proof (Cell_decode_no_panic (take (1 + CELL_PLAINTEXT_LEN - 1) (drop 1 (x01 :: body)))).
    destruct (Cell_decode _); try done. cbn [map_err mbind outcome_bind]. by case_match.
  - rewrite !slice_in_range by (cbn [length]; lia). by case_match.
Qed.

(** [peel] returned: the frame had the link's size, the transport accepted
    it, and the plaintext is what [peel_plain] says it is. *)
Lemma peel_Ok wire layers t t' r :
  1 ≤ layers → peel wire layers t = (t', Ok r) →
  length wire = link_cell_len layers ∧
  ∃ plain, Transport_decrypt wire (replicate (DISPOSITION_LEN + body_len layers) x00) t = (t', Ok plain) ∧
           length plain = DISPOSITION_LEN + body_len layers ∧ peel_plain plain layers = Ok r.
Proof.
  intros Hl. unfold peel. destruct (Nat.eqb_spec (length wire) (link_cell_len layers)); [|done].
  cbn [negb]. intros (t1 & plain & Hd & Hp)%st_bind_Ok. apply st_map_err_Ok in Hd.
  injection Hp as <- Hp. split; [done|]. exists plain. split; [done|]. split; [|done].
  apply Transport_decrypt_Ok in Hd as [_ Ho]. by rewrite length_replicate in Ho.
Qed.

Lemma peel_forward_length wire layers t t' blob :
  1 ≤ layers → peel wire layers t = (t', Ok (Forward blob)) →
  2 ≤ layers ∧ length blob = link_cell_len (layers - 1).
Proof.
  intros Hl Hp. apply peel_Ok in Hp as (_ & plain & _ & Hlen & Hp); [|done].
  apply peel_plain_forward in Hp as [Hne ->]; [|done]. split; [lia|].
  destruct layers as [|n]; [lia|]. rewrite body_len_succ in Hlen.
  unfold forward_plain, DISPOSITION_LEN in Hlen. simpl in *. rewrite Nat.sub_0_r. lia.
Qed.

Lemma peel_to_me_payload wire layers t t' c :
  1 ≤ layers → peel wire layers t = (t', Ok (ToMe c)) → length (payload c) ≤ CELL_PAYLOAD_LEN.
Proof.
  intros Hl Hp. apply peel_Ok in Hp as (_ & plain & _ & Hlen & Hp); [|done].
  apply peel_plain_to_me in Hp as (pad & _ & Himg); [|done..].
  rewrite length_cell_image in Himg. sizes.
Qed.

Lemma peel_no_panic wire layers t : 1 ≤ layers → snd (peel wire layers t) ≠ Panic.
Proof.
  intros Hl. unfold peel. destruct (Nat.eqb_spec (length wire) (link_cell_len layers)); [|done].
  cbn [negb]. unfold mbind, st_bind, st_map_err, lift.
  pose proof (Transport_decrypt_no_panic wire (replicate (DISPOSITION_LEN + body_len layers) x00) t).
  destruct (Transport_decrypt _ _ t) as [t' [plain| |]] eqn:Hd; try done. cbn [map_err snd].
  apply peel_plain_no_panic; [done|].
  apply Transport_decrypt_Ok in Hd as [_ Ho]. by rewrite length_replicate in Ho.
Qed.
End layer_lemmas.

(** ** Round trips through transports in step *)

(** The largest circuit is three layers deep; a frame of that depth fits one
    Noise message with room to spare. *)
Definition MAX_LAYERS : nat := 3.

Section layer_in_step.
Context `{SnowLaws}.

Lemma link_cell_len_noise layers : layers ≤ MAX_LAYERS → link_cell_len layers ≤ Z.to_nat 65535.
Proof.
  unfold MAX_LAYERS. intros. apply Nat2Z.inj_le.
  destruct layers as [|[|[|[|]]]]; [vm_compute; congruence..|lia].
Qed.

(** Sealing a plaintext of the right length and peeling the frame runs
    [peel_plain] on that very plaintext. *)
Lemma encrypt_peel k a b plain layers :
  chan (S k) a b → 1 ≤ layers ≤ MAX_LAYERS → length plain = DISPOSITION_LEN + body_len layers →
  ∃ a' b' wire,
    st_map_err LayerNoise (Transport_encrypt plain
      (replicate (DISPOSITION_LEN + body_len layers + NOISE_TAG_LEN) x00)) a = (a', Ok wire) ∧
    length wire = link_cell_len layers ∧
    peel wire layers b = (b', peel_plain plain layers) ∧
    chan k a' b' ∧ (∀ j c, chan j c a → chan j c a') ∧ (∀ j c, chan j b c → chan j b' c).
Proof.
  intros Hc [Hl Hm] Hp. pose proof (link_cell_len_noise layers Hm) as Hn.
  pose proof (link_cell_len_body layers Hl) as Hlc.
  destruct (encrypt_decrypt k a b plain
    (replicate (DISPOSITION_LEN + body_len layers + NOISE_TAG_LEN) x00)
    (replicate (DISPOSITION_LEN + body_len layers) x00))
    as (a' & b' & ct & He & Hct & Hd & Hrest); rewrite ?length_replicate; try done; try lia.
  exists a', b', ct. split; [by apply st_map_err_Ok|]. split; [lia|]. split; [|done].
  unfold peel. rewrite (proj2 (Nat.eqb_eq _ _)) by lia. cbn [negb].
  erewrite st_bind_Ok_eq by (by apply st_map_err_Ok). apply lift_eq.
Qed.

Lemma seal_to_me_peel k a b c layers :
  chan (S k) a b → 1 ≤ layers ≤ MAX_LAYERS → length (payload c) ≤ CELL_PAYLOAD_LEN →
  ∃ a' b' wire,
    seal_to_me c layers a = (a', Ok wire) ∧ length wire = link_cell_len layers ∧
    peel wire layers b = (b', Ok (ToMe c)) ∧
    chan k a' b' ∧ (∀ j c, chan j c a → chan j c a') ∧ (∀ j c, chan j b c → chan j b' c).
Proof.
  intros Hc Hl Hpl. pose proof (length_to_me_plain c layers (proj1 Hl) Hpl) as Hlen.
  destruct (encrypt_peel k a b _ layers Hc Hl Hlen) as (a' & b' & w & Hs & Hw & Hp & Hrest).
  exists a', b', w. rewrite seal_to_me_eq by (done || lia). split; [done|]. split; [done|].
  split; [|done]. rewrite Hp. f_equal. apply peel_plain_to_me; [done|lia|].
  exists (replicate (CELL_PAYLOAD_LEN - length (payload c)) x00).
  fold (cell_frame c). split; [done|]. by apply length_cell_frame.
Qed.

Lemma seal_forward_peel k a b blob layers :
  chan (S k) a b → 2 ≤ layers ≤ MAX_LAYERS → length blob = link_cell_len (layers - 1) →
  ∃ a' b' wire,
    seal_forward blob layers a = (a', Ok wire) ∧ length wire = link_cell_len layers ∧
    peel wire layers b = (b', Ok (Forward blob)) ∧
    chan k a' b' ∧ (∀ j c, chan j c a → chan j c a') ∧ (∀ j c, chan j b c → chan j b' c).
Proof.
  intros Hc Hl Hb. destruct layers as [|n]; [lia|]. rewrite Nat.sub_succ, Nat.sub_0_r in Hb.
  assert (length (forward_plain blob) = DISPOSITION_LEN + body_len (S n)) as Hlen
    by (rewrite body_len_succ; unfold forward_plain, DISPOSITION_LEN; simpl; lia).
  destruct (encrypt_peel k a b (forward_plain blob) (S n) Hc) as (a' & b' & w & Hs & Hw & Hp & Hrest); [lia|done|].
  exists a', b', w. rewrite seal_forward_eq by done. rewrite body_len_succ in Hs.
  split; [done|]. split; [done|]. split; [|done]. rewrite Hp. f_equal.
  apply peel_plain_forward; [done|]. split; [lia|done].
Qed.

(** Two transports in step both ways, for [k] more messages. *)
Definition paired (k : nat) (a b : TransportState) : Prop := chan k a b ∧ chan k b a.

Lemma paired_sym k a b : paired k a b → paired k b a.
Proof. intros [? ?]. by split. Qed.

Lemma paired_weaken k a b : paired (S k) a b → paired k a b.
Proof. intros [? ?]. split; by apply chan_weaken. Qed.

Lemma paired_weaken_le j k a b : j ≤ k → paired k a b → paired j a b.
Proof. induction 1; auto using paired_weaken. Qed.

Lemma paired_to_me k a b c layers :
  paired (S k) a b → 1 ≤ layers ≤ MAX_LAYERS → length (payload c) ≤ CELL_PAYLOAD_LEN →
  ∃ a' b' wire, seal_to_me c layers a = (a', Ok wire) ∧ length wire = link_cell_len layers ∧
    peel wire layers b = (b', Ok (ToMe c)) ∧ paired k a' b'.
Proof.
  intros [Hab Hba] Hl Hc. destruct (seal_to_me_peel k a b c layers Hab Hl Hc) as (a' & b' & w & ? & ? & ? & ? & Ha & Hb).
  exists a', b', w. split_and!; try done. split; [done|]. apply chan_weaken. auto.
Qed.

Lemma paired_forward k a b blob layers :
  paired (S k) a b → 2 ≤ layers ≤ MAX_LAYERS → length blob = link_cell_len (layers - 1) →
  ∃ a' b' wire, seal_forward blob layers a = (a', Ok wire) ∧ length wire = link_cell_len layers ∧
    peel wire layers b = (b', Ok (Forward blob)) ∧ paired k a' b'.
Proof.
  intros [Hab Hba] Hl Hc. destruct (seal_forward_peel k a b blob layers Hab Hl Hc) as (a' & b' & w & ? & ? & ? & ? & Ha & Hb).
  exists a', b', w. split_and!; try done. split; [done|]. apply chan_weaken. auto.
Qed.
End layer_in_step.

(** ** Properties *)

(** Every frame a seal returns, for a cell addressed to the hop or for a
    blob to pass on, has exactly the length of its link, whatever the payload
    is and whatever the cipher does: a frame's size reveals its link and
    nothing else.  A seal with at least one layer never panics. *)
Theorem seal_frames_uniform `{Snow} layers c blob t :
  1 ≤ layers →
  snd (seal_to_me c layers t) ≠ Panic ∧ snd (seal_forward blob layers t) ≠ Panic ∧
  (∀ t' wire, seal_to_me c layers t = (t', Ok wire) → length wire = link_cell_len layers) ∧
  (∀ t' wire, seal_forward blob layers t = (t', Ok wire) → length wire = link_cell_len layers).
Proof.
  intros Hl. destruct (seal_no_panic c blob layers t Hl). repeat split; try done; intros.
  - by eapply seal_to_me_length.
  - by eapply seal_forward_length.
Qed.

(** A pair of sample transports in step, for the witnesses. *)
Definition sample_tx : @TransportState sample_snow := Sample.mkTransport [x01] 0 [x02] 0.
Definition sample_rx : @TransportState sample_snow := Sample.mkTransport [x02] 0 [x01] 0.

Lemma seal_frames_uniform_witness :
  length <$> snd (seal_to_me (mkCell Data [x41]) 3 sample_tx) = Ok (link_cell_len 3) ∧
  (∀ t' wire, seal_to_me (mkCell Data [x41]) 3 sample_tx = (t', Ok wire) → length wire = link_cell_len 3).
Proof.
  split; [by vm_compute|].
  apply (seal_frames_uniform 3 (mkCell Data [x41]) [] sample_tx). lia.
Defined.

(** C35. [peel] on arbitrary bytes never panics, and what it returns is
    exactly what the decrypted layer holds: a cell addressed to this hop has a
    payload that fits a cell and only zeros after the cell's image; a blob to
    pass on is only returned with a layer left below, is the rest of the layer
    byte for byte, and has exactly the length of the next link. *)
Theorem peel_faithful `{Snow} wire layers t :
  1 ≤ layers →
  match peel wire layers t with
  | (t', Ok (ToMe c)) =>
      length wire = link_cell_len layers ∧ length (payload c) ≤ CELL_PAYLOAD_LEN ∧
      ∃ pad, Transport_decrypt wire (replicate (DISPOSITION_LEN + body_len layers) x00) t =
        (t', Ok (DISPOSITION_TO_ME :: cell_image c pad ++
                 replicate (body_len layers - CELL_PLAINTEXT_LEN) x00))
  | (t', Ok (Forward blob)) =>
      length wire = link_cell_len layers ∧ 2 ≤ layers ∧ length blob = link_cell_len (layers - 1) ∧
      Transport_decrypt wire (replicate (DISPOSITION_LEN + body_len layers) x00) t =
        (t', Ok (DISPOSITION_FORWARD :: blob))
  | (_, Err _) => True
  | (_, Panic) => False
  end.
Proof.
  intros Hl. pose proof (peel_no_panic wire layers t Hl) as Hnp.
  destruct (peel wire layers t) as [t' [[c|blob]|e|]] eqn:Hp; [..|done].
  - pose proof (peel_to_me_payload _ _ _ _ _ Hl Hp) as Hc.
    apply peel_Ok in Hp as (Hw & plain & Hd & Hlen & Hpp); [|done].
    apply peel_plain_to_me in Hpp as (pad & -> & _); eauto.
  - pose proof (peel_forward_length _ _ _ _ _ Hl Hp) as [? ?].
    apply peel_Ok in Hp as (Hw & plain & Hd & Hlen & Hpp); [|done].
    apply peel_plain_forward in Hpp as [_ ->]; auto.
  - done.
Qed.

Lemma peel_faithful_witness :
  1 ≤ 2 ∧ snd (peel (replicate 547 x00) 2 sample_rx) = Err (LayerNoise TransportFailed) ∧
  ¬ snd (peel (replicate 547 x00) 2 sample_rx) = Panic.
Proof.
  split; [lia|]. split; [by vm_compute|].
  pose proof (peel_faithful (replicate 547 x00) 2 sample_rx ltac:(lia)) as Hp.
  intros He. destruct (peel _ _ _) as [? [|[]|]]; naive_solver.
Defined.

(** C34. A hop peels exactly what its peer sealed for it.  With the two
    transports in step, sealing a cell (of any type, with any payload that
    fits) or a blob of the next link's size succeeds, the frame has the link's
    size, the peer's [peel] returns that cell, or that blob, and the transports
    stay in step. *)
Theorem layer_round_trip `{SnowLaws} k a b layers c blob :
  chan (S k) a b → 1 ≤ layers ≤ MAX_LAYERS →
  length (payload c) ≤ CELL_PAYLOAD_LEN → length blob = link_cell_len (layers - 1) →
  (∃ a' b' wire, seal_to_me c layers a = (a', Ok wire) ∧ length wire = link_cell_len layers ∧
     peel wire layers b = (b', Ok (ToMe c)) ∧ chan k a' b') ∧
  (2 ≤ layers → ∃ a' b' wire, seal_forward blob layers a = (a', Ok wire) ∧
     length wire = link_cell_len layers ∧ peel wire layers b = (b', Ok (Forward blob)) ∧ chan k a' b').
Proof.
  intros Hc Hl Hp Hb. split.
  - destruct (seal_to_me_peel k a b c layers) as (a' & b' & w & ? & ? & ? & ? & _); eauto 10.
  - intros. destruct (seal_forward_peel k a b blob layers) as (a' & b' & w & ? & ? & ? & ? & _);
      [done|lia|done|]. eauto 10.
Qed.

Lemma layer_round_trip_witness :
  chan 1 sample_tx sample_rx ∧
  ∃ a' b' wire, seal_to_me (mkCell Data [x41; x42]) 2 sample_tx = (a', Ok wire) ∧
    length wire = link_cell_len 2 ∧
    peel wire 2 sample_rx = (b', Ok (ToMe (mkCell Data [x41; x42]))) ∧ chan 0 a' b'.
Proof.
  split; [by vm_compute|].
  apply (layer_round_trip 0 sample_tx sample_rx 2 (mkCell Data [x41; x42]) (replicate 530 x00));
    vm_compute; (split; lia) || lia || done.
Defined.
