(* ===== verification/Circuit.v ===== *)
(** QuietHop: the per-connection circuit state machine.

    [relay/src/circuit.rs]: [Circuit] with [activate], [close] and [fail], and
    the transition system they generate. *)

From S2P Require Import Prelude.

Inductive State := Pending | Active | Closed | Failed.

#[export] Instance State_eq_dec : EqDecision State.
Proof. solve_decision. Defined.

(** [Display for State]. *)
Definition State_fmt (s : State) : string :=
  match s with
  | Pending => "pending" | Active => "active" | Closed => "closed" | Failed => "failed"
  end.

Inductive CircuitError := IllegalTransition (from to : State).

Record Circuit := mkCircuit { state : State }.

Definition Circuit_new : Circuit := mkCircuit Pending.

Definition Circuit_activate : st Circuit CircuitError unit := λ c,
  if bool_decide (state c ≠ Pending) then (c, Err (IllegalTransition (state c) Active))
  else (mkCircuit Active, Ok ()).

Definition Circuit_close : st Circuit CircuitError unit := λ c,
  match state c with
  | Pending | Active => (mkCircuit Closed, Ok ())
  | _ => (c, Err (IllegalTransition (state c) Closed))
  end.

Definition Circuit_fail (c : Circuit) : Circuit :=
  match state c with
  | Pending | Active => mkCircuit Failed
  | Failed => c
  | Closed => c
  end.

(** ** The transition system *)

Inductive circuit_op := OpActivate | OpClose | OpFail.

Definition circuit_apply (o : circuit_op) (c : Circuit) : Circuit :=
  match o with
  | OpActivate => fst (Circuit_activate c)
  | OpClose => fst (Circuit_close c)
  | OpFail => Circuit_fail c
  end.

(** The states after each operation of a history. *)
Fixpoint circuit_states (os : list circuit_op) (c : Circuit) : list State :=
  match os with
  | [] => []
  | o :: os => let c := circuit_apply o c in state c :: circuit_states os c
  end.

(** The legal transitions, as a relation on states. *)
Inductive legal : State → State → Prop :=
  | legal_activate : legal Pending Active
  | legal_close_pending : legal Pending Closed
  | legal_close : legal Active Closed
  | legal_fail_pending : legal Pending Failed
  | legal_fail : legal Active Failed.
#[export] Hint Constructors legal : rs.

Lemma circuit_apply_legal o c :
  state (circuit_apply o c) = state c ∨ legal (state c) (state (circuit_apply o c)).
Proof. destruct o, c as [[]]; simpl; auto with rs. Qed.

Lemma legal_irreversible a b : legal a b → rtc legal b a → False.
Proof.
  intros Hab Hba. destruct Hab; inversion Hba as [|? x ? Hs Hr]; subst; try inversion Hs; subst;
    inversion Hr as [|? y ? Hs' Hr']; subst; inversion Hs'.
Qed.

(** ** Property *)

(** A circuit's life is a legal path.  Over any sequence of operations
    each step either keeps the state or takes one legal transition, no state is
    left and entered again, [Closed] and [Failed] are final, and an operation
    reports an error exactly when it was not allowed (and then changes
    nothing).  [close] is legal from [Pending], a transition the module's
    comment does not list. *)
Theorem circuit_lifecycle os c :
  let c' := fold_left (λ c o, circuit_apply o c) os c in
  rtc legal (state c) (state c') ∧
  (state c = Closed ∨ state c = Failed → c' = c) ∧
  (state c' = state c ∨ ¬ rtc legal (state c') (state c)) ∧
  (is_ok (snd (Circuit_activate c)) = true ↔ state c = Pending) ∧
  (is_ok (snd (Circuit_close c)) = true ↔ state c = Pending ∨ state c = Active) ∧
  (is_err (snd (Circuit_activate c)) = true → fst (Circuit_activate c) = c) ∧
  (is_err (snd (Circuit_close c)) = true → fst (Circuit_close c) = c) ∧
  legal Pending Closed.
Proof.
  assert (∀ c, rtc legal (state c) (state (fold_left (λ c o, circuit_apply o c) os c))) as Hpath.
  { induction os as [|o' os IH]; intros c0; simpl; [constructor|].
    destruct (circuit_apply_legal o' c0) as [<-|Hs]; [apply IH|]. eapply rtc_l; [exact Hs|apply IH]. }
  simpl. split_and!; try by destruct c as [[]]; simpl; naive_solver.
  - apply Hpath.
  - clear. intros Hc. assert (∀ o, circuit_apply o c = c) as Hfix
      by (intros []; destruct c as [[]]; simpl in *; naive_solver).
    induction os as [|o' os IH]; simpl; [done|]. by rewrite Hfix.
  - specialize (Hpath c). inversion Hpath as [|? x ? Hs Hr]; subst; [by left|right].
    intros Hback. eapply legal_irreversible; [exact Hs|]. by etransitivity.
  - constructor.
Qed.
