(* ===== verification/Token.v ===== *)
(** QuietHop: blind RSA tokens, relay side.

    [relay/src/token.rs]: [ReplayWindow] and [verify].  A public key is the
    pair of numbers the [rsa] crate exposes; big integers are [Z], with
    modular exponentiation by squaring.  [Instant::now()] is an argument, in
    nanoseconds.  SHA-256 is the class [Sha256]. *)

From S2P Require Import Prelude Bytes Cell Registry SampleRegistry.

#[local] Open Scope Z_scope.

(** ** Big integers *)

(** [BigUint::from_bytes_be]. *)
Definition from_bytes_be (l : list byte) : Z := fold_left (λ acc b, acc * 256 + u8 b) l 0.

(** [BigUint::bits]. *)
Definition bits (n : Z) : Z := if n =? 0 then 0 else Z.log2 n + 1.

Fixpoint pow_mod_pos (b : Z) (p : positive) (n : Z) : Z :=
  match p with
  | xH => b mod n
  | xO p => let h := pow_mod_pos b p n in (h * h) mod n
  | xI p => let h := pow_mod_pos b p n in ((h * h) mod n * b) mod n
  end.

(** [BigUint::modpow], for a modulus other than zero. *)
Definition modpow (b e n : Z) : Z :=
  match e with
  | Z0 => 1 mod n
  | Zpos p => pow_mod_pos b p n
  | Zneg _ => 0
  end.

Lemma pow_mod_pos_spec b p n : 0 < n → pow_mod_pos b p n = b ^ Zpos p mod n.
Proof.
  intros Hn. induction p as [p IH|p IH|]; cbn [pow_mod_pos].
  - rewrite IH, <- Z.mul_mod, Z.mul_mod_idemp_l by lia.
    rewrite (Pos2Z.inj_xI p), Z.pow_add_r, Z.pow_twice_r, Z.pow_1_r by lia. done.
  - rewrite IH, <- Z.mul_mod by lia. rewrite (Pos2Z.inj_xO p), Z.pow_twice_r by lia. done.
  - by rewrite Z.pow_1_r.
Qed.

Lemma modpow_spec b e n : 0 < n → 0 ≤ e → modpow b e n = b ^ e mod n.
Proof. intros Hn He. destruct e as [|p|p]; [done|by apply pow_mod_pos_spec|lia]. Qed.

Lemma from_bytes_be_app l k :
  from_bytes_be (l ++ k) = from_bytes_be l * 256 ^ Z.of_nat (length k) + from_bytes_be k.
Proof.
  unfold from_bytes_be. rewrite fold_left_app. generalize (fold_left (λ acc b, acc * 256 + u8 b) l 0) as a.
  assert (∀ a, fold_left (λ acc b, acc * 256 + u8 b) k a =
    a * 256 ^ Z.of_nat (length k) + fold_left (λ acc b, acc * 256 + u8 b) k 0) as Hk; [|done].
  induction k as [|b k IH]; intros a; [simpl; lia|]. cbn [fold_left length].
  rewrite (IH (a * 256 + u8 b)), (IH (0 * 256 + u8 b)), Nat2Z.inj_succ, Z.pow_succ_r by lia. lia.
Qed.

Lemma from_bytes_be_range l : 0 ≤ from_bytes_be l < 256 ^ Z.of_nat (length l).
Proof.
  induction l as [|b l IH]; [done|]. change (b :: l) with ([b] ++ l). rewrite from_bytes_be_app.
  rewrite length_app, Nat2Z.inj_add, Z.pow_add_r by lia. pose proof (u8_range b).
  unfold from_bytes_be at 1 3. simpl fold_left. rewrite !Z.mul_0_l, !Z.add_0_l.
  change (256 ^ Z.of_nat (length [b])) with 256. nia.
Qed.

(** Byte strings of one length are their numbers. *)
Lemma from_bytes_be_inj l k : length l = length k → from_bytes_be l = from_bytes_be k → l = k.
Proof.
  revert k. induction l as [|a l IH]; intros [|b k]; try done. intros [= Hlen] Heq.
  change (a :: l) with ([a] ++ l) in Heq. change (b :: k) with ([b] ++ k) in Heq.
  rewrite !from_bytes_be_app, Hlen in Heq. unfold from_bytes_be at 1 3 in Heq. simpl fold_left in Heq.
  pose proof (from_bytes_be_range l) as Hl. pose proof (from_bytes_be_range k) as Hk. rewrite Hlen in Hl.
  assert (u8 a = u8 b) as Hab by nia. f_equal; [by apply u8_inj|]. apply IH; [done|]. lia.
Qed.

(** ** The verifier *)

(** [RsaPublicKey], by its numbers. *)
Record RsaPublicKey := mkRsaPublicKey { rsa_n : Z; rsa_e : Z }.

Definition rsa_key_wf (k : RsaPublicKey) : Prop := 0 ≤ rsa_n k ∧ 0 ≤ rsa_e k.

Inductive TokenError := TokenTooShort | InvalidSignature | Replayed.

Record ReplayWindow := mkReplayWindow { ttl : Z; inner : gmap (list byte) Z }.

Definition ReplayWindow_new (ttl : Z) : ReplayWindow := mkReplayWindow ttl ∅.

(** [now.duration_since(t) < ttl]; [duration_since] saturates at zero. *)
Definition still_live (ttl now t : Z) : bool := Z.max 0 (now - t) <? ttl.

Section token.
Context `{Sha256}.

Definition token_verify (m_raw token : list byte) (pubkey : RsaPublicKey) (now : Z)
    : st ReplayWindow TokenError unit := λ window,
  let modulus_bytes := (bits (rsa_n pubkey) + 7) / 8 in
  if Z.of_nat (length token) <? modulus_bytes then (window, Err TokenTooShort) else
  let m_int := from_bytes_be (sha256 m_raw) in
  let token_int := from_bytes_be token in
  let n := rsa_n pubkey in
  let e := rsa_e pubkey in
  if n <=? token_int then (window, Err InvalidSignature) else
  let check := modpow token_int e n in
  if negb (check =? m_int) then (window, Err InvalidSignature) else
  let token_hash := sha256 token in
  let map := filter (λ kv, still_live (ttl window) now kv.2 = true) (inner window) in
  if bool_decide (is_Some (map !! token_hash)) then (mkReplayWindow (ttl window) map, Err Replayed) else
  (mkReplayWindow (ttl window) (<[token_hash := now]> map), Ok ()).

(** ** The verifier, declaratively *)

(** [token] is the authority's raw RSA signature of the hash of [m_raw]. *)
Definition signed (m_raw token : list byte) (k : RsaPublicKey) : Prop :=
  (bits (rsa_n k) + 7) / 8 ≤ Z.of_nat (length token) ∧ from_bytes_be token < rsa_n k ∧
  from_bytes_be token ^ rsa_e k mod rsa_n k = from_bytes_be (sha256 m_raw).

(** The token was accepted less than the window's lifetime ago. *)
Definition seen (w : ReplayWindow) (now : Z) (token : list byte) : Prop :=
  ∃ t, inner w !! sha256 token = Some t ∧ still_live (ttl w) now t = true.

Definition evict (w : ReplayWindow) (now : Z) : gmap (list byte) Z :=
  filter (λ kv, still_live (ttl w) now kv.2 = true) (inner w).

Lemma evict_lookup w now h t :
  evict w now !! h = Some t ↔ inner w !! h = Some t ∧ still_live (ttl w) now t = true.
Proof. unfold evict. rewrite map_lookup_filter_Some. done. Qed.

Lemma seen_evict w now token : seen w now token ↔ is_Some (evict w now !! sha256 token).
Proof. unfold seen, is_Some. setoid_rewrite evict_lookup. done. Qed.

Lemma token_verify_cases m_raw token k now w :
  rsa_key_wf k →
  (signed m_raw token k ∧ seen w now token ∧
     token_verify m_raw token k now w = (mkReplayWindow (ttl w) (evict w now), Err Replayed)) ∨
  (signed m_raw token k ∧ ¬ seen w now token ∧
     token_verify m_raw token k now w =
       (mkReplayWindow (ttl w) (<[sha256 token := now]> (evict w now)), Ok ())) ∨
  (¬ signed m_raw token k ∧
     ∃ e, token_verify m_raw token k now w = (w, Err e) ∧ e ≠ Replayed).
Proof.
  intros [Hn He]. unfold token_verify.
  destruct (Z.ltb_spec (Z.of_nat (length token)) ((bits (rsa_n k) + 7) / 8)) as [Hs|Hs].
  { right. right. split; [intros [? _]; lia|]. eauto. }
  destruct (Z.leb_spec (rsa_n k) (from_bytes_be token)) as [Hb|Hb].
  { right. right. split; [intros (_ & ? & _); lia|]. eauto. }
  pose proof (from_bytes_be_range token) as Hr. rewrite modpow_spec by lia.
  destruct (Z.eqb_spec (from_bytes_be token ^ rsa_e k mod rsa_n k) (from_bytes_be (sha256 m_raw))) as [Hc|Hc];
    cbn [negb].
  - fold (evict w now). case_bool_decide as Hseen; rewrite <- seen_evict in Hseen.
    + left. unfold signed. auto.
    + right. left. unfold signed. auto.
  - right. right. split; [intros (_ & _ & ?); done|]. eauto.
Qed.

(** ** Histories *)

Record presentation := mkPresentation { p_m_raw : list byte; p_token : list byte; p_now : Z }.

(** The results of a sequence of presentations. *)
Fixpoint run_tokens (k : RsaPublicKey) (ps : list presentation) (w : ReplayWindow)
    : list (outcome TokenError unit) :=
  match ps with
  | [] => []
  | p :: ps =>
      let '(w, r) := token_verify (p_m_raw p) (p_token p) k (p_now p) w in
      r :: run_tokens k ps w
  end.

Definition presented_in_order (ps : list presentation) : Prop :=
  ∀ i j p q, (i < j)%nat → ps !! i = Some p → ps !! j = Some q → p_now p ≤ p_now q.

Lemma presented_in_order_tail p ps : presented_in_order (p :: ps) → presented_in_order ps.
Proof. intros Ho i j a b Hij Ha Hb. apply (Ho (S i) (S j) a b); [lia|done..]. Qed.

(** A hash accepted at [t] blocks its token until [t + ttl]. *)
Lemma blocked_until k ps w token t j q :
  rsa_key_wf k → inner w !! sha256 token = Some t → presented_in_order ps →
  (∀ i p, ps !! i = Some p → t ≤ p_now p) →
  ps !! j = Some q → p_token q = token → run_tokens k ps w !! j = Some (Ok ()) →
  t + ttl w ≤ p_now q.
Proof.
  intros Hk. revert w j. induction ps as [|p ps IH]; intros w j Ht Ho Hlate Hq Htok Hr; [done|].
  cbn [run_tokens] in Hr.
  assert (still_live (ttl w) (p_now p) t = true ∨ t + ttl w ≤ p_now p) as Hlive.
  { specialize (Hlate 0%nat p eq_refl). unfold still_live. destruct (Z.ltb_spec (Z.max 0 (p_now p - t)) (ttl w)); [auto|].
    right. lia. }
  destruct Hlive as [Hlive|Hdead]; cycle 1.
  { destruct j as [|j]; [by simplify_eq/=|]. specialize (Ho 0%nat (S j) p q ltac:(lia) eq_refl Hq). lia. }
  assert (∀ w', inner w' !! sha256 token = Some t → ttl w' = ttl w →
    ∀ j, (p :: ps) !! S j = Some q → run_tokens k ps w' !! j = Some (Ok ()) → t + ttl w ≤ p_now q) as Hrest.
  { intros w' Hw' Httl j' Hq' Hr'. rewrite <- Httl. eapply IH; eauto using presented_in_order_tail.
    intros i p' Hp'. by apply (Hlate (S i)). }
  assert (evict w (p_now p) !! sha256 token = Some t) as Hev by (by apply evict_lookup).
  destruct (token_verify_cases (p_m_raw p) (p_token p) k (p_now p) w Hk)
    as [(_ & _ & Hv)|[(_ & Hns & Hv)|(_ & e & Hv & _)]]; rewrite Hv in Hr; destruct j as [|j];
    try (simplify_eq/=; done); try (eapply Hrest; [..|exact Hr]; done).
  - simplify_eq/=. destruct Hns. exists t. done.
  - eapply Hrest; [..|exact Hq|exact Hr]; [|done]. simpl. destruct (decide (sha256 (p_token p) = sha256 token)) as [Hh|Hh].
    + destruct Hns. exists t. rewrite Hh. done.
    + by rewrite lookup_insert_ne.
Qed.
End token.

Section token_history.
Context `{Sha256}.

Lemma no_double_spend_aux k ps w i j p q :
  rsa_key_wf k → presented_in_order ps → (i < j)%nat → ps !! i = Some p → ps !! j = Some q →
  p_token p = p_token q → run_tokens k ps w !! i = Some (Ok ()) → run_tokens k ps w !! j = Some (Ok ()) →
  p_now p + ttl w ≤ p_now q.
Proof.
  intros Hk. revert w i j. induction ps as [|p0 ps IH]; intros w i j Ho Hij Hp Hq Htok Hi Hj; [done|].
  cbn [run_tokens] in Hi, Hj. destruct j as [|j]; [lia|].
  destruct (token_verify_cases (p_m_raw p0) (p_token p0) k (p_now p0) w Hk)
    as [(_ & _ & Hv)|[(_ & Hns & Hv)|(_ & e & Hv & _)]]; rewrite Hv in Hi, Hj; destruct i as [|i];
    try (simplify_eq/=; done).
  - eapply (IH (mkReplayWindow (ttl w) (evict w (p_now p0))) i j); eauto using presented_in_order_tail; lia.
  - simpl in Hp, Hq. injection Hp as <-.
    apply (blocked_until k ps (mkReplayWindow (ttl w) (<[sha256 (p_token p0):=p_now p0]> (evict w (p_now p0))))
      (p_token p0) (p_now p0) j q); try done.
    + simpl. by rewrite lookup_insert_eq.
    + by eapply presented_in_order_tail.
    + intros i p' Hp'. apply (Ho 0%nat (S i) p0 p'); [lia|done..].
  - eapply (IH (mkReplayWindow (ttl w) (<[sha256 (p_token p0):=p_now p0]> (evict w (p_now p0)))) i j);
      eauto using presented_in_order_tail; lia.
  - eapply (IH w i j); eauto using presented_in_order_tail; lia.
Qed.
End token_history.

(** ** Properties *)

(** A toy key: with exponent one, the only signature of a hash is the hash. *)
Definition sample_rsa : RsaPublicKey := mkRsaPublicKey (256 ^ 33) 1.
Definition sample_token (m_raw : list byte) : list byte := replicate 224 x00 ++ sha256 m_raw.

(** No token is accepted twice within the window's lifetime.  Over any
    sequence of presentations in time order, valid and invalid ones mixed, if
    one token is accepted at two places, the acceptances are at least the
    lifetime apart, starting from any window. *)
Theorem no_double_spend `{Sha256} k ps w i j p q :
  rsa_key_wf k → presented_in_order ps → (i < j)%nat →
  ps !! i = Some p → ps !! j = Some q → p_token p = p_token q →
  run_tokens k ps w !! i = Some (Ok ()) → run_tokens k ps w !! j = Some (Ok ()) →
  p_now p + ttl w ≤ p_now q.
Proof. apply no_double_spend_aux. Qed.

Definition sample_presentations : list presentation :=
  [mkPresentation [x01] (sample_token [x01]) 0; mkPresentation [x02] (sample_token [x01]) 3;
   mkPresentation [x01] (sample_token [x01]) 5; mkPresentation [x01] (sample_token [x01]) 10].

Lemma no_double_spend_witness :
  run_tokens sample_rsa sample_presentations (ReplayWindow_new 10) =
    [Ok (); Err InvalidSignature; Err Replayed; Ok ()] ∧ 0 + 10 ≤ 10.
Proof.
  split; [vm_compute; reflexivity|].
  apply (no_double_spend sample_rsa sample_presentations (ReplayWindow_new 10) 0 3
    (mkPresentation [x01] (sample_token [x01]) 0) (mkPresentation [x01] (sample_token [x01]) 10)).
  - split; vm_compute; congruence.
  - intros i j a b Hij Ha Hb.
    destruct i as [|[|[|[|i]]]], j as [|[|[|[|j]]]]; try lia; simpl in Ha, Hb; try discriminate;
      injection Ha as <-; injection Hb as <-; simpl; lia.
  - lia.
  - reflexivity.
  - reflexivity.
  - reflexivity.
  - vm_compute. reflexivity.
  - vm_compute. reflexivity.
Defined.

(** C30. The signature is checked first, and decides alone whether the window
    is touched.  A token that is not the authority's signature of the hash of
    [m_raw] is refused with the window exactly as it was, expired entries
    included, so it can never block a valid token; a signed token is refused
    only as a replay, when its hash is live in the window, and is otherwise
    accepted and recorded at the present time. *)
Theorem token_verify_exact `{Sha256} m_raw token k now w :
  rsa_key_wf k →
  let '(w', r) := token_verify m_raw token k now w in
  (r = Ok () ↔ signed m_raw token k ∧ ¬ seen w now token) ∧
  (r = Err Replayed ↔ signed m_raw token k ∧ seen w now token) ∧
  (¬ signed m_raw token k → w' = w) ∧
  (r = Ok () → inner w' !! sha256 token = Some now) ∧
  r ≠ Panic ∧ ttl w' = ttl w.
Proof.
  intros Hk. destruct (token_verify_cases m_raw token k now w Hk)
    as [(Hs & Hn & ->)|[(Hs & Hn & ->)|(Hs & e & -> & He)]]; simpl.
  - naive_solver.
  - split_and!; try naive_solver. intros _. by rewrite lookup_insert_eq.
  - split_and!; try naive_solver.
Qed.

Lemma token_verify_exact_witness :
  rsa_key_wf sample_rsa ∧
  (¬ signed [x02] (sample_token [x01]) sample_rsa →
   fst (token_verify [x02] (sample_token [x01]) sample_rsa 20 (mkReplayWindow 10 {[ [x09] := 1 ]})) =
     mkReplayWindow 10 {[ [x09] := 1 ]}).
Proof.
  split; [split; vm_compute; congruence|]. intros Hn.
  pose proof (token_verify_exact [x02] (sample_token [x01]) sample_rsa 20 (mkReplayWindow 10 {[ [x09] := 1 ]})
    ltac:(split; vm_compute; congruence)) as Hp.
  destruct (token_verify _ _ _ _ _) as [w' r]. destruct Hp as (_ & _ & Hw & _). exact (Hw Hn).
Defined.

(** At the fixed length tokens have on the wire, the numbers the check sees
    determine the bytes the window records: a token has no second spelling that
    would pass the check under another hash. *)
Lemma token_spelling_unique t1 t2 :
  length t1 = TOKEN_LEN → length t2 = TOKEN_LEN → from_bytes_be t1 = from_bytes_be t2 → t1 = t2.
Proof. intros H1 H2. apply from_bytes_be_inj. congruence. Qed.
