(* ===== verification/Config.v ===== *)
(** QuietHop: the relay's configuration.

    [relay/src/config.rs]: [Role], the readers of single variables and
    [RelayConfig::from_source].  The environment is a function; the file the
    pinned keys may come from and the [url] crate are parameters.  A reason
    string of an error is represented by a constructor. *)

From S2P Require Import Prelude Bytes Text NetAddr State Registry.

#[local] Open Scope Z_scope.

Inductive Role := Guard | Middle | Exit.

#[export] Instance Role_eq_dec : EqDecision Role.
Proof. solve_decision. Defined.

Inductive config_reason :=
  | NotABoolean (s : string) | NotAKeyOrFile | BadKey | NoKey | NotANumber | NotAHostPort | NoPorts
  | BadUrl | BadScheme (s : string) | MissingHost | MissingPort.

Inductive ConfigError :=
  | Missing (var : string)
  | Invalid (var : string) (reason : config_reason)
  | InvalidRole (s : string)
  | ExitRequiresDecodoProxy.

Definition Role_parse (s : string) : outcome ConfigError Role :=
  if String.eqb s "guard" then Ok Guard
  else if String.eqb s "middle" then Ok Middle
  else if String.eqb s "exit" then Ok Exit
  else Err (InvalidRole s).

(** [Display for Role]. *)
Definition Role_fmt (r : Role) : string :=
  match r with Guard => "guard" | Middle => "middle" | Exit => "exit" end.

(** ** [str::trim], [str::split], [to_ascii_lowercase] *)

(** The length of the white-space character a byte string starts with. *)
Definition ws_len (l : list byte) : option nat :=
  match l with
  | x09 :: _ | x0a :: _ | x0b :: _ | x0c :: _ | x0d :: _ | x20 :: _ => Some 1%nat
  | xc2 :: x85 :: _ | xc2 :: xa0 :: _ => Some 2%nat
  | xe1 :: x9a :: x80 :: _ | xe2 :: x81 :: x9f :: _ | xe3 :: x80 :: x80 :: _ => Some 3%nat
  | xe2 :: x80 :: b :: _ =>
      if in_range 128 138 b || bool_decide (b = xa8) || bool_decide (b = xa9) || bool_decide (b = xaf)
      then Some 3%nat else None
  | _ => None
  end.

(** Every turn removes a character, so the length is fuel enough. *)
Fixpoint trim_start_fuel (fuel : nat) (l : list byte) : list byte :=
  match fuel, ws_len l with
  | S fuel, Some n => trim_start_fuel fuel (drop n l)
  | _, _ => l
  end.

(** The length of the white-space character a byte string ends with. *)
Definition ws_len_end (l : list byte) : option nat :=
  let n := length l in
  let try k := match ws_len (drop (n - k) l) with
               | Some j => if (j =? k)%nat then Some k else None | None => None end in
  match try 1%nat, try 2%nat, try 3%nat with
  | Some k, _, _ | None, Some k, _ | None, None, Some k => Some k
  | _, _, _ => None
  end.

Fixpoint trim_end_fuel (fuel : nat) (l : list byte) : list byte :=
  match fuel, ws_len_end l with
  | S fuel, Some n => trim_end_fuel fuel (take (length l - n) l)
  | _, _ => l
  end.

Definition trim (s : string) : string :=
  let l := as_bytes s in
  let l := trim_start_fuel (length l) l in
  of_bytes (trim_end_fuel (length l) l).

(** [s.split(p)] for a predicate on bytes: one piece more than separators. *)
Fixpoint split_on (p : byte → bool) (l : list byte) : list (list byte) :=
  match l with
  | [] => [[]]
  | b :: l =>
      if p b then [] :: split_on p l
      else match split_on p l with [] => [[b]] | piece :: rest => (b :: piece) :: rest end
  end.

Definition split (p : byte → bool) (s : string) : list string := of_bytes <$> split_on p (as_bytes s).

Definition to_ascii_lowercase (s : string) : string :=
  of_bytes ((λ b, if in_range 65 90 b then as_u8 (u8 b + 32) else b) <$> as_bytes s).

Definition eq_ignore_ascii_case (a b : string) : bool :=
  String.eqb (to_ascii_lowercase a) (to_ascii_lowercase b).

(** ** [str::parse::<SocketAddr>] *)

Definition read_port : parser Z := λ l,
  '(_, l) ← read_given_char x3a l;
  read_number to_digit10 10 (length l) true 65535 l.

Definition read_socket_addr_v4 : parser SocketAddr := λ l,
  '(a, l) ← read_ipv4_addr l; '(p, l) ← read_port l; Some (mkSocketAddr (V4 a) p, l).

(** The scope id is read and dropped: addresses are compared without it. *)
Definition read_scope_id : parser Z := λ l,
  '(_, l) ← read_given_char x25 l; read_number to_digit10 10 (length l) true (2 ^ 32 - 1) l.

Definition read_socket_addr_v6 : parser SocketAddr := λ l,
  '(_, l) ← read_given_char x5b l;
  '(a, l) ← read_ipv6_addr l;
  let l := match read_scope_id l with Some (_, l') => l' | None => l end in
  '(_, l) ← read_given_char x5d l;
  '(p, l) ← read_port l;
  Some (mkSocketAddr (V6 a) p, l).

Definition parse_sockaddr (s : string) : option SocketAddr :=
  match (match read_socket_addr_v4 (as_bytes s) with
         | Some r => Some r | None => read_socket_addr_v6 (as_bytes s) end) with
  | Some (a, []) => Some a
  | _ => None
  end.

(** ** Code of other crates *)

(** The parts of a parsed [url::Url] the sources read. *)
Record Url := mkUrl {
  url_scheme : string; url_host_str : option string; url_port : option Z;
  url_username : string; url_password : option string;
}.
Class UrlParser := { url_parse : string → option Url }.

(** ** Reading the environment *)

Definition source := string → option string.

Definition required (get : source) (key : string) : outcome ConfigError string :=
  match get key with
  | Some (String _ _ as v) => Ok v
  | _ => Err (Missing key)
  end.

Definition parse_num (parse : list byte → option Z) (get : source) (key : string) (dflt : Z)
    : outcome ConfigError Z :=
  match get key with
  | None | Some EmptyString => Ok dflt
  | Some s => ok_or (parse (as_bytes s)) (Invalid key NotANumber)
  end.

Definition parse_port (get : source) (key : string) (dflt : Z) := parse_num parse_u16 get key dflt.
Definition parse_u64 (get : source) (key : string) (dflt : Z) := parse_num parse_usize get key dflt.

Definition parse_u32_required (get : source) (key : string) : outcome ConfigError Z :=
  raw ← required get key;
  ok_or (parse_int 0 (2 ^ 32 - 1) (as_bytes raw)) (Invalid key NotANumber).

Definition parse_socket_addr (get : source) (key dflt : string) : outcome ConfigError SocketAddr :=
  let raw := match get key with Some (String _ _ as s) => s | _ => dflt end in
  ok_or (parse_sockaddr raw) (Invalid key NotAHostPort).

Definition parse_bool (get : source) (key : string) (dflt : bool) : outcome ConfigError bool :=
  match get key with
  | None | Some EmptyString => Ok dflt
  | Some s =>
      let low := to_ascii_lowercase s in
      if existsb (String.eqb low) ["1"; "true"; "yes"; "on"] then Ok true
      else if existsb (String.eqb low) ["0"; "false"; "no"; "off"] then Ok false
      else Err (Invalid key (NotABoolean low))
  end.

(** The pieces of a list value: trimmed, empty ones skipped. *)
Definition pieces (p : byte → bool) (s : string) : list string :=
  List.filter (λ t, negb (String.eqb t "")) (trim <$> split p s).

Definition parse_port_list (raw : string) : outcome ConfigError (list Z) :=
  out ← try_map (λ t, ok_or (parse_u16 (as_bytes t)) (Invalid "ALLOWED_EXIT_PORTS" NotANumber))
          (pieces (λ b, bool_decide (b = x2c)) raw);
  if (length out =? 0)%nat then Err (Invalid "ALLOWED_EXIT_PORTS" NoPorts) else Ok out.

(** A path option with a default. *)
Definition path_or (get : source) (key dflt : string) : string :=
  match get key with Some (String _ _ as s) => s | _ => dflt end.

Section config.
Context `{Sha256, Ed25519, UrlParser}.
(** [std::fs::read_to_string]. *)
Variable read_to_string : string → option string.

Record RelayConfig := mkRelayConfig {
  cfg_role : Role; authority_pubkey_url : string; authority_heartbeat_url : string;
  relay_api_key : string; relay_port : Z; metrics_bind : SocketAddr;
  replay_window_ttl : Z; max_circuits : Z; node_id : string;
  decodo_proxy_url : option string; allowed_exit_ports : list Z;
  relay_hostname : string; acme_contact_email : string; acme_dir : string; acme_staging : bool;
  static_key_path : string; registry_signing_pubkeys : list PinnedKey;
  registry_url : string; registry_state_dir : string;
}.

Definition pin_key (t : string) : outcome ConfigError PinnedKey :=
  match PinnedKey_from_hex t with
  | Ok k => Ok k
  | Err _ => Err (Invalid "REGISTRY_SIGNING_PUBKEY" BadKey)
  | Panic => Panic
  end.

Definition parse_pinned_keys (raw : string) : outcome ConfigError (list PinnedKey) :=
  let trimmed := trim raw in
  body ← (if (String.length trimmed =? 64)%nat && forallb is_ascii_hexdigit (as_bytes trimmed)
          then Ok trimmed
          else ok_or (read_to_string trimmed) (Invalid "REGISTRY_SIGNING_PUBKEY" NotAKeyOrFile));
  out ← try_map pin_key (pieces (λ b, bool_decide (b = x2c) || bool_decide (b = x0a)) body);
  if (length out =? 0)%nat then Err (Invalid "REGISTRY_SIGNING_PUBKEY" NoKey) else Ok out.

(** The checks of an exit's proxy URL. *)
Definition check_proxy (decodo : option string) : outcome ConfigError unit :=
  match decodo with
  | None | Some EmptyString => Err ExitRequiresDecodoProxy
  | Some raw =>
      parsed ← ok_or (url_parse raw) (Invalid "DECODO_PROXY_URL" BadUrl);
      if negb (eq_ignore_ascii_case (url_scheme parsed) "socks5") &&
         negb (eq_ignore_ascii_case (url_scheme parsed) "socks5h")
      then Err (Invalid "DECODO_PROXY_URL" (BadScheme (url_scheme parsed))) else
      match url_host_str parsed with
      | None | Some EmptyString => Err (Invalid "DECODO_PROXY_URL" MissingHost)
      | Some _ =>
          match url_port parsed with
          | None => Err (Invalid "DECODO_PROXY_URL" MissingPort)
          | Some _ => Ok ()
          end
      end
  end.

Definition from_source (get : source) : outcome ConfigError RelayConfig :=
  role_raw ← required get "RELAY_ROLE";
  role ← Role_parse role_raw;
  authority_pubkey_url ← required get "AUTHORITY_PUBKEY_URL";
  authority_heartbeat_url ← required get "AUTHORITY_HEARTBEAT_URL";
  relay_api_key ← required get "RELAY_API_KEY";
  relay_port ← parse_port get "RELAY_PORT" 9001;
  metrics_bind ← parse_socket_addr get "METRICS_BIND" "127.0.0.1:9091";
  replay_window_ttl ← parse_u64 get "REPLAY_WINDOW_TTL" 86400;
  max_circuits ← parse_u32_required get "MAX_CIRCUITS";
  node_id ← required get "NODE_ID";
  let decodo := get "DECODO_PROXY_URL" in
  allowed_exit_ports ← match get "ALLOWED_EXIT_PORTS" with
                       | None => Ok [80; 443]
                       | Some s => parse_port_list s
                       end;
  relay_hostname ← required get "RELAY_HOSTNAME";
  acme_contact_email ← required get "ACME_CONTACT_EMAIL";
  let acme_dir := path_or get "ACME_DIR" "/opt/quiethop/secrets/acme-cache" in
  acme_staging ← parse_bool get "ACME_STAGING" false;
  let static_key_path := path_or get "RELAY_STATIC_KEY_PATH" "/opt/quiethop/secrets/static.key" in
  pubkey ← required get "REGISTRY_SIGNING_PUBKEY";
  registry_signing_pubkeys ← parse_pinned_keys pubkey;
  registry_url ← required get "REGISTRY_URL";
  let registry_state_dir := path_or get "REGISTRY_STATE_DIR" "/opt/quiethop/state" in
  _ ← (if bool_decide (role = Exit) then check_proxy decodo else Ok ());
  Ok (mkRelayConfig role authority_pubkey_url authority_heartbeat_url relay_api_key relay_port
        metrics_bind replay_window_ttl max_circuits node_id decodo allowed_exit_ports relay_hostname
        acme_contact_email acme_dir acme_staging static_key_path registry_signing_pubkeys
        registry_url registry_state_dir).
End config.
