(* ===== verification/Exit.v ===== *)
(** QuietHop: the exit's outbound dialer.

    [relay/src/exit.rs]: [dial_via_socks5].  The SOCKS5 client is
    [tokio_socks]: an attempt is a value, its answer comes from a parameter,
    and the model records every attempt made, so that "no network I/O" is a
    statement about the record. *)

From stdpp Require Import pretty.
From S2P Require Import Prelude Bytes Text NetAddr State Registry SampleRegistry Config.

#[local] Open Scope Z_scope.

Inductive ExitError := PortNotAllowed | BadProxyUrl | DialFailed | DialTimeout.

(** What is asked of the SOCKS5 proxy: the target is a name, never resolved
    here. *)
Record dial_request := mkDialRequest {
  dr_proxy : string; dr_host : string; dr_port : Z; dr_auth : option (string * string);
}.

Inductive dial_answer := DialConnected (stream : nat) | DialRefused | DialTimedOut.

Section exit.
Context `{UrlParser}.
(** [Socks5Stream::connect] under its timeout. *)
Variable socks5 : dial_request → dial_answer.

(** The attempts made, and the result. *)
Definition dial_via_socks5 (proxy_url host : string) (port : Z) (allowed_ports : list Z)
    : list dial_request * outcome ExitError nat :=
  if negb (existsb (Z.eqb port) allowed_ports) then ([], Err PortNotAllowed) else
  match url_parse proxy_url with
  | None => ([], Err BadProxyUrl)
  | Some proxy =>
      let scheme := url_scheme proxy in
      if negb (eq_ignore_ascii_case scheme "socks5") && negb (eq_ignore_ascii_case scheme "socks5h")
      then ([], Err BadProxyUrl) else
      match url_host_str proxy, url_port proxy with
      | None, _ | _, None => ([], Err BadProxyUrl)
      | Some proxy_host, Some proxy_port =>
          let proxy_addr := proxy_host +:+ ":" +:+ pretty proxy_port in
          let auth := if negb (String.eqb (url_username proxy) "")
                      then Some (url_username proxy, default EmptyString (url_password proxy)) else None in
          let req := mkDialRequest proxy_addr host port auth in
          ([req], match socks5 req with
                  | DialConnected s => Ok s
                  | DialRefused => Err DialFailed
                  | DialTimedOut => Err DialTimeout
                  end)
      end
  end.
End exit.

(** The port test of the source. *)
Lemma existsb_Z_In port l : existsb (Z.eqb port) l = true ↔ port ∈ l.
Proof.
  rewrite existsb_exists. setoid_rewrite Z.eqb_eq. rewrite list_elem_of_In. naive_solver.
Qed.

(** The attempts are for the request, on an allowed port, and at most one. *)
Lemma dial_via_socks5_effects `{UrlParser} socks5 proxy_url host port allowed :
  let '(attempts, r) := dial_via_socks5 socks5 proxy_url host port allowed in
  Forall (λ req, port ∈ allowed ∧ dr_host req = host ∧ dr_port req = port) attempts ∧ r ≠ Panic.
Proof.
  unfold dial_via_socks5. pose proof (existsb_Z_In port allowed) as Hin.
  destruct (existsb (Z.eqb port) allowed); cbn [negb]; [|done].
  assert (port ∈ allowed) by (by apply Hin). by repeat case_match; simplify_eq; repeat constructor.
Qed.

(** What the configuration's check of the proxy URL leaves to the dialer. *)
Lemma check_proxy_Ok `{UrlParser} decodo :
  check_proxy decodo = Ok () →
  ∃ raw u h p, decodo = Some raw ∧ url_parse raw = Some u ∧ url_host_str u = Some h ∧ url_port u = Some p ∧
    negb (eq_ignore_ascii_case (url_scheme u) "socks5") &&
    negb (eq_ignore_ascii_case (url_scheme u) "socks5h") = false.
Proof.
  unfold check_proxy. destruct decodo as [[|a raw]|]; try done. intros (u & Hu%ok_or_Ok & Hc)%bind_Ok.
  destruct (_ && _) eqn:Hs; [done|]. destruct (url_host_str u) as [[|b h]|] eqn:Hh; try done.
  destruct (url_port u) as [p|] eqn:Hp; [|done]. eauto 10.
Qed.

Lemma from_source_exit `{Sha256, Ed25519, UrlParser} read get cfg :
  from_source read get = Ok cfg → cfg_role cfg = Exit → check_proxy (decodo_proxy_url cfg) = Ok ().
Proof.
  unfold from_source. intros Hs Hrole.
  repeat match type of Hs with
  | (_ ≫= _) = Ok _ => apply bind_Ok in Hs as (? & ? & Hs)
  end.
  injection Hs as <-. simpl in *. subst. rewrite bool_decide_true in * by done.
  by match goal with H : check_proxy _ = Ok ?u |- _ => destruct u end.
Qed.

(** ** Properties *)

(** An exit contacts the proxy only for an allowed port, at most once, and
    for exactly the name and port of the request; a port outside the list is
    refused before the proxy URL is even looked at, with no attempt made. *)
Theorem exit_dials_allowed_only `{UrlParser} socks5 proxy_url host port allowed :
  let '(attempts, r) := dial_via_socks5 socks5 proxy_url host port allowed in
  (port ∉ allowed → attempts = [] ∧ r = Err PortNotAllowed) ∧
  (length attempts ≤ 1)%nat ∧
  (∀ req, req ∈ attempts → port ∈ allowed ∧ dr_host req = host ∧ dr_port req = port) ∧
  (∀ s, r = Ok s → ∃ req, attempts = [req] ∧ socks5 req = DialConnected s) ∧ r ≠ Panic.
Proof.
  unfold dial_via_socks5. pose proof (existsb_Z_In port allowed) as Hin.
  destruct (existsb (Z.eqb port) allowed); cbn [negb].
  - assert (port ∈ allowed) as Hp by (by apply Hin).
    repeat case_match; simplify_eq; cbn [length]; split_and!; try done; try lia;
      try (intros; set_solver);
      try (intros req ->%list_elem_of_singleton; done); try (intros s' Hs; simplify_eq; eauto; done).
  - split_and!; try done; simpl; try lia; intros; set_solver.
Qed.

(** A relay that starts in the exit role can dial: its configuration
    passed the same tests the dialer makes, so for an allowed port the dialer
    makes exactly one attempt and can only fail because the proxy did. *)
Theorem configured_exit_can_dial `{Sha256, Ed25519, UrlParser} read get cfg socks5 host port :
  from_source read get = Ok cfg → cfg_role cfg = Exit → port ∈ allowed_exit_ports cfg →
  ∃ raw req, decodo_proxy_url cfg = Some raw ∧
    dial_via_socks5 socks5 raw host port (allowed_exit_ports cfg) =
      ([req], match socks5 req with
              | DialConnected s => Ok s | DialRefused => Err DialFailed | DialTimedOut => Err DialTimeout end).
Proof.
  intros Hcfg Hrole Hport.
  destruct (check_proxy_Ok _ (from_source_exit _ _ _ Hcfg Hrole)) as (raw & u & h & p & Hd & Hu & Hh & Hp & Hs).
  exists raw. eexists. split; [done|]. unfold dial_via_socks5.
  rewrite (proj2 (existsb_Z_In _ _) Hport). cbn [negb]. rewrite Hu, Hs, Hh, Hp. done.
Qed.

(** A sample URL parser and environment. *)
Definition sample_proxy : string := "socks5h://user:pw@proxy:1080".
#[export] Instance sample_url_parser : UrlParser := {|
  url_parse s := if String.eqb s sample_proxy
    then Some (mkUrl "socks5h" (Some "proxy") (Some 1080) "user" (Some "pw"))
    else if String.eqb s "x" then Some (mkUrl "HTTPS" (Some s) None "" None) else None;
|}.
Definition sample_env : source := λ k,
  if String.eqb k "RELAY_ROLE" then Some "exit"
  else if String.eqb k "DECODO_PROXY_URL" then Some sample_proxy
  else if String.eqb k "REGISTRY_SIGNING_PUBKEY" then Some (hex_of SampleReg.key)
  else if String.eqb k "ALLOWED_EXIT_PORTS" then Some " 443, 80 ,"
  else if String.eqb k "MAX_CIRCUITS" then Some "64"
  else if existsb (String.eqb k) ["RELAY_PORT"; "METRICS_BIND"; "REPLAY_WINDOW_TTL"; "ACME_STAGING"]
  then None
  else Some "x".

(** What the witness needs of the parsed configuration. *)
Definition sample_cfg_ok (o : outcome ConfigError RelayConfig) : bool :=
  match o with
  | Ok cfg => bool_decide (allowed_exit_ports cfg = [443; 80]) && bool_decide (cfg_role cfg = Exit)
  | _ => false
  end.

Lemma configured_exit_can_dial_witness :
  ∃ cfg raw req, from_source (λ _, None) sample_env = Ok cfg ∧ allowed_exit_ports cfg = [443; 80] ∧
    decodo_proxy_url cfg = Some raw ∧
    dial_via_socks5 (λ _, DialConnected 7) raw "example.org" 443 (allowed_exit_ports cfg) = ([req], Ok 7%nat).
Proof.
  assert (sample_cfg_ok (from_source (λ _, None) sample_env) = true) as Hok by (vm_compute; reflexivity).
  destruct (from_source (λ _, None) sample_env) as [cfg| |] eqn:Hcfg; [|discriminate Hok..].
  apply andb_true_iff in Hok as [Hports%bool_decide_eq_true Hrole%bool_decide_eq_true].
  destruct (configured_exit_can_dial (λ _, None) sample_env cfg (λ _, DialConnected 7) "example.org" 443)
    as (raw & req & Hraw & Hd).
  - exact Hcfg.
  - exact Hrole.
  - rewrite Hports. left.
  - exists cfg, raw, req. auto.
Defined.
