(* ===== verification/ConfigTheorems.v ===== *)
(** QuietHop: what a relay's configuration can be.

    The theorem on [Config]: whatever the environment holds, [from_source]
    either returns a configuration in which every field has the range and the
    shape the rest of the program relies on, or an error that blames a variable
    for what it really holds; it never panics. *)

From S2P Require Import Prelude Bytes Text NetAddr Ipv6 State Registry SampleRegistry Config Exit.

#[local] Open Scope Z_scope.

(** [m] never panics, returns what [P] allows, and fails as [Q] allows. *)
Definition ends {E A} (m : outcome E A) (P : A → Prop) (Q : E → Prop) : Prop :=
  match m with Ok a => P a | Err e => Q e | Panic => False end.

Section ends.
Context {E : Type}.
Implicit Types (Q : E → Prop).

Lemma ends_bind {A B} (m : outcome E A) (f : A → outcome E B) P P' Q :
  ends m P Q → (∀ a, P a → ends (f a) P' Q) → ends (a ← m; f a) P' Q.
Proof. destruct m as [a|e|]; simpl; auto. Qed.

Lemma ends_ok_or {A} (o : option A) (e : E) (P : A → Prop) Q :
  (∀ a, o = Some a → P a) → Q e → ends (ok_or o e) P Q.
Proof. destruct o; simpl; auto. Qed.

Lemma ends_mono {A} (m : outcome E A) (P P' : A → Prop) Q Q' :
  ends m P Q → (∀ a, P a → P' a) → (∀ e, Q e → Q' e) → ends m P' Q'.
Proof. destruct m; simpl; auto. Qed.

Lemma ends_try_map_each {A B} (f : A → outcome E B) l (R : A → B → Prop) Q :
  (∀ x, x ∈ l → ends (f x) (R x) Q) → ends (try_map f l) (Forall2 R l) Q.
Proof.
  induction l as [|x l IH]; intros Hf; simpl; [constructor|].
  eapply ends_bind; [apply Hf; left|]. intros y Hy. eapply ends_bind; [apply IH; intros z Hz; apply Hf; by right|].
  intros ys Hys. by constructor.
Qed.
End ends.

(** ** The readers *)

Lemma parse_digits_range lo hi neg acc l v :
  lo ≤ acc ≤ hi → parse_digits lo hi neg acc l = Some v → lo ≤ v ≤ hi.
Proof.
  revert acc. induction l as [|b l IH]; intros acc Ha; cbn [parse_digits]; [by intros [= <-]|].
  intros (d & _ & Hv)%bind_Some. repeat case_bool_decide; try done. by eapply IH.
Qed.

Lemma parse_int_range lo hi l v : lo ≤ 0 ≤ hi → parse_int lo hi l = Some v → lo ≤ v ≤ hi.
Proof. intros Hz. unfold parse_int. repeat case_match; try done; by apply parse_digits_range. Qed.

(** A decimal numeral that is at most [hi], as the standard library reads
    unsigned numbers: digits, after a plus sign or not; and its value. *)
Definition is_digit (b : byte) : Prop := 48 ≤ u8 b ≤ 57.
Definition decimal (acc : Z) (ds : list byte) : Z := fold_left (λ acc b, acc * 10 + (u8 b - 48)) ds acc.
Definition numeral (hi : Z) (s : string) (v : Z) : Prop :=
  ∃ ds, (as_bytes s = ds ∨ as_bytes s = x2b :: ds) ∧ ds ≠ [] ∧ Forall is_digit ds ∧ decimal 0 ds = v ∧ v ≤ hi.

Lemma dec_digit_Some b d : dec_digit b = Some d ↔ is_digit b ∧ d = u8 b - 48.
Proof.
  unfold dec_digit, is_digit. destruct (Z.leb_spec 48 (u8 b)), (Z.leb_spec (u8 b) 57); cbn; split.
  1: by intros [= <-]. 1: by intros [_ ->]. all: try done. all: intros [[? ?] _]; lia.
Qed.

Lemma decimal_ge acc ds : 0 ≤ acc → Forall is_digit ds → acc ≤ decimal acc ds.
Proof.
  intros Ha Hd. revert acc Ha. induction Hd as [|b ds Hb _ IH]; intros acc Ha; cbn; [lia|].
  unfold is_digit in Hb. specialize (IH (acc * 10 + (u8 b - 48))). unfold decimal in IH. lia.
Qed.

Lemma parse_digits_unsigned hi acc l v :
  0 ≤ acc ≤ hi → parse_digits 0 hi false acc l = Some v ↔ Forall is_digit l ∧ decimal acc l = v ∧ v ≤ hi.
Proof.
  revert acc. induction l as [|b l IH]; intros acc Ha; cbn [parse_digits].
  { split; [intros [= <-]; split; [done|cbn; lia]|intros (_ & <- & _); done]. }
  destruct (dec_digit b) as [d|] eqn:Hd; cbn [mbind option_bind]; cycle 1.
  { split; [done|]. intros ([Hb _]%Forall_cons & _). by rewrite (proj2 (dec_digit_Some b (u8 b - 48))) in Hd. }
  apply dec_digit_Some in Hd as [Hb ->]. pose proof Hb as Hb'. unfold is_digit in Hb'.
  assert (∀ P : Prop, (Forall is_digit l → decimal (acc * 10 + (u8 b - 48)) l = v → v ≤ hi → P) →
    Forall is_digit (b :: l) ∧ decimal acc (b :: l) = v ∧ v ≤ hi → P) as Helim
    by (intros P HP ([_ Hl]%Forall_cons & Hv & Hle); by apply HP).
  repeat case_bool_decide; [rewrite IH by lia; rewrite Forall_cons; cbn; tauto|split; [done|]..]; apply Helim;
    intros Hl Hv Hle; pose proof (decimal_ge (acc * 10 + (u8 b - 48)) l ltac:(lia) Hl); lia.
Qed.

Lemma parse_int_unsigned hi s v : 0 ≤ hi → parse_int 0 hi (as_bytes s) = Some v ↔ numeral hi s v.
Proof.
  intros Hh. unfold numeral. generalize (as_bytes s) as l. intros l.
  assert (∀ ds, parse_digits 0 hi false 0 ds = Some v ↔ Forall is_digit ds ∧ decimal 0 ds = v ∧ v ≤ hi) as Hp
    by (intros ds; apply parse_digits_unsigned; lia).
  assert (∀ ds, (l = ds ∨ l = x2b :: ds) → ds ≠ [] → Forall is_digit ds →
    match l with [] => False | b :: r => (b = x2b ∧ r = ds) ∨ (b ≠ x2b ∧ b ≠ x2d ∧ ds = l) end) as Hcase.
  { intros ds [<-| ->] Hne Hds; [|by left]. destruct l as [|b r]; [done|]. right. apply Forall_cons in Hds as [Hb _].
    unfold is_digit in Hb. split_and!; try done; intros ->; destruct Hb as [Hb _]; by apply Hb. }
  split.
  - intros Hv. destruct l as [|b r]; [done|]. assert (b = x2b ∨ b = x2d ∨ b ≠ x2b ∧ b ≠ x2d) as [->|[->|[Hb Hb']]]
      by (destruct (decide (b = x2b)); [by left|destruct (decide (b = x2d)); auto]).
    + destruct r as [|c r]; [done|]. exists (c :: r). split; [by right|]. split; [done|]. by apply Hp.
    + by destruct r.
    + exists (b :: r). split; [by left|]. split; [done|]. apply Hp. by destruct b.
  - intros (ds & Hl & Hne & Hrest). pose proof (Hcase ds Hl Hne (proj1 Hrest)) as Hc. apply Hp in Hrest.
    destruct l as [|b r]; [done|]. destruct Hc as [[-> ->]|(Hb & Hb' & ->)].
    + by destruct ds.
    + by destruct b.
Qed.

Lemma read_digits_nonneg digit radix max cnt acc l cnt' v rest :
  (∀ b d, digit b = Some d → 0 ≤ d) → 0 ≤ radix → 0 ≤ acc →
  read_digits digit radix max cnt acc l = Some (cnt', v, rest) → 0 ≤ v.
Proof.
  intros Hd Hr. revert cnt acc. induction l as [|b l IH]; intros cnt acc Ha; cbn [read_digits]; [by intros [= _ <- _]|].
  destruct (digit b) as [d|] eqn:Hb; [|by intros [= _ <- _]]. destruct (_ <? _)%nat; [done|].
  apply IH. specialize (Hd b d Hb). nia.
Qed.

Lemma read_port_range l p rest : read_port l = Some (p, rest) → u16_in_range p.
Proof.
  unfold read_port. intros ([? l1] & _ & Hp)%bind_Some. unfold read_number in Hp.
  destruct (read_digits to_digit10 10 (length l1) 0 0 l1) as [[[cnt v] r]|] eqn:Hd; [|done].
  destruct (cnt =? 0)%nat; [done|]. destruct (_ && _ && _); [done|]. destruct (Z.leb_spec v 65535); [|done].
  injection Hp as <- <-. apply read_digits_nonneg in Hd; [by split; lia| |lia..].
  intros b d. unfold to_digit10. intros Hb. repeat case_match; simplify_eq; pose proof (u8_range b); try lia.
Qed.

Lemma parse_sockaddr_wf s a : parse_sockaddr s = Some a → sockaddr_wf a.
Proof.
  unfold parse_sockaddr. intros Hp.
  assert (∀ r, read_socket_addr_v4 (as_bytes s) = Some r → sockaddr_wf r.1) as H4.
  { unfold read_socket_addr_v4. intros r ([ip l1] & _ & Hr)%bind_Some. apply bind_Some in Hr as ([p l2] & Hport & [= <-]).
    split; [done|]. by eapply read_port_range. }
  assert (∀ r, read_socket_addr_v6 (as_bytes s) = Some r → sockaddr_wf r.1) as H6.
  { unfold read_socket_addr_v6. intros r ([? l1] & _ & Hr)%bind_Some. apply bind_Some in Hr as ([ip l2] & Hip & Hr).
    apply bind_Some in Hr as ([? l3] & _ & Hr). apply bind_Some in Hr as ([p l4] & Hport & [= <-]).
    split; [by eapply read_ipv6_addr_wf|by eapply read_port_range]. }
  destruct (read_socket_addr_v4 (as_bytes s)) as [r|].
  - specialize (H4 r eq_refl). destruct r as [a' []]; [|done]. by injection Hp as <-.
  - destruct (read_socket_addr_v6 (as_bytes s)) as [r|]; [|done].
    specialize (H6 r eq_refl). destruct r as [a' []]; [|done]. by injection Hp as <-.
Qed.

(** An IPv4 address and a port are read as such. *)
Lemma read_digits_decimal max acc ds cnt :
  Forall is_digit ds → (cnt + length ds ≤ max)%nat →
  read_digits to_digit10 10 max cnt acc ds = Some ((cnt + length ds)%nat, decimal acc ds, []).
Proof.
  intros Hd. revert cnt acc. induction Hd as [|b ds Hb _ IH]; intros cnt acc Hl; cbn [read_digits length].
  { by rewrite Nat.add_0_r. }
  assert (to_digit10 b = Some (u8 b - 48)) as ->.
  { revert Hb. unfold is_digit. clear. intros Hb. unfold to_digit10.
    destruct (Z.leb_spec 48 (u8 b)), (Z.leb_spec (u8 b) 57); cbn; done || lia. }
  cbn [length] in Hl. rewrite (proj2 (Nat.ltb_ge _ _)) by lia. rewrite IH by lia. cbn. f_equal. f_equal. f_equal. lia.
Qed.

(** The text of an IPv4 address with a port. *)
Definition v4_with_port (s : string) : Prop :=
  ∃ a ds, as_bytes s = show_ipv4 a ++ x3a :: ds ∧ ds ≠ [] ∧ Forall is_digit ds ∧ decimal 0 ds ≤ 65535.

Lemma parse_sockaddr_v4 s : v4_with_port s → is_Some (parse_sockaddr s).
Proof.
  intros (a & ds & Hs & Hne & Hd & Hle). unfold parse_sockaddr, read_socket_addr_v4. rewrite Hs.
  rewrite read_ipv4_addr_show by done. cbn [mbind option_bind]. unfold read_port. rewrite read_given_char_eq. cbn [mbind option_bind].
  unfold read_number. rewrite (read_digits_decimal _ 0 ds 0) by (done || lia). destruct ds as [|d ds]; [done|].
  cbn [Nat.add length Nat.eqb negb andb]. rewrite (proj2 (Z.leb_le _ _)) by done. cbn. by eexists.
Qed.

(** ** Errors that say what is there *)

Definition REQUIRED : list string :=
  ["RELAY_ROLE"; "AUTHORITY_PUBKEY_URL"; "AUTHORITY_HEARTBEAT_URL"; "RELAY_API_KEY"; "MAX_CIRCUITS"; "NODE_ID";
   "RELAY_HOSTNAME"; "ACME_CONTACT_EMAIL"; "REGISTRY_SIGNING_PUBKEY"; "REGISTRY_URL"].
Definition TRUE_WORDS : list string := ["1"; "true"; "yes"; "on"].
Definition FALSE_WORDS : list string := ["0"; "false"; "no"; "off"].

(** The non-empty pieces of a list of ports, and of a text of keys. *)
Definition port_pieces (s : string) : list string := pieces (λ b, bool_decide (b = x2c)) s.
Definition key_pieces (s : string) : list string := pieces (λ b, bool_decide (b = x2c) || bool_decide (b = x0a)) s.

Section blames.
Context `{Ed25519, UrlParser}.
Variable read_to_string : string → option string.

(** A key's own text is sixty-four hex digits; any other value names a file. *)
Definition inline_key (s : string) : bool := (String.length s =? 64)%nat && forallb is_ascii_hexdigit (as_bytes s).
Definition key_text (s body : string) : Prop :=
  if inline_key (trim s) then body = trim s else read_to_string (trim s) = Some body.
(** Sixty-four hex digits of a key that the curve accepts. *)
Definition spells_key (t : string) : Prop :=
  String.length t = 64%nat ∧ ∃ raw key, decode_hex_pairs (as_bytes t) = Some raw ∧ vk_from_bytes raw = Some key.
Definition is_socks (scheme : string) : Prop :=
  eq_ignore_ascii_case scheme "socks5" = true ∨ eq_ignore_ascii_case scheme "socks5h" = true.

(** What is wrong with the value [s] of [var], for each reason. *)
Definition is_wrong (var s : string) (r : config_reason) : Prop :=
  match r with
  | NotANumber =>
      var = "RELAY_PORT"%string ∧ (∀ v, ¬ numeral 65535 s v) ∨
      var = "REPLAY_WINDOW_TTL"%string ∧ (∀ v, ¬ numeral (2 ^ 64 - 1) s v) ∨
      var = "MAX_CIRCUITS"%string ∧ (∀ v, ¬ numeral (2 ^ 32 - 1) s v) ∨
      var = "ALLOWED_EXIT_PORTS"%string ∧ ∃ t, t ∈ port_pieces s ∧ ∀ v, ¬ numeral 65535 t v
  | NoPorts => var = "ALLOWED_EXIT_PORTS"%string ∧ port_pieces s = []
  | NotAHostPort => var = "METRICS_BIND"%string ∧ parse_sockaddr s = None ∧ ¬ v4_with_port s
  | NotABoolean low => var = "ACME_STAGING"%string ∧ low = to_ascii_lowercase s ∧ ¬ (low ∈ TRUE_WORDS) ∧ ¬ (low ∈ FALSE_WORDS)
  | NotAKeyOrFile => var = "REGISTRY_SIGNING_PUBKEY"%string ∧ ∀ body, ¬ key_text s body
  | BadKey => var = "REGISTRY_SIGNING_PUBKEY"%string ∧ ∃ body t, key_text s body ∧ t ∈ key_pieces body ∧ ¬ spells_key t
  | NoKey => var = "REGISTRY_SIGNING_PUBKEY"%string ∧ ∃ body, key_text s body ∧ key_pieces body = []
  | BadUrl => var = "DECODO_PROXY_URL"%string ∧ url_parse s = None
  | BadScheme sc => var = "DECODO_PROXY_URL"%string ∧ ∃ u, url_parse s = Some u ∧ url_scheme u = sc ∧ ¬ is_socks sc
  | MissingHost => var = "DECODO_PROXY_URL"%string ∧ ∃ u, url_parse s = Some u ∧
      (url_host_str u = None ∨ url_host_str u = Some ""%string)
  | MissingPort => var = "DECODO_PROXY_URL"%string ∧ ∃ u, url_parse s = Some u ∧ url_port u = None
  end.

(** An error names a variable and what is wrong with what it holds. *)
Definition blames (get : source) (e : ConfigError) : Prop :=
  match e with
  | Missing var => var ∈ REQUIRED ∧ (get var = None ∨ get var = Some ""%string)
  | Invalid var r => ∃ s, get var = Some s ∧ is_wrong var s r
  | InvalidRole s => get "RELAY_ROLE"%string = Some s ∧ (∀ r, s ≠ Role_fmt r)
  | ExitRequiresDecodoProxy =>
      get "RELAY_ROLE"%string = Some "exit"%string ∧
      (get "DECODO_PROXY_URL"%string = None ∨ get "DECODO_PROXY_URL"%string = Some ""%string)
  end.

(** What a variable with a default says. *)
Definition reads (get : source) (key : string) (says : string → Prop) (is_default : Prop) : Prop :=
  match get key with None | Some ""%string => is_default | Some s => says s end.

Lemma required_ends get key :
  key ∈ REQUIRED → ends (required get key) (λ v, get key = Some v ∧ v ≠ ""%string) (blames get).
Proof. intros Hr. unfold required. destruct (get key) as [[|c v]|] eqn:Hk; simpl; auto. Qed.

Lemma Role_parse_ends get s :
  get "RELAY_ROLE"%string = Some s → ends (Role_parse s) (λ r, s = Role_fmt r) (blames get).
Proof.
  intros Hg. unfold Role_parse. destruct (String.eqb_spec s "guard"); [done|]. destruct (String.eqb_spec s "middle"); [done|].
  destruct (String.eqb_spec s "exit"); [done|]. simpl. split; [done|]. by intros [].
Qed.

(** A numeral in range is read; anything else is an error. *)
Lemma parse_int_ends get key hi s :
  0 ≤ hi → get key = Some s → ((∀ v, ¬ numeral hi s v) → is_wrong key s NotANumber) →
  ends (ok_or (parse_int 0 hi (as_bytes s)) (Invalid key NotANumber)) (numeral hi s) (blames get).
Proof.
  intros Hh Hk Hw. pose proof (parse_int_unsigned hi s) as Hp. destruct (parse_int 0 hi (as_bytes s)) as [v|]; simpl.
  - by apply Hp.
  - exists s. split; [done|]. apply Hw. intros v Hv%Hp; done.
Qed.

Lemma numeral_range hi s v : 0 ≤ hi → numeral hi s v → 0 ≤ v ≤ hi.
Proof. intros Hh Hv%parse_int_unsigned; [|done]. by apply parse_int_range in Hv. Qed.

Lemma parse_num_ends get key hi dflt :
  0 ≤ hi → (∀ s, (∀ v, ¬ numeral hi s v) → is_wrong key s NotANumber) →
  ends (parse_num (parse_int 0 hi) get key dflt) (λ v, reads get key (λ s, numeral hi s v) (v = dflt)) (blames get).
Proof.
  intros Hh Hw. unfold parse_num, reads. destruct (get key) as [[|c s]|] eqn:Hk; [done| |done].
  by apply parse_int_ends; [..|apply Hw].
Qed.

Lemma parse_u32_required_ends get :
  ends (parse_u32_required get "MAX_CIRCUITS") (λ v, ∃ s, get "MAX_CIRCUITS"%string = Some s ∧ numeral (2 ^ 32 - 1) s v) (blames get).
Proof.
  unfold parse_u32_required. eapply ends_bind; [by apply required_ends; apply list_elem_of_In; simpl; tauto|].
  intros raw [Hg _]. eapply ends_mono; [apply parse_int_ends; [lia|exact Hg|]| |done]; [intros Hn; simpl; auto|].
  intros v Hv. by exists raw.
Qed.

Lemma parse_socket_addr_ends get dflt :
  is_Some (parse_sockaddr dflt) →
  ends (parse_socket_addr get "METRICS_BIND" dflt)
    (λ a, reads get "METRICS_BIND" (λ s, parse_sockaddr s = Some a) (parse_sockaddr dflt = Some a)) (blames get).
Proof.
  intros [a Ha]. unfold parse_socket_addr, reads. destruct (get "METRICS_BIND"%string) as [[|c s]|] eqn:Hk.
  - by rewrite Ha.
  - set (raw := String c s) in *. destruct (parse_sockaddr raw) as [b|] eqn:Hb; simpl; [done|].
    exists raw. split; [done|]. split; [done|]. split; [done|]. intros Hv%parse_sockaddr_v4. by rewrite Hb in Hv; destruct Hv.
  - by rewrite Ha.
Qed.

Lemma existsb_eqb (s : string) l : existsb (String.eqb s) l = true ↔ s ∈ l.
Proof. rewrite existsb_exists, list_elem_of_In. setoid_rewrite String.eqb_eq. naive_solver. Qed.

Lemma parse_bool_ends get dflt :
  ends (parse_bool get "ACME_STAGING" dflt)
    (λ b, reads get "ACME_STAGING" (λ s, to_ascii_lowercase s ∈ (if b then TRUE_WORDS else FALSE_WORDS)) (b = dflt)) (blames get).
Proof.
  unfold parse_bool, reads. destruct (get "ACME_STAGING"%string) as [[|c s]|] eqn:Hk; [done| |done].
  set (raw := String c s) in *. set (low := to_ascii_lowercase raw).
  destruct (existsb (String.eqb low) ["1"; "true"; "yes"; "on"]%string) eqn:Ht; [by apply existsb_eqb in Ht|].
  destruct (existsb (String.eqb low) ["0"; "false"; "no"; "off"]%string) eqn:Hf; [by apply existsb_eqb in Hf|].
  simpl. exists raw. split; [done|]. split_and!; try done; rewrite <- existsb_eqb; unfold TRUE_WORDS, FALSE_WORDS; congruence.
Qed.

Lemma parse_port_list_ends get raw :
  get "ALLOWED_EXIT_PORTS"%string = Some raw →
  ends (parse_port_list raw) (λ ps, ps ≠ [] ∧ Forall2 (numeral 65535) (port_pieces raw) ps) (blames get).
Proof.
  intros Hg. unfold parse_port_list. fold (port_pieces raw). eapply ends_bind.
  - apply (ends_try_map_each _ _ (numeral 65535)). intros t Ht.
    pose proof (parse_int_unsigned 65535 t) as Hp. unfold parse_u16. destruct (parse_int 0 65535 (as_bytes t)) as [v|]; simpl.
    + by apply Hp.
    + exists raw. split; [done|]. do 3 right. split; [done|]. exists t. split; [done|]. intros v Hv%Hp; done.
  - intros ps Hp. destruct ps as [|p ps]; simpl; [|done]. apply Forall2_nil_inv_r in Hp. by exists raw.
Qed.
End blames.

(** ** Keys and the proxy *)

Section config_theorems.
Context `{Sha256Laws, Ed25519, UrlParser}.
Variable read_to_string : string → option string.

(** A pinned key is one the curve accepts, under the first eight bytes of its
    hash; [pins t k]: [t] is the hex of that key. *)
Definition pins (t : string) (k : PinnedKey) : Prop :=
  ∃ raw, decode_hex_pairs (as_bytes t) = Some raw ∧ length raw = 32%nat ∧ vk_from_bytes raw = Some (pk_key k) ∧
    pk_key_id k = hex_of (take 8 (sha256 raw)).

Lemma pin_key_ends t Q :
  (¬ spells_key t → Q (Invalid "REGISTRY_SIGNING_PUBKEY" BadKey)) → ends (pin_key t) (pins t) Q.
Proof.
  intros Hq. unfold pin_key, PinnedKey_from_hex, decode_hex32, spells_key in *.
  case_bool_decide as Hl; [|apply Hq; by intros [? _]].
  destruct (decode_hex_pairs (as_bytes t)) as [raw|] eqn:Hraw; [|apply Hq; by intros (_ & ? & ? & ? & _)].
  cbn [ok_or mbind outcome_bind]. unfold PinnedKey_from_bytes.
  destruct (vk_from_bytes raw) as [key|] eqn:Hkey; [|apply Hq; intros (_ & ? & ? & [= <-] & ?); congruence].
  cbn [ok_or mbind outcome_bind]. unfold key_id_for, slice_to. pose proof (sha256_length raw) as Hs.
  rewrite slice_in_range by lia. exists raw. split_and!; try done.
  pose proof (decode_hex_pairs_length _ _ Hraw) as Hlen. rewrite length_as_bytes, Hl in Hlen. specialize (Hlen eq_refl). lia.
Qed.

Lemma parse_pinned_keys_ends get raw :
  get "REGISTRY_SIGNING_PUBKEY"%string = Some raw →
  ends (parse_pinned_keys read_to_string raw)
    (λ ks, ks ≠ [] ∧ ∃ body, key_text read_to_string raw body ∧ Forall2 pins (key_pieces body) ks) (blames read_to_string get).
Proof.
  intros Hg. unfold parse_pinned_keys. eapply (ends_bind _ _ (key_text read_to_string raw)).
  - unfold key_text. change ((String.length (trim raw) =? 64)%nat && _) with (inline_key (trim raw)).
    destruct (inline_key (trim raw)) eqn:Hi; [done|]. destruct (read_to_string (trim raw)) as [body|] eqn:Hf; [done|].
    exists raw. split; [done|]. split; [done|]. intros body. unfold key_text. rewrite Hi, Hf. done.
  - intros body Hbody. fold (key_pieces body). eapply ends_bind.
    + apply (ends_try_map_each _ _ pins). intros t Ht. apply pin_key_ends. intros Hn. exists raw. split; [done|].
      split; [done|]. by exists body, t.
    + intros ks Hks. destruct ks as [|k ks]; simpl; [|split; [done|by exists body]]. exists raw. split; [done|]. split; [done|].
      exists body. split; [done|]. by apply Forall2_nil_inv_r in Hks.
Qed.

(** What an exit's proxy URL has to be. *)
Definition proxy_wf (decodo : option string) : Prop :=
  ∃ raw u host, decodo = Some raw ∧ raw ≠ ""%string ∧ url_parse raw = Some u ∧
    is_socks (url_scheme u) ∧ url_host_str u = Some host ∧ host ≠ ""%string ∧ is_Some (url_port u).

Lemma check_proxy_ends get :
  get "RELAY_ROLE"%string = Some "exit"%string →
  ends (check_proxy (get "DECODO_PROXY_URL"%string)) (λ _, proxy_wf (get "DECODO_PROXY_URL"%string)) (blames read_to_string get).
Proof.
  intros Hr. unfold check_proxy, is_socks. destruct (get "DECODO_PROXY_URL"%string) as [[|c raw]|] eqn:Hd;
    [simpl; rewrite Hd; by auto| |simpl; rewrite Hd; by auto].
  set (v := String c raw) in *. destruct (url_parse v) as [u|] eqn:Hu; cbn [ok_or mbind outcome_bind]; [|by exists v].
  assert (∀ r, (∃ u, url_parse v = Some u ∧ match r with
      | BadScheme sc => url_scheme u = sc ∧ ¬ is_socks sc
      | MissingHost => url_host_str u = None ∨ url_host_str u = Some ""%string
      | MissingPort => url_port u = None | _ => False end) → blames read_to_string get (Invalid "DECODO_PROXY_URL" r)) as Hb.
  { intros r (u' & Hu' & Hrest). exists v. split; [done|]. destruct r; try done; (split; [done|]); by exists u'. }
  destruct (_ && _) eqn:Hs.
  { apply (Hb (BadScheme (url_scheme u))). exists u. split; [done|]. split; [done|]. apply andb_true_iff in Hs as [H5 H5h].
    apply negb_true_iff in H5, H5h. unfold is_socks. rewrite H5, H5h. by intros [?|?]. }
  apply andb_false_iff in Hs. rewrite !negb_false_iff in Hs.
  destruct (url_host_str u) as [[|hc host]|] eqn:Hh; [apply (Hb MissingHost); eauto| |apply (Hb MissingHost); eauto].
  destruct (url_port u) as [p|] eqn:Hp; [|apply (Hb MissingPort); eauto].
  exists v, u, (String hc host). by split_and!.
Qed.

(** ** The whole configuration *)

Record config_wf (c : RelayConfig) : Prop := {
  cwf_strings : Forall (λ s, s ≠ ""%string)
    [authority_pubkey_url c; authority_heartbeat_url c; relay_api_key c; node_id c; relay_hostname c;
     acme_contact_email c; acme_dir c; static_key_path c; registry_url c; registry_state_dir c];
  cwf_port : u16_in_range (relay_port c);
  cwf_metrics : sockaddr_wf (metrics_bind c);
  cwf_ttl : 0 ≤ replay_window_ttl c < 2 ^ 64;
  cwf_circuits : 0 ≤ max_circuits c < 2 ^ 32;
  cwf_exit_ports : allowed_exit_ports c ≠ [] ∧ Forall u16_in_range (allowed_exit_ports c);
  cwf_keys : registry_signing_pubkeys c ≠ [];
  cwf_exit : cfg_role c = Exit → proxy_wf (decodo_proxy_url c);
}.

(** Every field says what its variable says, or is the default. *)
Record config_says (get : source) (c : RelayConfig) : Prop := {
  cs_role : get "RELAY_ROLE"%string = Some (Role_fmt (cfg_role c));
  cs_pubkey_url : get "AUTHORITY_PUBKEY_URL"%string = Some (authority_pubkey_url c);
  cs_heartbeat_url : get "AUTHORITY_HEARTBEAT_URL"%string = Some (authority_heartbeat_url c);
  cs_api_key : get "RELAY_API_KEY"%string = Some (relay_api_key c);
  cs_port : reads get "RELAY_PORT" (λ s, numeral 65535 s (relay_port c)) (relay_port c = 9001);
  cs_metrics : reads get "METRICS_BIND" (λ s, parse_sockaddr s = Some (metrics_bind c))
    (metrics_bind c = mkSocketAddr (V4 (Ipv4 x7f x00 x00 x01)) 9091);
  cs_ttl : reads get "REPLAY_WINDOW_TTL" (λ s, numeral (2 ^ 64 - 1) s (replay_window_ttl c)) (replay_window_ttl c = 86400);
  cs_circuits : ∃ s, get "MAX_CIRCUITS"%string = Some s ∧ numeral (2 ^ 32 - 1) s (max_circuits c);
  cs_node : get "NODE_ID"%string = Some (node_id c);
  cs_decodo : get "DECODO_PROXY_URL"%string = decodo_proxy_url c;
  cs_ports : match get "ALLOWED_EXIT_PORTS"%string with
             | None => allowed_exit_ports c = [80; 443]
             | Some s => Forall2 (numeral 65535) (port_pieces s) (allowed_exit_ports c) end;
  cs_hostname : get "RELAY_HOSTNAME"%string = Some (relay_hostname c);
  cs_email : get "ACME_CONTACT_EMAIL"%string = Some (acme_contact_email c);
  cs_acme_dir : reads get "ACME_DIR" (λ s, acme_dir c = s) (acme_dir c = "/opt/quiethop/secrets/acme-cache"%string);
  cs_staging : reads get "ACME_STAGING" (λ s, to_ascii_lowercase s ∈ (if acme_staging c then TRUE_WORDS else FALSE_WORDS))
    (acme_staging c = false);
  cs_key_path : reads get "RELAY_STATIC_KEY_PATH" (λ s, static_key_path c = s)
    (static_key_path c = "/opt/quiethop/secrets/static.key"%string);
  cs_keys : ∃ s body, get "REGISTRY_SIGNING_PUBKEY"%string = Some s ∧ key_text read_to_string s body ∧
    Forall2 pins (key_pieces body) (registry_signing_pubkeys c);
  cs_registry_url : get "REGISTRY_URL"%string = Some (registry_url c);
  cs_state_dir : reads get "REGISTRY_STATE_DIR" (λ s, registry_state_dir c = s) (registry_state_dir c = "/opt/quiethop/state"%string);
}.

Lemma path_or_nonempty get key dflt : dflt ≠ ""%string → path_or get key dflt ≠ ""%string.
Proof. intros Hd. unfold path_or. by destruct (get key) as [[|]|]. Qed.

Lemma path_or_reads get key dflt :
  reads get key (λ s, path_or get key dflt = s) (path_or get key dflt = dflt).
Proof. unfold reads, path_or. by destruct (get key) as [[|]|]. Qed.

Lemma reads_impl get key (P P' : string → Prop) (D D' : Prop) :
  reads get key P D → (∀ s, P s → P' s) → (D → D') → reads get key P' D'.
Proof. unfold reads. destruct (get key) as [[|]|]; auto. Qed.

Lemma reads_elim get key (P : string → Prop) (D R : Prop) : reads get key P D → (∀ s, P s → R) → (D → R) → R.
Proof. unfold reads. destruct (get key) as [[|]|]; eauto. Qed.

(** The next required variable. *)
Ltac next_required := eapply ends_bind; [apply required_ends, list_elem_of_In; simpl; tauto|].

(** C26. A relay's configuration is well formed or it does not start.  Whatever
    the environment and the key file hold, reading them never panics: it gives
    a configuration whose every field is what its variable says, or the default,
    and is in range (ports, lifetimes, a well-formed address, no empty string,
    at least one port to exit to, at least one pinned key and only keys the
    curve accepts, and for an exit a SOCKS5 proxy with a host and a port), or an
    error that names a variable and is true of its value: a required variable
    is missing only if it is unset or empty, a number is invalid only if it is
    no decimal numeral in range, a boolean only if it is none of the eight
    words, an address only if the standard parser refuses it (so no IPv4
    address with a port), a list of ports or keys only if a piece of it is
    invalid or it has none, a proxy only for the part that is missing. *)
Theorem config_well_formed get :
  ends (from_source read_to_string get) (λ c, config_wf c ∧ config_says get c) (blames read_to_string get).
Proof.
  unfold from_source.
  next_required. intros role_raw [Hrole _]. eapply ends_bind; [by apply Role_parse_ends|]. intros role ->.
  next_required. intros pubkey_url [Hg1 Hs1]. next_required. intros heartbeat_url [Hg2 Hs2]. next_required. intros api_key [Hg3 Hs3].
  eapply ends_bind; [apply (parse_num_ends _ _ _ 65535); [done|simpl; auto]|]. intros port Hport.
  eapply ends_bind; [apply parse_socket_addr_ends; vm_compute; by eexists|]. intros bind Hbind.
  eapply ends_bind; [apply (parse_num_ends _ _ _ (2 ^ 64 - 1)); [done|simpl; auto]|]. intros ttl Httl.
  eapply ends_bind; [apply parse_u32_required_ends|]. intros circuits Hcirc.
  next_required. intros node [Hg4 Hs4].
  eapply (ends_bind _ _ (λ ps, ps ≠ [] ∧ match get "ALLOWED_EXIT_PORTS"%string with
    | None => ps = [80; 443] | Some s => Forall2 (numeral 65535) (port_pieces s) ps end)).
  { destruct (get "ALLOWED_EXIT_PORTS"%string) as [raw|] eqn:Hp; [by apply parse_port_list_ends|done]. }
  intros ports [Hne Hports].
  next_required. intros host [Hg5 Hs5]. next_required. intros mail [Hg6 Hs6].
  eapply ends_bind; [apply parse_bool_ends|]. intros staging Hstaging.
  next_required. intros pubkey [Hpub _]. eapply ends_bind; [by apply parse_pinned_keys_ends|]. intros keys [Hkne (body & Hbody & Hkeys)].
  next_required. intros url [Hg7 Hs7].
  eapply (ends_bind _ _ (λ _, role = Exit → proxy_wf (get "DECODO_PROXY_URL"%string))).
  { case_bool_decide as Hx; [subst|by intros ?]. eapply ends_mono; [by apply check_proxy_ends| |done]. auto. }
  intros _ Hproxy. assert (∀ v, 0 ≤ v ≤ 65535 → u16_in_range v) as H16 by (intros v ?; split; lia). simpl. split; constructor; simpl; try done.
  - repeat (constructor; [first [done|by apply path_or_nonempty]|]). constructor.
  - eapply reads_elim; [exact Hport|intros s Hv; apply H16; by apply numeral_range in Hv|intros ->; apply H16; lia].
  - eapply reads_elim; [exact Hbind|intros s; apply parse_sockaddr_wf|apply parse_sockaddr_wf].
  - eapply reads_elim; [exact Httl|intros s Hv; apply numeral_range in Hv; lia|lia].
  - destruct Hcirc as (s & _ & Hv). apply numeral_range in Hv; lia.
  - split; [done|]. destruct (get "ALLOWED_EXIT_PORTS"%string) as [s|]; [|subst; by repeat constructor; apply H16].
    apply Forall_forall. intros v [i Hi]%list_elem_of_lookup_1. destruct (Forall2_lookup_r _ _ _ _ _ Hports Hi) as (t & _ & Hn).
    apply H16. by apply numeral_range in Hn.
  - eapply reads_impl; [exact Hbind|done|]. vm_compute. by intros [= <-].
  - apply path_or_reads.
  - apply path_or_reads.
  - by exists pubkey, body.
  - apply path_or_reads.
Qed.
End config_theorems.

(** Discharged at the sample environment, which gives a configuration, and at
    one with a port that is none. *)
Definition sample_bad_port : source := λ k, if String.eqb k "RELAY_PORT" then Some "65536"%string else sample_env k.
Lemma config_well_formed_witness :
  sample_cfg_ok (from_source (λ _, None) sample_env) = true ∧
  ends (from_source (λ _, None) sample_env) (λ c, config_wf c ∧ config_says (λ _, None) sample_env c) (blames (λ _, None) sample_env) ∧
  ∀ v, ¬ numeral 65535 "65536" v.
Proof.
  split; [vm_compute; reflexivity|]. split; [apply config_well_formed|].
  pose proof (config_well_formed (λ _, None) sample_bad_port) as Hbad.
  assert (from_source (λ _, None) sample_bad_port = Err (Invalid "RELAY_PORT" NotANumber)) as Hb by (vm_compute; reflexivity).
  rewrite Hb in Hbad. destruct Hbad as (s & Hs & Hw). injection Hs as <-.
  destruct Hw as [[_ Hn]|[[Hv _]|[[Hv _]|[Hv _]]]]; [exact Hn|discriminate Hv..].
Defined.
