(* ===== verification/RelayRegistry.v ===== *)
(** QuietHop: the verified registry as a relay consumes it.

    [relay/src/registry.rs]: the shared [RegistryHandle] (the slot and the
    poison flag of its [RwLock]) and the two decisions taken from a document,
    [admits_inbound] and [extend_target]. *)

From S2P Require Import Prelude Bytes Text NetAddr Civil State Registry SampleRegistry Config.

#[local] Open Scope Z_scope.

(** ** The shared handle *)

(** An [RwLock<Option<Arc<Verified>>>]: its value, and whether a writer
    panicked while holding it. *)
Record RegistryHandle := mkHandle { slot : option Verified; poisoned : bool }.

Definition RegistryHandle_new : RegistryHandle := mkHandle None false.

(** [publish].  [PoisonError::into_inner] gives the guard; the lock stays
    poisoned. *)
Definition RegistryHandle_publish (v : Verified) (h : RegistryHandle) : RegistryHandle :=
  mkHandle (Some v) (poisoned h).

(** [usable]: [read().ok()?] is [None] on a poisoned lock. *)
Definition RegistryHandle_usable (h : RegistryHandle) (now_unix : Z) : option Verified :=
  if poisoned h then None else
  current ← slot h;
  match Document_is_usable_at (document current) now_unix with
  | Ok true => Some current
  | _ => None
  end.

(** ** Roles and links *)

Definition upstream_role (r : Role) : option string :=
  match r with Guard => None | Middle => Some "guard" | Exit => Some "middle" end.

Definition downstream_role (r : Role) : option string :=
  match r with Guard => Some "middle" | Middle => Some "exit" | Exit => None end.

(** [Result::is_ok_and] with an equality. *)
Definition ok_and_eq {E A} `{EqDecision A} (o : outcome E A) (x : A) : bool :=
  match o with Ok a => bool_decide (a = x) | _ => false end.

Definition admits_inbound (doc : Verified) (r : Role) (peer : IpAddr) : bool :=
  match upstream_role r with
  | None => false
  | Some want =>
      let peer := canonical_ip peer in
      list_any (λ e, String.eqb (role e) want && ok_and_eq (RelayEntry_ip_addr e) peer)
        (relays (document doc))
  end.

Definition extend_target (doc : Verified) (r : Role) (next : SocketAddr) : option RelayEntry :=
  want ← downstream_role r;
  let next := canonical_addr next in
  find (λ e, String.eqb (role e) want && ok_and_eq (RelayEntry_addr e) next) (relays (document doc)).

(** ** Lemmas *)

Lemma ok_and_eq_true {E A} `{EqDecision A} (o : outcome E A) x : ok_and_eq o x = true ↔ o = Ok x.
Proof. destruct o; simpl; [rewrite bool_decide_eq_true|..]; naive_solver. Qed.

Lemma admits_inbound_spec doc r peer :
  admits_inbound doc r peer = true ↔
  ∃ want e, upstream_role r = Some want ∧ e ∈ relays (document doc) ∧ role e = want ∧
    RelayEntry_ip_addr e = Ok (canonical_ip peer).
Proof.
  unfold admits_inbound, list_any. destruct (upstream_role r) as [want|]; [|naive_solver].
  rewrite existsb_exists. setoid_rewrite andb_true_iff. setoid_rewrite String.eqb_eq.
  setoid_rewrite ok_and_eq_true. setoid_rewrite <- list_elem_of_In. naive_solver.
Qed.

Lemma extend_target_Some doc r next e :
  extend_target doc r next = Some e →
  e ∈ relays (document doc) ∧ downstream_role r = Some (role e) ∧
  RelayEntry_addr e = Ok (canonical_addr next).
Proof.
  unfold extend_target. intros (want & Hw & Hf)%bind_Some. apply find_some in Hf as [Hin Hb].
  apply andb_true_iff in Hb as [<-%String.eqb_eq Ha%ok_and_eq_true]. rewrite list_elem_of_In. auto.
Qed.

Lemma extend_target_complete doc r next e want :
  e ∈ relays (document doc) → downstream_role r = Some want → role e = want →
  RelayEntry_addr e = Ok (canonical_addr next) → is_Some (extend_target doc r next).
Proof.
  intros He Hw Hr Ha. unfold extend_target. rewrite Hw. simpl.
  destruct (find _ _) as [e'|] eqn:Hf; [eauto|]. exfalso.
  apply list_elem_of_In in He. eapply find_none in Hf; [|exact He]. simpl in Hf.
  rewrite Hr, String.eqb_refl, (proj2 (ok_and_eq_true _ _) Ha) in Hf. done.
Qed.

Lemma RelayEntry_addr_Ok e a :
  RelayEntry_addr e = Ok a → RelayEntry_ip_addr e = Ok (sa_ip a) ∧ sa_port a = port e ∧ port e ≠ 0.
Proof.
  unfold RelayEntry_addr. intros (ip & Hip & Ha)%bind_Ok. destruct (Z.eqb_spec (port e) 0); [done|].
  injection Ha as <-. auto.
Qed.

(** The roles on the two ends of a link agree. *)
Lemma roles_agree r r' : downstream_role r = Some (Role_fmt r') → upstream_role r' = Some (Role_fmt r).
Proof. by destruct r, r'. Qed.

(** ** Properties *)

(** A relay link is decided by the registry alone, and not by how an
    address is spelled.  A relay admits a peer exactly when the document lists
    the peer's canonical address with the role directly upstream (a guard admits
    nobody), and extends to an entry only when the document carries it with the
    role directly downstream at exactly the canonical address and a non-zero
    port; both decisions are the same for an IPv4 address and its IPv6-mapped
    spelling. *)
Theorem relay_links_by_registry doc r peer next :
  (admits_inbound doc r peer = true ↔
     ∃ want e, upstream_role r = Some want ∧ e ∈ relays (document doc) ∧ role e = want ∧
       RelayEntry_ip_addr e = Ok (canonical_ip peer)) ∧
  admits_inbound doc Guard peer = false ∧
  admits_inbound doc r (canonical_ip peer) = admits_inbound doc r peer ∧
  (∀ e, extend_target doc r next = Some e →
     e ∈ relays (document doc) ∧ downstream_role r = Some (role e) ∧
     RelayEntry_addr e = Ok (canonical_addr next) ∧ port e = sa_port next ∧ port e ≠ 0) ∧
  extend_target doc r (canonical_addr next) = extend_target doc r next ∧
  extend_target doc Exit next = None.
Proof.
  split_and!; [apply admits_inbound_spec|done|..|done].
  - unfold admits_inbound. by rewrite canonical_ip_idemp.
  - intros e He. apply extend_target_Some in He as (Hin & Hr & Ha).
    apply RelayEntry_addr_Ok in Ha as Hp. destruct Hp as (_ & Hport & Hz).
    simpl in Hport. split_and!; congruence.
  - unfold extend_target, canonical_addr. simpl. by rewrite canonical_ip_idemp.
Qed.

(** The two ends of a link agree.  If a relay of role [r] may extend to an
    entry, then under the same document the relay at that entry admits a link
    from any listed relay of role [r]: the circuit's next hop does not turn
    away the hop before it. *)
Theorem extend_is_admitted doc r r' next e me a :
  extend_target doc r next = Some e → role e = Role_fmt r' →
  me ∈ relays (document doc) → role me = Role_fmt r → RelayEntry_ip_addr me = Ok a →
  admits_inbound doc r' a = true.
Proof.
  intros (_ & Hr & _)%extend_target_Some Hrole Hme Hmr Ha. rewrite Hrole in Hr.
  apply admits_inbound_spec. exists (Role_fmt r), me. split_and!; try done.
  - by apply roles_agree.
  - rewrite Ha. f_equal. unfold RelayEntry_ip_addr in Ha. ok_inv. by rewrite canonical_ip_idemp.
Qed.

(** The relay list of a sample document. *)
Definition sample_verified : Verified :=
  mkVerified (default (mkDocument 0 "" "" "" []) (SampleReg.doc_of [x02; x0b; x00])) [x02; x0b; x00] ["0707070707070707"].
Definition sample_guard : RelayEntry := SampleReg.relay_of 2 1 "guard".

Lemma extend_is_admitted_witness :
  is_Some (extend_target sample_verified Guard
    (mkSocketAddr (V6 (to_ipv6_mapped (Ipv4 x0a x02 x02 x01))) 443)) ∧
  admits_inbound sample_verified Middle (V4 (Ipv4 x0a x01 x02 x01)) = true.
Proof.
  split; [vm_compute; eauto|].
  apply (extend_is_admitted sample_verified Guard Middle
    (mkSocketAddr (V6 (to_ipv6_mapped (Ipv4 x0a x02 x02 x01))) 443)
    (SampleReg.relay_of 2 2 "middle") sample_guard).
  - vm_compute. reflexivity.
  - reflexivity.
  - left.
  - reflexivity.
  - vm_compute. reflexivity.
Defined.

(** The handle fails closed, and publishing does not heal it.  [usable]
    hands out only the published document, only inside its window, and never
    from a poisoned lock; a [publish] after a poisoning stores the document but
    the lock stays poisoned, so every later [usable] is still [None], although
    the comment in [publish] says that the poison is cleared. *)
Theorem handle_fails_closed h now v :
  (RegistryHandle_usable h now = Some v ↔
     poisoned h = false ∧ slot h = Some v ∧ Document_is_usable_at (document v) now = Ok true) ∧
  RegistryHandle_usable RegistryHandle_new now = None ∧
  (poisoned h = true → ∀ vs t, RegistryHandle_usable (fold_right RegistryHandle_publish h vs) t = None).
Proof.
  split_and!; [|done|].
  - unfold RegistryHandle_usable. destruct (poisoned h); [naive_solver|]. destruct (slot h) as [c|]; simpl; [|naive_solver].
    destruct (Document_is_usable_at (document c) now) as [[]| |] eqn:Hu; naive_solver congruence.
  - intros Hp vs t. unfold RegistryHandle_usable.
    assert (poisoned (fold_right RegistryHandle_publish h vs) = true) as ->; [|done].
    induction vs; simpl; done.
Qed.
