(* ===== verification/Relay.v ===== *)
(** QuietHop: the relay's connection handler.

    The handlers of [relay/src/main.rs]: [handle_connection],
    [handle_client_connection], [handle_relay_connection], [drive_circuit],
    [run_circuit_io] and [open_next_link], with the counters of
    [relay/src/metrics.rs].

    Effects are explicit.  Every write, flush, dial and drop is recorded in a
    log of attempts, and each operation that can fail takes its answer from a
    script, so that a theorem over all scripts covers every failure.  The
    branches of [tokio::select!] become a list of events, one per turn of the
    loop: a frame (or an error) of the inbound reader, a frame of the next
    link, bytes of the destination.  A branch whose link is absent is pending
    for ever, so its events are skipped. *)

From S2P Require Import Prelude Bytes Text NetAddr Cell Noise Layer Civil State Registry.
From S2P Require Import Circuit Token Config Exit RelayRegistry.

(** ** Errors, effects and the log *)

Inductive HandleError :=
  | Io (e : io_error)
  | Timeout
  | HToken (e : TokenError)
  | HHandshake
  | HLayer (e : LayerError)
  | HCircuit (e : CircuitError)
  | HCell (e : CellError)
  | HExit (e : ExitError)
  | UnexpectedProtocol (b : byte)
  | PeerNotAllowed
  | IllegalCellForRole (t : CellType) (r : Role)
  | PeerClosed
  | MissingDecodoUrl
  | PeerHostnameMissing (a : SocketAddr)
  | ForwardWithoutNextLink (r : Role)
  | HTls.

Inductive action :=
  | WriteIn (bytes : list byte) | FlushIn | ShutdownIn
  | DialTls (addr : SocketAddr) (sni : string)
  | WriteNext (bytes : list byte) | FlushNext | DropNext
  | DialProxy (req : dial_request)
  | WriteDest (bytes : list byte) | FlushDest | DropDest.

(** The answer to one operation: it works, fails, times out, or (for a read)
    delivers bytes. *)
Inductive answer := Fine | Fault (e : io_error) | TimesOut | Got (bytes : list byte).

Record net := mkNet { log : list action; script : list answer }.

(** Record an attempt and take its answer. *)
Definition attempt (a : action) : st net HandleError answer := λ n,
  match script n with
  | [] => (mkNet (log n ++ [a]) [], Ok Fine)
  | r :: rest => (mkNet (log n ++ [a]) rest, Ok r)
  end.

(** [write_all]/[flush] with [?]. *)
Definition perform (a : action) : st net HandleError unit :=
  r ← attempt a; match r with Fault e => fail (Io e) | _ => mret () end.

(** An operation whose result is ignored ([let _ = ...], a [drop]). *)
Definition perform_ignored (a : action) : st net HandleError unit := _ ← attempt a; mret ().

(** [timeout(.., read_exact(n bytes))]: nothing is sent, so nothing is logged. *)
Definition read_exact (n : nat) : st net HandleError (list byte) := λ s,
  let '(r, rest) := match script s with [] => (Fine, []) | r :: rest => (r, rest) end in
  (mkNet (log s) rest,
   match r with
   | Got bytes => if length bytes =? n then Ok bytes else Err (Io UnexpectedEof)
   | Fine => Err (Io UnexpectedEof)
   | Fault e => Err (Io e)
   | TimesOut => Err Timeout
   end).

(** [tls::dial_tls] with [?]. *)
Definition dial_tls (addr : SocketAddr) (sni : string) : st net HandleError unit :=
  r ← attempt (DialTls addr sni); match r with Fine => mret () | _ => fail HTls end.

(** ** Sizes of a role's links *)

Definition inbound_layers (r : Role) : nat :=
  match r with Guard => 3 | Middle => 2 | Exit => 1 end.

Definition inbound_len (r : Role) : nat := link_cell_len (inbound_layers r).

Definition outbound_len (r : Role) : option nat :=
  match r with
  | Exit => None
  | other => Some (link_cell_len (inbound_layers other - 1))
  end.

(** ** Metrics *)

Record metrics := mkMetrics {
  tokens_verified : nat; rejected_invalid_signature : nat; rejected_replayed : nat;
  rejected_token_too_short : nat;
}.

Definition record_verified (m : metrics) : metrics :=
  mkMetrics (S (tokens_verified m)) (rejected_invalid_signature m) (rejected_replayed m)
    (rejected_token_too_short m).

Definition record_rejected (e : TokenError) (m : metrics) : metrics :=
  match e with
  | InvalidSignature => mkMetrics (tokens_verified m) (S (rejected_invalid_signature m))
                          (rejected_replayed m) (rejected_token_too_short m)
  | Replayed => mkMetrics (tokens_verified m) (rejected_invalid_signature m)
                  (S (rejected_replayed m)) (rejected_token_too_short m)
  | TokenTooShort => mkMetrics (tokens_verified m) (rejected_invalid_signature m)
                       (rejected_replayed m) (S (rejected_token_too_short m))
  end.

Section relay.
Context `{Snow, Sha256, Ed25519, UrlParser}.

(** The part of [NextLinkState] the loop keeps: the frame length its reader
    was made with, and the courier's message 2. *)
Record NextLinkState := mkNextLink { nl_frame_len : nat; nl_noise_msg2 : list byte }.

(** [ConnCtx], with the clock of this turn. *)
Record ConnCtx := mkConnCtx {
  cfg : RelayConfig; authority_pubkey : RsaPublicKey; static_private : list byte;
  cx_registry : RegistryHandle; now_unix : Z; now_instant : Z;
}.

(** The state of one circuit's loop. *)
Record circuit_io := mkCircuitIo {
  transport : TransportState; next_link : option NextLinkState; dest_link : option nat; io_net : net;
}.

Definition on_net {A} (m : st net HandleError A) : st circuit_io HandleError A :=
  on_field io_net (λ n s, mkCircuitIo (transport s) (next_link s) (dest_link s) n) m.
Definition on_transport {A} (m : st TransportState LayerError A) : st circuit_io HandleError A :=
  on_field transport (λ t s, mkCircuitIo t (next_link s) (dest_link s) (io_net s))
    (st_map_err HLayer m).
Definition get_io : st circuit_io HandleError circuit_io := λ s, (s, Ok s).
Definition put_next (nl : option NextLinkState) : st circuit_io HandleError unit := λ s,
  (mkCircuitIo (transport s) nl (dest_link s) (io_net s), Ok ()).
Definition put_dest (d : option nat) : st circuit_io HandleError unit := λ s,
  (mkCircuitIo (transport s) (next_link s) d (io_net s), Ok ()).

(** [sock_write.write_all(&framed).await?; sock_write.flush().await?]. *)
Definition send_inbound (framed : list byte) : st circuit_io HandleError unit :=
  _ ← on_net (perform (WriteIn framed)); on_net (perform FlushIn).

Definition open_next_link (extend : ExtendForward) (ctx : ConnCtx) (frame_len : nat)
    : st net HandleError NextLinkState :=
  let next := next_hop extend in
  doc ← lift (ok_or (RegistryHandle_usable (cx_registry ctx) (now_unix ctx)) (PeerHostnameMissing next));
  entry ← lift (ok_or (extend_target doc (cfg_role (cfg ctx)) next) (PeerHostnameMissing next));
  _ ← dial_tls next (tls_name entry);
  _ ← perform (WriteNext [PROTO_RELAY]);
  _ ← perform (WriteNext [CIRCUIT_START]);
  _ ← perform (WriteNext (noise_msg1 extend));
  _ ← perform FlushNext;
  msg2 ← read_exact NOISE_MSG_LEN;
  mret (mkNextLink frame_len msg2).

(** The dialer of the exit, on this connection's log and script. *)
Definition dial_destination (ctx : ConnCtx) (p : ConnectPayload) : st net HandleError nat := λ n,
  match decodo_proxy_url (cfg ctx) with
  | None => (n, Err MissingDecodoUrl)
  | Some proxy_url =>
      let '(r, rest) := match script n with [] => (Fine, []) | r :: rest => (r, rest) end in
      let socks5 _ := match r with
                      | Fine | Got _ => DialConnected 0 | Fault _ => DialRefused | TimesOut => DialTimedOut end in
      let '(attempts, o) :=
        dial_via_socks5 socks5 proxy_url (cp_host p) (cp_port p) (allowed_exit_ports (cfg ctx)) in
      (mkNet (log n ++ (DialProxy <$> attempts)) (match attempts with [] => script n | _ => rest end), map_err HExit o)
  end.

(** How a turn of the loop ends: another turn, or [return Ok(())]. *)
Inductive flow := Continue | Finished.

Definition handle_forward (role : Role) (blob : list byte) : st circuit_io HandleError flow :=
  s ← get_io;
  match next_link s with
  | None => fail (ForwardWithoutNextLink role)
  | Some _ =>
      _ ← on_net (perform (WriteNext blob));
      _ ← on_net (perform FlushNext);
      mret Continue
  end.

Definition handle_extend (ctx : ConnCtx) (role : Role) (payload : list byte)
    : st circuit_io HandleError flow :=
  s ← get_io;
  match next_link s with
  | Some _ => fail (IllegalCellForRole Extend role)
  | None =>
      extend ← lift (map_err HCell (ExtendForward_decode payload));
      out ← lift (ok_or (outbound_len role) (IllegalCellForRole Extend role));
      nl ← on_net (open_next_link extend ctx out);
      reply ← lift (map_err HCell (Cell_new Extend (extend_backward_payload (nl_noise_msg2 nl))));
      framed ← on_transport (seal_to_me reply (inbound_layers role));
      _ ← send_inbound framed;
      _ ← put_next (Some nl);
      mret Continue
  end.

Definition handle_connect (ctx : ConnCtx) (role : Role) (payload : list byte)
    : st circuit_io HandleError flow :=
  s ← get_io;
  match dest_link s with
  | Some _ => fail (IllegalCellForRole Connect role)
  | None =>
      p ← lift (map_err HCell (ConnectPayload_decode payload));
      dest ← on_net (dial_destination ctx p);
      _ ← put_dest (Some dest);
      mret Continue
  end.

Definition handle_data (role : Role) (payload : list byte) : st circuit_io HandleError flow :=
  match payload with
  | [] => mret Continue
  | _ =>
      s ← get_io;
      match dest_link s with
      | None => fail (IllegalCellForRole Data role)
      | Some _ =>
          _ ← on_net (perform (WriteDest payload));
          _ ← on_net (perform FlushDest);
          mret Continue
      end
  end.

Definition handle_close_request (role : Role) : st circuit_io HandleError flow :=
  ack ← lift (map_err HCell (Cell_new CloseAck []));
  framed ← on_transport (seal_to_me ack (inbound_layers role));
  _ ← send_inbound framed;
  s ← get_io;
  _ ← (if is_some (next_link s) then on_net (perform_ignored DropNext) else mret ());
  _ ← put_next None;
  _ ← (if is_some (dest_link s) then on_net (perform_ignored DropDest) else mret ());
  _ ← put_dest None;
  mret Finished.

Definition handle_cell (ctx : ConnCtx) (role : Role) (c : Cell) : st circuit_io HandleError flow :=
  match cell_type c, role with
  | Extend, Guard | Extend, Middle => handle_extend ctx role (payload c)
  | Connect, Exit => handle_connect ctx role (payload c)
  | Data, Exit => handle_data role (payload c)
  | CloseRequest, _ => handle_close_request role
  | CloseAck, _ => fail PeerClosed
  | t, r => fail (IllegalCellForRole t r)
  end.

(** The first branch of the [select!]: a frame arrived. *)
Definition handle_inbound (ctx : ConnCtx) (role : Role) (wire : list byte)
    : st circuit_io HandleError flow :=
  peeled ← on_transport (peel wire (inbound_layers role));
  match peeled with
  | Forward blob => handle_forward role blob
  | ToMe c => handle_cell ctx role c
  end.

(** The second branch: a frame of the next link. *)
Definition handle_next (role : Role) (blob : list byte) : st circuit_io HandleError flow :=
  framed ← on_transport (seal_forward blob (inbound_layers role));
  _ ← send_inbound framed;
  mret Continue.

(** The loop over [bytes.chunks(CELL_PAYLOAD_LEN)]. *)
Fixpoint send_chunks (role : Role) (chunks : list (list byte)) : st circuit_io HandleError unit :=
  match chunks with
  | [] => mret ()
  | chunk :: rest =>
      c ← lift (map_err HCell (Cell_new Data chunk));
      framed ← on_transport (seal_to_me c (inbound_layers role));
      _ ← on_net (perform (WriteIn framed));
      send_chunks role rest
  end.

(** The third branch: bytes of the destination; none means it closed. *)
Definition handle_dest (role : Role) (bytes : list byte) : st circuit_io HandleError flow :=
  match bytes with
  | [] =>
      _ ← on_net (perform_ignored DropDest);
      _ ← put_dest None;
      mret Continue
  | _ =>
      _ ← send_chunks role (chunks CELL_PAYLOAD_LEN bytes);
      _ ← on_net (perform FlushIn);
      mret Continue
  end.

(** What one turn of the [select!] delivers. *)
Inductive io_event :=
  | InFrame (wire : list byte) | InError (e : io_error) | InTimeout
  | NextFrame (blob : list byte) | NextError (e : io_error)
  | DestBytes (bytes : list byte) | DestError (e : io_error).

Definition io_turn (ctx : ConnCtx) (role : Role) (ev : io_event) : st circuit_io HandleError flow :=
  s ← get_io;
  match ev with
  | InFrame wire => handle_inbound ctx role wire
  | InError e => fail (Io e)
  | InTimeout => fail Timeout
  | NextFrame blob => if is_some (next_link s) then handle_next role blob else mret Continue
  | NextError e => if is_some (next_link s) then fail (Io e) else mret Continue
  | DestBytes bytes => if is_some (dest_link s) then handle_dest role bytes else mret Continue
  | DestError e => if is_some (dest_link s) then fail (Io e) else mret Continue
  end.

(** [run_circuit_io]: the loop over its turns.  [Ok Continue] means that the
    events ran out and the loop is still waiting. *)
Fixpoint run_circuit_io (ctx : ConnCtx) (role : Role) (evs : list io_event)
    : st circuit_io HandleError flow :=
  match evs with
  | [] => mret Continue
  | ev :: evs =>
      f ← io_turn ctx role ev;
      match f with Continue => run_circuit_io ctx role evs | Finished => mret Finished end
  end.

(** ** Connections *)

(** The state a connection handler works on: its socket, the replay window
    and the counters it shares with the others, and its circuit. *)
Record conn := mkConn {
  cn_net : net; cn_replay : ReplayWindow; cn_metrics : metrics; cn_circuit : option Circuit;
}.

Definition on_conn {A} (m : st net HandleError A) : st conn HandleError A :=
  on_field cn_net (λ n c, mkConn n (cn_replay c) (cn_metrics c) (cn_circuit c)) m.
Definition put_circuit (k : Circuit) : st conn HandleError unit := λ c,
  (mkConn (cn_net c) (cn_replay c) (cn_metrics c) (Some k), Ok ()).
Definition get_circuit : st conn HandleError Circuit := λ c,
  (c, Ok (default Circuit_new (cn_circuit c))).

(** The loop on a fresh transport, its log and script being the connection's. *)
Definition run_io (ctx : ConnCtx) (role : Role) (t : TransportState) (evs : list io_event)
    : st conn HandleError flow := λ c,
  let '(s, o) := run_circuit_io ctx role evs (mkCircuitIo t None None (cn_net c)) in
  (mkConn (io_net s) (cn_replay c) (cn_metrics c) (cn_circuit c), o).

(** [drive_circuit] up to the end of the loop. *)
Definition drive_body (ctx : ConnCtx) (role : Role) (rng : list byte) (evs : list io_event)
    : st conn HandleError flow :=
  msg1 ← on_conn (read_exact NOISE_MSG_LEN);
  '(t, msg2) ← lift (map_err (λ _, HHandshake) (respond (static_private ctx) msg1 rng));
  _ ← on_conn (perform (WriteIn msg2));
  _ ← on_conn (perform FlushIn);
  circuit ← get_circuit;
  let '(circuit, r) := Circuit_activate circuit in
  _ ← put_circuit circuit;
  _ ← lift (map_err HCircuit r);
  run_io ctx role t evs.

(** [drive_circuit]: every error path calls [circuit.fail()], the end of the
    loop calls [circuit.close()] and ignores its error. *)
Definition drive_circuit (ctx : ConnCtx) (role : Role) (rng : list byte) (evs : list io_event)
    : st conn HandleError flow := λ c,
  let c := mkConn (cn_net c) (cn_replay c) (cn_metrics c) (Some Circuit_new) in
  let '(c, o) := drive_body ctx role rng evs c in
  let k := default Circuit_new (cn_circuit c) in
  let k := match o with
           | Ok Finished => fst (Circuit_close k)
           | Ok Continue | Panic => k
           | Err _ => Circuit_fail k
           end in
  (mkConn (cn_net c) (cn_replay c) (cn_metrics c) (Some k), o).

Definition handle_client_connection (ctx : ConnCtx) (rng : list byte) (evs : list io_event)
    : st conn HandleError flow :=
  buf ← on_conn (read_exact PRESENTATION_LEN);
  m_raw ← lift (slice_to buf M_RAW_LEN);
  token ← lift (slice_from buf M_RAW_LEN);
  _ ← (λ c,
    let '(w, r) := token_verify m_raw token (authority_pubkey ctx) (now_instant ctx) (cn_replay c) in
    match r with
    | Ok _ => (mkConn (cn_net c) w (record_verified (cn_metrics c)) (cn_circuit c), Ok ())
    | Err e => (mkConn (cn_net c) w (record_rejected e (cn_metrics c)) (cn_circuit c), Err (HToken e))
    | Panic => (mkConn (cn_net c) w (cn_metrics c) (cn_circuit c), Panic)
    end) : st conn HandleError unit;
  drive_circuit ctx Guard rng evs.

Definition handle_relay_connection (ctx : ConnCtx) (peer : SocketAddr) (rng : list byte)
    (evs : list io_event) : st conn HandleError flow :=
  doc ← lift (ok_or (RegistryHandle_usable (cx_registry ctx) (now_unix ctx)) PeerNotAllowed);
  if negb (admits_inbound doc (cfg_role (cfg ctx)) (sa_ip peer)) then fail PeerNotAllowed else
  λ c, match on_conn (read_exact 1) c with
       | (c, Ok signal) =>
           if bool_decide (signal ≠ [CIRCUIT_START]) then (c, Ok Finished)
           else drive_circuit ctx (cfg_role (cfg ctx)) rng evs c
       | (c, Err (Io UnexpectedEof)) => (c, Ok Finished)
       | (c, Err e) => (c, Err e)
       | (c, Panic) => (c, Panic)
       end.

Definition handle_connection (ctx : ConnCtx) (peer : SocketAddr) (rng : list byte)
    (evs : list io_event) : st conn HandleError flow :=
  proto ← on_conn (read_exact 1);
  b ← lift (index proto 0);
  match b, cfg_role (cfg ctx) with
  | x01, Guard => handle_client_connection ctx rng evs
  | x02, Middle | x02, Exit => handle_relay_connection ctx peer rng evs
  | b, _ => _ ← on_conn (perform_ignored ShutdownIn); fail (UnexpectedProtocol b)
  end.
End relay.

(** ** What a relay may do on its links *)

Section relay_safety.
Context `{Snow, Sha256, Ed25519, UrlParser}.

(** The effects one circuit may have in a role. *)
Definition legal_action (ctx : ConnCtx) (r : Role) (a : action) : Prop :=
  match a with
  | WriteIn b => length b = inbound_len r
  | ShutdownIn => False
  | DialTls addr sni => r ≠ Exit ∧ ∃ doc e,
      RegistryHandle_usable (cx_registry ctx) (now_unix ctx) = Some doc ∧
      extend_target doc (cfg_role (cfg ctx)) addr = Some e ∧ sni = tls_name e
  | WriteNext b => r ≠ Exit ∧
      (b = [PROTO_RELAY] ∨ b = [CIRCUIT_START] ∨ length b = NOISE_MSG_LEN ∨ outbound_len r = Some (length b))
  | DialProxy req => r = Exit ∧ dr_port req ∈ allowed_exit_ports (cfg ctx)
  | WriteDest b => r = Exit ∧ 0 < length b ≤ CELL_PAYLOAD_LEN
  | FlushIn | FlushNext | DropNext | FlushDest | DropDest => True
  end.

Definition io_log (s : circuit_io) : list action := log (io_net s).

Lemma attempt_safe (P : action → Prop) a : P a → safe log P (attempt a) (λ _, True).
Proof.
  intros Ha n. unfold attempt. destruct (script n) as [|x rest]; simpl;
    (split; [exists [a]; split; [done|by constructor]|done]).
Qed.

Lemma perform_safe (P : action → Prop) a : P a → safe log P (perform a) (λ _, True).
Proof.
  intros Ha. eapply safe_bind; [by apply attempt_safe|]. intros []; intros _; auto using safe_ret, safe_fail.
Qed.

Lemma perform_ignored_safe (P : action → Prop) a : P a → safe log P (perform_ignored a) (λ _, True).
Proof. intros Ha. eapply safe_bind; [by apply attempt_safe|]. intros _ _. by apply safe_ret. Qed.

Lemma read_exact_safe (P : action → Prop) n : safe log P (read_exact n) (λ b, length b = n).
Proof.
  intros s. unfold read_exact. destruct (script s) as [|[|e| |b] rest]; simpl;
    (split; [exists []; by rewrite app_nil_r|]); try done.
  by destruct (Nat.eqb_spec (length b) n).
Qed.

Lemma on_net_safe {A} P (m : st net HandleError A) Q : safe log P m Q → safe io_log P (on_net m) Q.
Proof. by apply safe_on_field. Qed.

Lemma on_transport_safe {A} P (m : st TransportState LayerError A) (Q : A → Prop) :
  (∀ t, snd (m t) ≠ Panic) → (∀ t t' a, m t = (t', Ok a) → Q a) → safe io_log P (on_transport m) Q.
Proof.
  intros Hp Hq. apply safe_silent.
  - intros s. unfold on_transport, on_field, st_map_err. by destruct (m (transport s)).
  - intros s. unfold on_transport, on_field, st_map_err. specialize (Hp (transport s)).
    by destruct (m (transport s)) as [t []].
  - intros s s' a. unfold on_transport, on_field, st_map_err.
    destruct (m (transport s)) as [t [x| |]] eqn:Hm; simpl; intros; simplify_eq. eauto.
Qed.

Lemma get_io_safe P : safe io_log P get_io (λ _, True).
Proof. by apply safe_silent. Qed.
Lemma put_next_safe P nl : safe io_log P (put_next nl) (λ _, True).
Proof. by apply safe_silent. Qed.
Lemma put_dest_safe P d : safe io_log P (put_dest d) (λ _, True).
Proof. by apply safe_silent. Qed.

Lemma inbound_layers_pos r : 1 ≤ inbound_layers r.
Proof. destruct r; simpl; lia. Qed.

Lemma seal_to_me_safe P c r :
  safe io_log P (on_transport (seal_to_me c (inbound_layers r))) (λ f, length f = inbound_len r).
Proof.
  apply on_transport_safe.
  - intros t. apply (seal_no_panic c []), inbound_layers_pos.
  - intros t t' f. apply seal_to_me_length, inbound_layers_pos.
Qed.

Lemma seal_forward_safe P b r :
  safe io_log P (on_transport (seal_forward b (inbound_layers r))) (λ f, length f = inbound_len r).
Proof.
  apply on_transport_safe.
  - intros t. apply (seal_no_panic (mkCell Data []) b), inbound_layers_pos.
  - intros t t' f. apply seal_forward_length.
Qed.
End relay_safety.

#[export] Hint Resolve perform_safe perform_ignored_safe read_exact_safe on_net_safe get_io_safe
  put_next_safe put_dest_safe seal_to_me_safe seal_forward_safe safe_ret safe_fail : rs.

(** Take the next step of a handler, with a lemma of the database for it. *)
Ltac safe_step := eapply safe_bind; [by eauto 4 with rs|intros ? ?].
Ltac safe_done := by eauto with rs.

Section relay_handlers.
Context `{Snow, Sha256, Ed25519, UrlParser}.

Lemma send_inbound_safe ctx r framed :
  length framed = inbound_len r → safe io_log (legal_action ctx r) (send_inbound framed) (λ _, True).
Proof.
  intros Hf. eapply safe_bind; [apply on_net_safe, perform_safe; done|intros _ _].
  by apply on_net_safe, perform_safe.
Qed.

Lemma dial_tls_safe ctx r addr sni :
  legal_action ctx r (DialTls addr sni) → safe log (legal_action ctx r) (dial_tls addr sni) (λ _, True).
Proof.
  intros Ha. eapply safe_bind; [by apply attempt_safe|]. intros []; intros _; safe_done.
Qed.

Lemma open_next_link_safe ctx r extend frame_len :
  r ≠ Exit → length (noise_msg1 extend) = NOISE_MSG_LEN →
  safe log (legal_action ctx r) (open_next_link extend ctx frame_len)
    (λ nl, nl_frame_len nl = frame_len ∧ length (nl_noise_msg2 nl) = NOISE_MSG_LEN).
Proof.
  intros Hr Hmsg. unfold open_next_link.
  eapply safe_bind.
  { apply (safe_lift _ _ _ (λ doc, RegistryHandle_usable (cx_registry ctx) (now_unix ctx) = Some doc));
      [by destruct (RegistryHandle_usable _ _)|by intros ? ?%ok_or_Ok]. }
  intros doc Hdoc. eapply safe_bind.
  { apply (safe_lift _ _ _ (λ e, extend_target doc (cfg_role (cfg ctx)) (next_hop extend) = Some e));
      [by destruct (extend_target _ _ _)|by intros ? ?%ok_or_Ok]. }
  intros e He. simpl in Hdoc, He.
  eapply safe_bind; [apply dial_tls_safe; simpl; split; [done|by exists doc, e]|intros _ _].
  do 3 (eapply safe_bind; [apply perform_safe; simpl; auto|intros _ _]).
  eapply safe_bind; [by apply perform_safe|intros _ _].
  eapply safe_bind; [apply read_exact_safe|intros msg2 Hm2]. by apply safe_ret.
Qed.

Lemma dial_destination_safe ctx p :
  safe log (legal_action ctx Exit) (dial_destination ctx p) (λ _, True).
Proof.
  intros n. unfold dial_destination. destruct (decodo_proxy_url (cfg ctx)) as [url|];
    [|split; [exists []; by rewrite app_nil_r|done]].
  destruct (match script n with [] => (Fine, []) | r :: rest => (r, rest) end) as [r rest].
  match goal with |- context [dial_via_socks5 ?s ?u ?h ?p ?a] =>
    pose proof (dial_via_socks5_effects s u h p a) as Hd; destruct (dial_via_socks5 s u h p a) as [att o] end.
  destruct Hd as [Hatt Ho]. simpl. split.
  - exists (DialProxy <$> att). split; [done|]. rewrite Forall_fmap.
    eapply Forall_impl; [exact Hatt|]. intros req Hreq. simpl. by destruct Hreq as (? & ? & ->).
  - by destruct o.
Qed.

Lemma handle_forward_safe ctx r blob :
  r ≠ Exit → outbound_len r = Some (length blob) →
  safe io_log (legal_action ctx r) (handle_forward r blob) (λ _, True).
Proof.
  intros Hr Hb. eapply safe_bind; [apply get_io_safe|intros s _]. destruct (next_link s); [|safe_done].
  eapply safe_bind; [apply on_net_safe, perform_safe; simpl; auto|intros _ _].
  eapply safe_bind; [by apply on_net_safe, perform_safe|intros _ _]. by apply safe_ret.
Qed.

Lemma handle_extend_safe ctx r payload :
  r ≠ Exit → safe io_log (legal_action ctx r) (handle_extend ctx r payload) (λ _, True).
Proof.
  intros Hr. eapply safe_bind; [apply get_io_safe|intros s _]. destruct (next_link s); [safe_done|].
  eapply safe_bind.
  { apply (safe_lift _ _ _ (λ f, length (noise_msg1 f) = NOISE_MSG_LEN)).
    - pose proof (ExtendForward_decode_no_panic payload). by destruct (ExtendForward_decode payload).
    - intros f [[_ Hf] _]%map_err_Ok%ExtendForward_decode_wf. done. }
  intros f Hf. eapply safe_bind.
  { apply (safe_lift _ _ _ (λ _, True)); [by destruct r|done]. }
  intros out _. eapply safe_bind; [by apply on_net_safe, open_next_link_safe|intros nl [_ Hnl]].
  eapply safe_bind.
  { apply (safe_lift _ _ _ (λ _, True)); [|done]. unfold Cell_new. by case_match. }
  intros reply _. eapply safe_bind; [apply seal_to_me_safe|intros framed Hfr].
  eapply safe_bind; [by apply send_inbound_safe|intros _ _].
  eapply safe_bind; [apply put_next_safe|intros _ _]. by apply safe_ret.
Qed.

Lemma handle_connect_safe ctx payload :
  safe io_log (legal_action ctx Exit) (handle_connect ctx Exit payload) (λ _, True).
Proof.
  eapply safe_bind; [apply get_io_safe|intros s _]. destruct (dest_link s); [safe_done|].
  eapply safe_bind.
  { apply (safe_lift _ _ _ (λ _, True)); [|done].
    pose proof (ConnectPayload_decode_no_panic payload). by destruct (ConnectPayload_decode payload). }
  intros p _. eapply safe_bind; [apply on_net_safe, dial_destination_safe|intros d _].
  eapply safe_bind; [apply put_dest_safe|intros _ _]. by apply safe_ret.
Qed.

Lemma handle_data_safe ctx payload :
  length payload ≤ CELL_PAYLOAD_LEN →
  safe io_log (legal_action ctx Exit) (handle_data Exit payload) (λ _, True).
Proof.
  intros Hp. unfold handle_data. destruct payload as [|b payload]; [by apply safe_ret|].
  eapply safe_bind; [apply get_io_safe|intros s _]. destruct (dest_link s); [|safe_done].
  eapply safe_bind; [apply on_net_safe, perform_safe; split; [done|]; split; [simpl; lia|done]|intros _ _].
  eapply safe_bind; [by apply on_net_safe, perform_safe|intros _ _]. by apply safe_ret.
Qed.

Lemma handle_close_request_safe ctx r :
  safe io_log (legal_action ctx r) (handle_close_request r) (λ _, True).
Proof.
  eapply safe_bind; [by apply (safe_lift _ _ _ (λ _, True))|intros ack _].
  eapply safe_bind; [apply seal_to_me_safe|intros framed Hf].
  eapply safe_bind; [by apply send_inbound_safe|intros _ _].
  eapply safe_bind; [apply get_io_safe|intros s _].
  eapply (safe_bind _ _ _ _ (λ _, True)); [destruct (is_some (next_link s));
    [by apply on_net_safe, perform_ignored_safe|by apply safe_ret]|intros _ _].
  eapply safe_bind; [apply put_next_safe|intros _ _].
  eapply (safe_bind _ _ _ _ (λ _, True)); [destruct (is_some (dest_link s));
    [by apply on_net_safe, perform_ignored_safe|by apply safe_ret]|intros _ _].
  eapply safe_bind; [apply put_dest_safe|intros _ _]. by apply safe_ret.
Qed.

Lemma handle_cell_safe ctx r c :
  length (payload c) ≤ CELL_PAYLOAD_LEN →
  safe io_log (legal_action ctx r) (handle_cell ctx r c) (λ _, True).
Proof.
  intros Hc. unfold handle_cell. destruct (cell_type c), r;
    auto using handle_extend_safe, handle_connect_safe, handle_data_safe, handle_close_request_safe, safe_fail.
Qed.

Lemma handle_inbound_safe ctx r wire :
  safe io_log (legal_action ctx r) (handle_inbound ctx r wire) (λ _, True).
Proof.
  eapply safe_bind.
  { apply (on_transport_safe _ _ (λ p, match p with
      | Forward blob => 2 ≤ inbound_layers r ∧ length blob = link_cell_len (inbound_layers r - 1)
      | ToMe c => length (payload c) ≤ CELL_PAYLOAD_LEN end)).
    - intros t. apply peel_no_panic, inbound_layers_pos.
    - intros t t' [c|blob] Hp.
      + by eapply peel_to_me_payload; [apply inbound_layers_pos|].
      + by eapply peel_forward_length; [apply inbound_layers_pos|]. }
  intros [c|blob]; [apply handle_cell_safe|]. intros [Hl Hb].
  apply handle_forward_safe; destruct r; simpl in *; try done; try lia; by rewrite Hb.
Qed.

Lemma handle_next_safe ctx r blob :
  safe io_log (legal_action ctx r) (handle_next r blob) (λ _, True).
Proof.
  eapply safe_bind; [apply seal_forward_safe|intros f Hf].
  eapply safe_bind; [by apply send_inbound_safe|intros _ _]. by apply safe_ret.
Qed.

Lemma send_chunks_safe ctx r cs :
  safe io_log (legal_action ctx r) (send_chunks r cs) (λ _, True).
Proof.
  induction cs as [|c cs IH]; cbn [send_chunks]; [by apply safe_ret|].
  eapply safe_bind.
  { apply (safe_lift _ _ _ (λ _, True)); [|done]. unfold Cell_new. by case_match. }
  intros dc _. eapply safe_bind; [apply seal_to_me_safe|intros f Hf].
  eapply safe_bind; [by apply on_net_safe, perform_safe|intros _ _]. exact IH.
Qed.

Lemma handle_dest_safe ctx r bytes :
  safe io_log (legal_action ctx r) (handle_dest r bytes) (λ _, True).
Proof.
  unfold handle_dest. destruct bytes as [|b bytes].
  - eapply safe_bind; [by apply on_net_safe, perform_ignored_safe|intros _ _].
    eapply safe_bind; [apply put_dest_safe|intros _ _]. by apply safe_ret.
  - eapply safe_bind; [apply send_chunks_safe|intros _ _].
    eapply safe_bind; [by apply on_net_safe, perform_safe|intros _ _]. by apply safe_ret.
Qed.

Lemma io_turn_safe ctx r ev : safe io_log (legal_action ctx r) (io_turn ctx r ev) (λ _, True).
Proof.
  eapply safe_bind; [apply get_io_safe|intros s _].
  destruct ev; repeat case_match;
    auto using handle_inbound_safe, handle_next_safe, handle_dest_safe, safe_fail, safe_ret.
Qed.

Lemma run_circuit_io_safe ctx r evs :
  safe io_log (legal_action ctx r) (run_circuit_io ctx r evs) (λ _, True).
Proof.
  induction evs as [|ev evs IH]; cbn [run_circuit_io]; [by apply safe_ret|].
  eapply safe_bind; [apply io_turn_safe|]. intros [] _; [exact IH|by apply safe_ret].
Qed.
End relay_handlers.
