(* ===== verification/RelayTheorems.v ===== *)
(** QuietHop: the properties of the relay's connection handler.

    What a circuit may do on its links, what it never sends, when a connection
    is served at all, and how its circuit ends. *)

From S2P Require Import Prelude Bytes Text NetAddr Cell Noise SampleNoise Layer Civil State Registry SampleRegistry.
From S2P Require Import Circuit Token Config Exit RelayRegistry Relay.

(** ** Turns that fail without a word *)

Definition not_write_in (a : action) : Prop := ∀ b, a ≠ WriteIn b.

Section silence.
Context `{Snow, Sha256, Ed25519, UrlParser}.

(** A computation that fails, other than on the socket itself, has sent
    nothing back. *)
Definition silent_err {A} (m : st circuit_io HandleError A) : Prop := ∀ s e,
  snd (m s) = Err e → (∀ e', e ≠ Io e') →
  ∃ new, io_log (fst (m s)) = io_log s ++ new ∧ Forall not_write_in new.

(** A computation that only fails on the socket. *)
Definition io_only {A} (m : st circuit_io HandleError A) : Prop := ∀ s e,
  snd (m s) = Err e → ∃ e', e = Io e'.

Lemma silent_bind {A B} (m : st circuit_io HandleError A) (f : A → st circuit_io HandleError B) Q :
  safe io_log not_write_in m Q → (∀ a, Q a → silent_err (f a)) → silent_err (m ≫= f).
Proof.
  intros Hm Hf s e. specialize (Hm s). unfold mbind, st_bind.
  destruct (m s) as [s1 [a|e1|]]; simpl in *; intros He Hio.
  - destruct Hm as [(new & Hnew & HP) Ha]. destruct (Hf a Ha s1 e He Hio) as (new' & Hnew' & HP').
    exists (new ++ new'). rewrite Hnew', Hnew, app_assoc. split; [done|]. by apply Forall_app.
  - by destruct Hm as [Hm _].
  - done.
Qed.

Lemma io_only_bind {A B} (m : st circuit_io HandleError A) (f : A → st circuit_io HandleError B) :
  io_only m → (∀ a, io_only (f a)) → io_only (m ≫= f).
Proof.
  intros Hm Hf s e. unfold mbind, st_bind. specialize (Hm s).
  destruct (m s) as [s1 [a|e1|]]; simpl in *; [apply Hf|by intros [= <-]; apply Hm|done].
Qed.

Lemma io_only_silent {A} (m : st circuit_io HandleError A) : io_only m → silent_err m.
Proof. intros Hm s e He Hio. destruct (Hm s e He) as [e' ->]. by destruct (Hio e'). Qed.

Lemma safe_silent_err {A} (m : st circuit_io HandleError A) Q : safe io_log not_write_in m Q → silent_err m.
Proof. intros Hm s e _ _. apply Hm. Qed.

Lemma io_only_ret {A} (a : A) : io_only (mret a).
Proof. done. Qed.

Lemma io_only_perform a : io_only (on_net (perform a)).
Proof.
  intros s e. unfold on_net, on_field, perform, mbind, st_bind, attempt.
  destruct (script (io_net s)) as [|[] rest]; simpl; intros; simplify_eq; eauto.
Qed.

Lemma io_only_ignored a : io_only (on_net (perform_ignored a)).
Proof.
  intros s e. unfold on_net, on_field, perform_ignored, mbind, st_bind, attempt.
  by destruct (script (io_net s)).
Qed.

Lemma io_only_send framed : io_only (send_inbound framed).
Proof. apply io_only_bind; [apply io_only_perform|intros; apply io_only_perform]. Qed.

Lemma lift_safe {A} (m : outcome HandleError A) :
  m ≠ Panic → safe io_log not_write_in (lift m) (λ _, True).
Proof. intros Hm. by apply safe_lift. Qed.

Lemma open_next_link_quiet ctx extend n :
  safe log not_write_in (open_next_link extend ctx n) (λ _, True).
Proof.
  unfold open_next_link, dial_tls.
  eapply safe_bind; [by apply (safe_lift _ _ _ (λ _, True)); destruct (RegistryHandle_usable _ _)|intros doc _].
  eapply safe_bind; [by apply (safe_lift _ _ _ (λ _, True)); destruct (extend_target _ _ _)|intros e _].
  eapply (safe_bind _ _ _ _ (λ _, True)).
  { eapply safe_bind; [by apply attempt_safe|intros [] _]; auto using safe_ret, safe_fail. }
  intros _ _. do 4 (eapply safe_bind; [by apply perform_safe|intros _ _]).
  eapply safe_bind; [apply read_exact_safe|intros msg2 _]. by apply safe_ret.
Qed.

Lemma dial_destination_quiet ctx p : safe log not_write_in (dial_destination ctx p) (λ _, True).
Proof.
  intros n. unfold dial_destination. destruct (decodo_proxy_url (cfg ctx)) as [url|];
    [|split; [exists []; by rewrite app_nil_r|done]].
  destruct (match script n with [] => (Fine, []) | r :: rest => (r, rest) end) as [r rest].
  match goal with |- context [dial_via_socks5 ?s ?u ?h ?p ?a] =>
    pose proof (dial_via_socks5_effects s u h p a) as Hd; destruct (dial_via_socks5 s u h p a) as [att o] end.
  destruct Hd as [_ Ho]. simpl. split; [|by destruct o].
  exists (DialProxy <$> att). split; [done|]. apply Forall_fmap, Forall_forall. by intros req _ b.
Qed.

Lemma peel_quiet r wire :
  safe io_log not_write_in (on_transport (peel wire (inbound_layers r))) (λ _, True).
Proof. apply on_transport_safe; [|done]. intros t. apply peel_no_panic, inbound_layers_pos. Qed.

Lemma handle_forward_silent r blob : silent_err (handle_forward r blob).
Proof.
  eapply silent_bind; [apply get_io_safe|intros s _]. destruct (next_link s); cycle 1.
  { apply (safe_silent_err _ (λ _, True)). apply safe_fail. }
  apply (safe_silent_err _ (λ _, True)). do 2 (eapply safe_bind; [by apply on_net_safe, perform_safe|intros _ _]).
  by apply safe_ret.
Qed.

Lemma handle_extend_silent ctx r payload : silent_err (handle_extend ctx r payload).
Proof.
  eapply silent_bind; [apply get_io_safe|intros s _]. destruct (next_link s).
  { apply (safe_silent_err _ (λ _, True)). apply safe_fail. }
  eapply silent_bind.
  { apply lift_safe. pose proof (ExtendForward_decode_no_panic payload). by destruct (ExtendForward_decode payload). }
  intros f _. eapply silent_bind; [apply lift_safe; by destruct r|intros out _].
  eapply silent_bind; [apply on_net_safe, open_next_link_quiet|intros nl _].
  eapply silent_bind; [apply lift_safe; unfold Cell_new; by case_match|intros reply _].
  eapply silent_bind; [apply seal_to_me_safe|intros framed _].
  apply io_only_silent, io_only_bind; [apply io_only_send|]. intros _.
  apply io_only_bind; [done|]. intros _. apply io_only_ret.
Qed.

Lemma handle_connect_silent ctx r payload : silent_err (handle_connect ctx r payload).
Proof.
  apply (safe_silent_err _ (λ _, True)).
  eapply safe_bind; [apply get_io_safe|intros s _]. destruct (dest_link s); [by apply safe_fail|].
  eapply safe_bind.
  { apply lift_safe. pose proof (ConnectPayload_decode_no_panic payload). by destruct (ConnectPayload_decode payload). }
  intros p _. eapply safe_bind; [apply on_net_safe, dial_destination_quiet|intros d _].
  eapply safe_bind; [apply put_dest_safe|intros _ _]. by apply safe_ret.
Qed.

Lemma handle_data_silent r payload : silent_err (handle_data r payload).
Proof.
  apply (safe_silent_err _ (λ _, True)). unfold handle_data. destruct payload as [|b payload]; [by apply safe_ret|].
  eapply safe_bind; [apply get_io_safe|intros s _]. destruct (dest_link s); [|by apply safe_fail].
  do 2 (eapply safe_bind; [by apply on_net_safe, perform_safe|intros _ _]). by apply safe_ret.
Qed.

Lemma handle_close_request_silent r : silent_err (handle_close_request r).
Proof.
  eapply silent_bind; [by apply lift_safe|intros ack _].
  eapply silent_bind; [apply seal_to_me_safe|intros framed _].
  apply io_only_silent, io_only_bind; [apply io_only_send|]. intros _.
  apply io_only_bind; [done|]. intros s.
  apply io_only_bind; [destruct (is_some _); [apply io_only_ignored|apply io_only_ret]|]. intros _.
  apply io_only_bind; [done|]. intros _.
  apply io_only_bind; [destruct (is_some _); [apply io_only_ignored|apply io_only_ret]|]. intros _.
  apply io_only_bind; [done|]. intros _. apply io_only_ret.
Qed.

Lemma fail_silent {A} e : silent_err (fail e : st circuit_io HandleError A).
Proof. apply (safe_silent_err _ (λ _, True)). apply safe_fail. Qed.

Lemma handle_inbound_silent ctx r wire : silent_err (handle_inbound ctx r wire).
Proof.
  eapply silent_bind; [apply peel_quiet|]. intros [c|blob] _; [|apply handle_forward_silent].
  unfold handle_cell. destruct (cell_type c), r;
    auto using handle_extend_silent, handle_connect_silent, handle_data_silent,
      handle_close_request_silent, fail_silent.
Qed.
End silence.

(** ** Connections *)

Section connections.
Context `{Snow, Sha256, Ed25519, UrlParser}.

Definition cn_log (c : conn) : list action := log (cn_net c).

(** What two connection states share apart from the socket. *)
Definition same_shared (c c' : conn) : Prop :=
  cn_replay c' = cn_replay c ∧ cn_metrics c' = cn_metrics c.

Lemma on_conn_read_cases n c c' o :
  on_conn (read_exact n) c = (c', o) →
  same_shared c c' ∧ cn_circuit c' = cn_circuit c ∧ cn_log c' = cn_log c ∧
  match o with Ok b => length b = n | Err e => True | Panic => False end.
Proof.
  unfold on_conn, on_field. destruct (read_exact n (cn_net c)) as [x o'] eqn:Hr.
  pose proof (read_exact_safe (λ _, False) n (cn_net c)) as [(new & Hnew & Hall) Ho].
  rewrite Hr in *. simpl in *. intros [= <- <-]. simpl.
  destruct new as [|a new]; [|by apply Forall_cons in Hall as [[] _]].
  rewrite app_nil_r in Hnew. by repeat split.
Qed.

Lemma on_conn_perform_cases a c c' o :
  on_conn (perform a) c = (c', o) →
  same_shared c c' ∧ cn_circuit c' = cn_circuit c ∧ cn_log c' = cn_log c ++ [a] ∧ o ≠ Panic.
Proof.
  unfold on_conn, on_field, perform, attempt, mbind, st_bind, cn_log.
  destruct (script (cn_net c)) as [|[] rest]; simpl; intros [= <- <-]; by repeat split.
Qed.

Lemma run_io_cases ctx r t evs c c' o :
  run_io ctx r t evs c = (c', o) →
  same_shared c c' ∧ cn_circuit c' = cn_circuit c ∧
  (∃ new, cn_log c' = cn_log c ++ new ∧ Forall (legal_action ctx r) new) ∧ o ≠ Panic.
Proof.
  unfold run_io. pose proof (run_circuit_io_safe ctx r evs (mkCircuitIo t None None (cn_net c))) as [Hl Ho].
  destruct (run_circuit_io _ _ _ _) as [s o'] eqn:Hr. simpl in *. intros [= <- <-].
  repeat split; [exact Hl|]. by destruct o'.
Qed.

(** The state a circuit ends in. *)
Definition end_state (o : outcome HandleError flow) : State :=
  match o with Ok Finished => Closed | Ok Continue => Active | _ => Failed end.

Lemma drive_body_cases ctx r rng evs c c' o :
  cn_circuit c = Some Circuit_new → drive_body ctx r rng evs c = (c', o) →
  same_shared c c' ∧ o ≠ Panic ∧
  ((∃ e k, o = Err e ∧ cn_circuit c' = Some (mkCircuit k) ∧ k ≠ Closed) ∨
   ((∃ f, o = Ok f) ∧ cn_circuit c' = Some (mkCircuit Active))) ∧
  ∃ new, cn_log c' = cn_log c ++ new ∧
    (new = [] ∨ ∃ msg2 rest, new = WriteIn msg2 :: rest ∧ length msg2 = NOISE_MSG_LEN ∧
                             Forall (legal_action ctx r) rest).
Proof.
  intros Hk. unfold drive_body, mbind at 1, st_bind at 1.
  destruct (on_conn (read_exact NOISE_MSG_LEN) c) as [c1 o1] eqn:E1.
  apply on_conn_read_cases in E1 as (Hs1 & Hk1 & Hl1 & Ho1).
  destruct o1 as [msg1|e|]; [|intros [= <- <-]|done]; cycle 1.
  { split_and!; try done; [left; exists e, Pending; rewrite Hk1; done|].
    exists []. rewrite app_nil_r. auto. }
  unfold mbind at 1, st_bind at 1, lift at 1.
  pose proof (respond_no_panic (static_private ctx) msg1 rng).
  destruct (respond (static_private ctx) msg1 rng) as [[t msg2]|e|] eqn:Hresp; [| |done]; cycle 1.
  { intros [= <- <-]. split_and!; try done; [left; exists HHandshake, Pending; rewrite Hk1; done|].
    exists []. rewrite app_nil_r. auto. }
  apply respond_Ok in Hresp as Hmsg2. cbn [map_err]. unfold mbind at 1, st_bind at 1.
  destruct (on_conn (perform (WriteIn msg2)) c1) as [c2 o2] eqn:E2.
  apply on_conn_perform_cases in E2 as (Hs2 & Hk2 & Hl2 & Ho2).
  assert (same_shared c c2) as Hs02 by (destruct Hs1, Hs2; split; congruence).
  destruct o2 as [[]|e|]; [|intros [= <- <-]|done]; cycle 1.
  { split_and!; try done; [left; exists e, Pending; rewrite Hk2, Hk1; done|].
    exists [WriteIn msg2]. rewrite Hl2, Hl1. split; [done|]. right. exists msg2, []. auto. }
  unfold mbind at 1, st_bind at 1. destruct (on_conn (perform FlushIn) c2) as [c3 o3] eqn:E3.
  apply on_conn_perform_cases in E3 as (Hs3 & Hk3 & Hl3 & Ho3).
  assert (same_shared c c3) as Hs03 by (destruct Hs02, Hs3; split; congruence).
  assert (cn_log c3 = cn_log c ++ [WriteIn msg2; FlushIn]) as Hl03
    by (rewrite Hl3, Hl2, Hl1, <- app_assoc; done).
  destruct o3 as [[]|e|]; [|intros [= <- <-]|done]; cycle 1.
  { split_and!; try done; [left; exists e, Pending; rewrite Hk3, Hk2, Hk1; done|].
    eexists. split; [exact Hl03|]. right. exists msg2, [FlushIn]. split_and!; try done. by repeat constructor. }
  unfold mbind, st_bind, get_circuit. rewrite Hk3, Hk2, Hk1, Hk. simpl.
  intros Hrun. apply run_io_cases in Hrun as (Hs4 & Hk4 & (new & Hnew & Hall) & Ho4).
  destruct Hs4, Hs03. simpl in *. split_and!; try congruence; [split; congruence|..].
  - rewrite Hk4. destruct o as [f|e|]; [right; eauto|left; exists e, Active; done|done].
  - exists ([WriteIn msg2; FlushIn] ++ new). unfold cn_log in *. simpl in *. rewrite Hnew, Hl03, <- app_assoc.
    split; [done|]. right. exists msg2, (FlushIn :: new). split_and!; try done. by constructor.
Qed.

Lemma drive_circuit_cases ctx r rng evs c c' o :
  drive_circuit ctx r rng evs c = (c', o) →
  same_shared c c' ∧ o ≠ Panic ∧ cn_circuit c' = Some (mkCircuit (end_state o)) ∧
  ∃ new, cn_log c' = cn_log c ++ new ∧
    (new = [] ∨ ∃ msg2 rest, new = WriteIn msg2 :: rest ∧ length msg2 = NOISE_MSG_LEN ∧
                             Forall (legal_action ctx r) rest).
Proof.
  unfold drive_circuit. set (c0 := mkConn _ _ _ (Some Circuit_new)).
  destruct (drive_body ctx r rng evs c0) as [c1 o1] eqn:Hb. apply drive_body_cases in Hb; [|done].
  destruct Hb as (Hs & Ho & Hk & Hlog). intros [= <- <-]. split_and!; try done.
  destruct Hk as [(e & k & -> & -> & Hne)|[[f ->] ->]]; simpl.
  - by destruct k.
  - by destruct f.
Qed.
(** A presentation either passes the token check, and the window then holds
    it, or is counted as rejected. *)
Lemma handle_client_cases ctx rng evs c c' o :
  rsa_key_wf (authority_pubkey ctx) → cn_circuit c = None →
  handle_client_connection ctx rng evs c = (c', o) →
  o ≠ Panic ∧
  ((cn_circuit c' = None ∧ cn_log c' = cn_log c ∧
    (cn_metrics c' = cn_metrics c ∨ ∃ e, o = Err (HToken e) ∧ cn_metrics c' = record_rejected e (cn_metrics c))) ∨
   (∃ k, cn_circuit c' = Some k ∧ ∃ m_raw token,
       length m_raw = M_RAW_LEN ∧ length token = TOKEN_LEN ∧
       signed m_raw token (authority_pubkey ctx) ∧ ¬ seen (cn_replay c) (now_instant ctx) token ∧
       Token.inner (cn_replay c') !! sha256 token = Some (now_instant ctx) ∧
       cn_metrics c' = record_verified (cn_metrics c))).
Proof.
  intros Hk Hnone. unfold handle_client_connection, mbind at 1, st_bind at 1.
  destruct (on_conn (read_exact PRESENTATION_LEN) c) as [c1 o1] eqn:E1.
  apply on_conn_read_cases in E1 as ([Hr1 Hm1] & Hk1 & Hl1 & Ho1).
  destruct o1 as [buf|e|]; [|intros [= <- <-]; split; [done|]; left; rewrite Hk1; auto|done].
  unfold slice_to, slice_from. rewrite !slice_in_range by (rewrite ?Ho1; unfold PRESENTATION_LEN; lia).
  set (token := take (length buf - M_RAW_LEN) (drop M_RAW_LEN buf)).
  set (m_raw := take (M_RAW_LEN - 0) (drop 0 buf)).
  assert (length m_raw = M_RAW_LEN) as Hlm
    by (unfold m_raw; rewrite length_take, length_drop, Ho1; unfold PRESENTATION_LEN; lia).
  assert (length token = TOKEN_LEN) as Hlt
    by (unfold token; rewrite length_take, length_drop, Ho1; unfold PRESENTATION_LEN; lia).
  clearbody m_raw token. unfold mbind, st_bind, lift.
  destruct (token_verify_cases m_raw token (authority_pubkey ctx) (now_instant ctx) (cn_replay c1) Hk)
    as [(Hs & Hseen & ->)|[(Hs & Hseen & ->)|(Hs & e & -> & _)]].
  - intros [= <- <-]. simpl. split; [done|]. left. rewrite Hk1, Hm1. eauto 10.
  - intros Hd. apply drive_circuit_cases in Hd as ([Hr2 Hm2] & Ho2 & Hk2 & _). simpl in *.
    split; [done|]. right. eexists. split; [exact Hk2|]. exists m_raw, token. rewrite Hr2, Hm2, Hm1.
    simpl. rewrite lookup_insert_eq. rewrite Hr1 in Hseen. split_and!; done.
  - intros [= <- <-]. simpl. split; [done|]. left. rewrite Hk1, Hm1. eauto 10.
Qed.

Lemma handle_relay_cases ctx peer rng evs c c' o :
  cn_circuit c = None → handle_relay_connection ctx peer rng evs c = (c', o) →
  o ≠ Panic ∧ cn_metrics c' = cn_metrics c ∧
  ((cn_circuit c' = None ∧ cn_log c' = cn_log c) ∨
   (∃ k, cn_circuit c' = Some k ∧ ∃ doc,
       RegistryHandle_usable (cx_registry ctx) (now_unix ctx) = Some doc ∧
       admits_inbound doc (cfg_role (cfg ctx)) (sa_ip peer) = true)).
Proof.
  intros Hnone. unfold handle_relay_connection, mbind, st_bind, lift.
  destruct (RegistryHandle_usable _ _) as [doc|]; simpl; [|intros [= <- <-]; auto].
  destruct (admits_inbound doc _ _) eqn:Ha; simpl; [|intros [= <- <-]; auto].
  destruct (on_conn (read_exact 1) c) as [c1 o1] eqn:E1.
  apply on_conn_read_cases in E1 as ([Hr1 Hm1] & Hk1 & Hl1 & Ho1). rewrite <- Hk1 in Hnone.
  destruct o1 as [signal|e|]; [| |done].
  - case_bool_decide; [intros [= <- <-]; auto|].
    intros Hd. apply drive_circuit_cases in Hd as ([Hr2 Hm2] & Ho2 & Hk2 & _).
    split; [done|]. split; [congruence|]. right. eauto.
  - intros Hd. assert (c1 = c' ∧ o ≠ Panic) as [<- Ho] by (by repeat case_match; simplify_eq). auto.
Qed.

Lemma handle_connection_cases ctx peer rng evs c c' o :
  rsa_key_wf (authority_pubkey ctx) → cn_circuit c = None →
  handle_connection ctx peer rng evs c = (c', o) →
  o ≠ Panic ∧
  ((cn_circuit c' = None ∧ (∃ new, cn_log c' = cn_log c ++ new ∧ Forall not_write_in new) ∧
    (cn_metrics c' = cn_metrics c ∨ ∃ e, o = Err (HToken e) ∧ cn_metrics c' = record_rejected e (cn_metrics c))) ∨
   (∃ k, cn_circuit c' = Some k ∧ cfg_role (cfg ctx) = Guard ∧ ∃ m_raw token,
       length m_raw = M_RAW_LEN ∧ length token = TOKEN_LEN ∧
       signed m_raw token (authority_pubkey ctx) ∧ ¬ seen (cn_replay c) (now_instant ctx) token ∧
       Token.inner (cn_replay c') !! sha256 token = Some (now_instant ctx) ∧
       cn_metrics c' = record_verified (cn_metrics c)) ∨
   (∃ k, cn_circuit c' = Some k ∧ cfg_role (cfg ctx) ≠ Guard ∧ cn_metrics c' = cn_metrics c ∧ ∃ doc,
       RegistryHandle_usable (cx_registry ctx) (now_unix ctx) = Some doc ∧
       admits_inbound doc (cfg_role (cfg ctx)) (sa_ip peer) = true)).
Proof.
  intros Hk Hnone. unfold handle_connection, mbind at 1, st_bind at 1.
  destruct (on_conn (read_exact 1) c) as [c1 o1] eqn:E1.
  apply on_conn_read_cases in E1 as ([Hr1 Hm1] & Hk1 & Hl1 & Ho1). rewrite <- Hk1 in Hnone.
  assert (∀ b r, ((_ ← on_conn (perform_ignored ShutdownIn); fail (UnexpectedProtocol b)) :
      st conn HandleError flow) c1 = (c', r) →
    r ≠ Panic ∧ cn_circuit c' = None ∧ (∃ new, cn_log c' = cn_log c ++ new ∧ Forall not_write_in new) ∧
    cn_metrics c' = cn_metrics c) as Hrefuse.
  { intros b r. unfold on_conn, on_field, perform_ignored, attempt, mbind, st_bind, cn_log in *.
    destruct (script (cn_net c1)) as [|x rest]; simpl; intros [= <- <-]; simpl;
      (split_and!; [done..| |done]; exists [ShutdownIn]; rewrite Hl1; split; [done|]; by repeat constructor). }
  destruct o1 as [proto|e|]; [| |done]; cycle 1.
  { intros [= <- <-]. split; [done|]. left. split; [done|]. split; [|by left].
    exists []. by rewrite app_nil_r. }
  destruct proto as [|b []]; try done. cbn [index lookup list_lookup]. unfold mbind at 1, st_bind at 1, lift at 1.
  destruct b; try (intros Hx; apply Hrefuse in Hx as (? & ? & ? & ?); split; [done|]; left; split_and!; auto; fail).
  - destruct (cfg_role (cfg ctx)) eqn:Hrole;
      try (intros Hx; apply Hrefuse in Hx as (? & ? & ? & ?); split; [done|]; left; split_and!; auto; fail).
    intros Hx. apply handle_client_cases in Hx as [Ho Hcases]; [|done..]. rewrite Hr1, Hm1, Hl1 in Hcases.
    split; [done|]. destruct Hcases as [(Hc & Hl & Hm)|(k & Hc & Hauth)].
    + left. split; [done|]. split; [|done]. exists []. by rewrite app_nil_r.
    + right. left. eauto.
  - destruct (cfg_role (cfg ctx)) eqn:Hrole;
      try (intros Hx; apply Hrefuse in Hx as (? & ? & ? & ?); split; [done|]; left; split_and!; auto; fail);
    intros Hx; apply handle_relay_cases in Hx as (Ho & Hm & Hcases); try done; rewrite Hrole, Hl1, Hm1 in *;
    (split; [done|]); (destruct Hcases as [(Hc & Hl)|(k & Hc & Hauth)];
      [left; split; [done|]; split; [exists []; by rewrite app_nil_r|by left]|right; right; eauto 10]).
Qed.
End connections.

(** ** An extension that works *)

(** The answers of the next link while it is opened: dial, three writes,
    flush and the hop's message 2. *)
Definition courier_script (msg2 : list byte) : list answer := [Fine; Fine; Fine; Fine; Fine; Got msg2].

(** All that an extension does on the links. *)
Definition courier_log (ext : ExtendForward) (e : RelayEntry) (framed : list byte) : list action :=
  [DialTls (next_hop ext) (tls_name e); WriteNext [PROTO_RELAY]; WriteNext [CIRCUIT_START];
   WriteNext (noise_msg1 ext); FlushNext; WriteIn framed; FlushIn].

Section courier.
Context `{SnowLaws, Sha256, Ed25519, UrlParser}.

Lemma open_next_link_courier ext ctx len n doc e msg2 :
  RegistryHandle_usable (cx_registry ctx) (now_unix ctx) = Some doc →
  extend_target doc (cfg_role (cfg ctx)) (next_hop ext) = Some e →
  length msg2 = NOISE_MSG_LEN → script n = courier_script msg2 →
  open_next_link ext ctx len n =
    (mkNet (log n ++ take 5 (courier_log ext e [])) [], Ok (mkNextLink len msg2)).
Proof.
  intros Hdoc He Hmsg2 Hscript. unfold open_next_link, mbind, st_bind, lift. rewrite Hdoc. cbn [ok_or].
  rewrite He. cbn [ok_or]. unfold dial_tls, perform, attempt, mbind, st_bind. rewrite Hscript. cbn.
  rewrite <- !app_assoc. cbn. unfold read_exact. cbn. by rewrite Hmsg2, Nat.eqb_refl.
Qed.

Lemma inbound_layers_max r : inbound_layers r ≤ MAX_LAYERS.
Proof. destruct r; simpl; unfold MAX_LAYERS; lia. Qed.

Lemma handle_extend_courier k ctx r s back ext doc e msg2 :
  r ≠ Exit → ExtendForward_wf ext → canonical_addr (next_hop ext) = next_hop ext →
  paired (S k) (transport s) back → next_link s = None →
  RegistryHandle_usable (cx_registry ctx) (now_unix ctx) = Some doc →
  extend_target doc (cfg_role (cfg ctx)) (next_hop ext) = Some e →
  length msg2 = NOISE_MSG_LEN → script (io_net s) = courier_script msg2 →
  ∃ s' framed back', handle_extend ctx r (ExtendForward_encode ext) s = (s', Ok Continue) ∧
    io_log s' = io_log s ++ courier_log ext e framed ∧
    next_link s' = Some (mkNextLink (link_cell_len (inbound_layers r - 1)) msg2) ∧
    length framed = inbound_len r ∧
    peel framed (inbound_layers r) back = (back', Ok (ToMe (mkCell Extend msg2))) ∧
    paired k (transport s') back' ∧ dest_link s' = dest_link s ∧ script (io_net s') = [].
Proof.
  intros Hr Hwf Hcanon Hpair Hnext Hdoc He Hmsg2 Hscript.
  assert (length (payload (mkCell Extend msg2)) ≤ CELL_PAYLOAD_LEN) as Hpl by (simpl; rewrite Hmsg2; sizes).
  destruct (paired_to_me k (transport s) back (mkCell Extend msg2) (inbound_layers r) Hpair
    (conj (inbound_layers_pos r) (inbound_layers_max r)) Hpl) as (t' & back' & framed & Hseal & Hlen & Hpeel & Hpair').
  pose proof (open_next_link_courier ext ctx (link_cell_len (inbound_layers r - 1)) (io_net s) doc e msg2
    Hdoc He Hmsg2 Hscript) as Hopen.
  assert (ExtendForward_decode (ExtendForward_encode ext) = Ok ext) as Hdec
    by (rewrite ExtendForward_decode_encode by done; rewrite Hcanon; by destruct ext).
  assert (Cell_new Extend (extend_backward_payload msg2) = Ok (mkCell Extend msg2)) as Hcell
    by (unfold Cell_new, extend_backward_payload; by rewrite Hmsg2).
  unfold handle_extend, get_io, mbind, st_bind, lift. rewrite Hnext, Hdec. cbn [map_err].
  assert (outbound_len r = Some (link_cell_len (inbound_layers r - 1))) as -> by (by destruct r).
  cbn [ok_or]. unfold on_net at 1, on_field at 1. rewrite Hopen. cbn [nl_noise_msg2]. rewrite Hcell.
  cbn [map_err transport]. unfold on_transport, on_field, st_map_err. cbn [transport]. rewrite Hseal.
  cbn [map_err]. eexists _, framed, back'.
  split; [reflexivity|]. unfold io_log. cbn. rewrite <- !app_assoc. cbn. by split_and!.
Qed.
End courier.

(** ** A connection that is served *)

Section served.
Context `{Snow, Sha256, Ed25519, UrlParser}.

(** What a connection starts with when its peer is entitled to a circuit: a
    guard reads a token it accepts, another relay the start signal of a peer
    the registry admits. *)
Definition presented (ctx : ConnCtx) (peer : SocketAddr) (c : conn) (pre : list answer) : Prop :=
  (cfg_role (cfg ctx) = Guard ∧ ∃ m_raw token,
     pre = [Got [PROTO_CLIENT]; Got (m_raw ++ token)] ∧ length m_raw = M_RAW_LEN ∧ length token = TOKEN_LEN ∧
     signed m_raw token (authority_pubkey ctx) ∧ ¬ seen (cn_replay c) (now_instant ctx) token) ∨
  (cfg_role (cfg ctx) ≠ Guard ∧ pre = [Got [PROTO_RELAY]; Got [CIRCUIT_START]] ∧ ∃ doc,
     RegistryHandle_usable (cx_registry ctx) (now_unix ctx) = Some doc ∧
     admits_inbound doc (cfg_role (cfg ctx)) (sa_ip peer) = true).

(** The loop on the circuit a handshake has just opened. *)
Definition opened (t : TransportState) (msg2 : list byte) (lg : list action) (rest : list answer) : circuit_io :=
  mkCircuitIo t None None (mkNet (lg ++ [WriteIn msg2; FlushIn]) rest).

Lemma on_conn_read_Ok n bytes rest c :
  script (cn_net c) = Got bytes :: rest → length bytes = n →
  on_conn (read_exact n) c = (mkConn (mkNet (cn_log c) rest) (cn_replay c) (cn_metrics c) (cn_circuit c), Ok bytes).
Proof. intros Hs Hl. unfold on_conn, on_field, read_exact. rewrite Hs, Hl, Nat.eqb_refl. done. Qed.

Lemma drive_circuit_runs ctx r rng evs c msg1 rest t msg2 :
  script (cn_net c) = Got msg1 :: Fine :: Fine :: rest → length msg1 = NOISE_MSG_LEN →
  respond (static_private ctx) msg1 rng = Ok (t, msg2) →
  ∃ c', drive_circuit ctx r rng evs c = (c', snd (run_circuit_io ctx r evs (opened t msg2 (cn_log c) rest))) ∧
        cn_net c' = io_net (fst (run_circuit_io ctx r evs (opened t msg2 (cn_log c) rest))).
Proof.
  intros Hs Hl Hr. set (c0 := mkConn (cn_net c) (cn_replay c) (cn_metrics c) (Some Circuit_new)).
  assert (drive_body ctx r rng evs c0 = run_io ctx r t evs
    (mkConn (mkNet (cn_log c ++ [WriteIn msg2; FlushIn]) rest) (cn_replay c) (cn_metrics c) (Some (mkCircuit Active)))) as Hb.
  { unfold drive_body. erewrite st_bind_Ok_eq by (by apply (on_conn_read_Ok _ msg1 (Fine :: Fine :: rest))).
    rewrite Hr. erewrite st_bind_Ok_eq by apply lift_eq. unfold mbind, st_bind, on_conn, on_field, perform, attempt, mbind, st_bind. cbn. unfold cn_log.
    by rewrite <- app_assoc. }
  unfold drive_circuit. fold c0. rewrite Hb. unfold run_io, opened. cbn [cn_net].
  destruct (run_circuit_io ctx r evs _) as [s o]. eexists. split; reflexivity.
Qed.

Lemma handle_client_runs ctx rng evs c m_raw token script' :
  rsa_key_wf (authority_pubkey ctx) → script (cn_net c) = Got (m_raw ++ token) :: script' →
  length m_raw = M_RAW_LEN → length token = TOKEN_LEN →
  signed m_raw token (authority_pubkey ctx) → ¬ seen (cn_replay c) (now_instant ctx) token →
  ∃ c', handle_client_connection ctx rng evs c = drive_circuit ctx Guard rng evs c' ∧
        cn_net c' = mkNet (cn_log c) script'.
Proof.
  intros Hk Hs Hm Ht Hsig Hseen. unfold handle_client_connection.
  erewrite st_bind_Ok_eq by (apply (on_conn_read_Ok _ _ script'); [done|]; rewrite length_app, Hm, Ht; done).
  rewrite slice_app_l by done. erewrite st_bind_Ok_eq by apply lift_eq.
  rewrite slice_app_r by done. erewrite st_bind_Ok_eq by apply lift_eq. unfold mbind, st_bind. cbn [cn_replay].
  destruct (token_verify_cases m_raw token (authority_pubkey ctx) (now_instant ctx) (cn_replay c) Hk)
    as [(_ & ? & _)|[(_ & _ & ->)|[? _]]]; [done| |done]. eexists. split; reflexivity.
Qed.
(** A connection that presents it runs the loop to the loop's own outcome. *)
Lemma presented_runs ctx peer rng evs c pre msg1 rest t msg2 :
  rsa_key_wf (authority_pubkey ctx) → presented ctx peer c pre →
  script (cn_net c) = pre ++ [Got msg1; Fine; Fine] ++ rest → length msg1 = NOISE_MSG_LEN →
  respond (static_private ctx) msg1 rng = Ok (t, msg2) →
  let '(s, o) := run_circuit_io ctx (cfg_role (cfg ctx)) evs (opened t msg2 (cn_log c) rest) in
  ∃ c', handle_connection ctx peer rng evs c = (c', o) ∧ cn_net c' = io_net s.
Proof.
  intros Hk Hpre Hs Hl Hr. rewrite (surjective_pairing (run_circuit_io _ _ _ _)). unfold handle_connection.
  destruct Hpre as [(Hrole & m_raw & token & -> & Hm & Ht & Hsig & Hseen)|(Hrole & -> & doc & Hdoc & Hadm)];
    (erewrite st_bind_Ok_eq by (by apply (on_conn_read_Ok 1 _ _ _ Hs)));
    (erewrite st_bind_Ok_eq by apply lift_eq).
  - rewrite Hrole. set (c1 := mkConn _ _ _ _). cbv beta iota delta [PROTO_CLIENT].
    destruct (handle_client_runs ctx rng evs c1 m_raw token (Got msg1 :: Fine :: Fine :: rest)) as (c2 & -> & Hc2); try done.
    replace (cn_log c) with (cn_log c2) by (unfold cn_log; by rewrite Hc2).
    apply (drive_circuit_runs ctx Guard rng evs c2 msg1 rest t msg2); [|done..]. by rewrite Hc2.
  - set (c1 := mkConn _ _ _ _).
    assert (∃ c', handle_relay_connection ctx peer rng evs c1 =
      (c', snd (run_circuit_io ctx (cfg_role (cfg ctx)) evs (opened t msg2 (cn_log c) rest))) ∧
      cn_net c' = io_net (fst (run_circuit_io ctx (cfg_role (cfg ctx)) evs (opened t msg2 (cn_log c) rest)))) as Hx;
      [|by destruct (cfg_role (cfg ctx))].
    unfold handle_relay_connection. rewrite Hdoc. erewrite st_bind_Ok_eq by apply lift_eq. rewrite Hadm. cbn [negb].
    rewrite (on_conn_read_Ok 1 [CIRCUIT_START] (Got msg1 :: Fine :: Fine :: rest) c1) by done.
    rewrite bool_decide_false by naive_solver.
    match goal with |- context [drive_circuit _ _ _ _ ?c2] => set (c2' := c2) end.
    change (cn_log c) with (cn_log c2'). by apply (drive_circuit_runs ctx _ rng evs c2' msg1 rest t msg2).
Qed.

End served.

(** ** Sample contexts *)

Definition sample_cfg (r : Role) (ports : list Z) : RelayConfig :=
  mkRelayConfig r "p" "h" "k" 9001 (mkSocketAddr (V4 (Ipv4 x7f x00 x00 x01)) 9091) 86400 64 "n"
    (Some sample_proxy) ports "host" "mail" "acme" false "key" sample_pins "url" "dir".

Definition sample_ctx (r : Role) : ConnCtx :=
  mkConnCtx (sample_cfg r [80; 443]%Z) sample_rsa (replicate 32 x05) (mkHandle (Some sample_verified) false)
    sample_now 0.

Definition sample_io (script : list answer) : circuit_io := mkCircuitIo sample_rx None None (mkNet [] script).

(** ** Properties *)

(** What a relay can be made to do, whatever arrives.  Over any sequence of
    frames, timeouts and errors on its three streams, with any failures of its
    own writes and dials, the circuit loop never panics, and all it ever does
    is within its role: every frame to the client side has exactly the length
    of that link; bytes to a next hop are the two protocol bytes, a handshake
    message or a frame of exactly the next link's length, on a link dialled at
    an address and name the usable registry lists for the role downstream; only
    an exit dials the proxy, for an allowed port, and writes to a destination. *)
Theorem relay_effects_legal `{Snow, Sha256, Ed25519, UrlParser} ctx r evs s :
  let '(s', o) := run_circuit_io ctx r evs s in
  (∃ new, io_log s' = io_log s ++ new ∧ Forall (legal_action ctx r) new) ∧ o ≠ Panic.
Proof.
  pose proof (run_circuit_io_safe ctx r evs s) as [Hlog Ho].
  destruct (run_circuit_io ctx r evs s) as [s' o]. simpl in *. split; [done|]. by destruct o.
Qed.

(** A frame that fails is answered with silence.  If handling one inbound
    frame ends the circuit with any error other than a failure of the socket
    itself (a layer that does not open, a malformed or illegal cell, a refused
    or failed extension, a forbidden port, ...), not one byte was written back
    to the client side. *)
Theorem bad_frame_gets_no_reply `{Snow, Sha256, Ed25519, UrlParser} ctx r wire s s' e :
  io_turn ctx r (InFrame wire) s = (s', Err e) → (∀ e', e ≠ Io e') →
  ∃ new, io_log s' = io_log s ++ new ∧ Forall not_write_in new.
Proof.
  intros Ht He. unfold io_turn in Ht. erewrite st_bind_Ok_eq in Ht by (unfold get_io; reflexivity).
  pose proof (handle_inbound_silent ctx r wire s e) as Hs. rewrite Ht in Hs. by apply Hs.
Qed.

Lemma bad_frame_gets_no_reply_witness :
  ∃ s', io_turn (sample_ctx Middle) Middle (InFrame (replicate 547 x00)) (sample_io []) =
    (s', Err (HLayer (LayerNoise TransportFailed))) ∧ ∃ new, io_log s' = [] ++ new ∧ Forall not_write_in new.
Proof.
  destruct (io_turn (sample_ctx Middle) Middle (InFrame (replicate 547 x00)) (sample_io [])) as [s' o] eqn:Ht.
  assert (o = Err (HLayer (LayerNoise TransportFailed))) as Ho.
  { change o with (snd (s', o)). rewrite <- Ht. vm_compute. reflexivity. }
  exists s'. split; [by rewrite Ho|].
  apply (bad_frame_gets_no_reply (sample_ctx Middle) Middle (replicate 547 x00) (sample_io []) s'
    (HLayer (LayerNoise TransportFailed))).
  - rewrite Ht, Ho. reflexivity.
  - discriminate.
Defined.

(** A connection's circuit always ends in the right state, and the client
    side sees the handshake first.  [drive_circuit] never panics; its circuit is
    [Closed] exactly after a normal end, [Active] while the loop waits, and
    [Failed] after any error; and whatever it sends is either nothing at all, or
    one 48-byte handshake message followed by effects legal for the role, so
    that a failed handshake is answered with no byte. *)
Theorem drive_circuit_lifecycle `{Snow, Sha256, Ed25519, UrlParser} ctx r rng evs c :
  let '(c', o) := drive_circuit ctx r rng evs c in
  o ≠ Panic ∧
  cn_circuit c' = Some (mkCircuit (match o with
    | Ok Finished => Closed | Ok Continue => Active | _ => Failed end)) ∧
  cn_replay c' = cn_replay c ∧ cn_metrics c' = cn_metrics c ∧
  ∃ new, cn_log c' = cn_log c ++ new ∧
    (new = [] ∨ ∃ msg2 rest, new = WriteIn msg2 :: rest ∧ length msg2 = NOISE_MSG_LEN ∧
                             Forall (legal_action ctx r) rest).
Proof.
  destruct (drive_circuit ctx r rng evs c) as [c' o] eqn:Hd.
  apply drive_circuit_cases in Hd as ([Hr Hm] & Ho & Hk & Hlog). split_and!; done.
Qed.

(** Nobody is served before they are authorised.  If handling a connection
    ever created a circuit, then either the relay is a guard and a 288-byte
    presentation carried the authority's signature over its hash and was not in
    the replay window, or the relay is not a guard and the usable registry
    lists the peer's address with the role directly upstream.  If no circuit
    was created, nothing was written to the connection.  And the two counters
    are exact: at most one of them moves, by one. *)
Theorem no_service_before_authorisation `{Snow, Sha256, Ed25519, UrlParser} ctx peer rng evs c :
  rsa_key_wf (authority_pubkey ctx) → cn_circuit c = None →
  let '(c', o) := handle_connection ctx peer rng evs c in
  o ≠ Panic ∧
  match cn_circuit c' with
  | Some _ =>
      (cfg_role (cfg ctx) = Guard ∧ ∃ m_raw token,
         length m_raw = M_RAW_LEN ∧ length token = TOKEN_LEN ∧
         signed m_raw token (authority_pubkey ctx) ∧ ¬ seen (cn_replay c) (now_instant ctx) token ∧
         Token.inner (cn_replay c') !! sha256 token = Some (now_instant ctx) ∧
         cn_metrics c' = record_verified (cn_metrics c)) ∨
      (cfg_role (cfg ctx) ≠ Guard ∧ cn_metrics c' = cn_metrics c ∧ ∃ doc,
         RegistryHandle_usable (cx_registry ctx) (now_unix ctx) = Some doc ∧
         admits_inbound doc (cfg_role (cfg ctx)) (sa_ip peer) = true)
  | None =>
      (∃ new, cn_log c' = cn_log c ++ new ∧ Forall not_write_in new) ∧
      (cn_metrics c' = cn_metrics c ∨ ∃ e, o = Err (HToken e) ∧ cn_metrics c' = record_rejected e (cn_metrics c))
  end.
Proof.
  intros Hk Hnone. destruct (handle_connection ctx peer rng evs c) as [c' o] eqn:Hh.
  destruct (handle_connection_cases ctx peer rng evs c c' o Hk Hnone Hh) as (Ho & Hcases).
  split; [done|]. destruct Hcases as [(Hc & Hlog & Hm)|[(k & Hc & Hauth)|(k & Hc & Hauth)]]; rewrite Hc; auto.
Qed.

Definition sample_conn (script : list answer) : conn :=
  mkConn (mkNet [] script) (ReplayWindow_new 86400) (mkMetrics 0 0 0 0) None.

Definition sample_presentation : list byte := replicate 32 x0b ++ sample_token (replicate 32 x0b).
Definition sample_msg1 : list byte := replicate 32 x0c ++ replicate 16 x05.
Definition sample_peer : SocketAddr := mkSocketAddr (V4 (Ipv4 x0a x01 x02 x01)) 5000.
Definition sample_arrival : conn * outcome HandleError flow :=
  handle_connection (sample_ctx Guard) sample_peer [] []
    (sample_conn [Got [PROTO_CLIENT]; Got sample_presentation; Got sample_msg1]).

Lemma no_service_before_authorisation_witness :
  rsa_key_wf sample_rsa ∧ cn_circuit (fst sample_arrival) = Some (mkCircuit Active) ∧
  cn_metrics (fst sample_arrival) = mkMetrics 1 0 0 0.
Proof.
  assert (rsa_key_wf sample_rsa) as Hk by (split; vm_compute; congruence).
  assert (cn_circuit (fst sample_arrival) = Some (mkCircuit Active)) as Hc by (vm_compute; reflexivity).
  split; [exact Hk|]. split; [exact Hc|].
  pose proof (no_service_before_authorisation (sample_ctx Guard) sample_peer [] []
    (sample_conn [Got [PROTO_CLIENT]; Got sample_presentation; Got sample_msg1]) Hk eq_refl) as Hp.
  change (handle_connection _ _ _ _ _) with sample_arrival in Hp.
  destruct sample_arrival as [c' o]. simpl in Hc. rewrite Hc in Hp.
  destruct Hp as (_ & [(_ & m & t & _ & _ & _ & _ & _ & Hm)|(Hr & _)]).
  - exact Hm.
  - destruct (Hr eq_refl).
Defined.

(** Everybody entitled to a circuit gets one.  When a connection presents
    what its relay asks for (a guard: a 288-byte presentation with a signed
    token it has not seen; another relay: the start signal of a peer the usable
    registry admits) and a handshake message that completes, the handler answers
    message 2 and runs the circuit loop on the fresh transport to the loop's own
    outcome, whatever then arrives. *)
Theorem entitled_peer_is_served `{Snow, Sha256, Ed25519, UrlParser} ctx peer rng evs c pre msg1 rest t msg2 :
  rsa_key_wf (authority_pubkey ctx) → presented ctx peer c pre →
  script (cn_net c) = pre ++ [Got msg1; Fine; Fine] ++ rest → length msg1 = NOISE_MSG_LEN →
  respond (static_private ctx) msg1 rng = Ok (t, msg2) →
  let '(s, o) := run_circuit_io ctx (cfg_role (cfg ctx)) evs (opened t msg2 (cn_log c) rest) in
  ∃ c', handle_connection ctx peer rng evs c = (c', o) ∧ cn_net c' = io_net s.
Proof. apply presented_runs. Qed.

Lemma entitled_peer_is_served_witness :
  let '(s, o) := run_circuit_io (sample_ctx Middle) Middle [InTimeout]
    (opened (Sample.mkTransport (x02 :: Sample.fit 32 sample_msg1 ++ replicate 32 x00) 0
               (x01 :: Sample.fit 32 sample_msg1 ++ replicate 32 x00) 0)
       (replicate 32 x00 ++ replicate 16 x0c) [] []) in
  ∃ c', handle_connection (sample_ctx Middle) sample_peer [] [InTimeout]
    (sample_conn [Got [PROTO_RELAY]; Got [CIRCUIT_START]; Got sample_msg1; Fine; Fine]) = (c', o) ∧ cn_net c' = io_net s.
Proof.
  apply (entitled_peer_is_served (sample_ctx Middle) sample_peer [] [InTimeout]
    (sample_conn [Got [PROTO_RELAY]; Got [CIRCUIT_START]; Got sample_msg1; Fine; Fine])
    [Got [PROTO_RELAY]; Got [CIRCUIT_START]] sample_msg1 []).
  - split; vm_compute; congruence.
  - right. split; [discriminate|]. split; [reflexivity|]. exists sample_verified. split; vm_compute; reflexivity.
  - reflexivity.
  - reflexivity.
  - vm_compute. reflexivity.
Defined.

(** An extension is the courier's job and no more: a hop that is asked to
    extend, while it has no next link, to a listed next hop that completes the
    handshake sends that hop exactly the two protocol bytes and the client's own
    message 1, and the client exactly one frame, sealed for it, that carries the
    hop's message 2 unchanged; it keeps the link for frames one layer smaller. *)
Theorem extend_is_courier `{SnowLaws, Sha256, Ed25519, UrlParser} k ctx r s back ext doc e msg2 :
  r ≠ Exit → ExtendForward_wf ext → canonical_addr (next_hop ext) = next_hop ext →
  paired (S k) (transport s) back → next_link s = None →
  RegistryHandle_usable (cx_registry ctx) (now_unix ctx) = Some doc →
  extend_target doc (cfg_role (cfg ctx)) (next_hop ext) = Some e →
  length msg2 = NOISE_MSG_LEN →
  script (io_net s) = [Fine; Fine; Fine; Fine; Fine; Got msg2] →
  ∃ s' framed back', handle_extend ctx r (ExtendForward_encode ext) s = (s', Ok Continue) ∧
    io_log s' = io_log s ++ [DialTls (next_hop ext) (tls_name e); WriteNext [PROTO_RELAY];
      WriteNext [CIRCUIT_START]; WriteNext (noise_msg1 ext); FlushNext; WriteIn framed; FlushIn] ∧
    next_link s' = Some (mkNextLink (link_cell_len (inbound_layers r - 1)) msg2) ∧
    peel framed (inbound_layers r) back = (back', Ok (ToMe (mkCell Extend msg2))) ∧
    paired k (transport s') back'.
Proof.
  intros Hr Hwf Hcanon Hpair Hnext Hdoc He Hmsg2 Hscript.
  destruct (handle_extend_courier k ctx r s back ext doc e msg2) as (s' & f & b & ? & ? & ? & _ & ? & ? & _); eauto 10.
Qed.

Definition sample_next : SocketAddr := mkSocketAddr (V4 (Ipv4 x0a x02 x02 x01)) 443.
Definition sample_ext : ExtendForward := mkExtendForward sample_next (replicate 48 x0d).

Lemma extend_is_courier_witness :
  ∃ s' framed back',
    handle_extend (sample_ctx Guard) Guard (ExtendForward_encode sample_ext)
      (sample_io [Fine; Fine; Fine; Fine; Fine; Got (replicate 48 x0e)]) = (s', Ok Continue) ∧
    peel framed 3 sample_tx = (back', Ok (ToMe (mkCell Extend (replicate 48 x0e)))).
Proof.
  destruct (extend_is_courier 0 (sample_ctx Guard) Guard
    (sample_io [Fine; Fine; Fine; Fine; Fine; Got (replicate 48 x0e)]) sample_tx sample_ext sample_verified
    (SampleReg.relay_of 2 2 "middle") (replicate 48 x0e)) as (s' & framed & back' & Hh & _ & _ & Hp & _).
  - discriminate.
  - split; [split; [exact I|vm_compute; split; congruence]|reflexivity].
  - vm_compute. reflexivity.
  - split; vm_compute; split; reflexivity.
  - reflexivity.
  - vm_compute. reflexivity.
  - vm_compute. reflexivity.
  - reflexivity.
  - reflexivity.
  - exists s', framed, back'. split; [exact Hh|exact Hp].
Defined.

(** A destination that closed does not leave the circuit usable for the
    client's remaining bytes, although the comment at that branch says that it
    is kept alive for them: after the destination's end of stream the next
    non-empty DATA cell, correctly sealed, ends the circuit as illegal; an empty
    one is still a no-op. *)
Theorem data_after_destination_closed `{SnowLaws, Sha256, Ed25519, UrlParser} k ctx s client p :
  chan (S k) client (transport s) → is_some (dest_link s) = true → length p ≤ CELL_PAYLOAD_LEN →
  ∃ client' wire s', seal_to_me (mkCell Data p) 1 client = (client', Ok wire) ∧
    run_circuit_io ctx Exit [DestBytes []; InFrame wire] s =
      (s', match p with [] => Ok Continue | _ => Err (IllegalCellForRole Data Exit) end).
Proof.
  intros Hchan Hdest Hp.
  destruct (seal_to_me_peel k client (transport s) (mkCell Data p) 1 Hchan ltac:(unfold MAX_LAYERS; lia) Hp)
    as (client' & t' & wire & Hseal & _ & Hpeel & _).
  exists client', wire. unfold run_circuit_io, io_turn, get_io, mbind, st_bind. rewrite Hdest.
  unfold handle_dest, perform_ignored, on_net, on_field, attempt, mbind, st_bind, put_dest, mret, st_ret.
  destruct (script (io_net s)) as [|x rest]; simpl;
    unfold handle_inbound, on_transport, on_field, st_map_err, mbind, st_bind; simpl; rewrite Hpeel; simpl;
    unfold handle_cell, handle_data; destruct p; simpl; eauto.
Qed.

Lemma data_after_destination_closed_witness :
  ∃ client' wire s', seal_to_me (mkCell Data [x41]) 1 sample_tx = (client', Ok wire) ∧
    run_circuit_io (sample_ctx Exit) Exit [DestBytes []; InFrame wire]
      (mkCircuitIo sample_rx None (Some 0) (mkNet [] [])) = (s', Err (IllegalCellForRole Data Exit)).
Proof.
  apply (data_after_destination_closed 0 (sample_ctx Exit) (mkCircuitIo sample_rx None (Some 0) (mkNet [] []))
    sample_tx [x41]).
  - vm_compute. split; reflexivity.
  - reflexivity.
  - vm_compute. lia.
Defined.
