(* ===== verification/StaticKey.v ===== *)
(** QuietHop: the relay's static key file.

    [generate] and [load] of [relay/src/static_key.rs], on the disk of
    [State]: every operation takes its verdict from the disk's script of
    faults.  A key file is the private half followed by the public half. *)

From S2P Require Import Prelude Bytes Text NetAddr Cell Noise SampleNoise Civil State.

#[local] Open Scope Z_scope.

Definition KEY_FILE_LEN : nat := STATIC_KEY_LEN * 2.
Definition REQUIRED_MODE : Z := 384. (* 0o600 *)

(** The errors, without the path they all carry. *)
Inductive StaticKeyError :=
  | Missing
  | Unreadable (e : io_error)
  | Mode (mode : Z)
  | KeyFileLength (got : nat)
  | Mismatched
  | Exists_
  | Generate
  | WriteFailed (e : io_error).

(** ** The file operations the module adds *)

(** [OpenOptions] with write, [create_new] and a mode. *)
Definition fs_create_new (path : string) (mode : Z) : st disk io_error unit :=
  v ← next_fault;
  m ← get_files;
  match v, m !! path with
  | Fails _, _ => fail IoOther
  | Works, Some _ => fail AlreadyExists
  | Works, None => modify_files <[path := mkFile [] mode false]>
  end.

(** [File::flush]: a no-op on an unbuffered file. *)
Definition fs_flush : st disk io_error unit := fs_simple id.

(** [std::fs::metadata], for the mode. *)
Definition fs_metadata (path : string) : st disk io_error Z :=
  v ← next_fault;
  m ← get_files;
  match v, m !! path with
  | Fails _, _ => fail IoOther
  | Works, None => fail NotFound
  | Works, Some f => mret (f_mode f)
  end.

(** [std::fs::File::open]. *)
Definition fs_open (path : string) : st disk io_error unit := _ ← fs_metadata path; mret ().

Section static_key.
Context `{Snow}.

Definition key_generate (path : string) (rng : list byte) : st disk StaticKeyError string :=
  kp ← lift (map_err (λ _, Generate) (generate_static_keypair rng));
  _ ← st_map_err (λ e, match e with AlreadyExists => Exists_ | e => WriteFailed e end)
        (fs_create_new path REQUIRED_MODE);
  buf ← lift (copy_at (replicate KEY_FILE_LEN x00) 0 STATIC_KEY_LEN (kp_private kp));
  buf ← lift (copy_at buf STATIC_KEY_LEN KEY_FILE_LEN (kp_public kp));
  _ ← st_map_err WriteFailed (_ ← fs_write_all path buf; fs_flush);
  mret (hex_of (kp_public kp)).

(** [mode & !REQUIRED_MODE != 0]. *)
Definition too_loose (mode : Z) : bool := negb (Z.land mode (Z.lnot REQUIRED_MODE) =? 0).

Definition key_load (path : string) (rng_i rng_r : list byte) : st disk StaticKeyError StaticKeypair :=
  full ← st_map_err (λ e, match e with NotFound => Missing | e => Unreadable e end) (fs_metadata path);
  let mode := Z.land full 4095 in
  if too_loose mode then fail (Mode mode) else
  _ ← st_map_err Unreadable (fs_open path);
  buf ← st_map_err Unreadable (fs_read path);
  if negb (length buf =? KEY_FILE_LEN)%nat then fail (KeyFileLength (length buf)) else
  private ← lift (slice_to buf STATIC_KEY_LEN);
  public ← lift (slice_from buf STATIC_KEY_LEN);
  lift (map_err (λ _, Mismatched) (StaticKeypair_from_parts private public rng_i rng_r)).
End static_key.

(** ** Lemmas *)

Lemma fs_create_new_cases path mode d :
  ∃ r, (fs_create_new path mode d = (mkDisk (files d) r, Err IoOther)) ∨
       (is_Some (files d !! path) ∧ fs_create_new path mode d = (mkDisk (files d) r, Err AlreadyExists)) ∨
       (files d !! path = None ∧
        fs_create_new path mode d = (mkDisk (<[path := mkFile [] mode false]> (files d)) r, Ok ())).
Proof.
  unfold fs_create_new, next_fault, get_files, mbind, st_bind.
  destruct d as [m [|[|n] r]]; simpl; destruct (m !! path) eqn:Hp; simpl; eauto 10.
Qed.

(** A read-only operation fails or looks the file up. *)
Lemma fs_metadata_cases path d :
  ∃ r, fs_metadata path d = (mkDisk (files d) r, Err IoOther) ∧ faults d ≠ [] ∨
       fs_metadata path d = (mkDisk (files d) r,
         match files d !! path with Some f => Ok (f_mode f) | None => Err NotFound end) ∧ r = tail (faults d).
Proof.
  unfold fs_metadata, next_fault, get_files, mbind, st_bind.
  destruct d as [m [|[|n] r]]; simpl; destruct (m !! path) eqn:Hp; simpl; eauto.
Qed.

Lemma fs_open_cases path d f :
  files d !! path = Some f →
  ∃ r, fs_open path d = (mkDisk (files d) r, Err IoOther) ∧ faults d ≠ [] ∨
       fs_open path d = (mkDisk (files d) r, Ok ()) ∧ r = tail (faults d).
Proof.
  intros Hp. unfold fs_open, mbind, st_bind. destruct (fs_metadata_cases path d) as [r [[-> ?]|[-> ?]]]; eauto.
  exists r. right. by rewrite Hp.
Qed.

Lemma fs_read_cases path d f :
  files d !! path = Some f →
  ∃ r, fs_read path d = (mkDisk (files d) r, Err IoOther) ∧ faults d ≠ [] ∨
       fs_read path d = (mkDisk (files d) r, Ok (f_data f)) ∧ r = tail (faults d).
Proof.
  intros Hp. unfold fs_read, next_fault, get_files, mbind, st_bind.
  destruct d as [m [|[|n] r]]; simpl in *; rewrite ?Hp; simpl; eauto.
Qed.

(** A file with no permission beyond the owner's read and write. *)
Lemma too_loose_spec mode :
  too_loose mode = false ↔ ∀ i, 0 ≤ i → Z.testbit mode i = true → i = 7 ∨ i = 8.
Proof.
  unfold too_loose. rewrite negb_false_iff, Z.eqb_eq. split.
  - intros Hz i Hi Hb. assert (Ht : Z.testbit (Z.land mode (Z.lnot REQUIRED_MODE)) i = false) by (by rewrite Hz, Z.bits_0).
    rewrite Z.land_spec, Hb, Z.lnot_spec in Ht by done. cbn [andb] in Ht. apply negb_false_iff in Ht.
    destruct (decide (i < 9)) as [Hlt|Hge].
    + assert (Hc : i = 0 ∨ i = 1 ∨ i = 2 ∨ i = 3 ∨ i = 4 ∨ i = 5 ∨ i = 6 ∨ i = 7 ∨ i = 8) by lia.
      destruct_or! Hc; subst i; vm_compute in Ht; first [discriminate|lia].
    + rewrite Z.bits_above_log2 in Ht; [done|done|]. vm_compute (Z.log2 _). lia.
  - intros Hall. apply Z.bits_inj'. intros i Hi. rewrite Z.bits_0, Z.land_spec, Z.lnot_spec by done.
    destruct (Z.testbit mode i) eqn:Hb; [|done]. by destruct (Hall i Hi Hb) as [-> | ->].
Qed.

Section static_key_lemmas.
Context `{Snow}.

(** The two halves side by side. *)
Lemma key_buffer kp :
  length (kp_private kp) = STATIC_KEY_LEN → length (kp_public kp) = STATIC_KEY_LEN →
  ∃ buf, copy_at (E:=StaticKeyError) (replicate KEY_FILE_LEN x00) 0 STATIC_KEY_LEN (kp_private kp) = Ok buf ∧
         copy_at (E:=StaticKeyError) buf STATIC_KEY_LEN KEY_FILE_LEN (kp_public kp) = Ok (kp_private kp ++ kp_public kp).
Proof.
  intros Hp Hq. rewrite copy_at_in_range by (rewrite ?Hp, ?length_replicate; unfold KEY_FILE_LEN, STATIC_KEY_LEN; lia).
  eexists. split; [done|]. rewrite take_0, app_nil_l. rewrite copy_at_in_range
    by (rewrite ?Hq, ?length_app, ?Hp, ?length_drop, ?length_replicate; unfold KEY_FILE_LEN; lia).
  rewrite (take_app_length' (kp_private kp)) by done. f_equal. f_equal.
  rewrite drop_ge; [by rewrite app_nil_r|]. rewrite length_app, Hp, length_drop, length_replicate. unfold KEY_FILE_LEN. lia.
Qed.

(** The verdict [load] gives on the file it finds. *)
Definition key_verdict (o : option file) (rng_i rng_r : list byte) : outcome StaticKeyError StaticKeypair :=
  match o with
  | None => Err Missing
  | Some f =>
      if too_loose (Z.land (f_mode f) 4095) then Err (Mode (Z.land (f_mode f) 4095)) else
      if (length (f_data f) =? KEY_FILE_LEN)%nat
      then map_err (λ _, Mismatched) (StaticKeypair_from_parts (take STATIC_KEY_LEN (f_data f))
             (drop STATIC_KEY_LEN (f_data f)) rng_i rng_r)
      else Err (KeyFileLength (length (f_data f)))
  end.

Lemma key_verdict_Ok o rng_i rng_r kp :
  key_verdict o rng_i rng_r = Ok kp →
  ∃ f, o = Some f ∧ f_data f = kp_private kp ++ kp_public kp ∧ length (f_data f) = KEY_FILE_LEN ∧
    ∀ i, 0 ≤ i < 12 → Z.testbit (f_mode f) i = true → i = 7 ∨ i = 8.
Proof.
  destruct o as [f|]; [|done]. simpl. intros Hkp. exists f. destruct (too_loose _) eqn:Hm; [done|].
  destruct (Nat.eqb_spec (length (f_data f)) KEY_FILE_LEN) as [Hl|]; [|done].
  split_and!; [done| |done|].
  - apply map_err_Ok in Hkp. unfold StaticKeypair_from_parts in Hkp. ok_inv. by rewrite take_drop.
  - intros i Hi Hb. apply (proj1 (too_loose_spec _) Hm); [lia|].
    rewrite Z.land_spec, Hb. change 4095 with (Z.ones 12). rewrite Z.ones_spec_low by lia. done.
Qed.

Lemma key_load_cases path rng_i rng_r d :
  ∃ r, key_load path rng_i rng_r d = (mkDisk (files d) r, Err (Unreadable IoOther)) ∧ faults d ≠ [] ∨
       key_load path rng_i rng_r d = (mkDisk (files d) r, key_verdict (files d !! path) rng_i rng_r) ∧
       (faults d = [] → r = []).
Proof.
  unfold key_load, mbind, st_bind, st_map_err.
  destruct (fs_metadata_cases path d) as [r1 [[-> ?]|[-> ->]]]; [exists r1; by left|].
  destruct (files d !! path) as [f|] eqn:Hp; [|eexists; right; split; [done|by intros ->]]. cbn [map_err key_verdict].
  destruct (too_loose _); [eexists; right; split; [done|by intros ->]|].
  destruct (fs_open_cases path (mkDisk (files d) (tail (faults d))) f Hp) as [r2 [[-> Hn]|[-> ->]]].
  { exists r2. left. split; [done|]. intros E. by rewrite E in Hn. }
  cbn [map_err files faults].
  destruct (fs_read_cases path (mkDisk (files d) (tail (tail (faults d)))) f Hp) as [r3 [[-> Hn]|[-> ->]]].
  { exists r3. left. split; [done|]. intros E. by rewrite E in Hn. }
  exists (tail (tail (tail (faults d)))). right. split; [|by intros ->]. cbn [map_err files faults].
  destruct (Nat.eqb_spec (length (f_data f)) KEY_FILE_LEN) as [Hl|]; cbn [negb]; [|done].
  unfold slice_to, slice_from, lift. rewrite !slice_in_range by (rewrite ?Hl; unfold KEY_FILE_LEN; lia).
  rewrite drop_0, Nat.sub_0_r. rewrite (take_ge (drop _ _)) by (rewrite length_drop; lia). done.
Qed.

(** The file [generate] leaves behind when all of it works. *)
Definition key_file (kp : StaticKeypair) : file := mkFile (kp_private kp ++ kp_public kp) REQUIRED_MODE false.

(** All that [generate] can do to the files, whatever fails. *)
Lemma key_generate_cases path rng d kp :
  generate_static_keypair rng = Ok kp →
  length (kp_private kp) = STATIC_KEY_LEN → length (kp_public kp) = STATIC_KEY_LEN →
  ∃ r, key_generate path rng d = (mkDisk (files d) r, Err (WriteFailed IoOther)) ∨
       (is_Some (files d !! path) ∧ key_generate path rng d = (mkDisk (files d) r, Err Exists_)) ∨
       (files d !! path = None ∧ ∃ n,
          key_generate path rng d =
            (mkDisk (<[path := mkFile (take n (f_data (key_file kp))) REQUIRED_MODE false]> (files d)) r,
             Err (WriteFailed IoOther))) ∨
       (files d !! path = None ∧
          key_generate path rng d = (mkDisk (<[path := key_file kp]> (files d)) r, Ok (hex_of (kp_public kp)))).
Proof.
  intros Hg Hp Hq. destruct (key_buffer kp Hp Hq) as (buf & Hb & Hb').
  unfold key_generate. erewrite st_bind_Ok_eq by (rewrite lift_eq, Hg; done).
  destruct (fs_create_new_cases path REQUIRED_MODE d) as [r1 [E1|[[He E1]|[Hn E1]]]].
  1-2: erewrite st_bind_Err_eq by (by apply st_map_err_Err_eq); eauto 10.
  erewrite st_bind_Ok_eq by (by apply st_map_err_Ok_eq).
  erewrite st_bind_Ok_eq by (rewrite lift_eq, Hb; done). erewrite st_bind_Ok_eq by (rewrite lift_eq, Hb'; done).
  set (m1 := <[path := _]> (files d)).
  destruct (fs_write_all_cases path (kp_private kp ++ kp_public kp) (mkDisk m1 r1)) as (r2 & n & [E2|E2]).
  - exists r2. right. right. left. split; [done|]. exists n.
    erewrite st_bind_Err_eq by (apply st_map_err_Err_eq; by erewrite st_bind_Err_eq by exact E2).
    unfold m1; simpl. by rewrite alter_insert_eq.
  - set (m2 := alter _ _ _) in E2.
    assert (Em : m2 = <[path := key_file kp]> (files d)) by (unfold m2, m1; simpl; by rewrite alter_insert_eq).
    destruct (fs_simple_cases id (mkDisk m2 r2)) as [r3 [E3|E3]]; exists r3; right; right.
    + left. split; [done|]. exists (length (f_data (key_file kp))). rewrite firstn_all.
      erewrite st_bind_Err_eq by (apply st_map_err_Err_eq; erewrite st_bind_Ok_eq by exact E2; exact E3).
      simpl. by rewrite Em.
    + right. split; [done|].
      erewrite st_bind_Ok_eq by (apply st_map_err_Ok_eq; erewrite st_bind_Ok_eq by exact E2; exact E3).
      simpl. by rewrite Em.
Qed.
End static_key_lemmas.

(** ** Theorems *)

Section static_key_theorems.
Context `{SnowLaws}.

(** C39. [load] never changes a file, never panics on a file that is there, and
    returns a pair only from a file that opens nothing to group or others,
    holds exactly the two halves, and passes the handshake self-test; each
    other state of the file has its own error, and an I/O failure is
    [Unreadable]. *)
Theorem key_load_exact path rng_i rng_r d :
  let '(d', r) := key_load path rng_i rng_r d in
  files d' = files d ∧
  (r = Err (Unreadable IoOther) ∧ faults d ≠ [] ∨ r = key_verdict (files d !! path) rng_i rng_r) ∧
  (∀ kp, r = Ok kp → ∃ f, files d !! path = Some f ∧ f_data f = kp_private kp ++ kp_public kp ∧
     length (f_data f) = KEY_FILE_LEN ∧
     (∀ i, 0 ≤ i < 12 → Z.testbit (f_mode f) i = true → i = 7 ∨ i = 8)).
Proof.
  destruct (key_load_cases path rng_i rng_r d) as [r [[-> Hf]|[-> _]]]; [naive_solver|].
  split_and!; [done|by right|]. intros kp Hkp%key_verdict_Ok. done.
Qed.

(** [generate] never touches another file, nor an existing one: when the path
    is taken it fails with [Exists].  It succeeds exactly by creating the
    whole key file with mode 0600, and what it returns is the public half in
    hex; when a write fails, the file it created holds a prefix of the key,
    still with mode 0600. *)
Theorem key_generate_exclusive path rng d :
  ∃ kp, generate_static_keypair rng = Ok kp ∧
  let '(d', r) := key_generate path rng d in
  (∀ p, p ≠ path → files d' !! p = files d !! p) ∧
  (is_Some (files d !! path) → files d' = files d ∧ (r = Err Exists_ ∨ r = Err (WriteFailed IoOther))) ∧
  (files d !! path = None →
     (r = Ok (hex_of (kp_public kp)) ∧ files d' !! path = Some (key_file kp)) ∨
     (r = Err (WriteFailed IoOther) ∧
        ∀ f, files d' !! path = Some f → f_mode f = REQUIRED_MODE ∧ f_data f `prefix_of` f_data (key_file kp))).
Proof.
  destruct (generate_static_keypair_Ok rng) as (kp & Hg & Hk & Hp & Hq). exists kp. split; [done|].
  destruct (key_generate_cases path rng d kp Hg Hp Hq) as [r [->|[[[f Hf] ->]|[[Hn [n ->]]|[Hn ->]]]]].
  - split_and!; [done|by auto|]. intros Hn. right. split; [done|]. intros f Hf. simpl in Hf. by rewrite Hn in Hf.
  - split_and!; [done|by auto|]. by rewrite Hf.
  - split_and!; [by intros; simplify_map_eq|rewrite Hn; by intros []|].
    intros _. right. split; [done|]. intros f Hf. simplify_map_eq. split; [done|]. apply prefix_take.
  - split_and!; [by intros; simplify_map_eq|rewrite Hn; by intros []|].
    intros _. left. by simplify_map_eq.
Qed.

(** C38. On a disk that works, the key [generate] writes to a free path is the key
    [load] then returns, and the hex it reports is that key's public half. *)
Theorem key_file_round_trip path rng rng_i rng_r d :
  faults d = [] → files d !! path = None →
  ∃ kp d', generate_static_keypair rng = Ok kp ∧
    key_generate path rng d = (d', Ok (hex_of (kp_public kp))) ∧
    files d' = <[path := key_file kp]> (files d) ∧
    key_load path rng_i rng_r d' = (d', Ok kp).
Proof.
  intros Hf Hn. destruct (generate_static_keypair_Ok rng) as (kp & Hg & Hk & Hp & Hq).
  destruct (key_buffer kp Hp Hq) as (buf & Hb & Hb').
  exists kp, (mkDisk (<[path := key_file kp]> (files d)) []). split_and!; [done| |done|].
  - destruct d as [m fs]; simpl in Hf, Hn; subst fs.
    unfold key_generate, fs_create_new, fs_write_all, fs_flush, fs_simple, next_fault, get_files, modify_files,
      mbind, st_bind, st_map_err, lift, mret, st_ret.
    rewrite Hg. cbn [map_err faults files]. rewrite Hn. cbn [map_err faults files]. rewrite Hb, Hb'.
    cbn [map_err faults files]. by rewrite alter_insert_eq.
  - destruct (key_load_cases path rng_i rng_r (mkDisk (<[path := key_file kp]> (files d)) [])) as [r [[_ ?]|[-> Hr]]]; [done|].
    rewrite Hr by done. f_equal. simpl. rewrite lookup_insert_eq. unfold key_verdict, key_file; cbn [f_mode f_data].
    change (too_loose _) with false. cbn [orb]. rewrite length_app, Hp, Hq. cbn [Nat.eqb Nat.add].
    change (_ =? KEY_FILE_LEN)%nat with true. cbn beta iota.
    rewrite take_app_length', drop_app_length' by done. rewrite from_parts_Ok by done. by destruct kp.
Qed.
End static_key_theorems.

Lemma key_file_round_trip_witness :
  ∃ kp d', generate_static_keypair [x01] = Ok kp ∧
    key_generate "static.key" [x01] (mkDisk ∅ []) = (d', Ok (hex_of (kp_public kp))) ∧
    files d' = <[("static.key"%string) := key_file kp]> ∅ ∧
    key_load "static.key" [x02] [x03] d' = (d', Ok kp).
Proof. by apply (key_file_round_trip "static.key" [x01] [x02] [x03] (mkDisk ∅ [])). Defined.
