(* ===== verification/Http.v ===== *)
(** QuietHop: the relay's two small HTTP servers.

    [relay/src/port80.rs] (the redirector to HTTPS) and the endpoint of
    [relay/src/metrics.rs], one connection of each; the loops that accept them
    are in [Shutdown].  A connection is the stream of [Frame], where a
    read that is not ready is the one the timeout cuts off, a log of what was
    written, and a script of failing writes.  The text encoder of the
    [prometheus] crate is the class [TextEncoder]. *)

From S2P Require Import Prelude Bytes Text NetAddr Cell Civil State Registry Config Frame Circuit Token Exit RelayRegistry.
From S2P Require Import Noise Layer Relay.
From stdpp Require Import pretty.

Definition MAX_REQUEST_HEAD : nat := 4096.

(** ** A connection *)

Inductive http_action := HttpWrite (bytes : list byte) | HttpShutdown.

Record http_conn := mkHttp { http_in : source; http_log : list http_action; http_faults : list (option io_error) }.

(** One write or shutdown; an exhausted script means that nothing fails. *)
Definition http_do (a : http_action) : st http_conn io_error unit := λ c,
  match http_faults c with
  | Some e :: r => (mkHttp (http_in c) (http_log c ++ [a]) r, Err e)
  | None :: r => (mkHttp (http_in c) (http_log c ++ [a]) r, Ok ())
  | [] => (mkHttp (http_in c) (http_log c ++ [a]) [], Ok ())
  end.

(** The same, with the result dropped. *)
Definition http_try (a : http_action) : st http_conn io_error unit := λ c, (fst (http_do a c), Ok ()).

(** [timeout(.., sock.read(&mut buf[filled..]))]. *)
Definition http_read (room : nat) : st http_conn io_error (list byte) := λ c,
  let '(s, r) := async_read room (http_in c) in
  (mkHttp s (http_log c) (http_faults c),
   match r with Ready o => o | NotReady => Err TimedOut end).

(** [l.windows(2)] looked through for CR LF: where it is first. *)
Fixpoint find_crlf (l : list byte) : option nat :=
  match l with
  | x0d :: x0a :: _ => Some 0
  | _ :: r => S <$> find_crlf r
  | [] => None
  end.

(** [l.windows(4).any(|w| w == b"\r\n\r\n")]. *)
Fixpoint has_blank_line (l : list byte) : bool :=
  match l with
  | x0d :: x0a :: x0d :: x0a :: _ => true
  | _ :: r => has_blank_line r
  | [] => false
  end.

Definition crlf : list byte := [x0d; x0a].

(** ** [port80.rs] *)

(** The loop of [serve_redirect]; out of fuel is [Panic]. *)
Fixpoint read_head (fuel : nat) (filled : list byte) : st http_conn io_error (list byte) :=
  match fuel with
  | O => lift Panic
  | S fuel =>
      if length filled =? MAX_REQUEST_HEAD then mret filled else
      read ← http_read (MAX_REQUEST_HEAD - length filled);
      match read with
      | [] => mret filled
      | _ =>
          let filled := filled ++ read in
          if has_blank_line filled then mret filled else
          if list_any (λ b, bool_decide (b = x0a)) filled then mret filled else
          read_head fuel filled
      end
  end.

Definition printable (b : byte) : bool := in_range 33 126 b.

(** [l.iter().position(|&b| b == c)]. *)
Fixpoint position (c : byte) (l : list byte) : option nat :=
  match l with
  | [] => None
  | b :: l => if bool_decide (b = c) then Some 0 else S <$> position c l
  end.

Definition ends_with_cr (l : list byte) : bool := bool_decide (last l = Some x0d).

Definition parse_request_path (buf : list byte) : outcome io_error (list byte) :=
  let line_end := Nat.min (default (length buf) (position x0a buf)) (length buf) in
  line ← slice_to buf line_end;
  line ← (if ends_with_cr line then slice_to line (length line - 1) else Ok line);
  let parts := split_on (λ b, bool_decide (b = x20)) line in
  let target := default [x2f] (parts !! 1) in
  if negb (forallb printable target) then Ok [x2f] else
  Ok (match from_utf8 target with Some s => as_bytes s | None => [x2f] end).

Definition redirect_body : list byte := as_bytes "Redirecting to HTTPS" ++ [x0a].

(** The head of the redirect, for a [Location]. *)
Definition redirect_head (location : list byte) : list byte :=
  as_bytes "HTTP/1.1 301 Moved Permanently" ++ crlf ++
  as_bytes "Location: " ++ location ++ crlf ++
  as_bytes "Content-Type: text/plain; charset=utf-8" ++ crlf ++
  as_bytes "Content-Length: 21" ++ crlf ++
  as_bytes "Connection: close" ++ crlf ++ crlf.

Definition serve_redirect (hostname : string) : st http_conn io_error unit :=
  head ← read_head (S MAX_REQUEST_HEAD) [];
  path ← lift (parse_request_path head);
  let location := as_bytes "https://" ++ as_bytes hostname ++ path in
  _ ← http_do (HttpWrite (redirect_head location));
  _ ← http_do (HttpWrite redirect_body);
  http_do HttpShutdown.

(** ** [metrics.rs] *)

(** [prometheus::TextEncoder]: its content type, and the encoding of the
    counters, which can fail. *)
Class TextEncoder := {
  format_type : string;
  encode_families : metrics → option (list byte);
}.

(** The loop of [read_request_path]. *)
Fixpoint read_line (fuel : nat) (buf : list byte) : st http_conn io_error (list byte) :=
  match fuel with
  | O => lift Panic
  | S fuel =>
      read ← http_read (MAX_REQUEST_HEAD - length buf);
      match read with
      | [] => mret buf
      | _ =>
          let buf := buf ++ read in
          if is_some (find_crlf buf) then mret buf else
          if length buf =? MAX_REQUEST_HEAD then fail InvalidData else
          read_line fuel buf
      end
  end.

Definition read_request_path : st http_conn io_error (list byte) :=
  head ← read_line (S MAX_REQUEST_HEAD) [];
  line_end ← lift (ok_or (find_crlf head) InvalidData);
  raw ← lift (slice_to head line_end);
  line ← lift (ok_or (from_utf8 raw) InvalidData);
  let parts := split_on (λ b, bool_decide (b = x20)) (as_bytes line) in
  _ ← lift (ok_or (parts !! 0) InvalidData);
  lift (ok_or (parts !! 1) InvalidData).

Definition response_400 : list byte :=
  as_bytes "HTTP/1.1 400 Bad Request" ++ crlf ++ as_bytes "Content-Length: 0" ++ crlf ++
  as_bytes "Connection: close" ++ crlf ++ crlf.
Definition response_404 : list byte :=
  as_bytes "HTTP/1.1 404 Not Found" ++ crlf ++ as_bytes "Content-Length: 0" ++ crlf ++
  as_bytes "Connection: close" ++ crlf ++ crlf.

Section metrics_endpoint.
Context `{TextEncoder}.

(** [encode_metrics]; its error is [io::Error::other]. *)
Definition encode_metrics (m : metrics) : outcome io_error (list byte) := ok_or (encode_families m) IoOther.

Definition response_200 (body : list byte) : list byte :=
  as_bytes "HTTP/1.1 200 OK" ++ crlf ++ as_bytes "Content-Type: " ++ as_bytes format_type ++ crlf ++
  as_bytes "Content-Length: " ++ as_bytes (pretty (length body)) ++ crlf ++
  as_bytes "Connection: close" ++ crlf ++ crlf.

(** [serve]. *)
Definition metrics_serve (m : metrics) : st http_conn io_error unit := λ c,
  match read_request_path c with
  | (c, Ok path) =>
      ((_ ← (if bool_decide (path = as_bytes "/metrics") then
               body ← lift (encode_metrics m);
               _ ← http_do (HttpWrite (response_200 body));
               http_do (HttpWrite body)
             else http_do (HttpWrite response_404));
        http_do HttpShutdown) : st http_conn io_error unit) c
  | (c, Err e) =>
      ((_ ← http_try (HttpWrite response_400); _ ← http_try HttpShutdown; fail e) : st http_conn io_error unit) c
  | (c, Panic) => (c, Panic)
  end.
End metrics_endpoint.

(** ** Lemmas *)

Lemma async_read_spec room s :
  match async_read room s with
  | (_, Ready (Ok bs)) => length bs ≤ room
  | (_, Ready Panic) => False
  | _ => True
  end.
Proof. destruct s as [|[bs| |e] s]; simpl; try done; [lia|]. rewrite length_take. lia. Qed.

(** What a reading loop leaves alone. *)
Definition same_output (c c' : http_conn) : Prop := http_log c' = http_log c ∧ http_faults c' = http_faults c.

(** Each turn of either loop reads at least one byte of at most
    [MAX_REQUEST_HEAD], so the fuel suffices. *)
Lemma read_head_spec fuel filled c :
  length filled ≤ MAX_REQUEST_HEAD → MAX_REQUEST_HEAD < fuel + length filled →
  let '(c', o) := read_head fuel filled c in
  same_output c c' ∧ match o with Ok h => length h ≤ MAX_REQUEST_HEAD | Err _ => True | Panic => False end.
Proof.
  revert filled c. induction fuel as [|fuel IH]; intros filled c Hl Hf; [lia|]. cbn [read_head].
  destruct (Nat.eqb_spec (length filled) MAX_REQUEST_HEAD); [by split|].
  unfold mbind, st_bind, http_read. pose proof (async_read_spec (MAX_REQUEST_HEAD - length filled) (http_in c)) as Hr.
  destruct (async_read _ _) as [s [|[[|b bs]|e|]]]; try by split.
  assert (length (filled ++ b :: bs) ≤ MAX_REQUEST_HEAD) as Hl' by (rewrite length_app; simpl in *; lia).
  destruct (has_blank_line _); [by split|]. destruct (list_any _ _); [by split|].
  specialize (IH (filled ++ b :: bs) (mkHttp s (http_log c) (http_faults c)) Hl').
  destruct (read_head fuel _ _) as [c' o]. apply IH. rewrite length_app. simpl. lia.
Qed.

Lemma read_line_spec fuel buf c :
  length buf < MAX_REQUEST_HEAD → MAX_REQUEST_HEAD < fuel + length buf →
  let '(c', o) := read_line fuel buf c in same_output c c' ∧ o ≠ Panic.
Proof.
  revert buf c. induction fuel as [|fuel IH]; intros buf c Hl Hf; [lia|]. cbn [read_line].
  unfold mbind, st_bind, http_read. pose proof (async_read_spec (MAX_REQUEST_HEAD - length buf) (http_in c)) as Hr.
  destruct (async_read _ _) as [s [|[[|b bs]|e|]]]; try by split.
  destruct (is_some (find_crlf (buf ++ b :: bs))); [by split|].
  destruct (Nat.eqb_spec (length (buf ++ b :: bs)) MAX_REQUEST_HEAD) as [|Hne]; [by split|].
  specialize (IH (buf ++ b :: bs) (mkHttp s (http_log c) (http_faults c))).
  destruct (read_line fuel _ _) as [c' o]. apply IH; rewrite length_app in *; simpl in *; lia.
Qed.

Lemma position_lt c l n : position c l = Some n → n < length l.
Proof.
  revert n. induction l as [|b l IH]; intros n; simpl; [done|]. case_bool_decide; [intros [= <-]; lia|].
  destruct (position c l) as [k|]; simpl; intros; simplify_eq. specialize (IH k eq_refl). lia.
Qed.

(** A path that is reflected is printable, whatever was sent. *)
Lemma parse_request_path_spec buf : ∃ p, parse_request_path buf = Ok p ∧ forallb printable p = true.
Proof.
  unfold parse_request_path.
  assert (∃ line, slice_to (E:=io_error) buf (Nat.min (default (length buf) (position x0a buf)) (length buf)) = Ok line)
    as [line ->] by (unfold slice_to; rewrite slice_in_range by lia; eauto).
  cbn [mbind outcome_bind].
  assert (∃ line', (if ends_with_cr line then slice_to (E:=io_error) line (length line - 1) else Ok line) = Ok line')
    as [line' ->] by (destruct (ends_with_cr line); [unfold slice_to; rewrite slice_in_range by lia|]; eauto).
  cbn [mbind outcome_bind]. destruct (forallb printable _) eqn:Hp; cbn [negb]; [|by eexists].
  eexists. split; [done|]. destruct (from_utf8 _) as [s|] eqn:Hu; [|done].
  apply from_utf8_Some in Hu as [-> _]. exact Hp.
Qed.

Lemma find_crlf_lt l n : find_crlf l = Some n → n < length l.
Proof.
  revert n. induction l as [|b l IH]; intros n; [done|].
  assert (S <$> find_crlf l = Some n → n < length (b :: l)) as Hrest.
  { destruct (find_crlf l) as [k|]; simpl; intros; simplify_eq. specialize (IH k eq_refl). lia. }
  destruct b; try exact Hrest. destruct l as [|b' l]; [done|].
  destruct b'; try exact Hrest. simpl. intros [= <-]. lia.
Qed.

Lemma read_request_path_spec c :
  let '(c', o) := read_request_path c in same_output c c' ∧ o ≠ Panic.
Proof.
  unfold read_request_path, mbind, st_bind.
  pose proof (read_line_spec (S MAX_REQUEST_HEAD) [] c ltac:(cbn [length]; unfold MAX_REQUEST_HEAD; lia) ltac:(cbn [length]; lia)) as Hr.
  destruct (read_line _ _ _) as [c1 [head|e|]]; [|done|done]. destruct Hr as [Hs _]. unfold lift.
  destruct (find_crlf head) as [n|] eqn:Hf; simpl; [|done]. apply find_crlf_lt in Hf.
  unfold slice_to. rewrite slice_in_range by lia. destruct (from_utf8 _) as [s|]; simpl; [|done].
  destruct (split_on _ _) as [|p0 [|p1 ps]]; done.
Qed.

(** What a sequence of writes logs, if some of them fail. *)
Lemma http_do_cases a c :
  ∃ r, http_do a c = (mkHttp (http_in c) (http_log c ++ [a]) r, Ok ()) ∨
       ∃ e, http_do a c = (mkHttp (http_in c) (http_log c ++ [a]) r, Err e).
Proof. unfold http_do. destruct (http_faults c) as [|[e|] r]; eauto. Qed.

(** [acts] was attempted in order, up to the first failure. *)
Definition attempted (c c' : http_conn) (o : outcome io_error unit) (acts : list http_action) : Prop :=
  ∃ n, http_log c' = http_log c ++ take n acts ∧ 0 < n ≤ length acts ∧
       match o with Ok _ => n = length acts | Err _ => True | Panic => False end.

(** [m] attempts [acts], from any connection. *)
Definition attempts (m : st http_conn io_error unit) (acts : list http_action) : Prop :=
  ∀ c, let '(c', o) := m c in attempted c c' o acts.

Lemma attempts_run m acts c c' o : attempts m acts → m c = (c', o) → attempted c c' o acts.
Proof. intros Hm Hc. specialize (Hm c). by rewrite Hc in Hm. Qed.

Lemma attempts_do a : attempts (http_do a) [a].
Proof.
  intros c. destruct (http_do_cases a c) as (r & [->|[e ->]]); exists 1; split_and!; simpl; try done; lia.
Qed.

Lemma attempts_bind m1 m2 acts1 acts2 :
  attempts m1 acts1 → attempts m2 acts2 → attempts (_ ← m1; m2) (acts1 ++ acts2).
Proof.
  intros H1 H2 c. specialize (H1 c). unfold mbind, st_bind.
  destruct (m1 c) as [c1 [[]|e|]]; destruct H1 as (n & Hl & Hn & Ho); [|exists n|done].
  - specialize (H2 c1). destruct (m2 c1) as [c' o]. destruct H2 as (k & Hk & Hkn & Hko). exists (n + k).
    rewrite Hk, Hl, Ho, firstn_all, <- app_assoc, take_app_add, length_app. split_and!; [done|lia|lia|].
    by destruct o; try lia.
  - rewrite Hl, length_app. rewrite take_app_le by lia. split_and!; [done|lia|lia|done].
Qed.

(** ** Properties *)

(** The redirector cannot be made to send anything but its own redirect.
    Whatever bytes, errors and timeouts a peer produces, serving one connection
    ends, without a panic, after at most [MAX_REQUEST_HEAD] bytes read; and it
    writes nothing at all, or the fixed 301 response whose [Location] is the
    relay's own name followed by a path of printable ASCII only, so that no
    header or second response can be injected. *)
Theorem redirect_is_fixed hostname c :
  let '(c', o) := serve_redirect hostname c in
  (http_log c' = http_log c ∧ is_err o = true) ∨
  ∃ path, forallb printable path = true ∧
    attempted c c' o [HttpWrite (redirect_head (as_bytes "https://" ++ as_bytes hostname ++ path));
                      HttpWrite redirect_body; HttpShutdown].
Proof.
  unfold serve_redirect. unfold mbind at 1, st_bind at 1.
  pose proof (read_head_spec (S MAX_REQUEST_HEAD) [] c ltac:(cbn [length]; lia) ltac:(cbn [length]; lia)) as Hr.
  destruct (read_head _ _ c) as [c1 [head|e|]]; [|by left; destruct Hr as [[? _] _]|by destruct Hr].
  destruct Hr as [[Hlog _] _]. destruct (parse_request_path_spec head) as (path & -> & Hp).
  erewrite st_bind_Ok_eq by apply lift_eq.
  match goal with |- let '(_, _) := ?t in _ => destruct t as [c' o] eqn:Hc end.
  right. exists path. split; [done|]. unfold attempted. rewrite <- Hlog.
  refine (attempts_run _ [_; _; _] c1 c' o (attempts_bind _ _ [_] [_; _] (attempts_do _)
    (attempts_bind _ _ [_] [_] (attempts_do _) (attempts_do _))) Hc).
Qed.

(** The metrics endpoint discloses the counters to a request for exactly
    [/metrics] and answers everything else, without a panic, with a fixed
    response: 404 for another path, 400 for a request line that does not arrive
    or does not parse. *)
Theorem metrics_endpoint_answers `{TextEncoder} m c :
  let '(c', o) := metrics_serve m c in
  match snd (read_request_path c) with
  | Ok path =>
      if bool_decide (path = as_bytes "/metrics") then
        match encode_metrics m with
        | Ok body => attempted c c' o [HttpWrite (response_200 body); HttpWrite body; HttpShutdown]
        | _ => http_log c' = http_log c ∧ is_err o = true
        end
      else attempted c c' o [HttpWrite response_404; HttpShutdown]
  | Err e => http_log c' = http_log c ++ [HttpWrite response_400; HttpShutdown] ∧ o = Err e
  | Panic => False
  end.
Proof.
  unfold metrics_serve. pose proof (read_request_path_spec c) as Hr.
  destruct (read_request_path c) as [c1 [path|e|]]; destruct Hr as [[Hlog _] Hp]; [| |done]; cbn [snd].
  - unfold attempted. rewrite <- Hlog. case_bool_decide.
    + destruct (encode_metrics m) as [body|e|] eqn:He; [|done|by unfold encode_metrics in He; destruct (encode_families m)].
      exact (attempts_bind _ _ [_; _] [_] (attempts_bind _ _ [_] [_] (attempts_do _) (attempts_do _)) (attempts_do _) c1).
    + exact (attempts_bind _ _ [_] [_] (attempts_do _) (attempts_do _) c1).
  - unfold http_try, mbind, st_bind. cbn [fst].
    destruct (http_do_cases (HttpWrite response_400) c1) as (r & [->|[e' ->]]); cbn [fst];
      (match goal with |- context [http_do HttpShutdown ?c2] =>
         destruct (http_do_cases HttpShutdown c2) as (r' & [->|[e'' ->]]) end); cbn; rewrite Hlog, <- app_assoc; done.
Qed.
