(* ===== verification/Metrics.v ===== *)
(** QuietHop: the relay's counters.

    The statics of [relay/src/metrics.rs], their lazy registration with the
    [prometheus] crate, [init], and the two recording functions.  A [OnceLock]
    is an option that [get_or_init] fills once; a registration that fails is the
    panic of its [expect].  What the crate's registry says to a registration is
    the class [Prometheus].  The record [metrics] of [Relay] is the
    specification: four numbers. *)

From S2P Require Import Prelude Bytes Text NetAddr Cell Civil State Registry Config Frame Circuit Token Exit RelayRegistry.
From S2P Require Import Noise Layer Relay.

(** The series of a collector and their values are a map: a counter has one
    series, without a label; a vector those of its labels that were asked for.
    [Registry::register] of a new collector, by its name and labels, [None]
    when the names are not valid or the name is taken; and [Registry::gather],
    which reads what the registered collectors hold now. *)
Class Prometheus := {
  prom_registry : Type;
  Registry_new : prom_registry;
  valid_names : string → list string → bool;
  register : string → list string → prom_registry → option prom_registry;
  gather : prom_registry → (string → gmap (option string) nat) → list (string * gmap (option string) nat);
}.
(** A family is gathered when its collector is registered and has a series:
    vectors without one are skipped. *)
Class PrometheusLaws `{Prometheus} := {
  registered : prom_registry → list string;
  registered_new : registered Registry_new = [];
  register_fresh name labels r :
    valid_names name labels = true → name ∉ registered r →
    ∃ r', register name labels r = Some r' ∧ registered r' = registered r ++ [name];
  gather_registered r held name ss :
    (name, ss) ∈ gather r held ↔ name ∈ registered r ∧ ss = held name ∧ ss ≠ ∅;
}.

Definition VERIFIED_NAME : string := "quiethop_tokens_verified_total".
Definition REJECTED_NAME : string := "quiethop_tokens_rejected_total".

(** The label [record_rejected] chooses. *)
Definition reason (e : TokenError) : string :=
  match e with
  | InvalidSignature => "invalid_signature"
  | Replayed => "replayed"
  | TokenTooShort => "token_too_short"
  end.

Section statics.
Context `{Prometheus}.

(** The three [OnceLock]s; a counter is its value, a vector the series that
    exist with theirs. *)
Record statics := mkStatics {
  REGISTRY : option prom_registry; TOKENS_VERIFIED : option nat; TOKENS_REJECTED : option (gmap string nat);
}.

(** The process starts. *)
Definition statics_new : statics := mkStatics None None None.

Definition registry : st statics io_error prom_registry := λ s,
  match REGISTRY s with
  | Some r => (s, Ok r)
  | None => (mkStatics (Some Registry_new) (TOKENS_VERIFIED s) (TOKENS_REJECTED s), Ok Registry_new)
  end.

Definition modify_statics (f : statics → statics) : st statics io_error unit := λ s, (f s, Ok ()).
Definition set_registry (r : prom_registry) (s : statics) : statics :=
  mkStatics (Some r) (TOKENS_VERIFIED s) (TOKENS_REJECTED s).
Definition set_verified (n : nat) (s : statics) : statics := mkStatics (REGISTRY s) (Some n) (TOKENS_REJECTED s).
Definition set_rejected (c : gmap string nat) (s : statics) : statics := mkStatics (REGISTRY s) (TOKENS_VERIFIED s) (Some c).

(** [registry().register(..).expect(..)]. *)
Definition register_or_panic (name : string) (labels : list string) : st statics io_error unit :=
  r ← registry;
  match register name labels r with
  | Some r => modify_statics (set_registry r)
  | None => lift Panic
  end.

Definition tokens_verified : st statics io_error nat := λ s,
  match TOKENS_VERIFIED s with
  | Some n => (s, Ok n)
  | None => (_ ← register_or_panic VERIFIED_NAME []; _ ← modify_statics (set_verified 0); mret 0) s
  end.

(** [with_label_values]: the series exists from then on. *)
Definition with_label_values (label : string) (vec : gmap string nat) : gmap string nat :=
  <[label := default 0 (vec !! label)]> vec.

Definition tokens_rejected : st statics io_error (gmap string nat) := λ s,
  match TOKENS_REJECTED s with
  | Some c => (s, Ok c)
  | None => (_ ← register_or_panic REJECTED_NAME ["reason"];
             let c := with_label_values "token_too_short" (with_label_values "replayed"
                        (with_label_values "invalid_signature" ∅)) in
             _ ← modify_statics (set_rejected c); mret c) s
  end.

Definition metrics_init : st statics io_error unit :=
  _ ← tokens_verified; _ ← tokens_rejected; mret ().

Definition count_verified : st statics io_error unit :=
  n ← tokens_verified; modify_statics (set_verified (S n)).

Definition count_rejected (e : TokenError) : st statics io_error unit :=
  c ← tokens_rejected;
  let c := with_label_values (reason e) c in
  modify_statics (set_rejected (<[reason e := S (default 0 (c !! reason e))]> c)).

(** What the collector of a name holds. *)
Definition held_by (s : statics) (name : string) : gmap (option string) nat :=
  if String.eqb name VERIFIED_NAME then from_option (λ n, {[None := n]}) ∅ (TOKENS_VERIFIED s)
  else if String.eqb name REJECTED_NAME then kmap Some (default ∅ (TOKENS_REJECTED s)) else ∅.

(** [registry().gather()], the first line of [encode_metrics]. *)
Definition gather_families : st statics io_error (list (string * gmap (option string) nat)) :=
  r ← registry; (λ s, (s, Ok (gather r (held_by s)))) : st statics io_error _.

(** ** Histories *)

Inductive metrics_call := MInit | MVerified | MRejected (e : TokenError).

Definition metrics_do (c : metrics_call) : st statics io_error unit :=
  match c with MInit => metrics_init | MVerified => count_verified | MRejected e => count_rejected e end.

Fixpoint metrics_run (cs : list metrics_call) : st statics io_error unit :=
  match cs with [] => mret () | c :: cs => _ ← metrics_do c; metrics_run cs end.

(** The specification. *)
Definition metrics_spec (c : metrics_call) (m : metrics) : metrics :=
  match c with MInit => m | MVerified => record_verified m | MRejected e => record_rejected e m end.

(** The numbers the statics hold. *)
Definition counts (s : statics) : metrics :=
  let count r := default 0 (c ← TOKENS_REJECTED s; c !! reason r) in
  mkMetrics (default 0 (TOKENS_VERIFIED s)) (count InvalidSignature) (count Replayed) (count TokenTooShort).
End statics.

(** The count of one reason. *)
Definition rejected_for (e : TokenError) (m : metrics) : nat :=
  match e with
  | InvalidSignature => rejected_invalid_signature m | Replayed => rejected_replayed m | TokenTooShort => rejected_token_too_short m
  end.

(** ** Lemmas *)

Section statics_lemmas.
Context `{PrometheusLaws}.

(** The families that are registered. *)
Definition family_names (s : statics) : list string := from_option registered [] (REGISTRY s).

(** What holds between calls: a lock that is filled has its family registered,
    the others do not; and a vector that is there has a series for each
    reason. *)
Record statics_wf (s : statics) : Prop := {
  swf_verified : VERIFIED_NAME ∈ family_names s ↔ is_Some (TOKENS_VERIFIED s);
  swf_rejected : REJECTED_NAME ∈ family_names s ↔ is_Some (TOKENS_REJECTED s);
  swf_nodup : NoDup (family_names s);
  swf_series : ∀ c e, TOKENS_REJECTED s = Some c → is_Some (c !! reason e);
}.

(** The literals are valid names, as the comments of the source say. *)
Context (literals_valid : valid_names VERIFIED_NAME [] = true ∧ valid_names REJECTED_NAME ["reason"] = true).

Lemma register_or_panic_Ok name labels s :
  valid_names name labels = true → name ∉ family_names s →
  ∃ r, register_or_panic name labels s = (mkStatics (Some r) (TOKENS_VERIFIED s) (TOKENS_REJECTED s), Ok ()) ∧
    registered r = family_names s ++ [name].
Proof.
  intros Hv Hn. unfold register_or_panic, registry, family_names in *. destruct s as [[r|] v c]; simpl in *;
    unfold mbind, st_bind; simpl.
  - destruct (register_fresh name labels r Hv Hn) as (r' & -> & Hg). by exists r'.
  - destruct (register_fresh name labels Registry_new Hv) as (r' & -> & Hg); [by rewrite registered_new|].
    exists r'. by rewrite Hg, registered_new.
Qed.

Lemma tokens_verified_Ok s :
  statics_wf s → ∃ s', tokens_verified s = (s', Ok (Relay.tokens_verified (counts s))) ∧ statics_wf s' ∧
    counts s' = counts s ∧ TOKENS_VERIFIED s' = Some (Relay.tokens_verified (counts s)) ∧
    (is_Some (TOKENS_REJECTED s) → is_Some (TOKENS_REJECTED s')).
Proof.
  intros [Hv Hr Hn He]. unfold tokens_verified. destruct (TOKENS_VERIFIED s) as [n|] eqn:Hs.
  { exists s. unfold counts at 1. simpl. rewrite Hs. simpl. split_and!; try done. split; try done. by rewrite Hs. }
  assert (VERIFIED_NAME ∉ family_names s) as Hni by (rewrite Hv; by intros [? ?]).
  destruct (register_or_panic_Ok VERIFIED_NAME [] s (proj1 literals_valid) Hni) as (r & Hreg & Hg).
  unfold mbind, st_bind. rewrite Hreg. eexists. unfold counts. simpl. rewrite Hs. simpl. split_and!; try done.
  split; unfold family_names; simpl; rewrite ?Hg.
  - split; [by eexists|]. intros _. apply elem_of_app. right. by apply list_elem_of_singleton.
  - rewrite elem_of_app, Hr, list_elem_of_singleton. split; [intros [?|?]; done|by left].
  - apply NoDup_app. split; [done|]. split; [|apply NoDup_singleton]. intros x Hx ->%list_elem_of_singleton. done.
  - exact He.
Qed.

Lemma tokens_rejected_Ok s :
  statics_wf s → ∃ s' c, tokens_rejected s = (s', Ok c) ∧ statics_wf s' ∧ counts s' = counts s ∧
    TOKENS_REJECTED s' = Some c ∧ TOKENS_VERIFIED s' = TOKENS_VERIFIED s.
Proof.
  intros [Hv Hr Hn He]. unfold tokens_rejected. destruct (TOKENS_REJECTED s) as [c|] eqn:Hs.
  { exists s, c. split_and!; try done. split; rewrite ?Hs; done. }
  assert (REJECTED_NAME ∉ family_names s) as Hni by (rewrite Hr; by intros [? ?]).
  destruct (register_or_panic_Ok REJECTED_NAME ["reason"] s (proj2 literals_valid) Hni) as (r & Hreg & Hg).
  unfold mbind, st_bind. rewrite Hreg. eexists _, _. split; [reflexivity|]. unfold counts. simpl. rewrite Hs. simpl.
  split_and!; try done.
  split; unfold family_names; simpl; rewrite ?Hg.
  - rewrite elem_of_app, Hv, list_elem_of_singleton. split; [intros [?|?]; done|by left].
  - split; [by eexists|]. intros _. apply elem_of_app. right. by apply list_elem_of_singleton.
  - apply NoDup_app. split; [done|]. split; [|apply NoDup_singleton]. intros x Hx ->%list_elem_of_singleton. done.
  - intros c e [= <-]. by destruct e; eexists.
Qed.

Lemma metrics_do_Ok c s :
  statics_wf s → ∃ s', metrics_do c s = (s', Ok ()) ∧ statics_wf s' ∧ counts s' = metrics_spec c (counts s) ∧
    (c = MInit ∨ (is_Some (TOKENS_VERIFIED s) ∧ is_Some (TOKENS_REJECTED s)) →
     is_Some (TOKENS_VERIFIED s') ∧ is_Some (TOKENS_REJECTED s')).
Proof.
  intros Hwf. destruct c as [| |e]; simpl.
  - destruct (tokens_verified_Ok s Hwf) as (s1 & H1 & Hwf1 & Hc1 & Hv1 & _).
    destruct (tokens_rejected_Ok s1 Hwf1) as (s2 & c & H2 & Hwf2 & Hc2 & Hr2 & Hv2).
    exists s2. unfold metrics_init. erewrite st_bind_Ok_eq by exact H1. erewrite st_bind_Ok_eq by exact H2.
    split_and!; [done|done|congruence|]. intros _. rewrite Hv2, Hv1, Hr2. by split; eexists.
  - destruct (tokens_verified_Ok s Hwf) as (s1 & H1 & [Hv Hr Hn He] & Hc1 & Hv1 & Hk).
    unfold count_verified. erewrite st_bind_Ok_eq by exact H1. eexists. split; [reflexivity|]. split; [|split].
    + split; simpl; [|done..]. unfold family_names in *. simpl. rewrite Hv, Hv1. by split; eexists.
    + unfold record_verified. rewrite <- Hc1. unfold counts. simpl. by f_equal.
    + simpl. intros [?|[_ Hs]]; [done|]. split; [by eexists|auto].
  - destruct (tokens_rejected_Ok s Hwf) as (s1 & c & H1 & [Hv Hr Hn He] & Hc1 & Hr1 & Hv1).
    unfold count_rejected. erewrite st_bind_Ok_eq by exact H1. eexists. split; [reflexivity|]. split; [|split].
    + split; simpl; [done| |done|].
      * unfold family_names in *. simpl. rewrite Hr, Hr1. by split; eexists.
      * intros c' e' [= <-]. unfold with_label_values. destruct (He c e' Hr1) as [n Hn'].
        destruct (decide (reason e = reason e')) as [<-|Hne]; [rewrite lookup_insert_eq; by eexists|].
        rewrite !lookup_insert_ne by done. by exists n.
    + rewrite <- Hc1. unfold counts, record_rejected, with_label_values. simpl. rewrite Hr1. simpl.
      destruct e; simpl; rewrite ?lookup_insert_eq, ?lookup_insert_ne by done; simpl; f_equal; done.
    + simpl. rewrite Hv1. intros [?|[Hs _]]; [done|]. split; [done|by eexists].
Qed.

Lemma metrics_run_Ok cs s :
  statics_wf s → ∃ s', metrics_run cs s = (s', Ok ()) ∧ statics_wf s' ∧
    counts s' = fold_left (λ m c, metrics_spec c m) cs (counts s) ∧
    (MInit ∈ cs ∨ (is_Some (TOKENS_VERIFIED s) ∧ is_Some (TOKENS_REJECTED s)) →
     is_Some (TOKENS_VERIFIED s') ∧ is_Some (TOKENS_REJECTED s')).
Proof.
  revert s. induction cs as [|c cs IH]; intros s Hwf; simpl.
  { exists s. split_and!; try done. intros [Hin|?]; [by apply elem_of_nil in Hin|done]. }
  destruct (metrics_do_Ok c s Hwf) as (s1 & H1 & Hwf1 & Hc1 & Hk1).
  destruct (IH s1 Hwf1) as (s' & H2 & Hwf2 & Hc2 & Hk2). exists s'. erewrite st_bind_Ok_eq by exact H1.
  split_and!; [done|done|by rewrite Hc2, Hc1|]. rewrite elem_of_cons. intros Hi. apply Hk2.
  destruct Hi as [[<-|Hi]|Hi]; [right; apply Hk1; by left|by left|right; apply Hk1; by right].
Qed.
(** What is gathered of two filled locks. *)
Lemma gather_families_Ok s n c :
  statics_wf s → TOKENS_VERIFIED s = Some n → TOKENS_REJECTED s = Some c →
  ∃ fams, gather_families s = (s, Ok fams) ∧ (VERIFIED_NAME, {[None := n]}) ∈ fams ∧
    (REJECTED_NAME, kmap Some c) ∈ fams ∧ ∀ name ss, (name, ss) ∈ fams → ss = held_by s name.
Proof.
  intros [Hv Hr Hn He] Hs Hc. unfold gather_families, registry, family_names in *.
  destruct s as [[r|] v w]; simpl in *; subst; [|apply proj2 in Hv; by apply not_elem_of_nil in Hv].
  exists (gather r (held_by (mkStatics (Some r) (Some n) (Some c)))). split; [done|].
  rewrite !gather_registered. split_and!.
  - by apply Hv.
  - done.
  - apply insert_non_empty.
  - by apply Hr.
  - done.
  - destruct (He c Replayed eq_refl) as [k Hk]. intros Hemp. apply (f_equal (λ ss : gmap (option string) nat, ss !! Some (reason Replayed))) in Hemp.
    cbn beta in Hemp. by rewrite lookup_kmap, Hk in Hemp by apply _.
  - intros name ss Hin%gather_registered. apply Hin.
Qed.
End statics_lemmas.

(** ** Properties *)

(** C37. The counters never panic and never lose a count.  In any order of calls
    (a token may be counted before [init]), each family is registered once, so
    no [expect] fails; the numbers are those of the specification, which counts
    each call once under its reason; and after [init] a scrape finds both
    families, the verified one with its count and the rejected one with a series
    for each of the three reasons, counted or not, with theirs. *)
Theorem metrics_statics_refine `{PrometheusLaws} cs :
  valid_names VERIFIED_NAME [] = true → valid_names REJECTED_NAME ["reason"] = true →
  ∃ s, metrics_run cs statics_new = (s, Ok ()) ∧
    let m := fold_left (λ m c, metrics_spec c m) cs (mkMetrics 0 0 0 0) in
    counts s = m ∧ NoDup (from_option registered [] (REGISTRY s)) ∧
    (MInit ∈ cs → ∃ fams ss, gather_families s = (s, Ok fams) ∧
       (VERIFIED_NAME, {[None := Relay.tokens_verified m]}) ∈ fams ∧
       (REJECTED_NAME, ss) ∈ fams ∧ ∀ e, ss !! Some (reason e) = Some (rejected_for e m)).
Proof.
  intros Hv Hr. destruct (metrics_run_Ok (conj Hv Hr) cs statics_new) as (s & Hrun & Hwf & Hc & Hi).
  { split; [split|split| |]; unfold family_names; simpl; try (by intros ?%elem_of_nil); try (by intros [? ?]); [constructor|done]. }
  exists s. split; [done|]. cbn zeta. change (mkMetrics 0 0 0 0) with (counts statics_new). rewrite <- Hc.
  split; [done|]. split; [apply Hwf|]. intros Hin. destruct Hi as [[n Hn] [c Hcs]]; [by left|].
  destruct (gather_families_Ok s n c Hwf Hn Hcs) as (fams & Hg & Hfv & Hfr & _). exists fams, (kmap Some c).
  split; [done|]. split; [unfold counts; simpl; by rewrite Hn|]. split; [done|].
  intros e. rewrite lookup_kmap by apply _. destruct (swf_series s Hwf c e Hcs) as [k Hk]. unfold counts. rewrite Hk, Hcs.
  destruct e; simpl in *; by rewrite Hk.
Qed.

#[export] Instance sample_prometheus : Prometheus := {|
  prom_registry := list string; Registry_new := []; valid_names _ _ := true;
  register name _ r := if decide (name ∈ r) then None else Some (r ++ [name]);
  gather r held := List.filter (λ f, negb (bool_decide (f.2 = ∅))) ((λ name, (name, held name)) <$> r);
|}.
#[export] Instance sample_prometheus_laws : PrometheusLaws.
Proof.
  apply (@Build_PrometheusLaws sample_prometheus id); [done|..].
  - intros name labels r _ Hn. simpl in *. exists (r ++ [name]). by rewrite decide_False.
  - intros r held name ss. simpl. rewrite list_elem_of_In, filter_In, <- list_elem_of_In, list_elem_of_fmap.
    rewrite negb_true_iff, bool_decide_eq_false. cbn [snd id]. naive_solver.
Defined.

Lemma metrics_statics_refine_witness :
  ∃ s fams ss, metrics_run [MRejected Replayed; MInit; MVerified; MRejected Replayed; MInit] statics_new = (s, Ok ()) ∧
    counts s = mkMetrics 1 0 2 0 ∧ gather_families s = (s, Ok fams) ∧ (VERIFIED_NAME, {[None := 1]}) ∈ fams ∧
    (REJECTED_NAME, ss) ∈ fams ∧ ss !! Some "replayed" = Some 2 ∧ ss !! Some "token_too_short" = Some 0.
Proof.
  destruct (metrics_statics_refine [MRejected Replayed; MInit; MVerified; MRejected Replayed; MInit])
    as (s & Hr & Hc & _ & Hs); [reflexivity..|].
  destruct Hs as (fams & ss & Hg & Hfv & Hfr & Hss); [right; left|]. exists s, fams, ss.
  split; [exact Hr|]. split; [exact Hc|]. split; [exact Hg|]. split; [exact Hfv|]. split; [exact Hfr|].
  split; [exact (Hss Replayed)|exact (Hss TokenTooShort)].
Defined.
