(* ===== verification/Path.v ===== *)
(** QuietHop: path selection from a verified registry.

    [client/src/path.rs], with the error type of [client/src/error.rs].  The
    random generator is [rand]'s: [gen_range(0..total)] is a parameter that
    returns a number below [total].  The three nested loops of [select_with]
    keep their running index and their early return. *)

From S2P Require Import Prelude Bytes Text NetAddr Cell Noise Layer Civil State Registry SampleRegistry.

Inductive NoPathReason :=
  | RegistryUnusable | RegistryTooLarge | InvalidRegistryEntry | InsufficientRelays
  | DiversityUnsatisfiable.

(** [Display for NoPathReason]. *)
Definition NoPathReason_fmt (r : NoPathReason) : string :=
  match r with
  | RegistryUnusable => "the registry is outside its validity window"
  | RegistryTooLarge => "the registry lists more relays than this client will enumerate"
  | InvalidRegistryEntry => "the registry carries a malformed entry"
  | InsufficientRelays => "a hop role has no eligible relay"
  | DiversityUnsatisfiable => "no combination of relays satisfies the path rules"
  end.

(** [ClientError]; a variant that wraps another crate's error, or only a
    message, carries none of it here. *)
Inductive ClientError :=
  | NotLoggedIn
  | HttpClientBuild | Http
  | AuthorityStatus (code : Z)
  | MissingField (name : string)
  | InvalidResponse
  | InvalidPubkey
  | BlindVerifyFailed
  | BlindOversized
  | CIo (e : io_error)
  | InvalidServerName (s : string)
  | InvalidEndpoint (s why : string)
  | CNoise (e : NoiseError)
  | CRegistry (e : RegistryError)
  | NoPath (r : NoPathReason)
  | CLayer (e : LayerError)
  | CCell (e : CellError)
  | UnexpectedCell (t : CellType)
  | NativeRoots.

Definition MAX_RELAYS : nat := 256.

Record PathRules := mkPathRules { require_operator_diversity : bool }.
Definition PathRules_default : PathRules := mkPathRules false.

Record SelectedPath := mkSelectedPath {
  sp_guard : RelayEntry; sp_middle : RelayEntry; sp_exit : RelayEntry; sp_operator_span : nat;
}.

Record Candidate := mkCandidate { entry : RelayEntry; cand_ip : IpAddr }.

Definition no_path {A} (r : NoPathReason) : outcome ClientError A := Err (NoPath r).

Definition str_empty (s : string) : bool := (String.length s =? 0)%nat.

(** One turn of the loop of [candidates]. *)
Definition candidate (e : RelayEntry) : outcome ClientError Candidate :=
  if str_empty (re_id e) || str_empty (operator_id e) || str_empty (host_id e) || str_empty (tls_name e) ||
     (port e =? 0)%Z || negb (String.length (static_pubkey e) =? STATIC_KEY_LEN * 2)%nat ||
     negb (list_all is_ascii_hexdigit (as_bytes (static_pubkey e))) ||
     negb (String.eqb (role e) "guard" || String.eqb (role e) "middle" || String.eqb (role e) "exit")
  then no_path InvalidRegistryEntry
  else match RelayEntry_ip_addr e with
       | Ok a => Ok (mkCandidate e a)
       | Err _ => no_path InvalidRegistryEntry
       | Panic => Panic
       end.

Definition candidates (doc : Document) : outcome ClientError (list Candidate) :=
  try_map candidate (relays doc).

Definition by_role (all : list Candidate) (r : string) : list Candidate :=
  List.filter (λ c, String.eqb (role (entry c)) r) all.

(** The first two octets of an IPv4, the first four of an IPv6 address. *)
Definition same_prefix (a b : IpAddr) : bool :=
  match a, b with
  | V4 (Ipv4 a1 a2 _ _), V4 (Ipv4 b1 b2 _ _) => bool_decide ([a1; a2] = [b1; b2])
  | V6 a, V6 b => bool_decide (take 4 (v6_octets a) = take 4 (v6_octets b))
  | _, _ => false
  end.

Definition triple_is_valid (g m e : Candidate) (rules : PathRules) : bool :=
  let same f := String.eqb (f (entry g)) (f (entry m)) || String.eqb (f (entry g)) (f (entry e)) ||
                String.eqb (f (entry m)) (f (entry e)) in
  if same re_id then false else
  if require_operator_diversity rules && same operator_id then false else
  if same host_id then false else
  negb (same_prefix (cand_ip g) (cand_ip m) || same_prefix (cand_ip g) (cand_ip e) ||
        same_prefix (cand_ip m) (cand_ip e)).

(** The nested counting loops. *)
Fixpoint count_exits (g m : Candidate) (exits : list Candidate) (rules : PathRules) (n : nat) : nat :=
  match exits with
  | [] => n
  | e :: exits => count_exits g m exits rules (if triple_is_valid g m e rules then S n else n)
  end.
Fixpoint count_middles (g : Candidate) (middles exits : list Candidate) (rules : PathRules) (n : nat) : nat :=
  match middles with
  | [] => n
  | m :: middles => count_middles g middles exits rules (count_exits g m exits rules n)
  end.
Fixpoint count_guards (guards middles exits : list Candidate) (rules : PathRules) (n : nat) : nat :=
  match guards with
  | [] => n
  | g :: guards => count_guards guards middles exits rules (count_middles g middles exits rules n)
  end.
Definition count_valid (guards middles exits : list Candidate) (rules : PathRules) : nat :=
  count_guards guards middles exits rules 0.

(** [ids.sort_unstable()] and the count of neighbours that differ. *)
Fixpoint differing_neighbours (l : list string) : nat :=
  match l with
  | a :: (b :: _) as l' => (if String.eqb a b then 0 else 1) + differing_neighbours l'
  | _ => 0
  end.
Definition operator_span (g m e : Candidate) : nat :=
  let ids := fold_right sorted_insert []
    [operator_id (entry g); operator_id (entry m); operator_id (entry e)] in
  1 + differing_neighbours ids.

(** The nested walking loops: the path at index [wanted], or how many valid
    triples were seen. *)
Fixpoint walk_exits (g m : Candidate) (exits : list Candidate) (rules : PathRules) (wanted seen : nat)
    : SelectedPath + nat :=
  match exits with
  | [] => inr seen
  | e :: exits =>
      if negb (triple_is_valid g m e rules) then walk_exits g m exits rules wanted seen
      else if (seen =? wanted)%nat
      then inl (mkSelectedPath (entry g) (entry m) (entry e) (operator_span g m e))
      else walk_exits g m exits rules wanted (S seen)
  end.
Fixpoint walk_middles (g : Candidate) (middles exits : list Candidate) (rules : PathRules)
    (wanted seen : nat) : SelectedPath + nat :=
  match middles with
  | [] => inr seen
  | m :: middles =>
      match walk_exits g m exits rules wanted seen with
      | inl p => inl p
      | inr seen => walk_middles g middles exits rules wanted seen
      end
  end.
Fixpoint walk_guards (guards middles exits : list Candidate) (rules : PathRules) (wanted seen : nat)
    : SelectedPath + nat :=
  match guards with
  | [] => inr seen
  | g :: guards =>
      match walk_middles g middles exits rules wanted seen with
      | inl p => inl p
      | inr seen => walk_guards guards middles exits rules wanted seen
      end
  end.

(** [select_with]; the [unreachable!] at its end is [Panic]. *)
Definition select_with (doc : Document) (rules : PathRules) (now_unix : Z) (gen_range : nat → nat)
    : outcome ClientError SelectedPath :=
  usable ← map_err CRegistry (Document_is_usable_at doc now_unix);
  if negb usable then no_path RegistryUnusable else
  if (MAX_RELAYS <? length (relays doc))%nat then no_path RegistryTooLarge else
  cands ← candidates doc;
  let guards := by_role cands "guard" in
  let middles := by_role cands "middle" in
  let exits := by_role cands "exit" in
  if (length guards =? 0)%nat || (length middles =? 0)%nat || (length exits =? 0)%nat
  then no_path InsufficientRelays else
  let total := count_valid guards middles exits rules in
  if (total =? 0)%nat then no_path DiversityUnsatisfiable else
  match walk_guards guards middles exits rules (gen_range total) 0 with
  | inl p => Ok p
  | inr _ => Panic
  end.

(** [select], with the draw of [OsRng]. *)
Definition select (doc : Document) (rules : PathRules) (now_unix : Z) (os_rng : nat → nat)
    : outcome ClientError SelectedPath :=
  select_with doc rules now_unix os_rng.

(** ** The valid triples, as a list *)

Definition triples (guards middles exits : list Candidate) (rules : PathRules)
    : list (Candidate * Candidate * Candidate) :=
  g ← guards; m ← middles; (λ e, (g, m, e)) <$> List.filter (λ e, triple_is_valid g m e rules) exits.

Definition path_of (t : Candidate * Candidate * Candidate) : SelectedPath :=
  let '(g, m, e) := t in mkSelectedPath (entry g) (entry m) (entry e) (operator_span g m e).

(** A walk over a list of triples from index [seen]. *)
Definition walked (l : list (Candidate * Candidate * Candidate)) (wanted seen : nat) : SelectedPath + nat :=
  match l !! (wanted - seen)%nat with
  | Some t => inl (path_of t)
  | None => inr (seen + length l)%nat
  end.

Lemma walked_app l k wanted seen :
  (seen ≤ wanted)%nat →
  walked (l ++ k) wanted seen =
  match walked l wanted seen with inl p => inl p | inr seen => walked k wanted seen end.
Proof.
  intros Hs. unfold walked. destruct (l !! (wanted - seen)%nat) as [t|] eqn:Hl.
  - by rewrite (lookup_app_l_Some _ _ _ _ Hl).
  - apply lookup_ge_None in Hl. rewrite lookup_app_r by lia. rewrite length_app.
    replace (wanted - seen - length l)%nat with (wanted - (seen + length l))%nat by lia.
    destruct (k !! _); [done|]. f_equal. lia.
Qed.

Lemma walked_inr_le l wanted seen n :
  (seen ≤ wanted)%nat → walked l wanted seen = inr n → (n ≤ wanted)%nat.
Proof.
  intros Hs. unfold walked. destruct (l !! _) eqn:Hl; [done|]. apply lookup_ge_None in Hl.
  intros [= <-]. lia.
Qed.

Lemma walk_exits_spec g m exits rules wanted seen :
  (seen ≤ wanted)%nat →
  walk_exits g m exits rules wanted seen =
  walked ((λ e, (g, m, e)) <$> List.filter (λ e, triple_is_valid g m e rules) exits) wanted seen.
Proof.
  revert seen. induction exits as [|e exits IH]; intros seen Hs.
  - unfold walked. simpl. f_equal. lia.
  - cbn [walk_exits List.filter]. destruct (triple_is_valid g m e rules); cbn [negb]; [|by apply IH].
    rewrite fmap_cons. change (?x :: ?l) with ([x] ++ l). rewrite walked_app by done.
    unfold walked at 1. destruct (Nat.eqb_spec seen wanted) as [->|Hne].
    + by rewrite Nat.sub_diag.
    + rewrite lookup_ge_None_2 by (simpl; lia). simpl. rewrite IH by lia. do 2 f_equal. lia.
Qed.

Lemma walk_middles_spec g middles exits rules wanted seen :
  (seen ≤ wanted)%nat →
  walk_middles g middles exits rules wanted seen = walked (triples [g] middles exits rules) wanted seen.
Proof.
  unfold triples. cbn. rewrite app_nil_r. revert seen.
  induction middles as [|m middles IH]; intros seen Hs; cbn.
  - unfold walked. simpl. f_equal. lia.
  - rewrite walked_app by done. rewrite <- walk_exits_spec by done.
    destruct (walk_exits _ _ _ _ _ _) as [p|n] eqn:Hw; [done|]. apply IH.
    rewrite walk_exits_spec in Hw by done. by eapply walked_inr_le.
Qed.

Lemma walk_guards_spec guards middles exits rules wanted seen :
  (seen ≤ wanted)%nat →
  walk_guards guards middles exits rules wanted seen = walked (triples guards middles exits rules) wanted seen.
Proof.
  revert seen. induction guards as [|g guards IH]; intros seen Hs.
  - unfold walked. simpl. f_equal. lia.
  - cbn [walk_guards]. change (g :: guards) with ([g] ++ guards). unfold triples.
    rewrite bind_app. fold (triples [g] middles exits rules). fold (triples guards middles exits rules).
    rewrite walked_app by done. rewrite <- walk_middles_spec by done.
    destruct (walk_middles _ _ _ _ _ _) as [p|n] eqn:Hw; [done|]. apply IH.
    rewrite walk_middles_spec in Hw by done. by eapply walked_inr_le.
Qed.

Lemma count_exits_spec g m exits rules n :
  count_exits g m exits rules n = (n + length (List.filter (λ e, triple_is_valid g m e rules) exits))%nat.
Proof.
  revert n. induction exits as [|e exits IH]; intros n; simpl; [lia|]. rewrite IH.
  case_match; simpl; lia.
Qed.

Lemma count_middles_spec g middles exits rules n :
  count_middles g middles exits rules n = (n + length (triples [g] middles exits rules))%nat.
Proof.
  unfold triples. cbn. rewrite app_nil_r. revert n.
  induction middles as [|m middles IH]; intros n; cbn; [lia|].
  rewrite IH, count_exits_spec, length_app, length_fmap. lia.
Qed.

Lemma count_valid_spec guards middles exits rules :
  count_valid guards middles exits rules = length (triples guards middles exits rules).
Proof.
  unfold count_valid. enough (∀ n, count_guards guards middles exits rules n =
    (n + length (triples guards middles exits rules))%nat) as -> by done.
  induction guards as [|g guards IH]; intros n; [simpl; lia|].
  cbn [count_guards]. rewrite IH, count_middles_spec. change (g :: guards) with ([g] ++ guards).
  unfold triples. rewrite bind_app, length_app. lia.
Qed.

Lemma elem_of_triples g m e guards middles exits rules :
  (g, m, e) ∈ triples guards middles exits rules ↔
  g ∈ guards ∧ m ∈ middles ∧ e ∈ exits ∧ triple_is_valid g m e rules = true.
Proof.
  unfold triples. rewrite list_elem_of_bind. setoid_rewrite list_elem_of_bind.
  setoid_rewrite list_elem_of_fmap. setoid_rewrite list_elem_of_In. setoid_rewrite filter_In.
  split.
  - intros (g' & (m' & (e' & Heq & He & Hv) & Hm) & Hg). simplify_eq. done.
  - intros (Hg & Hm & He & Hv). eauto 10.
Qed.

(** ** What the checks mean *)

(** An entry the client accepts. *)
Definition entry_ok (e : RelayEntry) : Prop :=
  re_id e ≠ EmptyString ∧ operator_id e ≠ EmptyString ∧ host_id e ≠ EmptyString ∧
  tls_name e ≠ EmptyString ∧ port e ≠ 0%Z ∧ String.length (static_pubkey e) = STATIC_KEY_LEN * 2 ∧
  forallb is_ascii_hexdigit (as_bytes (static_pubkey e)) = true ∧
  (role e = "guard" ∨ role e = "middle" ∨ role e = "exit") ∧ ∃ a, RelayEntry_ip_addr e = Ok a.

Lemma str_empty_true s : str_empty s = true ↔ s = EmptyString.
Proof. unfold str_empty. rewrite Nat.eqb_eq. destruct s; simpl; naive_solver. Qed.

Lemma RelayEntry_ip_addr_no_panic e : RelayEntry_ip_addr e ≠ Panic.
Proof. unfold RelayEntry_ip_addr. by destruct (parse_ip _). Qed.

Lemma candidate_spec e :
  (entry_ok e ∧ ∃ a, RelayEntry_ip_addr e = Ok a ∧ candidate e = Ok (mkCandidate e a)) ∨
  (¬ entry_ok e ∧ candidate e = no_path InvalidRegistryEntry).
Proof.
  unfold candidate. destruct (_ || _) eqn:Hc.
  - right. split; [|done]. intros (H1 & H2 & H3 & H4 & H5 & H6 & H7 & H8 & _).
    rewrite !orb_true_iff, !str_empty_true, !negb_true_iff, Z.eqb_eq, Nat.eqb_neq in Hc.
    rewrite !orb_false_iff, !String.eqb_neq in Hc. unfold list_all in Hc. rewrite H7 in Hc. naive_solver.
  - rewrite !orb_false_iff, !negb_false_iff in Hc. unfold list_all in Hc.
    destruct Hc as [[[[[[[H1 H2] H3] H4] H5] H6] H7] H8].
    rewrite !orb_true_iff, !String.eqb_eq in H8. apply Z.eqb_neq in H5. apply Nat.eqb_eq in H6.
    pose proof (RelayEntry_ip_addr_no_panic e). destruct (RelayEntry_ip_addr e) as [a|x|] eqn:Ha; [left|right|done].
    + split; [|eauto]. repeat split; try done; try (intros Hs%str_empty_true; congruence); [tauto|eauto].
    + split; [|done]. intros (_ & _ & _ & _ & _ & _ & _ & _ & a & Ha'). congruence.
Qed.

Lemma candidates_Ok doc cs :
  candidates doc = Ok cs ↔
  entry <$> cs = relays doc ∧ Forall (λ c, entry_ok (entry c) ∧ RelayEntry_ip_addr (entry c) = Ok (cand_ip c)) cs.
Proof.
  unfold candidates. rewrite try_map_Ok. split.
  - induction 1 as [|e c es cs Hc _ [IH1 IH2]]; [done|].
    destruct (candidate_spec e) as [(Hok & a & Ha & Hca)|[_ Hca]]; rewrite Hca in Hc; [|done].
    injection Hc as <-. rewrite fmap_cons, IH1. split; [done|]. by constructor.
  - intros [<- Hall]. induction Hall as [|c cs [Hok Ha] _ IH]; constructor; [|done].
    destruct (candidate_spec (entry c)) as [(_ & a & Ha' & ->)|[Hn _]]; [|done].
    rewrite Ha in Ha'. injection Ha' as <-. by destruct c.
Qed.

(** A malformed entry makes the whole document unusable. *)
Lemma candidates_Err doc :
  (∃ cs, candidates doc = Ok cs ∧ Forall entry_ok (relays doc)) ∨
  (candidates doc = no_path InvalidRegistryEntry ∧ ¬ Forall entry_ok (relays doc)).
Proof.
  unfold candidates. induction (relays doc) as [|e es IH]; simpl; [eauto|].
  destruct (candidate_spec e) as [(Hok & a & Ha & ->)|[Hn ->]]; simpl.
  - destruct IH as [(cs & -> & Hall)|[-> Hn]]; simpl; [left; eauto|right].
    split; [done|]. by intros [_ ?]%Forall_cons.
  - right. split; [done|]. by intros [? _]%Forall_cons.
Qed.

(** The rules for a path, on the entries. *)
Definition far_apart (a b : RelayEntry) : Prop :=
  ∀ x y, RelayEntry_ip_addr a = Ok x → RelayEntry_ip_addr b = Ok y → same_prefix x y = false.
Definition differ (f : RelayEntry → string) (g m e : RelayEntry) : Prop := f g ≠ f m ∧ f g ≠ f e ∧ f m ≠ f e.

Definition path_ok (rules : PathRules) (doc : Document) (g m e : RelayEntry) : Prop :=
  g ∈ relays doc ∧ m ∈ relays doc ∧ e ∈ relays doc ∧
  role g = "guard" ∧ role m = "middle" ∧ role e = "exit" ∧
  differ re_id g m e ∧ differ host_id g m e ∧
  (require_operator_diversity rules = true → differ operator_id g m e) ∧
  far_apart g m ∧ far_apart g e ∧ far_apart m e.

Definition cand_ok (c : Candidate) : Prop := RelayEntry_ip_addr (entry c) = Ok (cand_ip c).

Lemma triple_is_valid_spec g m e rules :
  cand_ok g → cand_ok m → cand_ok e →
  triple_is_valid g m e rules = true ↔
  differ re_id (entry g) (entry m) (entry e) ∧ differ host_id (entry g) (entry m) (entry e) ∧
  (require_operator_diversity rules = true → differ operator_id (entry g) (entry m) (entry e)) ∧
  far_apart (entry g) (entry m) ∧ far_apart (entry g) (entry e) ∧ far_apart (entry m) (entry e).
Proof.
  unfold cand_ok. intros Hg Hm He.
  assert (∀ a b, RelayEntry_ip_addr (entry a) = Ok (cand_ip a) → RelayEntry_ip_addr (entry b) = Ok (cand_ip b) →
    far_apart (entry a) (entry b) ↔ same_prefix (cand_ip a) (cand_ip b) = false) as Hfar.
  { intros a b Ha Hb. unfold far_apart. rewrite Ha, Hb. naive_solver. }
  rewrite !Hfar by done.
  assert (∀ f, String.eqb (f (entry g)) (f (entry m)) || String.eqb (f (entry g)) (f (entry e)) ||
                String.eqb (f (entry m)) (f (entry e)) = false ↔ differ f (entry g) (entry m) (entry e)) as Hd
    by (intros f; unfold differ; rewrite !orb_false_iff, !String.eqb_neq; tauto).
  rewrite <- !Hd. unfold triple_is_valid.
  destruct (_ || _); [naive_solver|]. destruct (require_operator_diversity rules); simpl;
    repeat match goal with |- context [String.eqb (?f (entry g)) (?f (entry m)) || ?x || ?y] =>
      destruct (String.eqb (f (entry g)) (f (entry m)) || x || y) end;
    rewrite ?negb_true_iff, ?orb_false_iff; naive_solver.
Qed.

(** The paths of a document are its valid triples. *)
Lemma path_ok_triples rules doc cs g m e :
  candidates doc = Ok cs →
  path_ok rules doc g m e ↔
  ∃ cg cm ce, entry cg = g ∧ entry cm = m ∧ entry ce = e ∧
    (cg, cm, ce) ∈ triples (by_role cs "guard") (by_role cs "middle") (by_role cs "exit") rules.
Proof.
  intros [Hrel Hall]%candidates_Ok. rewrite Forall_forall in Hall.
  assert (∀ c r, c ∈ by_role cs r ↔ c ∈ cs ∧ role (entry c) = r) as Hrole
    by (intros c r; unfold by_role; rewrite !list_elem_of_In, filter_In, String.eqb_eq; done).
  unfold path_ok. rewrite <- Hrel. setoid_rewrite list_elem_of_fmap. setoid_rewrite elem_of_triples.
  setoid_rewrite Hrole. split.
  - intros ((cg & -> & Hg) & (cm & -> & Hm) & (ce & -> & He) & Hrules). exists cg, cm, ce.
    destruct (Hall cg Hg), (Hall cm Hm), (Hall ce He). rewrite triple_is_valid_spec by done. tauto.
  - intros (cg & cm & ce & <- & <- & <- & (Hg & Hrg) & (Hm & Hrm) & (He & Hre) & Hv).
    destruct (Hall cg Hg), (Hall cm Hm), (Hall ce He). rewrite triple_is_valid_spec in Hv by done.
    split_and!; eauto; tauto.
Qed.

(** ** Consequences *)

(** The number of distinct values among three. *)
Definition distinct3 (a b c : string) : nat :=
  if decide (a = b) then (if decide (b = c) then 1 else 2)
  else if decide (a = c) then 2 else if decide (b = c) then 2 else 3.

Lemma leb_refl a : String.leb a a = true.
Proof. by destruct (String.leb_total a a). Qed.

Lemma operator_span_distinct g m e :
  operator_span g m e = distinct3 (operator_id (entry g)) (operator_id (entry m)) (operator_id (entry e)).
Proof.
  unfold operator_span, distinct3. generalize (operator_id (entry g)) as a, (operator_id (entry m)) as b,
    (operator_id (entry e)) as c. intros a b c. cbn [fold_right sorted_insert].
  pose proof (String.leb_antisym a b). pose proof (String.leb_antisym a c). pose proof (String.leb_antisym b c).
  pose proof (String.leb_total a b). pose proof (String.leb_total a c). pose proof (String.leb_total b c).
  destruct (decide (a = b)) as [->|Hab]; [|destruct (decide (a = c)) as [->|Hac]];
    destruct (decide (b = c)) as [->|Hbc]; rewrite ?leb_refl;
    repeat match goal with |- context [String.leb ?x ?y] => destruct (String.leb x y) eqn:? end;
    cbn [sorted_insert];
    repeat match goal with |- context [String.leb ?x ?y] => destruct (String.leb x y) eqn:? end;
    cbn [differing_neighbours]; rewrite ?String.eqb_refl;
    repeat match goal with |- context [String.eqb ?x ?y] => destruct (String.eqb_spec x y) end;
    simplify_eq; try done; naive_solver congruence.
Qed.

(** An accepted entry can be dialled: its address and its key parse. *)
Lemma entry_ok_dialable e :
  entry_ok e →
  (∃ a, RelayEntry_addr e = Ok a) ∧ ∃ k, RelayEntry_static_key e = Ok k ∧ length k = STATIC_KEY_LEN.
Proof.
  intros (_ & _ & _ & _ & Hport & Hlen & Hhex & _ & a & Ha). split.
  - unfold RelayEntry_addr. rewrite Ha. simpl. apply Z.eqb_neq in Hport. rewrite Hport. eauto.
  - apply decode_hex_pairs_hexdigits in Hhex as [k Hk].
    assert (decode_hex (static_pubkey e) = Some k) as Hdec by (unfold decode_hex; by rewrite Hlen).
    apply decode_hex_length in Hdec as Hk2. rewrite Hlen in Hk2. unfold STATIC_KEY_LEN in *.
    unfold RelayEntry_static_key. rewrite Hdec. simpl.
    assert (length k = 32) as Hk3 by lia. rewrite Hk3. eauto.
Qed.

Section select_lemmas.
Implicit Types doc : Document.

(** Some relay of the document has the role. *)
Definition offers (doc : Document) (r : string) : Prop := ∃ x, x ∈ relays doc ∧ role x = r.

(** Why there is no path: each reason, and none of the earlier ones. *)
Definition no_path_because (doc : Document) (rules : PathRules) (now : Z) (r : NoPathReason) : Prop :=
  let usable := Document_is_usable_at doc now = Ok true in
  let small := (length (relays doc) ≤ MAX_RELAYS)%nat in
  let sound := Forall entry_ok (relays doc) in
  let staffed := offers doc "guard" ∧ offers doc "middle" ∧ offers doc "exit" in
  match r with
  | RegistryUnusable => Document_is_usable_at doc now = Ok false
  | RegistryTooLarge => usable ∧ ¬ small
  | InvalidRegistryEntry => usable ∧ small ∧ ¬ sound
  | InsufficientRelays => usable ∧ small ∧ sound ∧ ¬ staffed
  | DiversityUnsatisfiable => usable ∧ small ∧ sound ∧ staffed ∧ ∀ g m e, ¬ path_ok rules doc g m e
  end.

(** No two reasons hold of one document. *)
Lemma no_path_because_unique doc rules now r r' :
  no_path_because doc rules now r → no_path_because doc rules now r' → r = r'.
Proof. destruct r, r'; cbn; intuition congruence. Qed.

Lemma by_role_empty doc cs r : candidates doc = Ok cs → by_role cs r = [] ↔ ¬ offers doc r.
Proof.
  intros [Hrel _]%candidates_Ok. unfold offers. rewrite <- Hrel. setoid_rewrite list_elem_of_fmap.
  assert (∀ c, In c (by_role cs r) ↔ c ∈ cs ∧ role (entry c) = r) as Hin
    by (intros c; unfold by_role; by rewrite filter_In, String.eqb_eq, list_elem_of_In).
  split.
  - intros He (x & (c & -> & Hc) & Hr). assert (In c (by_role cs r)) as Hc' by (by apply Hin). by rewrite He in Hc'.
  - intros Hn. destruct (by_role cs r) as [|c l]; [done|]. destruct Hn. destruct (proj1 (Hin c) (or_introl eq_refl)). eauto.
Qed.

(** [select_with], with the loops replaced by the list of valid triples. *)
Lemma select_with_spec doc rules now gen :
  clock_ok now → (∀ n, 0 < n → gen n < n) →
  (∃ x, select_with doc rules now gen = Err (CRegistry x) ∧ Document_is_usable_at doc now = Err x) ∨
  (∃ r, select_with doc rules now gen = no_path r ∧ no_path_because doc rules now r) ∨
  (Document_is_usable_at doc now = Ok true ∧ (length (relays doc) ≤ MAX_RELAYS)%nat ∧
   Forall entry_ok (relays doc) ∧ ∃ cs, candidates doc = Ok cs ∧
     let ts := triples (by_role cs "guard") (by_role cs "middle") (by_role cs "exit") rules in
     ∃ t, ts !! gen (length ts) = Some t ∧ select_with doc rules now gen = Ok (path_of t)).
Proof.
  intros Hc Hgen. unfold select_with.
  pose proof (is_usable_at_no_panic doc now). destruct (Document_is_usable_at doc now) as [u|x|] eqn:Hu; [|left; by eauto|done].
  right. cbn [map_err mbind outcome_bind]. destruct u; cbn [negb]; [|left; eexists; split; [reflexivity|exact Hu]].
  destruct (Nat.ltb_spec MAX_RELAYS (length (relays doc))) as [Hl|Hl].
  { left. eexists. split; [reflexivity|]. split; [exact Hu|lia]. }
  destruct (candidates_Err doc) as [(cs & Hcs & Hall)|[-> Hn]]; [|left; eexists; split; [reflexivity|done]].
  rewrite Hcs. cbn [mbind outcome_bind].
  assert (∀ r, length (by_role cs r) = 0 ↔ ¬ offers doc r) as Hrole
    by (intros r; rewrite <- (by_role_empty doc cs r Hcs); by destruct (by_role cs r)).
  destruct (_ || _) eqn:Hz.
  { left. eexists. split; [reflexivity|]. split_and!; [done..|]. rewrite !orb_true_iff, !Nat.eqb_eq, !Hrole in Hz. tauto. }
  rewrite !orb_false_iff, !Nat.eqb_neq in Hz. rewrite count_valid_spec.
  assert (∀ r, length (by_role cs r) ≠ 0 → offers doc r) as Hoff.
  { intros r Hr. destruct (by_role cs r) as [|c l] eqn:He; [done|]. assert (In c (by_role cs r)) as Hin by (rewrite He; by left).
    unfold by_role in Hin. apply filter_In in Hin as [Hin Heq%String.eqb_eq]. exists (entry c). split; [|done].
    apply candidates_Ok in Hcs as [<- _]. apply list_elem_of_fmap. exists c. by rewrite list_elem_of_In. }
  set (ts := triples _ _ _ rules). cbn zeta. destruct (Nat.eqb_spec (length ts) 0) as [Hnil%nil_length_inv|Hne].
  - left. eexists. split; [reflexivity|]. do 3 (split; [done|]). split; [destruct Hz as [[? ?] ?]; split_and!; by apply Hoff|].
    intros g m e Hp. apply (path_ok_triples _ _ cs) in Hp as (cg & cm & ce & _ & _ & _ & Hin); [|done].
    fold ts in Hin. rewrite Hnil in Hin. by apply not_elem_of_nil in Hin.
  - right. split_and!; try done. exists cs. split; [done|]. fold ts. rewrite walk_guards_spec by lia. fold ts.
    unfold walked. rewrite Nat.sub_0_r.
    destruct (lookup_lt_is_Some_2 ts (gen (length ts)) ltac:(apply Hgen; lia)) as [t Ht].
    exists t. by rewrite Ht.
Qed.

(** A selected path obeys the rules. *)
Lemma select_with_Ok doc rules now gen p :
  clock_ok now → (∀ n, 0 < n → gen n < n) → select_with doc rules now gen = Ok p →
  path_ok rules doc (sp_guard p) (sp_middle p) (sp_exit p) ∧ Document_is_usable_at doc now = Ok true.
Proof.
  intros Hc Hgen Hs. destruct (select_with_spec doc rules now gen Hc Hgen)
    as [(x & Hx & _)|[(r & Hx & _)|(Hu & _ & _ & cs & Hcs & [[g m] e] & Ht & Hx)]]; [by rewrite Hx in Hs..|].
  rewrite Hx in Hs. injection Hs as <-. split; [|done]. apply list_elem_of_lookup_2 in Ht.
  apply (path_ok_triples _ _ cs); [done|]. by exists g, m, e.
Qed.
End select_lemmas.

Section select_uniform.
Lemma triples_NoDup cs rules :
  NoDup cs → NoDup (triples (by_role cs "guard") (by_role cs "middle") (by_role cs "exit") rules).
Proof.
  intros Hcs.
  assert (∀ p : Candidate → bool, ∀ l, NoDup l → NoDup (List.filter p l)) as Hfilter.
  { intros p l Hl. induction Hl as [|x l Hx _ IH]; simpl; [constructor|]. case_match; [|done].
    constructor; [|done]. rewrite list_elem_of_In, filter_In. rewrite list_elem_of_In in Hx. tauto. }
  unfold triples, by_role. apply NoDup_bind; [|intros g _|auto].
  - intros g1 g2 [[g m] e] _ _. setoid_rewrite list_elem_of_bind. setoid_rewrite list_elem_of_fmap.
    naive_solver.
  - apply NoDup_bind; [|intros m _|auto].
    + intros m1 m2 [[g' m] e] _ _. setoid_rewrite list_elem_of_fmap. naive_solver.
    + apply NoDup_fmap_2; [|auto]. by intros x y [= ->].
Qed.

Lemma candidates_NoDup doc cs :
  candidates doc = Ok cs → NoDup (re_id <$> relays doc) → NoDup cs.
Proof. intros [<- _]%candidates_Ok Hnd. by do 2 apply NoDup_fmap_1 in Hnd. Qed.

Lemma path_of_inj cs t1 t2 :
  Forall (λ c, entry_ok (entry c) ∧ RelayEntry_ip_addr (entry c) = Ok (cand_ip c)) cs →
  (∀ g m e, t1 = (g, m, e) → g ∈ cs ∧ m ∈ cs ∧ e ∈ cs) →
  (∀ g m e, t2 = (g, m, e) → g ∈ cs ∧ m ∈ cs ∧ e ∈ cs) →
  path_of t1 = path_of t2 → t1 = t2.
Proof.
  rewrite Forall_forall. destruct t1 as [[g1 m1] e1], t2 as [[g2 m2] e2]. intros Hall H1 H2 Hp.
  destruct (H1 _ _ _ eq_refl) as (Hg1 & Hm1 & He1), (H2 _ _ _ eq_refl) as (Hg2 & Hm2 & He2).
  assert (∀ c c', c ∈ cs → c' ∈ cs → entry c = entry c' → c = c') as Hc.
  { intros c c' [_ Hx]%Hall [_ Hy]%Hall Heq. rewrite Heq in Hx. destruct c, c'. simpl in *. congruence. }
  injection Hp as Hg Hm He _. f_equal; [f_equal|]; by apply Hc.
Qed.
End select_uniform.

(** ** Properties *)

(** C19. Path selection is sound, complete and total.  For any well-behaved
    random generator it never panics (its [unreachable!] is), and: a path it
    returns consists of a guard, a middle and an exit of the document with
    distinct ids and hosts, pairwise in different /16 (IPv4) or /32 (IPv6)
    networks, with distinct operators when required, each dialable, and its
    [operator_span] is the number of distinct operators; it reports a timestamp
    that does not parse, and nothing else, as that error; and each of the five
    reasons why there is no path is given exactly when it is the first that
    holds: the document is outside its window, lists too many relays, has a
    malformed entry, lacks a role, or has no path that obeys the rules. *)
Theorem select_exact doc rules now gen :
  clock_ok now → (∀ n, 0 < n → gen n < n) →
  (∀ x, select_with doc rules now gen = Err (CRegistry x) ↔ Document_is_usable_at doc now = Err x) ∧
  (∀ r, select_with doc rules now gen = Err (NoPath r) ↔ no_path_because doc rules now r) ∧
  match select_with doc rules now gen with
  | Ok p =>
      path_ok rules doc (sp_guard p) (sp_middle p) (sp_exit p) ∧
      sp_operator_span p =
        distinct3 (operator_id (sp_guard p)) (operator_id (sp_middle p)) (operator_id (sp_exit p)) ∧
      Document_is_usable_at doc now = Ok true ∧
      Forall (λ e, (∃ a, RelayEntry_addr e = Ok a) ∧
                   ∃ k, RelayEntry_static_key e = Ok k ∧ length k = STATIC_KEY_LEN)
        [sp_guard p; sp_middle p; sp_exit p]
  | Err e => (∃ x, e = CRegistry x) ∨ ∃ r, e = NoPath r
  | Panic => False
  end.
Proof.
  intros Hc Hgen. destruct (select_with_spec doc rules now gen Hc Hgen)
    as [(x & -> & Hx)|[(r & -> & Hr)|(Hu & Hlen & Hok & cs & Hcs & t & Ht & ->)]].
  - split; [intros y; split; congruence|]. split; [|by eauto]. intros r. split; [done|].
    intros Hr. destruct r; cbn in Hr; destruct_and?; congruence.
  - assert (∀ x, Document_is_usable_at doc now ≠ Err x) as Hne by (intros x; destruct r; cbn in Hr; destruct_and?; congruence).
    unfold no_path. split; [|split; [intros r'; split; [by intros [= <-]|]|by eauto]].
    + intros x. split; [done|]. by intros Hx%Hne.
    + intros Hr'. by rewrite (no_path_because_unique _ _ _ _ _ Hr Hr').
  - destruct t as [[g m] e]. apply list_elem_of_lookup_2 in Ht. cbn [path_of sp_guard sp_middle sp_exit sp_operator_span].
    assert (path_ok rules doc (entry g) (entry m) (entry e)) as Hp
      by (apply (path_ok_triples _ _ cs); [done|]; by exists g, m, e).
    pose proof Hp as (Hg & Hm & He & Hrg & Hrm & Hre & _).
    split; [|split; [|split; [exact Hp|split; [apply operator_span_distinct|split; [exact Hu|]]]]].
    + intros x. split; [done|]. congruence.
    + intros r. split; [done|]. intros Hr. exfalso.
      assert (offers doc "guard" ∧ offers doc "middle" ∧ offers doc "exit") as Hoff by (unfold offers; eauto 10).
      destruct r; cbn in Hr; [congruence|tauto..|]. by apply (proj2 (proj2 (proj2 (proj2 Hr))) (entry g) (entry m) (entry e)).
    + rewrite Forall_forall in Hok. repeat constructor; try apply entry_ok_dialable; auto.
Qed.

(** A sample document: one relay of each role. *)
Definition sample_verified_doc : Verified :=
  mkVerified (default (mkDocument 0 "" "" "" []) (SampleReg.doc_of [x02; x0b; x00])) [x02; x0b; x00] [].

Lemma select_exact_witness :
  clock_ok sample_now ∧ ∃ p,
    select_with (default (mkDocument 0 "" "" "" []) (SampleReg.doc_of [x02; x0b; x00])) (mkPathRules true)
      sample_now (λ _, 0) = Ok p ∧ sp_operator_span p = 3.
Proof.
  assert (clock_ok sample_now) as Hc by (vm_compute; congruence). split; [exact Hc|].
  pose proof (select_exact (default (mkDocument 0 "" "" "" []) (SampleReg.doc_of [x02; x0b; x00]))
    (mkPathRules true) sample_now (λ _, 0) Hc (λ n Hn, Hn)) as Hp.
  destruct Hp as (_ & _ & Hp). destruct (select_with _ _ _ _) as [p|x|] eqn:Hs; [|vm_compute in Hs; discriminate|contradiction Hp].
  exists p. split; [reflexivity|]. destruct Hp as (_ & Hspan & _). rewrite Hspan.
  vm_compute in Hs. injection Hs as <-. vm_compute. reflexivity.
Defined.

(** C20. Selection is uniform over the valid paths.  When the document is usable
    and lists each id once, the indices below the counted total stand in
    bijection with the valid paths: every index yields a path, two indices never
    the same one, and every path that obeys the rules is the path of some
    index; so a uniform draw of the index is a uniform draw of the path. *)
Theorem select_uniform doc rules now :
  clock_ok now → Document_is_usable_at doc now = Ok true → length (relays doc) ≤ MAX_RELAYS →
  Forall entry_ok (relays doc) → NoDup (re_id <$> relays doc) →
  (∃ g m e, path_ok rules doc g m e) →
  ∃ total, 0 < total ∧
    (∀ i, i < total → ∃ p, select_with doc rules now (λ n, if n =? total then i else 0) = Ok p) ∧
    (∀ i j p, i < total → j < total →
       select_with doc rules now (λ n, if n =? total then i else 0) = Ok p →
       select_with doc rules now (λ n, if n =? total then j else 0) = Ok p → i = j) ∧
    (∀ g m e, path_ok rules doc g m e → ∃ i p, i < total ∧
       select_with doc rules now (λ n, if n =? total then i else 0) = Ok p ∧
       sp_guard p = g ∧ sp_middle p = m ∧ sp_exit p = e).
Proof.
  intros Hc Hu Hlen Hok Hnd (g0 & m0 & e0 & Hp0).
  destruct (candidates_Err doc) as [(cs & Hcs & _)|[_ Hn]]; [|done].
  set (ts := triples (by_role cs "guard") (by_role cs "middle") (by_role cs "exit") rules).
  assert (0 < length ts) as Hpos.
  { pose proof (proj1 (path_ok_triples rules doc cs g0 m0 e0 Hcs) Hp0) as (cg & cm & ce & _ & _ & _ & Hin).
    fold ts in Hin.
    apply list_elem_of_lookup_1 in Hin as [i Hi]. apply lookup_lt_Some in Hi. lia. }
  assert (∀ i, i < length ts → ∃ t, ts !! i = Some t ∧
    select_with doc rules now (λ n, if n =? length ts then i else 0) = Ok (path_of t)) as Hsel.
  { intros i Hi. set (gen := λ n, if n =? length ts then i else 0).
    assert (∀ n, 0 < n → gen n < n) as Hgen by (intros n Hn; unfold gen; destruct (Nat.eqb_spec n (length ts)); lia).
    destruct (select_with_spec doc rules now gen Hc Hgen)
      as [(x & _ & Hx)|[(r & _ & Hr)|(_ & _ & _ & cs' & Hcs' & t & Ht & Hs)]].
    - congruence.
    - exfalso. pose proof Hp0 as (Hg & Hm & He & Hrg & Hrm & Hre & _).
      assert (offers doc "guard" ∧ offers doc "middle" ∧ offers doc "exit") as Hoff by (unfold offers; eauto 10).
      destruct r; cbn in Hr; [congruence|tauto..|]. by apply (proj2 (proj2 (proj2 (proj2 Hr))) g0 m0 e0).
    - assert (cs' = cs) as -> by congruence. fold ts in Ht. exists t. unfold gen in Ht. rewrite Nat.eqb_refl in Ht. done. }
  assert (NoDup ts) as Hts by (by eapply triples_NoDup, candidates_NoDup).
  exists (length ts). split; [done|]. split; [|split].
  - intros i Hi. destruct (Hsel i Hi) as (t & _ & Hs). eauto.
  - intros i j p Hi Hj Hsi Hsj. destruct (Hsel i Hi) as (t1 & Ht1 & Hs1), (Hsel j Hj) as (t2 & Ht2 & Hs2).
    rewrite Hs1 in Hsi. rewrite Hs2 in Hsj. injection Hsi as Hp1. injection Hsj as Hp2.
    assert (t1 = t2) as ->; [|by eapply NoDup_lookup].
    apply list_elem_of_lookup_2 in Ht1, Ht2. unfold ts in Ht1, Ht2.
    apply candidates_Ok in Hcs as [_ Hall]. eapply path_of_inj; [exact Hall|..|congruence].
    + intros g m e ->. apply elem_of_triples in Ht1. unfold by_role in Ht1.
      rewrite !list_elem_of_In, !filter_In in Ht1. rewrite !list_elem_of_In. tauto.
    + intros g m e ->. apply elem_of_triples in Ht2. unfold by_role in Ht2.
      rewrite !list_elem_of_In, !filter_In in Ht2. rewrite !list_elem_of_In. tauto.
  - intros g m e Hp.
    pose proof (proj1 (path_ok_triples rules doc cs g m e Hcs) Hp) as (cg & cm & ce & <- & <- & <- & Hin).
    fold ts in Hin. apply list_elem_of_lookup_1 in Hin as [i Hi]. apply lookup_lt_Some in Hi as Hlt.
    destruct (Hsel i Hlt) as (t & Ht & Hs). rewrite Hi in Ht. injection Ht as <-. eauto 10.
Qed.

Lemma select_uniform_witness :
  ∃ total, 0 < total ∧ ∃ p,
    select_with (document sample_verified_doc) (mkPathRules true) sample_now (λ n, if n =? total then 0 else 0) = Ok p.
Proof.
  destruct (select_uniform (document sample_verified_doc) (mkPathRules true) sample_now)
    as (total & Hpos & Hall & _).
  - vm_compute. congruence.
  - vm_compute. reflexivity.
  - vm_compute. lia.
  - apply Forall_forall. intros e He. destruct (candidate_spec e) as [[Hok _]|[_ Hc]]; [exact Hok|].
    exfalso. revert Hc. vm_compute in He.
    repeat (apply elem_of_cons in He as [->|He]; [vm_compute; discriminate|]). by apply not_elem_of_nil in He.
  - apply (bool_decide_eq_true_1 _). vm_compute. reflexivity.
  - destruct (candidates (document sample_verified_doc)) as [cs| |] eqn:Hcs; [|vm_compute in Hcs; discriminate..].
    pose proof (path_ok_triples (mkPathRules true) (document sample_verified_doc) cs) as Hp.
    destruct (triples (by_role cs "guard") (by_role cs "middle") (by_role cs "exit") (mkPathRules true))
      as [|[[g m] e] rest] eqn:Ht.
    + vm_compute in Hcs. injection Hcs as <-. vm_compute in Ht. discriminate.
    + exists (entry g), (entry m), (entry e). apply Hp; [exact Hcs|]. exists g, m, e.
      split; [reflexivity|]. split; [reflexivity|]. split; [reflexivity|]. first [rewrite Ht; left | left].
  - exists total. split; [exact Hpos|]. apply (Hall 0 Hpos).
Defined.
