(* ===== verification/Blind.v ===== *)
(** QuietHop: blind RSA, client side.

    [client/src/blind.rs] ([blind], [unblind_and_verify], [token_to_wire]) and
    the issuing of a token in [client/src/tokens.rs].  Big integers are [Z];
    modular inversion is [num-bigint-dig]'s, the class [ModInverse]; the draws
    of the random generator are a list, and the authority's HTTP answer is an
    argument.  The theorems tie the client to the verifier of the relay. *)

From S2P Require Import Prelude Bytes Cell Registry SampleRegistry Token Path.

#[local] Open Scope Z_scope.

(** [BigUint::to_bytes_be]: the shortest big-endian form, one zero byte for
    zero. *)
Fixpoint be_bytes (fuel : nat) (z : Z) : list byte :=
  match fuel with
  | O => []
  | S fuel => if z =? 0 then [] else be_bytes fuel (z / 256) ++ [as_u8 z]
  end.
Definition to_bytes_be (z : Z) : list byte :=
  if z =? 0 then [x00] else be_bytes (S (Z.to_nat (Z.log2 z))) z.

(** [ModInverse::mod_inverse]: a signed inverse, if there is one. *)
Class ModInverse := { mod_inverse : Z → Z → option Z }.
Class ModInverseLaws `{ModInverse} := {
  mod_inverse_spec r n i : 0 < n → mod_inverse r n = Some i → (r * i) mod n = 1 mod n;
}.

Record BlindedRequest := mkBlindedRequest { blinded : Z; r_inv : Z; m : Z }.

Section blind.
Context `{Sha256, ModInverse}.

(** The loop of [blind] over the draws of [gen_biguint_below(n)]; [None] when
    the draws run out before one is usable. *)
Fixpoint blind_loop (n e m : Z) (draws : list Z) : option BlindedRequest :=
  match draws with
  | [] => None
  | r :: draws =>
      if r <? 2 then blind_loop n e m draws else
      match mod_inverse r n with
      | None => blind_loop n e m draws
      | Some r_inv_signed =>
          if r_inv_signed <? 0 then blind_loop n e m draws else
          if r_inv_signed =? 1 then blind_loop n e m draws else
          Some (mkBlindedRequest ((m * modpow r e n) mod n) r_inv_signed m)
      end
  end.

Definition blind (pubkey : RsaPublicKey) (m_raw : list byte) (draws : list Z) : option BlindedRequest :=
  let n := rsa_n pubkey in
  let e := rsa_e pubkey in
  let m := from_bytes_be (sha256 m_raw) mod n in
  blind_loop n e m draws.

Definition unblind_and_verify (pubkey : RsaPublicKey) (req : BlindedRequest) (s_blind : Z)
    : outcome ClientError Z :=
  let n := rsa_n pubkey in
  let e := rsa_e pubkey in
  if n <=? s_blind then Err BlindOversized else
  let token := (s_blind * r_inv req) mod n in
  if negb (modpow token e n =? m req) then Err BlindVerifyFailed else Ok token.

Definition token_to_wire (token : Z) (modulus_bytes : nat) : list byte :=
  let raw := to_bytes_be token in
  if (modulus_bytes <=? length raw)%nat then raw
  else replicate (modulus_bytes - length raw) x00 ++ raw.

(** [modulus_bytes] of [issue]. *)
Definition modulus_bytes (pubkey : RsaPublicKey) : nat := Z.to_nat ((bits (rsa_n pubkey) + 7) / 8).

(** [issue], with the request it makes to the authority as a parameter [post];
    [None] when [blind] is still drawing. *)
Definition issue {S} (post : string → st S ClientError string) (pubkey : RsaPublicKey)
    (m_raw : list byte) (draws : list Z) : st S ClientError (option (list byte * list byte)) :=
  match blind pubkey m_raw draws with
  | None => mret None
  | Some req =>
      let blinded_hex := hex_lower (to_bytes_be (blinded req)) in
      signed ← post blinded_hex;
      signed_bytes ← lift (map_err (λ _, InvalidResponse) (hex_decode signed));
      let s_blind := from_bytes_be signed_bytes in
      token_int ← lift (unblind_and_verify pubkey req s_blind);
      mret (Some (m_raw, token_to_wire token_int (modulus_bytes pubkey)))
  end.
End blind.

(** ** Lemmas on byte strings of numbers *)

Lemma from_bytes_be_snoc l b : from_bytes_be (l ++ [b]) = from_bytes_be l * 256 + u8 b.
Proof. rewrite from_bytes_be_app. done. Qed.

Lemma from_be_bytes fuel z : 0 ≤ z < 256 ^ Z.of_nat fuel → from_bytes_be (be_bytes fuel z) = z.
Proof.
  revert z. induction fuel as [|fuel IH]; intros z Hz; [change (from_bytes_be _) with 0; simpl in Hz; lia|].
  cbn [be_bytes]. destruct (Z.eqb_spec z 0) as [->|Hn]; [done|].
  rewrite Nat2Z.inj_succ, Z.pow_succ_r in Hz by lia.
  rewrite from_bytes_be_snoc, IH, u8_as_u8.
  - pose proof (Z.div_mod z 256). lia.
  - split; [apply Z.div_pos; lia|]. apply Z.div_lt_upper_bound; lia.
Qed.

(** At most as many bytes as needed for a bound. *)
Lemma length_be_bytes fuel z n : 0 ≤ z < 256 ^ Z.of_nat n → (length (be_bytes fuel z) ≤ n)%nat.
Proof.
  revert z n. induction fuel as [|fuel IH]; intros z n Hz; cbn [be_bytes]; [simpl; lia|].
  destruct (Z.eqb_spec z 0); [simpl; lia|]. destruct n as [|n]; [simpl in Hz; lia|].
  rewrite Nat2Z.inj_succ, Z.pow_succ_r in Hz by lia. rewrite length_app. simpl.
  assert (length (be_bytes fuel (z / 256)) ≤ n)%nat; [|lia]. apply IH.
  split; [apply Z.div_pos; lia|]. apply Z.div_lt_upper_bound; lia.
Qed.

Lemma from_to_bytes_be z : 0 ≤ z → from_bytes_be (to_bytes_be z) = z.
Proof.
  intros Hz. unfold to_bytes_be. destruct (Z.eqb_spec z 0) as [->|Hn]; [done|].
  apply from_be_bytes. split; [done|]. rewrite Nat2Z.inj_succ, Z2Nat.id by apply Z.log2_nonneg.
  pose proof (Z.log2_spec z ltac:(lia)). pose proof (Z.log2_nonneg z).
  assert (2 ^ Z.succ (Z.log2 z) ≤ 256 ^ Z.succ (Z.log2 z)) by (apply Z.pow_le_mono_l; lia). lia.
Qed.

Lemma length_to_bytes_be z n : (0 < n)%nat → 0 ≤ z < 256 ^ Z.of_nat n → (length (to_bytes_be z) ≤ n)%nat.
Proof.
  intros Hn Hz. unfold to_bytes_be. destruct (z =? 0); [simpl; lia|]. by apply length_be_bytes.
Qed.

Lemma from_bytes_be_zeros k l : from_bytes_be (replicate k x00 ++ l) = from_bytes_be l.
Proof.
  rewrite from_bytes_be_app. assert (from_bytes_be (replicate k x00) = 0) as ->; [|lia].
  induction k as [|k IH]; [done|]. change (replicate (S k) x00) with ([x00] ++ replicate k x00).
  by rewrite from_bytes_be_app, IH.
Qed.

(** A modulus fits its byte length. *)
Lemma modulus_bytes_bound k : 0 < rsa_n k → rsa_n k < 256 ^ Z.of_nat (modulus_bytes k).
Proof.
  intros Hn. unfold modulus_bytes, bits. destruct (Z.eqb_spec (rsa_n k) 0); [lia|].
  pose proof (Z.log2_spec (rsa_n k) Hn). pose proof (Z.log2_nonneg (rsa_n k)).
  rewrite Z2Nat.id by (apply Z.div_pos; lia). change 256 with (2 ^ 8). rewrite <- Z.pow_mul_r by (lia || apply Z.div_pos; lia).
  eapply Z.lt_le_trans; [apply H|]. apply Z.pow_le_mono_r; [lia|].
  pose proof (Z.div_mod (Z.log2 (rsa_n k) + 1 + 7) 8). pose proof (Z.mod_pos_bound (Z.log2 (rsa_n k) + 1 + 7) 8). lia.
Qed.

Lemma token_to_wire_spec k t :
  0 ≤ t < rsa_n k →
  from_bytes_be (token_to_wire t (modulus_bytes k)) = t ∧
  length (token_to_wire t (modulus_bytes k)) = modulus_bytes k.
Proof.
  intros Ht. pose proof (modulus_bytes_bound k ltac:(lia)) as Hb.
  assert (0 < modulus_bytes k)%nat as Hpos.
  { destruct (modulus_bytes k); [|lia]. simpl in Hb. lia. }
  pose proof (length_to_bytes_be t (modulus_bytes k) Hpos ltac:(lia)) as Hlen.
  unfold token_to_wire. destruct (Nat.leb_spec (modulus_bytes k) (length (to_bytes_be t))).
  - split; [apply from_to_bytes_be; lia|lia].
  - rewrite from_bytes_be_zeros, from_to_bytes_be, length_app, length_replicate by lia. split; [done|lia].
Qed.

(** ** The arithmetic of blinding *)

(** [d] undoes [e]: what makes the pair an RSA key pair. *)
Definition rsa_pair (k : RsaPublicKey) (d : Z) : Prop :=
  0 ≤ d ∧ ∀ x, 0 ≤ x < rsa_n k → x ^ (rsa_e k * d) mod rsa_n k = x.

(** The authority's signature of a blinded request. *)
Definition sign_blinded (k : RsaPublicKey) (d b : Z) : Z := modpow b d (rsa_n k).

Lemma pow_mod_idemp a e n : 0 < n → 0 ≤ e → (a mod n) ^ e mod n = a ^ e mod n.
Proof.
  intros Hn He. rewrite <- (Z2Nat.id e) by done. induction (Z.to_nat e) as [|k IH]; [done|].
  rewrite Nat2Z.inj_succ, !Z.pow_succ_r by lia.
  rewrite Z.mul_mod, IH, Z.mod_mod, <- Z.mul_mod by lia. done.
Qed.

Lemma rsa_pair_inv k d x :
  rsa_key_wf k → rsa_pair k d → 0 ≤ x < rsa_n k →
  (x ^ d mod rsa_n k) ^ rsa_e k mod rsa_n k = x ∧ (x ^ rsa_e k mod rsa_n k) ^ d mod rsa_n k = x.
Proof.
  intros [Hn He] [Hd Hp] Hx. rewrite !pow_mod_idemp, <- !Z.pow_mul_r by lia.
  rewrite (Z.mul_comm d). auto.
Qed.

(** Unblinding removes exactly the factor blinding put in. *)
Lemma unblind_sign k d m r i :
  rsa_key_wf k → rsa_pair k d → 0 ≤ m < rsa_n k → 0 ≤ r < rsa_n k → (r * i) mod rsa_n k = 1 mod rsa_n k →
  (sign_blinded k d ((m * r ^ rsa_e k) mod rsa_n k) * i) mod rsa_n k = m ^ d mod rsa_n k.
Proof.
  intros Hk [Hd Hp] Hm Hr Hi. destruct Hk as [Hn He]. unfold sign_blinded.
  rewrite modpow_spec, pow_mod_idemp, Z.pow_mul_l, <- Z.pow_mul_r, Z.mul_mod_idemp_l by lia.
  transitivity ((m ^ d * (r ^ (rsa_e k * d) * i mod rsa_n k)) mod rsa_n k);
    [rewrite Z.mul_mod_idemp_r by lia; f_equal; lia|].
  rewrite <- (Z.mul_mod_idemp_l (r ^ _)), Hp, Hi by lia.
  rewrite Z.mul_mod_idemp_r by lia. f_equal. lia.
Qed.

Section blind_lemmas.
Context `{Sha256Laws, ModInverseLaws}.

(** A draw the loop of [blind] stops at. *)
Definition usable_draw (n r : Z) : Prop :=
  2 ≤ r ∧ ∃ i, mod_inverse r n = Some i ∧ 0 ≤ i ∧ i ≠ 1.

Lemma blind_loop_Some n e m draws req :
  blind_loop n e m draws = Some req →
  ∃ r, r ∈ draws ∧ usable_draw n r ∧ mod_inverse r n = Some (r_inv req) ∧
       req = mkBlindedRequest ((m * modpow r e n) mod n) (r_inv req) m.
Proof.
  induction draws as [|r draws IH]; [done|]. cbn [blind_loop]. intros Hb.
  assert (blind_loop n e m draws = Some req → ∃ r', r' ∈ r :: draws ∧ usable_draw n r' ∧
    mod_inverse r' n = Some (r_inv req) ∧ req = mkBlindedRequest ((m * modpow r' e n) mod n) (r_inv req) m) as Hrest.
  { intros (r' & Hin & Hr')%IH. exists r'. split; [by right|done]. }
  destruct (Z.ltb_spec r 2); [auto|]. destruct (mod_inverse r n) as [i|] eqn:Hi; [|auto].
  destruct (Z.ltb_spec i 0); [auto|]. destruct (Z.eqb_spec i 1); [auto|]. injection Hb as <-.
  exists r. split; [left|]. split; [split; [done|]; eauto|]. done.
Qed.

Lemma blind_loop_returns n e m draws :
  Exists (usable_draw n) draws → is_Some (blind_loop n e m draws).
Proof.
  induction 1 as [r draws (Hge & i & Hi & Hpos & Hne)|r draws _ IH]; cbn [blind_loop].
  - rewrite (proj2 (Z.ltb_ge _ _)), Hi, (proj2 (Z.ltb_ge _ _)), (proj2 (Z.eqb_neq _ _)) by done. eauto.
  - repeat case_match; eauto.
Qed.

Lemma unblind_and_verify_Ok k req s t :
  rsa_key_wf k → 0 < rsa_n k →
  unblind_and_verify k req s = Ok t ↔
  s < rsa_n k ∧ t = (s * r_inv req) mod rsa_n k ∧ t ^ rsa_e k mod rsa_n k = m req.
Proof.
  intros [_ He] Hn. unfold unblind_and_verify. destruct (Z.leb_spec (rsa_n k) s); [naive_solver lia|].
  rewrite modpow_spec by done.
  destruct (Z.eqb_spec ((s * r_inv req mod rsa_n k) ^ rsa_e k mod rsa_n k) (m req)); cbn [negb]; naive_solver.
Qed.

(** A verified token is, on the wire, what the relay calls signed. *)
Lemma verified_is_signed k m_raw t :
  rsa_key_wf k → 2 ^ 256 ≤ rsa_n k → 0 ≤ t < rsa_n k →
  t ^ rsa_e k mod rsa_n k = from_bytes_be (sha256 m_raw) mod rsa_n k →
  signed m_raw (token_to_wire t (modulus_bytes k)) k.
Proof.
  intros Hk Hn Ht Hv. destruct (token_to_wire_spec k t Ht) as [Hw Hl]. unfold signed. rewrite Hw, Hl, Hv.
  split; [|split; [lia|]].
  - unfold modulus_bytes. rewrite Z2Nat.id; [lia|]. apply Z.div_pos; [|lia]. unfold bits.
    case_match; [lia|]. pose proof (Z.log2_nonneg (rsa_n k)). lia.
  - apply Z.mod_small. pose proof (from_bytes_be_range (sha256 m_raw)) as Hr. rewrite sha256_length in Hr.
    change (256 ^ Z.of_nat 32) with (2 ^ 256) in Hr. lia.
Qed.

(** What [issue] returns, taken apart. *)
Lemma issue_Ok {S} (post : string → st S ClientError string) k m_raw draws s s' out :
  issue post k m_raw draws s = (s', Ok (Some out)) →
  ∃ req b t, blind k m_raw draws = Some req ∧ unblind_and_verify k req b = Ok t ∧
    out = (m_raw, token_to_wire t (modulus_bytes k)).
Proof.
  unfold issue. destruct (blind k m_raw draws) as [req|]; [|done]. intros Hi.
  apply st_bind_Ok in Hi as (s1 & sg & _ & Hi). apply st_bind_Ok in Hi as (s2 & sb & _ & Hi).
  apply st_bind_Ok in Hi as (s3 & t & Ht & Hi). injection Ht as _ Ht. injection Hi as _ <-. eauto 10.
Qed.

Lemma blind_m k m_raw draws req :
  blind k m_raw draws = Some req → m req = from_bytes_be (sha256 m_raw) mod rsa_n k.
Proof. unfold blind. intros (r & _ & _ & _ & ->)%blind_loop_Some. done. Qed.
End blind_lemmas.

Lemma hex_decode_hex_lower l : hex_decode (hex_lower l) = Ok l.
Proof.
  rewrite hex_lower_eq. pose proof (decode_hex_hex_of l) as Hd. unfold hex_decode, decode_hex in *.
  destruct (Nat.even _); [|done]. pose proof (hex_decode_pairs_agree (as_bytes (hex_of l))) as Ha.
  by rewrite Hd in Ha.
Qed.

(** ** Properties *)

(** A key of exponent one with a modulus of the size the relay needs, and
    the inverse of two modulo an odd number. *)
Definition sample_blind_key : RsaPublicKey := mkRsaPublicKey (256 ^ 33 + 1) 1.

#[export] Instance sample_mod_inverse : ModInverse := {|
  mod_inverse r n := if (r * ((n + 1) / 2)) mod n =? 1 mod n then Some ((n + 1) / 2) else None
|}.
#[export] Instance sample_mod_inverse_laws : ModInverseLaws.
Proof.
  constructor. intros r n i _. simpl.
  destruct (Z.eqb_spec ((r * ((n + 1) / 2)) mod n) (1 mod n)) as [Hi|]; [|done]. by intros [= <-].
Qed.

(** An authority that signs with exponent one: it returns what it is sent. *)
Definition sample_post (hex : string) : st unit ClientError string := mret hex.
Definition sample_m_raw : list byte := replicate 32 x2a.

(** C21. Whatever the authority answers, a token the client keeps is one the
    relay takes.  If [issue] returns a token, its wire form has exactly the
    modulus' length and is, for the relay's verifier, a signature of the same
    [m_raw]: presented to any replay window that has not seen it, it is
    accepted. *)
Theorem issued_token_is_accepted `{Sha256Laws, ModInverse} {S} (post : string → st S ClientError string)
    k m_raw draws s s' m_out token :
  rsa_key_wf k → 2 ^ 256 ≤ rsa_n k →
  issue post k m_raw draws s = (s', Ok (Some (m_out, token))) →
  m_out = m_raw ∧ length token = modulus_bytes k ∧
  ∀ w now, ¬ seen w now token → snd (token_verify m_raw token k now w) = Ok ().
Proof.
  intros Hk Hn (req & b & t & Hreq & Ht & [= -> ->])%issue_Ok.
  apply blind_m in Hreq. apply unblind_and_verify_Ok in Ht as (_ & Hto & Hv); [|done|lia].
  assert (0 ≤ t < rsa_n k) as Hr by (rewrite Hto; apply Z.mod_pos_bound; lia).
  split; [done|]. split; [apply token_to_wire_spec; lia|]. intros w now Hns.
  assert (signed m_raw (token_to_wire t (modulus_bytes k)) k) as Hs by (apply verified_is_signed; congruence).
  destruct (token_verify_cases m_raw (token_to_wire t (modulus_bytes k)) k now w Hk)
    as [(_ & Hseen & _)|[(_ & _ & ->)|[Hns' _]]]; done.
Qed.

Definition sample_issued : list byte := replicate 2 x00 ++ sample_m_raw.

Lemma issued_token_is_accepted_witness :
  issue sample_post sample_blind_key sample_m_raw [0; 1; 5; 2] () = ((), Ok (Some (sample_m_raw, sample_issued))) ∧
  snd (token_verify sample_m_raw sample_issued sample_blind_key 7 (ReplayWindow_new 10)) = Ok ().
Proof.
  assert (issue sample_post sample_blind_key sample_m_raw [0; 1; 5; 2] () = ((), Ok (Some (sample_m_raw, sample_issued))))
    as Hi by (vm_compute; reflexivity).
  split; [exact Hi|].
  assert (rsa_key_wf sample_blind_key) as Hk by (split; vm_compute; congruence).
  assert (2 ^ 256 ≤ rsa_n sample_blind_key) as Hn by (vm_compute; congruence).
  destruct (issued_token_is_accepted sample_post sample_blind_key sample_m_raw [0; 1; 5; 2] _ _ _ _ Hk Hn Hi)
    as (_ & _ & Ha).
  apply Ha. intros (t & Ht & _). vm_compute in Ht. discriminate.
Defined.

(** What [issue] needs of the authority: an honest answer to the one request
    it makes. *)
Lemma honest_issue `{Sha256Laws, ModInverseLaws} {S} (post : string → st S ClientError string)
    k d m_raw draws s :
  rsa_key_wf k → 0 < rsa_n k → rsa_pair k d →
  (∀ req, blind k m_raw draws = Some req → 0 ≤ blinded req < rsa_n k →
     ∃ s', post (hex_lower (to_bytes_be (blinded req))) s =
           (s', Ok (hex_lower (to_bytes_be (sign_blinded k d (blinded req)))))) →
  Forall (λ r, 0 ≤ r < rsa_n k) draws → Exists (usable_draw (rsa_n k)) draws →
  ∃ s', issue post k m_raw draws s =
    (s', Ok (Some (m_raw,
       token_to_wire (sign_blinded k d (from_bytes_be (sha256 m_raw) mod rsa_n k)) (modulus_bytes k)))).
Proof.
  intros Hk Hn Hd Hpost Hdraws Hu. set (n := rsa_n k) in *. set (hm := from_bytes_be (sha256 m_raw) mod n).
  assert (0 ≤ hm < n) as Hm by (apply Z.mod_pos_bound; lia).
  destruct (blind_loop_returns n (rsa_e k) hm draws Hu) as [req Hreq].
  assert (blind k m_raw draws = Some req) as Hblind by exact Hreq.
  unfold issue. rewrite Hblind. apply blind_loop_Some in Hreq as (r & Hr & _ & Hinv & Heq).
  rewrite Forall_forall in Hdraws. specialize (Hdraws r Hr). rewrite modpow_spec, Z.mul_mod_idemp_r in Heq by (destruct Hk; lia).
  destruct (Hpost req Hblind) as [s' Hp]; [rewrite Heq; apply Z.mod_pos_bound; lia|]. exists s'.
  rewrite Heq in Hp |- *. cbn [blinded] in Hp |- *.
  erewrite st_bind_Ok_eq by exact Hp. rewrite hex_decode_hex_lower. erewrite st_bind_Ok_eq by done.
  assert (0 ≤ sign_blinded k d ((hm * r ^ rsa_e k) mod n) < n) as Hs.
  { unfold sign_blinded. rewrite modpow_spec by (destruct Hd; done). apply Z.mod_pos_bound. lia. }
  rewrite from_to_bytes_be by lia.
  assert (sign_blinded k d hm = hm ^ d mod n) as Hsg by (apply modpow_spec; [done|apply Hd]).
  match goal with |- context [unblind_and_verify k ?q ?s] =>
    assert (unblind_and_verify k q s = Ok (hm ^ d mod n)) as Hv end.
  { apply unblind_and_verify_Ok; [done..|]. split; [lia|]. cbn [r_inv m]. split.
    - symmetry. apply unblind_sign; try done. by apply mod_inverse_spec.
    - by apply rsa_pair_inv. }
  rewrite Hv, Hsg. done.
Qed.

(** C22. With an honest authority a token is always issued: as soon as the
    random generator draws one usable factor, [blind] stops, and the signed
    answer unblinds and verifies.  The token depends on [m_raw] alone, not on
    the factor: it is the authority's own signature of the hash. *)
Theorem honest_issue_succeeds `{Sha256Laws, ModInverseLaws} {S} (post : string → st S ClientError string)
    k d m_raw draws s :
  rsa_key_wf k → 0 < rsa_n k → rsa_pair k d →
  (∀ req, blind k m_raw draws = Some req → 0 ≤ blinded req < rsa_n k →
     ∃ s', post (hex_lower (to_bytes_be (blinded req))) s =
           (s', Ok (hex_lower (to_bytes_be (sign_blinded k d (blinded req)))))) →
  Forall (λ r, 0 ≤ r < rsa_n k) draws → Exists (usable_draw (rsa_n k)) draws →
  ∃ s', issue post k m_raw draws s =
    (s', Ok (Some (m_raw,
       token_to_wire (sign_blinded k d (from_bytes_be (sha256 m_raw) mod rsa_n k)) (modulus_bytes k)))).
Proof. apply honest_issue. Qed.

Lemma honest_issue_succeeds_witness :
  rsa_pair sample_blind_key 1 ∧
  ∃ s', issue sample_post sample_blind_key sample_m_raw [1; 2] () =
    (s', Ok (Some (sample_m_raw, token_to_wire (sign_blinded sample_blind_key 1
      (from_bytes_be (sha256 sample_m_raw) mod rsa_n sample_blind_key)) (modulus_bytes sample_blind_key)))).
Proof.
  assert (rsa_pair sample_blind_key 1) as Hd.
  { split; [lia|]. intros x Hx. change (rsa_e sample_blind_key * 1) with 1. rewrite Z.pow_1_r. by apply Z.mod_small. }
  split; [exact Hd|]. apply (honest_issue_succeeds sample_post sample_blind_key 1).
  - split; vm_compute; congruence.
  - vm_compute. reflexivity.
  - exact Hd.
  - intros req _ Hb. exists (). unfold sample_post, sign_blinded. rewrite modpow_spec, Z.pow_1_r, Z.mod_small by (done || lia). done.
  - repeat constructor; vm_compute; congruence.
  - right. left. split; [lia|]. eexists. split; [vm_compute; reflexivity|]. split; vm_compute; congruence.
Defined.

(** C23. The authority cannot tell which token it is signing.  For every
    blinded request it may see, and every message whose hash is invertible
    modulo the key, exactly one blinding factor below the modulus makes [blind]
    send that very request for that message. *)
Theorem blinding_hides_message `{Sha256, ModInverse} k d b hm i :
  rsa_key_wf k → rsa_pair k d → 0 ≤ b < rsa_n k → (hm * i) mod rsa_n k = 1 mod rsa_n k →
  ∃ r, (0 ≤ r < rsa_n k ∧
        ∀ draws, usable_draw (rsa_n k) r →
          blinded <$> blind_loop (rsa_n k) (rsa_e k) hm (r :: draws) = Some b) ∧
       ∀ r', 0 ≤ r' < rsa_n k → (hm * modpow r' (rsa_e k) (rsa_n k)) mod rsa_n k = b → r' = r.
Proof.
  intros Hk Hd Hb Hi. set (n := rsa_n k) in *. set (c := (b * i) mod n).
  assert (0 < n) as Hn by lia. assert (0 ≤ c < n) as Hc by (apply Z.mod_pos_bound; lia).
  pose proof (rsa_pair_inv k d c Hk Hd Hc) as [Hce _]. fold n in Hce.
  exists (c ^ d mod n). split.
  - split; [apply Z.mod_pos_bound; lia|]. intros draws (H2 & j & Hj & Hpos & Hne). cbn [blind_loop].
    rewrite (proj2 (Z.ltb_ge _ _)), Hj, (proj2 (Z.ltb_ge _ _)), (proj2 (Z.eqb_neq _ _)) by done.
    simpl. f_equal. rewrite modpow_spec by (destruct Hk; done). rewrite Hce. unfold c.
    rewrite Z.mul_mod_idemp_r by lia. replace (hm * (b * i)) with (b * (hm * i)) by lia.
    rewrite <- Z.mul_mod_idemp_r, Hi, Z.mul_mod_idemp_r, Z.mul_1_r by lia. by apply Z.mod_small.
  - intros r' Hr' Heq. pose proof (rsa_pair_inv k d r' Hk Hd Hr') as [_ Hr]. fold n in Hr.
    rewrite <- Hr. rewrite modpow_spec in Heq by (destruct Hk; done).
    assert (r' ^ rsa_e k mod n = c) as ->; [|done]. unfold c. rewrite <- Heq.
    rewrite Z.mul_mod_idemp_l by lia.
    replace (hm * (r' ^ rsa_e k mod n) * i) with (r' ^ rsa_e k mod n * (hm * i)) by lia.
    rewrite <- Z.mul_mod_idemp_r, Hi, Z.mul_mod_idemp_r, Z.mul_1_r, Z.mod_mod by lia. done.
Qed.

Lemma blinding_hides_message_witness :
  ∃ r, 0 ≤ r < rsa_n sample_blind_key ∧
    ∀ r', 0 ≤ r' < rsa_n sample_blind_key →
      (2 * modpow r' 1 (rsa_n sample_blind_key)) mod rsa_n sample_blind_key = 12 → r' = r.
Proof.
  destruct (blinding_hides_message sample_blind_key 1 12 2 ((256 ^ 33 + 2) / 2)) as (r & [Hr _] & Hu).
  - split; vm_compute; congruence.
  - split; [lia|]. intros x Hx. change (rsa_e sample_blind_key * 1) with 1. rewrite Z.pow_1_r. by apply Z.mod_small.
  - vm_compute. split; congruence.
  - vm_compute. reflexivity.
  - exists r. split; [exact Hr|exact Hu].
Defined.
