(* ===== verification/Dial.v ===== *)
(** QuietHop: the client's circuit.

    [client/src/dial.rs]: [Layers], [dial], [extend_hop] and [circuit_task],
    with [dial] of [client/src/tls.rs].  The client's TLS stream and the user's
    half of the duplex pipe are a log of what was done on them and a script of
    the answers; the two branches of the task's [tokio::select!] are events.
    Whether a string is a TLS server name is [rustls]'s, the class
    [ServerNames]. *)

From S2P Require Import Prelude Bytes Text NetAddr Cell Noise SampleNoise Layer Civil State Registry SampleRegistry Path.

Class ServerNames := { server_name_valid : string → bool }.
#[export] Instance sample_server_names : ServerNames := {| server_name_valid _ := true |}.

(** The client-guard link carries one layer per hop. *)
Definition CLIENT_LAYERS : nat := 3.
Definition USER_READ_BUF : nat := CELL_PAYLOAD_LEN * 32.

(** ** The client's streams *)

Inductive client_action :=
  | TcpConnect (addr : SocketAddr) | SetNoDelay | TlsConnect (name : string)
  | TlsWrite (bytes : list byte) | TlsFlush | TlsShutdown
  | UserWrite (bytes : list byte) | UserShutdown.

(** The answer to one operation, or what one read delivers. *)
Inductive reply := Succeeds | Breaks (e : io_error) | Delivers (bytes : list byte).

Record streams := mkStreams { sent : list client_action; replies : list reply }.

Definition next_reply (n : streams) : reply * list reply :=
  match replies n with [] => (Succeeds, []) | r :: rest => (r, rest) end.

(** An operation with [?]. *)
Definition act (a : client_action) : st streams ClientError unit := λ n,
  let '(r, rest) := next_reply n in
  (mkStreams (sent n ++ [a]) rest, match r with Breaks e => Err (CIo e) | _ => Ok () end).

(** [read_exact] into a buffer of [n] bytes, with [?]. *)
Definition read_reply (n : nat) : st streams ClientError (list byte) := λ s,
  let '(r, rest) := next_reply s in
  (mkStreams (sent s) rest,
   match r with
   | Delivers bytes => if length bytes =? n then Ok bytes else Err (CIo UnexpectedEof)
   | Succeeds => Err (CIo UnexpectedEof)
   | Breaks e => Err (CIo e)
   end).

(** An operation whose result is dropped. *)
Definition act_ignored (a : client_action) : st streams ClientError unit := λ n,
  (fst (act a n), Ok ()).

Section dial.
Context `{Snow, ServerNames}.

(** [tls::dial]. *)
Definition tls_dial (addr : SocketAddr) (sni : string) : st streams ClientError unit :=
  _ ← act (TcpConnect addr);
  _ ← act SetNoDelay;
  _ ← (if server_name_valid sni then mret () else fail (InvalidServerName sni));
  act (TlsConnect sni).

(** ** The three transports *)

Record Layers := mkLayers { l_guard : TransportState; l_middle : TransportState; l_exit : TransportState }.

Definition on_guard {A} (m : st TransportState LayerError A) : st Layers ClientError A :=
  on_field l_guard (λ t l, mkLayers t (l_middle l) (l_exit l)) (st_map_err CLayer m).
Definition on_middle {A} (m : st TransportState LayerError A) : st Layers ClientError A :=
  on_field l_middle (λ t l, mkLayers (l_guard l) t (l_exit l)) (st_map_err CLayer m).
Definition on_exit {A} (m : st TransportState LayerError A) : st Layers ClientError A :=
  on_field l_exit (λ t l, mkLayers (l_guard l) (l_middle l) t) (st_map_err CLayer m).

Definition seal_for_exit (cell : Cell) : st Layers ClientError (list byte) :=
  inner ← on_exit (seal_to_me cell 1);
  mid ← on_middle (seal_forward inner (CLIENT_LAYERS - 1));
  on_guard (seal_forward mid CLIENT_LAYERS).

Definition peel_inbound (wire : list byte) : st Layers ClientError Cell :=
  p ← on_guard (peel wire CLIENT_LAYERS);
  match p with
  | ToMe cell => mret cell
  | Forward b =>
      p ← on_middle (peel b (CLIENT_LAYERS - 1));
      match p with
      | ToMe cell => mret cell
      | Forward b =>
          p ← on_exit (peel b 1);
          match p with
          | ToMe cell => mret cell
          | Forward _ => fail (UnexpectedCell Data)
          end
      end
  end.

(** ** Telescoping *)

(** What [extend_hop] borrows: the stream, the guard's transport and, once
    there is one, the middle's. *)
Record hops := mkHops { h_tls : streams; h_guard : TransportState; h_middle : option TransportState }.

Definition on_tls {A} (m : st streams ClientError A) : st hops ClientError A :=
  on_field h_tls (λ n h, mkHops n (h_guard h) (h_middle h)) m.
Definition on_h_guard {A} (m : st TransportState LayerError A) : st hops ClientError A :=
  on_field h_guard (λ t h, mkHops (h_tls h) t (h_middle h)) (st_map_err CLayer m).
(** [m] on the middle's transport [mid], which [h_middle] holds. *)
Definition on_h_middle {A} (mid : TransportState) (m : st TransportState LayerError A) : st hops ClientError A := λ h,
  let '(mid, r) := m mid in (mkHops (h_tls h) (h_guard h) (Some mid), map_err CLayer r).
Definition get_middle : st hops ClientError (option TransportState) := λ h, (h, Ok (h_middle h)).

(** The frame that carries an EXTEND to the deepest hop. *)
Definition seal_extend (cell : Cell) : st hops ClientError (list byte) :=
  middle ← get_middle;
  match middle with
  | None => on_h_guard (seal_to_me cell CLIENT_LAYERS)
  | Some mid =>
      inner ← on_h_middle mid (seal_to_me cell (CLIENT_LAYERS - 1));
      on_h_guard (seal_forward inner CLIENT_LAYERS)
  end.

(** The cell in the deepest hop's answer. *)
Definition peel_extend (back : list byte) : st hops ClientError Cell :=
  p ← on_h_guard (peel back CLIENT_LAYERS);
  middle ← get_middle;
  match p, middle with
  | ToMe c, None => mret c
  | Forward blob, Some mid =>
      p ← on_h_middle mid (peel blob (CLIENT_LAYERS - 1));
      match p with
      | ToMe c => mret c
      | Forward _ => fail (UnexpectedCell Extend)
      end
  | ToMe c, Some _ => fail (UnexpectedCell (cell_type c))
  | Forward _, None => fail (UnexpectedCell Extend)
  end.

Definition extend_hop (rng : list byte) (next : RelayEntry) : st hops ClientError TransportState :=
  key ← lift (map_err CRegistry (RelayEntry_static_key next));
  '(init, msg1) ← lift (map_err CNoise (Initiator_start key rng));
  addr ← lift (map_err CRegistry (RelayEntry_addr next));
  cell ← lift (map_err CCell (Cell_new Extend (ExtendForward_encode (mkExtendForward addr msg1))));
  wire ← seal_extend cell;
  _ ← on_tls (act (TlsWrite wire));
  _ ← on_tls (act TlsFlush);
  back ← on_tls (read_reply (link_cell_len CLIENT_LAYERS));
  reply ← peel_extend back;
  _ ← (if bool_decide (cell_type reply ≠ Extend) then fail (UnexpectedCell (cell_type reply)) else mret ());
  msg2 ← lift (map_err CCell (parse_extend_backward (payload reply)));
  lift (map_err CNoise (Initiator_finish init msg2)).

(** Run [extend_hop] on the borrowed pieces. *)
Definition run_extend (rng : list byte) (next : RelayEntry) (guard : TransportState)
    (middle : option TransportState) : st streams ClientError (TransportState * option TransportState * TransportState) := λ n,
  let '(h, r) := extend_hop rng next (mkHops n guard middle) in
  (h_tls h, (λ t, (h_guard h, h_middle h, t)) <$> r).

(** Hop 1: the token, then the guard's handshake on the stream itself. *)
Definition dial_guard (rng : list byte) (route : SelectedPath) (m_raw token : list byte)
    : st streams ClientError TransportState :=
  guard_addr ← lift (map_err CRegistry (RelayEntry_addr (sp_guard route)));
  guard_key ← lift (map_err CRegistry (RelayEntry_static_key (sp_guard route)));
  _ ← tls_dial guard_addr (tls_name (sp_guard route));
  _ ← act (TlsWrite [PROTO_CLIENT]);
  _ ← act (TlsWrite m_raw);
  _ ← act (TlsWrite token);
  '(init, msg1) ← lift (map_err CNoise (Initiator_start guard_key rng));
  _ ← act (TlsWrite msg1);
  _ ← act TlsFlush;
  msg2 ← read_reply NOISE_MSG_LEN;
  lift (map_err CNoise (Initiator_finish init msg2)).

(** [dial], up to the spawning of [circuit_task] on the layers it returns. *)
Definition dial (rng1 rng2 rng3 : list byte) (route : SelectedPath) (m_raw token : list byte)
    (dest_host : string) (dest_port : Z) : st streams ClientError Layers :=
  guard_tx ← dial_guard rng1 route m_raw token;
  '(guard_tx, _, middle_tx) ← run_extend rng2 (sp_middle route) guard_tx None;
  '(guard_tx, mid, exit_tx) ← run_extend rng3 (sp_exit route) guard_tx (Some middle_tx);
  let layers := mkLayers guard_tx (default middle_tx mid) exit_tx in
  connect ← lift (map_err CCell (ConnectPayload_encode (mkConnectPayload dest_host dest_port)));
  cell ← lift (map_err CCell (Cell_new Connect connect));
  let '(layers, r) := seal_for_exit cell layers in
  wire ← lift r;
  _ ← act (TlsWrite wire);
  _ ← act TlsFlush;
  mret layers.

(** ** The circuit's task *)

Record task := mkTask { t_layers : Layers; t_net : streams }.

Definition on_layers {A} (m : st Layers ClientError A) : st task ClientError A :=
  on_field t_layers (λ l t, mkTask l (t_net t)) m.
Definition on_streams {A} (m : st streams ClientError A) : st task ClientError A :=
  on_field t_net (λ n t, mkTask (t_layers t) n) m.

(** How a turn ends without an error: the loop goes on, or [break]s. *)
Inductive turn := Again | Break.

(** The [for] over the chunks of what the user wrote; an error is [failed]. *)
Fixpoint send_user (chunks : list (list byte)) : st task ClientError unit :=
  match chunks with
  | [] => mret ()
  | chunk :: rest =>
      cell ← lift (map_err CCell (Cell_new Data chunk));
      wire ← on_layers (seal_for_exit cell);
      _ ← on_streams (act (TlsWrite wire));
      send_user rest
  end.

Inductive task_event := FromUser (bytes : list byte) | UserGone | Inbound (frame : list byte) | InboundGone.

(** One turn of the [select!]; every error [break]s the loop. *)
Definition task_turn (ev : task_event) : st task ClientError turn :=
  match ev with
  | FromUser [] | UserGone | InboundGone => mret Break
  | FromUser bytes =>
      _ ← send_user (chunks CELL_PAYLOAD_LEN bytes);
      _ ← on_streams (act TlsFlush);
      mret Again
  | Inbound frame =>
      cell ← on_layers (peel_inbound frame);
      match cell_type cell, payload cell with
      | Data, [] => mret Again
      | Data, p => _ ← on_streams (act (UserWrite p)); mret Again
      | CloseAck, _ => mret Break
      | _, _ => mret Break
      end
  end.

Fixpoint task_loop (evs : list task_event) : st task ClientError turn :=
  match evs with
  | [] => mret Again
  | ev :: evs =>
      t ← task_turn ev;
      match t with Again => task_loop evs | Break => mret Break end
  end.

(** The best-effort teardown after the loop. *)
Definition teardown (t : task) : task :=
  let t :=
    match Cell_new CloseRequest [] with
    | Ok cell =>
        match on_layers (seal_for_exit cell) t with
        | (t, Ok wire) =>
            fst ((_ ← on_streams (act_ignored (TlsWrite wire)); on_streams (act_ignored TlsFlush)) t)
        | (t, _) => t
        end
    | _ => t
    end in
  fst ((_ ← on_streams (act_ignored TlsShutdown); on_streams (act_ignored UserShutdown)) t).

(** [circuit_task], and whether it has ended. *)
Definition circuit_task (evs : list task_event) (t : task) : task * bool :=
  match task_loop evs t with
  | (t, Ok Again) => (t, false)
  | (t, Ok Break) | (t, Err _) => (teardown t, true)
  | (t, Panic) => (t, true)
  end.
End dial.
