(* ===== verification/Client.v ===== *)
(** QuietHop: the client SDK and the daemon's startup.

    [QuietHopClient] of [client/src/lib.rs], with [login] of
    [client/src/auth.rs], [fetch_pubkey] and the request of [issue] of
    [client/src/tokens.rs], [outbound_connector] of [client/src/tls.rs], and
    the configuration and startup of [quiethop-client/src/main.rs].  The HTTP
    client is [reqwest]: the JSON requests to the authority are a log of what
    was sent and a script of the answers, beside the registry's own fetches of
    [RegistryCache].  URL handling, the JSON bodies and PEM are other crates'
    code: the classes [Urls], [ApiJson] and [Pem]. *)

From S2P Require Import Prelude Bytes Text NetAddr Cell Noise SampleNoise Layer Civil State Registry SampleRegistry.
From S2P Require Import RegistryCache Token Config Path Blind Dial.

#[local] Open Scope Z_scope.

(** ** Code of other crates *)

(** [Url::parse] and [Url::join], on the serialised form of a URL. *)
Class Urls := {
  url_normal : string → option string;
  url_join : string → string → option string;
}.

(** [Response::json] at the two answer types, and [Response::text]'s decoding. *)
Class ApiJson := {
  login_token : list byte → option string;
  issue_signed : list byte → option string;
  text_of : list byte → string;
}.

(** [RsaPublicKey::from_public_key_pem] and [from_pkcs1_pem]. *)
Class Pem := {
  from_public_key_pem : string → option RsaPublicKey;
  from_pkcs1_pem : string → option RsaPublicKey;
}.

(** ** Requests to the authority *)

Inductive api_request :=
  | PostLogin (to email password : string)
  | GetPubkey (to : string)
  | PostIssue (to jwt blinded : string).

Record api := mkApi { api_sent : list api_request; api_answers : list http_response }.

(** One request with [send().await?], the status check, and the bytes of the
    body with [?]: the body of an error answer only goes into a message. *)
Definition api_call (r : api_request) : st api ClientError (list byte) := λ a,
  let '(answer, rest) := match api_answers a with [] => (NoResponse, []) | x :: rest => (x, rest) end in
  (mkApi (api_sent a ++ [r]) rest,
   match answer with
   | NoResponse => Err Http
   | Response status body =>
       if negb ((200 <=? status) && (status <? 300)) then Err (AuthorityStatus status)
       else ok_or body Http
   end).

(** ** Configuration and state *)

Section client.
Context `{Base64, Sha256, Ed25519, RegistryJson, StateJson, ModInverse, Snow, ServerNames}.
Context `{Urls, ApiJson, Pem}.

Record QuietHopConfig := mkQuietHopConfig {
  qh_authority_url : string; qh_email : string; qh_password : string;
  qh_pinned_registry_keys : list PinnedKey; qh_registry_threshold : nat; qh_state_dir : string;
  qh_require_operator_diversity : bool;
}.

(** [auth::login]; a [Session] is its [jwt]. *)
Definition auth_login (authority email password : string) : st api ClientError string :=
  url ← lift (ok_or (url_join authority "/api/v1/auth/login") InvalidResponse);
  body ← api_call (PostLogin url email password);
  token ← lift (ok_or (login_token body) Http);
  if str_empty token then fail (MissingField "token") else mret token.

(** [tokens::fetch_pubkey]. *)
Definition fetch_pubkey (authority : string) : st api ClientError RsaPublicKey :=
  url ← lift (ok_or (url_join authority "/api/v1/authority/pubkey") InvalidResponse);
  body ← api_call (GetPubkey url);
  lift (ok_or (from_public_key_pem (text_of body)) InvalidPubkey).

(** The request in the middle of [tokens::issue]. *)
Definition post_issue (authority jwt blinded_hex : string) : st api ClientError string :=
  url ← lift (ok_or (url_join authority "/api/v1/tokens/issue") InvalidResponse);
  body ← api_call (PostIssue url jwt blinded_hex);
  lift (ok_or (issue_signed body) Http).

(** [outbound_connector]: [native] says of each native certificate whether the
    root store takes it. *)
Definition outbound_connector (native : list bool) : outcome ClientError unit :=
  if existsb id native then Ok () else Err NativeRoots.

(** The client, with the registry's disk and network beside its cache and the
    authority's API. *)
Record QuietHopClient := mkClient {
  qc_cfg : QuietHopConfig; qc_session : option string; qc_pubkey : option RsaPublicKey;
  qc_registry : world; qc_api : api;
}.

Definition set_session (s : string) (c : QuietHopClient) : QuietHopClient :=
  mkClient (qc_cfg c) (Some s) (qc_pubkey c) (qc_registry c) (qc_api c).
Definition set_pubkey (k : RsaPublicKey) (c : QuietHopClient) : QuietHopClient :=
  mkClient (qc_cfg c) (qc_session c) (Some k) (qc_registry c) (qc_api c).

Definition on_registry {A} (m : st world RegistryError A) : st QuietHopClient ClientError A :=
  on_field qc_registry (λ w c, mkClient (qc_cfg c) (qc_session c) (qc_pubkey c) w (qc_api c)) (st_map_err CRegistry m).
Definition on_api {A} (m : st api ClientError A) : st QuietHopClient ClientError A :=
  on_field qc_api (λ a c, mkClient (qc_cfg c) (qc_session c) (qc_pubkey c) (qc_registry c) a) m.
Definition get_client : st QuietHopClient ClientError QuietHopClient := λ c, (c, Ok c).
Definition modify_client (f : QuietHopClient → QuietHopClient) : st QuietHopClient ClientError unit := λ c, (f c, Ok ()).

(** [QuietHopClient::new] over a disk, a network and the authority; [builds]
    says whether the HTTP client builds. *)
Definition client_new (builds : bool) (native : list bool) (cfg : QuietHopConfig)
    (d : disk) (net : list http_response) (a : api) : outcome ClientError QuietHopClient :=
  _ ← (if builds then Ok () else Err HttpClientBuild);
  _ ← outbound_connector native;
  registry_url ← ok_or (url_join (qh_authority_url cfg) "/api/v1/registry") InvalidResponse;
  registry ← map_err CRegistry (RegistryCache_new registry_url (qh_state_dir cfg)
               (qh_pinned_registry_keys cfg) (qh_registry_threshold cfg));
  Ok (mkClient cfg None None (mkWorld registry d net 0) a).

Definition path_rules (c : QuietHopClient) : PathRules :=
  mkPathRules (qh_require_operator_diversity (qc_cfg c)).

Definition prime_registry (now_unix : Z) : st QuietHopClient ClientError unit :=
  on_registry (prime now_unix).

Definition refresh_registry (now_unix : Z) : st QuietHopClient ClientError bool :=
  on_registry (refresh_if_stale now_unix).

(** [build_path] takes [&self]: it cannot change the client. *)
Definition build_path (c : QuietHopClient) (now_unix : Z) (gen_range : nat → nat) : outcome ClientError SelectedPath :=
  verified ← map_err CRegistry (usable (cache (qc_registry c)) now_unix);
  select_with (document verified) (path_rules c) now_unix gen_range.

Definition client_login : st QuietHopClient ClientError unit :=
  self ← get_client;
  session ← on_api (auth_login (qh_authority_url (qc_cfg self)) (qh_email (qc_cfg self)) (qh_password (qc_cfg self)));
  modify_client (set_session session).

(** [issue_token], with the bytes [OsRng] gives and the draws of [blind]. *)
Definition issue_token (m_raw : list byte) (draws : list Z)
    : st QuietHopClient ClientError (option (list byte * list byte)) :=
  self ← get_client;
  session ← lift (ok_or (qc_session self) NotLoggedIn);
  let authority := qh_authority_url (qc_cfg self) in
  _ ← match qc_pubkey self with
      | None => k ← on_api (fetch_pubkey authority); modify_client (set_pubkey k)
      | Some _ => mret ()
      end;
  self ← get_client;
  match qc_pubkey self with
  | None => λ c, (c, Panic)
  | Some pubkey => on_api (issue (post_issue authority session) pubkey m_raw draws)
  end.

(** ** The daemon's configuration and startup *)

Inductive start_error := BadEnv (var : string) | NoState (e : RegistryError) | StartFailed (e : ClientError).

(** [Ok(v) if !v.is_empty()]. *)
Definition env_set (env : source) (var : string) : option string :=
  match env var with Some (String _ _ as v) => Some v | _ => None end.

Definition pinned_keys (env : source) : outcome unit (list PinnedKey) :=
  raw ← ok_or (env "QUIETHOP_REGISTRY_PUBKEY") ();
  out ← try_map (λ t, map_err (λ _, ()) (PinnedKey_from_hex t)) (pieces (λ b, bool_decide (b = x2c)) raw);
  if (length out =? 0)%nat then Err () else Ok out.

Definition parse_flag (env : source) (name : string) : outcome unit bool :=
  match env_set env name with
  | Some v =>
      let low := to_ascii_lowercase (trim v) in
      if existsb (String.eqb low) ["true"; "1"; "yes"] then Ok true
      else if existsb (String.eqb low) ["false"; "0"; "no"] then Ok false
      else Err ()
  | None => Ok false
  end.

(** The reading of the environment at the top of [main]. *)
Definition daemon_config (env : source) : outcome start_error (QuietHopConfig * string) :=
  v ← ok_or (env_set env "AUTHORITY_URL") (BadEnv "AUTHORITY_URL");
  authority ← ok_or (url_normal v) (BadEnv "AUTHORITY_URL");
  email ← ok_or (env_set env "CLIENT_EMAIL") (BadEnv "CLIENT_EMAIL");
  password ← ok_or (env_set env "CLIENT_PASSWORD") (BadEnv "CLIENT_PASSWORD");
  let bind := default "127.0.0.1:1080" (env "SOCKS5_BIND") in
  pinned ← map_err (λ _, BadEnv "QUIETHOP_REGISTRY_PUBKEY") (pinned_keys env);
  threshold ← match env_set env "QUIETHOP_REGISTRY_THRESHOLD" with
              | Some v => n ← ok_or (parse_usize (as_bytes v)) (BadEnv "QUIETHOP_REGISTRY_THRESHOLD"); Ok (Z.to_nat n)
              | None => Ok 1%nat
              end;
  state_dir ← map_err NoState (state_dir env);
  diversity ← map_err (λ _, BadEnv "QUIETHOP_REQUIRE_OPERATOR_DIVERSITY")
                (parse_flag env "QUIETHOP_REQUIRE_OPERATOR_DIVERSITY");
  Ok (mkQuietHopConfig authority email password pinned threshold state_dir diversity, bind).

(** [main] up to the listener: the client is built, logged in and primed, in
    that order, or the process exits. *)
Definition daemon_start (env : source) (builds : bool) (native : list bool) (now_unix : Z)
    (d : disk) (net : list http_response) (a : api) : outcome start_error QuietHopClient :=
  '(cfg, _) ← daemon_config env;
  client ← map_err StartFailed (client_new builds native cfg d net a);
  let '(client, r) := client_login client in
  _ ← map_err StartFailed r;
  let '(client, r) := prime_registry now_unix client in
  _ ← map_err StartFailed r;
  Ok client.

(** ** Histories *)

(** What the daemon does to the shared client. *)
Inductive client_call :=
  | Login
  | PrimeRegistry (now : Z)
  | RefreshRegistry (now : Z)
  | IssueToken (m_raw : list byte) (draws : list Z).

Definition run_client (k : client_call) (c : QuietHopClient) : QuietHopClient :=
  match k with
  | Login => fst (client_login c)
  | PrimeRegistry now => fst (prime_registry now c)
  | RefreshRegistry now => fst (refresh_registry now c)
  | IssueToken m_raw draws => fst (issue_token m_raw draws c)
  end.

Definition run_clients (ks : list client_call) (c : QuietHopClient) : QuietHopClient :=
  fold_left (λ c k, run_client k c) ks c.
End client.

(** ** Lemmas *)

Section client_lemmas.
Context `{Base64Laws, Sha256, Ed25519, RegistryJson, StateJsonLaws, ModInverse, Snow, ServerNames}.
Context `{Urls, ApiJson, Pem}.

Lemma on_api_keeps {A} (m : st api ClientError A) c c' r :
  on_api m c = (c', r) →
  qc_cfg c' = qc_cfg c ∧ qc_session c' = qc_session c ∧ qc_pubkey c' = qc_pubkey c ∧
  qc_registry c' = qc_registry c ∧ m (qc_api c) = (qc_api c', r).
Proof. unfold on_api, on_field. destruct (m (qc_api c)) as [a o]. by intros [= <- <-]. Qed.

Lemma on_registry_keeps {A} (m : st world RegistryError A) c :
  qc_cfg (fst (on_registry m c)) = qc_cfg c ∧ qc_session (fst (on_registry m c)) = qc_session c ∧
  qc_pubkey (fst (on_registry m c)) = qc_pubkey c ∧ qc_api (fst (on_registry m c)) = qc_api c ∧
  qc_registry (fst (on_registry m c)) = fst (m (qc_registry c)).
Proof. unfold on_registry, on_field, st_map_err. by destruct (m (qc_registry c)) as [w o]. Qed.

Lemma on_registry_Ok {A} (m : st world RegistryError A) c c' x :
  on_registry m c = (c', Ok x) → ∃ w', m (qc_registry c) = (w', Ok x) ∧ qc_registry c' = w'.
Proof.
  unfold on_registry, on_field, st_map_err. destruct (m (qc_registry c)) as [w o]. intros [= <- ->%map_err_Ok]. eauto.
Qed.

Lemma client_login_keeps c c' r :
  client_login c = (c', r) →
  qc_cfg c' = qc_cfg c ∧ qc_pubkey c' = qc_pubkey c ∧ qc_registry c' = qc_registry c.
Proof.
  unfold client_login, get_client, modify_client, mbind, st_bind.
  destruct (on_api _ c) as [c1 [s|e|]] eqn:Ha; apply on_api_keeps in Ha as (Hc & _ & Hk & Hr & _);
    intros [= <- <-]; done.
Qed.

Lemma api_call_cases r a a' o :
  api_call r a = (a', o) → api_sent a' = api_sent a ++ [r] ∧ o ≠ Panic.
Proof.
  unfold api_call. destruct (api_answers a) as [|[|code [b|]] rest]; intros [= <- <-]; split; try done; by case_match.
Qed.

Lemma fetch_pubkey_cases authority a a' o :
  fetch_pubkey authority a = (a', o) →
  o ≠ Panic ∧ ((a' = a ∧ url_join authority "/api/v1/authority/pubkey" = None) ∨
    ∃ to, url_join authority "/api/v1/authority/pubkey" = Some to ∧ api_sent a' = api_sent a ++ [GetPubkey to]).
Proof.
  unfold fetch_pubkey, mbind, st_bind, lift.
  destruct (url_join authority _) as [to|]; cbn [ok_or]; [|intros [= <- <-]; auto].
  destruct (api_call (GetPubkey to) a) as [a1 [b|e|]] eqn:Hc; apply api_call_cases in Hc as [Hs Hn];
    intros [= <- <-]; split; try done; eauto. by destruct (from_public_key_pem _).
Qed.

(** All that [issue_token] does to the client: a session and, when there is no
    key yet, a fetched key come first; then [issue] runs on the authority. *)
Lemma issue_token_cases m_raw draws c c' r :
  issue_token m_raw draws c = (c', r) →
  qc_cfg c' = qc_cfg c ∧ qc_session c' = qc_session c ∧ qc_registry c' = qc_registry c ∧
  ((qc_session c = None ∧ r = Err NotLoggedIn ∧ c' = c) ∨
   (∃ jwt e, qc_session c = Some jwt ∧ qc_pubkey c = None ∧ qc_pubkey c' = None ∧ r = Err e ∧
      fetch_pubkey (qh_authority_url (qc_cfg c)) (qc_api c) = (qc_api c', Err e)) ∨
   (∃ jwt k a, qc_session c = Some jwt ∧ qc_pubkey c' = Some k ∧
      ((qc_pubkey c = Some k ∧ a = qc_api c) ∨
       (qc_pubkey c = None ∧ fetch_pubkey (qh_authority_url (qc_cfg c)) (qc_api c) = (a, Ok k))) ∧
      issue (post_issue (qh_authority_url (qc_cfg c)) jwt) k m_raw draws a = (qc_api c', r))).
Proof.
  unfold issue_token. erewrite st_bind_Ok_eq by done.
  destruct (qc_session c) as [jwt|] eqn:Hs; [|intros [= <- <-]; naive_solver].
  erewrite st_bind_Ok_eq by (rewrite lift_eq; done). cbn zeta.
  destruct (qc_pubkey c) as [k|] eqn:Hk.
  - erewrite st_bind_Ok_eq by done. erewrite st_bind_Ok_eq by done. rewrite Hk.
    intros (Hc & Hs' & Hk' & Hr & Hi)%on_api_keeps. split_and!; [congruence..|]. right. right.
    exists jwt, k, (qc_api c). split_and!; auto; congruence.
  - destruct (on_api (fetch_pubkey (qh_authority_url (qc_cfg c))) c) as [c1 [k|e|]] eqn:Hf.
    + erewrite st_bind_Ok_eq by (erewrite st_bind_Ok_eq by exact Hf; done).
      erewrite st_bind_Ok_eq by done. cbn [set_pubkey qc_pubkey].
      apply on_api_keeps in Hf as (Hc & Hs' & Hk' & Hr & Hf).
      intros (Hc2 & Hs2 & Hk2 & Hr2 & Hi)%on_api_keeps. simpl in *. split_and!; [congruence..|]. right. right.
      exists jwt, k, (qc_api c1). split_and!; auto.
    + erewrite st_bind_Err_eq by (erewrite st_bind_Err_eq by exact Hf; done).
      apply on_api_keeps in Hf as (Hc & Hs' & Hk' & Hr & Hf).
      intros [= <- <-]. split_and!; [congruence..|]. right. left. exists jwt, e. split_and!; try done; congruence.
    + apply on_api_keeps in Hf as (_ & _ & _ & _ & Hf). by apply fetch_pubkey_cases in Hf as [? _].
Qed.

(** ** The client's history projects to its registry's *)

Definition registry_call (k : client_call) : option call :=
  match k with
  | PrimeRegistry now => Some (Prime now)
  | RefreshRegistry now => Some (RefreshIfStale now)
  | Login | IssueToken _ _ => None
  end.

Lemma run_client_step k c :
  qc_cfg (run_client k c) = qc_cfg c ∧
  (∀ key, qc_pubkey c = Some key → qc_pubkey (run_client k c) = Some key) ∧
  qc_registry (run_client k c) = from_option (λ r, run_call r (qc_registry c)) (qc_registry c) (registry_call k).
Proof.
  destruct k as [|now|now|m_raw draws]; cbn [run_client registry_call from_option run_call].
  - destruct (client_login c) as [c' r] eqn:Hl. apply client_login_keeps in Hl as (? & Hk & ?). simpl. by rewrite Hk.
  - destruct (on_registry_keeps (prime now) c) as (? & _ & Hk & _ & ?). unfold prime_registry. by rewrite Hk.
  - destruct (on_registry_keeps (refresh_if_stale now) c) as (? & _ & Hk & _ & ?). unfold refresh_registry. by rewrite Hk.
  - destruct (issue_token m_raw draws c) as [c' r] eqn:Hi.
    apply issue_token_cases in Hi as (Hc & _ & Hr & Hcases). cbn [fst]. split_and!; [done| |done]. intros key Hkey.
    destruct Hcases as [(_ & _ & ->)|[(jwt & e & _ & Hn & _)|(jwt & k & a & _ & Hk' & [[Hk _]|[Hn _]] & _)]];
      [done|congruence..].
Qed.

Lemma run_clients_step ks c :
  qc_cfg (run_clients ks c) = qc_cfg c ∧
  (∀ key, qc_pubkey c = Some key → qc_pubkey (run_clients ks c) = Some key) ∧
  qc_registry (run_clients ks c) = run_calls (omap registry_call ks) (qc_registry c).
Proof.
  revert c. induction ks as [|k ks IH]; intros c; [done|].
  destruct (run_client_step k c) as (Hc & Hk & Hr), (IH (run_client k c)) as (Hc' & Hk' & Hr').
  change (run_clients (k :: ks) c) with (run_clients ks (run_client k c)).
  split_and!; [congruence|by auto|]. rewrite Hr', Hr. cbn [omap list_omap]. by destruct (registry_call k).
Qed.

Lemma client_new_Ok builds native cfg d net a c :
  client_new builds native cfg d net a = Ok c →
  ∃ url, c = mkClient cfg None None (mkWorld (mkCache url (qh_state_dir cfg) (qh_pinned_registry_keys cfg)
               (qh_registry_threshold cfg) None) d net 0) a ∧
    (0 < qh_registry_threshold cfg ≤ length (qh_pinned_registry_keys cfg))%nat.
Proof.
  unfold client_new, RegistryCache_new. destruct builds; [|done]. destruct (outbound_connector native); [|done..].
  destruct (url_join _ _) as [url|]; [|done]. simpl. destruct (Nat.eqb_spec (length (qh_pinned_registry_keys cfg)) 0); [done|].
  destruct (Nat.eqb_spec (qh_registry_threshold cfg) 0); [done|].
  destruct (Nat.ltb_spec (length (qh_pinned_registry_keys cfg)) (qh_registry_threshold cfg)); [done|].
  intros [= <-]. exists url. split; [done|lia].
Qed.

Lemma client_new_inv builds native cfg d net a c :
  client_new builds native cfg d net a = Ok c → coherent (baseline (qh_state_dir cfg) d) → cache_inv (qc_registry c).
Proof. intros (url & -> & _)%client_new_Ok Hco. split; [done|]. discriminate. Qed.

Lemma build_path_Ok c now gen p :
  clock_ok now → (∀ n, (0 < n)%nat → (gen n < n)%nat) → build_path c now gen = Ok p →
  ∃ v, current (cache (qc_registry c)) = Some v ∧ Document_is_usable_at (document v) now = Ok true ∧
    path_ok (path_rules c) (document v) (sp_guard p) (sp_middle p) (sp_exit p).
Proof.
  intros Hc Hgen Hb. unfold build_path in Hb. apply bind_Ok in Hb as (v & [Hcur Hu]%map_err_Ok%usable_Ok & Hs).
  apply select_with_Ok in Hs as [Hp _]; eauto.
Qed.

(** After a successful [prime] the document was verified at that very time. *)
Lemma prime_Ok now w w' :
  prime now w = (w', Ok ()) →
  ∃ v body, current (cache w') = Some v ∧
    verify body (pinned (cache w)) (threshold (cache w)) now (w_baseline w) = Ok v.
Proof.
  unfold prime. intros (w1 & o & Hr & Hp)%st_bind_Ok.
  apply reuse_stored_cases in Hr as (Hc & _ & _ & Hb & [[= ->]|(v & s & e & body & [= ->] & Hs & He & Hd & Hv)]).
  - apply st_bind_Ok in Hp as (w2 & body & Hf & Ha). apply fetch_cases in Hf as (Hc2 & Hb2 & _).
    apply accept_body_cases in Ha as (_ & _ & _ & [(_ & v & Hv & Hcur & _)|(e & ? & _)]); [|done].
    exists v, body. rewrite Hcur. split; [done|]. by rewrite <- Hc, <- Hb, <- Hc2, <- Hb2.
  - injection Hp as <-. exists v, body. by rewrite Hs.
Qed.
End client_lemmas.

(** ** Sample dependencies *)

#[export] Instance sample_urls : Urls := {| url_normal := Some; url_join base path := Some (base +:+ path) |}.
#[export] Instance sample_api_json : ApiJson := {|
  login_token b := Some (of_bytes b); issue_signed b := Some (of_bytes b); text_of := of_bytes;
|}.
#[export] Instance sample_pem : Pem := {|
  from_public_key_pem _ := Some sample_blind_key; from_pkcs1_pem _ := None;
|}.

Definition sample_daemon_env : source := λ k,
  if String.eqb k "AUTHORITY_URL" then Some "https://authority.example"
  else if String.eqb k "CLIENT_EMAIL" then Some "user@example"
  else if String.eqb k "CLIENT_PASSWORD" then Some "secret"
  else if String.eqb k "QUIETHOP_REGISTRY_PUBKEY" then Some (hex_of SampleReg.key +:+ " ,")
  else if String.eqb k "QUIETHOP_STATE_DIR" then Some "/state"
  else if String.eqb k "QUIETHOP_REQUIRE_OPERATOR_DIVERSITY" then Some "Yes"
  else None.

Definition sample_client_cfg : QuietHopConfig :=
  mkQuietHopConfig "https://authority.example" "user@example" "secret" sample_pins 1 "/state" true.
Definition sample_client_net : list http_response := [serve [x02; x0b; x00]; serve [x02; x0c; x00]].
(** The authority logs the client in. *)
Definition sample_client_api : api := mkApi [] [Response 200 (Some (as_bytes "jwt"))].

(** ** Properties *)

Section client_theorems.
Context `{Base64Laws, Sha256, Ed25519, RegistryJson, StateJsonLaws, ModInverse, Snow, ServerNames}.
Context `{Urls, ApiJson, Pem}.

(** C10. Every circuit runs over verified relays, and never over an older
    registry.  Whatever a client did since it was built over a disk (logins,
    token issuing, priming and refreshing, with any answers and any failures),
    a path it builds obeys its path rules within a document that the configured
    threshold of pinned keys signed, that is inside its validity window at that
    moment, and whose version is no lower than the one the disk remembered; a
    path built later comes from a document of a higher version, or from the
    very same bytes. *)
Theorem client_paths_verified builds native cfg d net a c ks ks' now now' gen gen' p p' :
  client_new builds native cfg d net a = Ok c → coherent (baseline (qh_state_dir cfg) d) →
  clock_ok now → clock_ok now' → (∀ n, (0 < n)%nat → (gen n < n)%nat) → (∀ n, (0 < n)%nat → (gen' n < n)%nat) →
  build_path (run_clients ks c) now gen = Ok p →
  build_path (run_clients ks' (run_clients ks c)) now' gen' = Ok p' →
  ∃ v v',
    (provenance (cache (qc_registry c)) v ∧ Document_is_usable_at (document v) now = Ok true ∧
     path_ok (mkPathRules (qh_require_operator_diversity cfg)) (document v) (sp_guard p) (sp_middle p) (sp_exit p)) ∧
    (provenance (cache (qc_registry c)) v' ∧ Document_is_usable_at (document v') now' = Ok true ∧
     path_ok (mkPathRules (qh_require_operator_diversity cfg)) (document v') (sp_guard p') (sp_middle p') (sp_exit p')) ∧
    (∀ s, baseline (qh_state_dir cfg) d = Some s → highest_version s ≤ version (document v)) ∧
    (version (document v) < version (document v') ∨
     version (document v) = version (document v') ∧ bytes v = bytes v').
Proof.
  intros Hnew Hco Hc Hc' Hg Hg' Hb Hb'. pose proof (client_new_inv _ _ _ _ _ _ _ Hnew Hco) as Hinv.
  apply client_new_Ok in Hnew as (url & -> & _).
  set (c := mkClient _ _ _ _ _) in *. set (c1 := run_clients ks c) in *.
  destruct (run_clients_step ks c) as (Hcfg & _ & Hreg), (run_clients_step ks' c1) as (Hcfg' & _ & Hreg').
  fold c1 in Hcfg, Hreg. pose proof (run_calls_step (omap registry_call ks) _ Hinv) as Hs. rewrite <- Hreg in Hs.
  destruct Hs as (Hd & Hp & Ht & Hle & Hi). pose proof (run_calls_step (omap registry_call ks') _ Hi) as Hs'.
  rewrite <- Hreg' in Hs'. destruct Hs' as (Hd' & Hp' & Ht' & Hle' & Hi').
  apply build_path_Ok in Hb as (v & Hcur & Hu & Hpath); [|done..].
  apply build_path_Ok in Hb' as (v' & Hcur' & Hu' & Hpath'); [|done..].
  destruct (proj2 Hi v Hcur) as [Hh Hpr], (proj2 Hi' v' Hcur') as [Hh' Hpr'].
  unfold path_rules in Hpath, Hpath'. rewrite Hcfg', Hcfg in Hpath'. rewrite Hcfg in Hpath.
  exists v, v'. unfold provenance in *. rewrite Hp', Ht' in Hpr'. rewrite Hp, Ht in Hpr, Hpr'.
  split_and!; try done.
  - intros s Hs. destruct (Hle s Hs) as (s' & Hs' & Hv). destruct Hh as (s2 & Hs2 & Hver & _).
    rewrite Hs' in Hs2. injection Hs2 as <-. destruct Hv as [?| ->]; lia.
  - by eapply holds_ordered.
Qed.

(** Building circuits leaves no trace in the registry traffic, and the token
    key stays pinned.  After any history the registry (its cache, its disk, the
    answers it has consumed and the number of fetches it has made) is exactly
    what the primes and refreshes of that history alone would have made it:
    logging in and issuing tokens touch none of it.  The authority's RSA key,
    once held, is never replaced. *)
Theorem client_history_projects ks c :
  qc_registry (run_clients ks c) = run_calls (omap registry_call ks) (qc_registry c) ∧
  qc_cfg (run_clients ks c) = qc_cfg c ∧
  ∀ key, qc_pubkey c = Some key → qc_pubkey (run_clients ks c) = Some key.
Proof. destruct (run_clients_step ks c) as (? & ? & ?). auto. Qed.

(** C29. The daemon listens only once it is logged in and holds a registry verified
    on the spot.  If startup gets as far as the listener, the environment gave
    a usable configuration, the threshold is between one and the number of
    pinned keys, the session token is not empty, and the held document was
    verified under those keys at the time of startup. *)
Theorem daemon_start_fails_closed env builds native now d net a c :
  daemon_start env builds native now d net a = Ok c →
  ∃ cfg bind jwt v body previous,
    daemon_config env = Ok (cfg, bind) ∧ qc_cfg c = cfg ∧
    (0 < qh_registry_threshold cfg ≤ length (qh_pinned_registry_keys cfg))%nat ∧
    qc_session c = Some jwt ∧ jwt ≠ EmptyString ∧
    current (cache (qc_registry c)) = Some v ∧
    verify body (qh_pinned_registry_keys cfg) (qh_registry_threshold cfg) now previous = Ok v.
Proof.
  unfold daemon_start. intros ([cfg bind] & Hcfg & Hs)%bind_Ok.
  apply bind_Ok in Hs as (c0 & Hnew%map_err_Ok & Hs). apply client_new_Ok in Hnew as (url & -> & Hth).
  set (c0 := mkClient _ _ _ _ _) in *.
  destruct (client_login c0) as [c1 r1] eqn:Hl. apply bind_Ok in Hs as ([] & ->%map_err_Ok & Hs).
  destruct (prime_registry now c1) as [c2 r2] eqn:Hp. apply bind_Ok in Hs as ([] & ->%map_err_Ok & Hs).
  injection Hs as <-. apply client_login_keeps in Hl as Hk. destruct Hk as (Hcfg1 & _ & Hreg1).
  unfold client_login in Hl. apply st_bind_Ok in Hl as (? & ? & [= <- <-] & Hl).
  apply st_bind_Ok in Hl as (c1' & jwt & (_ & _ & _ & _ & Hlog)%on_api_keeps & [= <-]).
  assert (jwt ≠ EmptyString) as Hjwt.
  { unfold auth_login in Hlog. apply st_bind_Ok in Hlog as (? & to & _ & Hlog).
    apply st_bind_Ok in Hlog as (? & body & _ & Hlog). apply st_bind_Ok in Hlog as (? & tok & _ & Hlog).
    destruct (str_empty tok) eqn:He; [done|]. injection Hlog as _ <-. intros ->. done. }
  pose proof (on_registry_keeps (prime now) (set_session jwt c1')) as (Hcfg2 & Hs2 & _ & _ & Hreg2).
  unfold prime_registry in Hp. rewrite Hp in Hcfg2, Hs2, Hreg2. cbn [fst] in *.
  change (qc_registry (set_session jwt c1') = qc_registry c0) in Hreg1. rewrite Hreg1 in Hreg2.
  apply on_registry_Ok in Hp as (w' & Hprime & _). rewrite Hreg1 in Hprime. rewrite Hprime in Hreg2. cbn [fst] in Hreg2.
  apply prime_Ok in Hprime as (v & body & Hcur & Hv).
  exists cfg, bind, jwt, v, body, (w_baseline (qc_registry c0)).
  split_and!; [done|by rewrite Hcfg2|lia|lia|by rewrite Hs2|done|by rewrite Hreg2|exact Hv].
Qed.
End client_theorems.

Lemma client_paths_verified_witness :
  ∃ c p p', client_new true [true] sample_client_cfg (mkDisk ∅ []) sample_client_net sample_client_api = Ok c ∧
    build_path (run_clients [Login; PrimeRegistry sample_now] c) sample_now (λ _, 0%nat) = Ok p ∧
    build_path (run_clients [RefreshRegistry (sample_now + 3600)] (run_clients [Login; PrimeRegistry sample_now] c))
      (sample_now + 3600) (λ _, 0%nat) = Ok p' ∧
    ∃ v v', provenance (cache (qc_registry c)) v ∧ provenance (cache (qc_registry c)) v' ∧
      (version (document v) < version (document v') ∨
       version (document v) = version (document v') ∧ bytes v = bytes v').
Proof.
  assert (is_ok (client_new true [true] sample_client_cfg (mkDisk ∅ []) sample_client_net sample_client_api) = true)
    as Hok by (vm_compute; reflexivity).
  destruct (client_new true [true] sample_client_cfg (mkDisk ∅ []) sample_client_net sample_client_api)
    as [c| |] eqn:Hc; [|discriminate Hok..]. clear Hok.
  assert (∃ p p', build_path (run_clients [Login; PrimeRegistry sample_now] c) sample_now (λ _, 0%nat) = Ok p ∧
    build_path (run_clients [RefreshRegistry (sample_now + 3600)] (run_clients [Login; PrimeRegistry sample_now] c))
      (sample_now + 3600) (λ _, 0%nat) = Ok p') as (p & p' & Hp & Hp').
  { injection Hc as <-. do 2 eexists. split; vm_compute; reflexivity. }
  exists c, p, p'. split; [reflexivity|]. split; [exact Hp|]. split; [exact Hp'|].
  destruct (client_paths_verified true [true] sample_client_cfg (mkDisk ∅ []) sample_client_net sample_client_api c
    [Login; PrimeRegistry sample_now] [RefreshRegistry (sample_now + 3600)] sample_now (sample_now + 3600)
    (λ _, 0%nat) (λ _, 0%nat) p p' Hc) as (v & v' & (Hv & _) & (Hv' & _) & _ & Hord).
  - intros s e body env bs doc Hs. discriminate.
  - vm_compute. congruence.
  - vm_compute. congruence.
  - intros n Hn. exact Hn.
  - intros n Hn. exact Hn.
  - exact Hp.
  - exact Hp'.
  - exists v, v'. auto.
Defined.

Lemma daemon_start_fails_closed_witness :
  ∃ c jwt, daemon_start sample_daemon_env true [false; true] sample_now (mkDisk ∅ []) sample_client_net sample_client_api = Ok c ∧
    qc_session c = Some jwt ∧ jwt ≠ EmptyString.
Proof.
  assert (is_ok (daemon_start sample_daemon_env true [false; true] sample_now (mkDisk ∅ []) sample_client_net
    sample_client_api) = true) as Hok by (vm_compute; reflexivity).
  destruct (daemon_start sample_daemon_env true [false; true] sample_now (mkDisk ∅ []) sample_client_net sample_client_api)
    as [c| |] eqn:Hc; [|discriminate Hok..].
  destruct (daemon_start_fails_closed sample_daemon_env true [false; true] sample_now (mkDisk ∅ []) sample_client_net
    sample_client_api c Hc) as (_ & _ & jwt & _ & _ & _ & _ & _ & _ & Hs & Hne & _).
  exists c, jwt. auto.
Defined.
