(* ===== verification/Socks5.v ===== *)
(** QuietHop: the SOCKS5 front of the client.

    [serve] and [write_reply] of [quiethop-client/src/socks5.rs], up to the two
    copies that splice the application to its circuit, which are in [Splice].
    The application's socket is the bytes it will send, the error that reading
    past them gives, a log of what was written to it and a script of the writes
    that fail. *)

From S2P Require Import Prelude Bytes Text NetAddr Ipv6 Cell Noise SampleNoise Layer Civil State Registry SampleRegistry.
From S2P Require Import RegistryCache Token Config Path Blind Dial Client.

#[local] Open Scope Z_scope.

Definition VER : byte := x05.
Definition METHOD_NO_AUTH : byte := x00.
Definition METHOD_NONE_ACCEPTABLE : byte := xff.
Definition CMD_CONNECT : byte := x01.
Definition ATYP_IPV4 : byte := x01.
Definition ATYP_DOMAIN : byte := x03.
Definition ATYP_IPV6 : byte := x04.
Definition REP_SUCCESS : byte := x00.
Definition REP_GENERAL_FAILURE : byte := x01.
Definition REP_COMMAND_NOT_SUPPORTED : byte := x07.
Definition REP_ADDRESS_NOT_SUPPORTED : byte := x08.

Inductive SocksError :=
  | SIo (e : io_error)
  | SClient (e : ClientError)
  | UnsupportedVersion (v : byte)
  | UnsupportedCommand (c : byte)
  | UnsupportedAtyp (a : byte)
  | NoAcceptableAuth.

(** ** The application's socket *)

Record app := mkApp { a_in : list byte; a_end : io_error; a_out : list (list byte); a_fails : list bool }.

(** [read_exact] with [?]: at the end, what was there is gone. *)
Definition app_read (n : nat) : st app SocksError (list byte) := λ a,
  if (n <=? length (a_in a))%nat
  then (mkApp (drop n (a_in a)) (a_end a) (a_out a) (a_fails a), Ok (take n (a_in a)))
  else (mkApp [] (a_end a) (a_out a) (a_fails a), Err (SIo (a_end a))).

(** [write_all] with [?]. *)
Definition app_write (bytes : list byte) : st app SocksError unit := λ a,
  match a_fails a with
  | true :: fs => (mkApp (a_in a) (a_end a) (a_out a) fs, Err (SIo IoOther))
  | _ => (mkApp (a_in a) (a_end a) (a_out a ++ [bytes]) (tail (a_fails a)), Ok ())
  end.

Definition app_write_ignored (bytes : list byte) : st app SocksError unit := λ a, (fst (app_write bytes a), Ok ()).

Definition reply_bytes (rep : byte) : list byte := [VER; rep; x00; ATYP_IPV4; x00; x00; x00; x00; x00; x00].
Definition write_reply (rep : byte) : st app SocksError unit := app_write (reply_bytes rep).

(** ** The request *)

(** The greeting. *)
Definition serve_greeting : st app SocksError unit :=
  greet ← app_read 2;
  ver ← lift (index greet 0);
  if negb (bool_decide (ver = VER)) then fail (UnsupportedVersion ver) else
  n ← lift (index greet 1);
  methods ← app_read (Z.to_nat (u8 n));
  if negb (bool_decide (METHOD_NO_AUTH ∈ methods))
  then _ ← app_write_ignored [VER; METHOD_NONE_ACCEPTABLE]; fail NoAcceptableAuth
  else app_write [VER; METHOD_NO_AUTH].

(** The [match] on the address type. *)
Definition read_host (atyp : byte) : st app SocksError string :=
  if bool_decide (atyp = ATYP_IPV4) then
    a ← app_read 4;
    a0 ← lift (index a 0); a1 ← lift (index a 1); a2 ← lift (index a 2); a3 ← lift (index a 3);
    mret (show_ip (V4 (Ipv4 a0 a1 a2 a3)))
  else if bool_decide (atyp = ATYP_IPV6) then
    a ← app_read 16; mret (show_ip (V6 (Ipv6 a)))
  else if bool_decide (atyp = ATYP_DOMAIN) then
    len ← app_read 1;
    n ← lift (index len 0);
    name ← app_read (Z.to_nat (u8 n));
    match from_utf8 name with
    | Some s => mret s
    | None => _ ← write_reply REP_ADDRESS_NOT_SUPPORTED; fail (UnsupportedAtyp atyp)
    end
  else _ ← write_reply REP_ADDRESS_NOT_SUPPORTED; fail (UnsupportedAtyp atyp).

(** The request, down to the destination it names. *)
Definition serve_request : st app SocksError (string * Z) :=
  _ ← serve_greeting;
  req_head ← app_read 4;
  ver ← lift (index req_head 0);
  if negb (bool_decide (ver = VER)) then fail (UnsupportedVersion ver) else
  cmd ← lift (index req_head 1);
  if negb (bool_decide (cmd = CMD_CONNECT))
  then _ ← write_reply REP_COMMAND_NOT_SUPPORTED; fail (UnsupportedCommand cmd)
  else
  atyp ← lift (index req_head 3);
  dest_host ← read_host atyp;
  port_buf ← app_read 2;
  hi ← lift (index port_buf 0);
  lo ← lift (index port_buf 1);
  mret (dest_host, u16_from_be_bytes hi lo).

Section serve.
Context `{Base64, Sha256, Ed25519, RegistryJson, StateJson, ModInverse, Snow, ServerNames}.
Context `{Urls, ApiJson, Pem}.

(** The client, locked, and the streams its circuit is dialled on. *)
Record dialler := mkDialler { dl_client : QuietHopClient; dl_streams : streams }.
Record session := mkSession { ss_app : app; ss_dialler : dialler }.

Definition on_dl_client {A} (m : st QuietHopClient ClientError A) : st dialler ClientError A :=
  on_field dl_client (λ c d, mkDialler c (dl_streams d)) m.
Definition on_dl_streams {A} (m : st streams ClientError A) : st dialler ClientError A :=
  on_field dl_streams (λ n d, mkDialler (dl_client d) n) m.
Definition on_app {A} (m : st app SocksError A) : st session SocksError A :=
  on_field ss_app (λ a s, mkSession a (ss_dialler s)) m.
Definition on_dialler {A} (m : st dialler ClientError A) : st session ClientError A :=
  on_field ss_dialler (λ d s, mkSession (ss_app s) d) m.

(** What the random generators and the clock give to one request. *)
Record chance := mkChance {
  ch_m_raw : list byte; ch_draws : list Z; ch_now : Z; ch_gen : nat → nat;
  ch_rng1 : list byte; ch_rng2 : list byte; ch_rng3 : list byte;
}.

(** The [circuit_result] block: a token, a path, a circuit; [None] while
    [blind] is still drawing. *)
Definition build_circuit (ch : chance) (host : string) (port : Z) : st dialler ClientError (option Layers) :=
  issued ← on_dl_client (issue_token (ch_m_raw ch) (ch_draws ch));
  match issued with
  | None => mret None
  | Some (m_raw, token) =>
      c ← on_dl_client get_client;
      route ← lift (build_path c (ch_now ch) (ch_gen ch));
      layers ← on_dl_streams (dial (ch_rng1 ch) (ch_rng2 ch) (ch_rng3 ch) route m_raw token host port);
      mret (Some layers)
  end.

(** The circuit and the reply that tells the application of it. *)
Definition serve_circuit (ch : chance) (host : string) (port : Z) : st session SocksError (option Layers) := λ s,
  match on_dialler (build_circuit ch host port) s with
  | (s, Ok (Some layers)) => (_ ← on_app (write_reply REP_SUCCESS); mret (Some layers)) s
  | (s, Ok None) => (s, Ok None)
  | (s, Err e) => (_ ← on_app (λ a, (fst (write_reply REP_GENERAL_FAILURE a), Ok ())); fail (SClient e)) s
  | (s, Panic) => (s, Panic)
  end.

(** [serve], up to the splice: the layers of the circuit to copy to and from. *)
Definition socks_serve (ch : chance) : st session SocksError (option Layers) :=
  '(dest_host, dest_port) ← on_app serve_request;
  serve_circuit ch dest_host dest_port.
End serve.

(** ** The requests of RFC 1928 that are served *)

Inductive target := TIp (ip : IpAddr) | TDomain (name : list byte).

Record request := mkRequest {
  rq_methods : list byte; rq_reserved : byte; rq_target : target; rq_port_hi : byte; rq_port_lo : byte;
}.

Definition target_bytes (t : target) : list byte :=
  match t with
  | TIp (V4 a) => ATYP_IPV4 :: v4_octets a
  | TIp (V6 a) => ATYP_IPV6 :: v6_octets a
  | TDomain name => ATYP_DOMAIN :: as_u8 (Z.of_nat (length name)) :: name
  end.

Definition request_bytes (r : request) : list byte :=
  [VER; as_u8 (Z.of_nat (length (rq_methods r)))] ++ rq_methods r ++
  [VER; CMD_CONNECT; rq_reserved r] ++ target_bytes (rq_target r) ++ [rq_port_hi r; rq_port_lo r].

Definition target_wf (t : target) : Prop :=
  match t with
  | TIp ip => ip_wf ip
  | TDomain name => (length name < 256)%nat ∧ utf8_valid name = true
  end.
Definition request_wf (r : request) : Prop :=
  (length (rq_methods r) < 256)%nat ∧ METHOD_NO_AUTH ∈ rq_methods r ∧ target_wf (rq_target r).

(** The host and port a request names. *)
Definition target_host (t : target) : string :=
  match t with TIp ip => show_ip ip | TDomain name => of_bytes name end.
Definition request_dest (r : request) : string * Z :=
  (target_host (rq_target r), u16_from_be_bytes (rq_port_hi r) (rq_port_lo r)).

(** ** A small logic for the socket

    [app_spec m Q]: [m] never panics; it consumes a prefix [u] of the input and
    writes [w], with [Q u w x] when it returns [x]; it never writes a success
    reply and never blames the client. *)
Definition app_spec {A} (m : st app SocksError A) (Q : list byte → list (list byte) → A → Prop) : Prop := ∀ a,
  match m a with
  | (a', Ok x) => ∃ u w, a_in a = u ++ a_in a' ∧ a_out a' = a_out a ++ w ∧ a_end a' = a_end a ∧
      (reply_bytes REP_SUCCESS ∉ w) ∧ Q u w x
  | (a', Err e) => (∃ w, a_out a' = a_out a ++ w ∧ reply_bytes REP_SUCCESS ∉ w) ∧ ∀ x, e ≠ SClient x
  | (_, Panic) => False
  end.

Section app_logic.
Context {A B : Type}.
Implicit Types (Q : list byte → list (list byte) → A → Prop).

Lemma app_spec_mono (m : st app SocksError A) Q Q' :
  app_spec m Q → (∀ u w x, Q u w x → Q' u w x) → app_spec m Q'.
Proof.
  intros Hm HQ a. specialize (Hm a). destruct (m a) as [a' [x|e|]]; [|done..]. naive_solver.
Qed.

Lemma app_spec_bind (m : st app SocksError A) (f : A → st app SocksError B) Q R :
  app_spec m Q → (∀ u w x, Q u w x → app_spec (f x) (λ u' w' y, R (u ++ u') (w ++ w') y)) →
  app_spec (m ≫= f) R.
Proof.
  intros Hm Hf a. specialize (Hm a). unfold mbind, st_bind. destruct (m a) as [a1 [x|e|]]; [|done..].
  destruct Hm as (u & w & Hin & Hout & Hend & Hns & HQ). specialize (Hf u w x HQ a1).
  destruct (f x a1) as [a2 [y|e|]]; [|destruct Hf as [(w' & Hout' & Hns') He]; split; [|done]|done].
  - destruct Hf as (u' & w' & Hin' & Hout' & Hend' & Hns' & HR). exists (u ++ u'), (w ++ w').
    rewrite Hin, Hin', Hout', Hout, elem_of_app, !app_assoc. split_and!; try done; [congruence|tauto].
  - exists (w ++ w'). rewrite Hout', Hout, app_assoc, elem_of_app. split; [done|tauto].
Qed.

Lemma app_spec_ret (x : A) Q : Q [] [] x → app_spec (mret x) Q.
Proof. intros HQ a. exists [], []. rewrite app_nil_r. split_and!; try done. apply not_elem_of_nil. Qed.

Lemma app_spec_fail e Q : (∀ x, e ≠ SClient x) → app_spec (fail e) Q.
Proof. intros He a. split; [|done]. exists []. rewrite app_nil_r. split; [done|]. apply not_elem_of_nil. Qed.

Lemma app_spec_index {C} (l : list C) i (c : C) (f : C → st app SocksError A) Q :
  l !! i = Some c → app_spec (f c) Q → app_spec (lift (index l i) ≫= f) Q.
Proof. intros Hl Hf. unfold index. rewrite Hl. exact Hf. Qed.
End app_logic.

Lemma app_spec_read n : app_spec (app_read n) (λ u w x, u = x ∧ length x = n ∧ w = []).
Proof.
  intros a. unfold app_read. destruct (Nat.leb_spec n (length (a_in a))) as [Hle|Hgt].
  - exists (take n (a_in a)), []. rewrite app_nil_r, length_take_le by done. simpl. rewrite take_drop.
    split_and!; try done. apply not_elem_of_nil.
  - split; [|done]. exists []. rewrite app_nil_r. split; [done|]. apply not_elem_of_nil.
Qed.

Lemma app_spec_write b : b ≠ reply_bytes REP_SUCCESS → app_spec (app_write b) (λ u w _, u = [] ∧ w = [b]).
Proof.
  intros Hb a. unfold app_write.
  assert (reply_bytes REP_SUCCESS ∉ [b]) as Hn by (rewrite not_elem_of_cons; split; [done|apply not_elem_of_nil]).
  destruct (a_fails a) as [|[] fs].
  - exists [], [b]. done.
  - split; [|done]. exists []. rewrite app_nil_r. split; [done|]. apply not_elem_of_nil.
  - exists [], [b]. done.
Qed.

Lemma app_spec_write_ignored b : b ≠ reply_bytes REP_SUCCESS → app_spec (app_write_ignored b) (λ _ _ _, True).
Proof.
  intros Hb a. pose proof (app_spec_write b Hb a) as Hw. unfold app_write_ignored, app_write in *.
  destruct (a_fails a) as [|[] fs]; simpl in *.
  - destruct Hw as (u & w & ? & ? & ? & ? & _). eauto 10.
  - exists [], []. rewrite app_nil_r. split_and!; try done. apply not_elem_of_nil.
  - destruct Hw as (u & w & ? & ? & ? & ? & _). eauto 10.
Qed.

Lemma u8_as_nat n : (n < 256)%nat → Z.to_nat (u8 (as_u8 (Z.of_nat n))) = n.
Proof. intros Hn. rewrite u8_as_u8, Z.mod_small by lia. lia. Qed.

Lemma as_u8_length (b : byte) (l : list byte) : length l = Z.to_nat (u8 b) → (length l < 256)%nat ∧ as_u8 (Z.of_nat (length l)) = b.
Proof. intros Hl. pose proof (u8_range b). split; [lia|]. rewrite Hl, Z2Nat.id by lia. apply as_u8_u8. Qed.

(** Take a list of known length apart. *)
Ltac known_length l H := repeat (destruct l as [|? l]; [done || discriminate H|]); destruct l; [|discriminate H]; clear H.

Lemma serve_greeting_spec :
  app_spec serve_greeting (λ u w _, ∃ methods, (length methods < 256)%nat ∧ METHOD_NO_AUTH ∈ methods ∧
    u = [VER; as_u8 (Z.of_nat (length methods))] ++ methods ∧ w = [[VER; METHOD_NO_AUTH]]).
Proof.
  unfold serve_greeting. eapply app_spec_bind; [apply app_spec_read|]. intros u w greet (-> & Hl & ->).
  known_length greet Hl. eapply app_spec_index; [done|]. case_bool_decide as Hv; cbn [negb]; [|by apply app_spec_fail].
  subst. eapply app_spec_index; [done|]. eapply app_spec_bind; [apply app_spec_read|].
  intros u w methods (-> & [Hl Hb]%as_u8_length & ->). case_bool_decide as Hm; cbn [negb].
  - eapply app_spec_mono; [by apply app_spec_write|]. intros u w _ [-> ->]. exists methods. by rewrite Hb, app_nil_r.
  - eapply app_spec_bind; [by apply app_spec_write_ignored|]. intros. by apply app_spec_fail.
Qed.

Lemma read_host_spec atyp :
  app_spec (read_host atyp) (λ u w host, ∃ t, target_wf t ∧ atyp :: u = target_bytes t ∧ host = target_host t ∧ w = []).
Proof.
  unfold read_host. case_bool_decide as H4; [|case_bool_decide as H6; [|case_bool_decide as Hd]].
  - eapply app_spec_bind; [apply app_spec_read|]. intros u w a (-> & Hl & ->). known_length a Hl.
    do 4 (eapply app_spec_index; [done|]). apply app_spec_ret. eexists (TIp (V4 (Ipv4 _ _ _ _))). by subst.
  - eapply app_spec_bind; [apply app_spec_read|]. intros u w a (-> & Hl & ->). apply app_spec_ret.
    exists (TIp (V6 (Ipv6 a))). subst. by rewrite app_nil_r.
  - eapply app_spec_bind; [apply app_spec_read|]. intros u w l (-> & Hl & ->). known_length l Hl.
    eapply app_spec_index; [done|]. eapply app_spec_bind; [apply app_spec_read|].
    intros u w name (-> & [Hl Hb]%as_u8_length & ->).
    destruct (from_utf8 name) as [host|] eqn:Hu.
    + apply app_spec_ret. apply from_utf8_Some in Hu as [<- Hv]. rewrite app_nil_r.
      exists (TDomain (as_bytes host)). simpl. rewrite Hb, of_bytes_as_bytes. by subst.
    + eapply app_spec_bind; [by apply app_spec_write|]. intros. by apply app_spec_fail.
  - eapply app_spec_bind; [by apply app_spec_write|]. intros. by apply app_spec_fail.
Qed.

Lemma serve_request_spec :
  app_spec serve_request (λ u w dest, ∃ r, request_wf r ∧ u = request_bytes r ∧ dest = request_dest r ∧
    w = [[VER; METHOD_NO_AUTH]]).
Proof.
  unfold serve_request. eapply app_spec_bind; [apply serve_greeting_spec|].
  intros u w _ (methods & Hm & Hin & -> & ->). eapply app_spec_bind; [apply app_spec_read|].
  intros u w head (-> & Hl & ->). known_length head Hl. eapply app_spec_index; [done|].
  case_bool_decide as Hv; cbn [negb]; [|by apply app_spec_fail]. subst. eapply app_spec_index; [done|].
  case_bool_decide as Hc; cbn [negb]; cycle 1.
  { eapply app_spec_bind; [by apply app_spec_write|]. intros. by apply app_spec_fail. }
  subst. eapply app_spec_index; [done|]. eapply app_spec_bind; [apply read_host_spec|].
  intros u w host (t & Ht & Hu & -> & ->). eapply app_spec_bind; [apply app_spec_read|].
  intros u' w port (-> & Hl & ->). known_length port Hl. do 2 (eapply app_spec_index; [done|]). apply app_spec_ret.
  eexists (mkRequest methods _ t _ _). split; [done|]. split; [|done].
  unfold request_bytes. cbn [rq_methods rq_reserved rq_target rq_port_hi rq_port_lo]. rewrite <- Hu, <- app_assoc. done.
Qed.

(** Reading what is there. *)
Lemma app_read_app n l rest e out fs :
  n = length l → app_read n (mkApp (l ++ rest) e out fs) = (mkApp rest e out fs, Ok l).
Proof.
  intros ->. unfold app_read. simpl. rewrite length_app, (proj2 (Nat.leb_le _ _)) by lia.
  by rewrite take_app_length, drop_app_length.
Qed.

Lemma read_host_target t rest e out fs :
  target_wf t →
  ∃ atyp body, target_bytes t = atyp :: body ∧
    read_host atyp (mkApp (body ++ rest) e out fs) = (mkApp rest e out fs, Ok (target_host t)).
Proof.
  intros Ht. destruct t as [[[a b c d]|a]|name]; (eexists _, _; split; [done|]); unfold read_host.
  - rewrite bool_decide_true by done. erewrite st_bind_Ok_eq by (by apply app_read_app). done.
  - rewrite bool_decide_false, bool_decide_true by done. simpl in Ht.
    erewrite st_bind_Ok_eq by (by apply app_read_app). by destruct a.
  - rewrite !bool_decide_false, bool_decide_true by done. destruct Ht as [Hl Hu].
    erewrite st_bind_Ok_eq by (apply (app_read_app 1 [_]); done). erewrite st_bind_Ok_eq by done.
    erewrite st_bind_Ok_eq by (apply app_read_app; by apply u8_as_nat). unfold from_utf8. by rewrite Hu.
Qed.

Lemma serve_request_accepts r rest e out :
  request_wf r →
  serve_request (mkApp (request_bytes r ++ rest) e out []) =
    (mkApp rest e (out ++ [[VER; METHOD_NO_AUTH]]) [], Ok (request_dest r)).
Proof.
  intros (Hl & Hm & Ht). destruct r as [methods rsv t hi lo]. cbn [rq_methods rq_target] in *.
  unfold request_bytes, serve_request. cbn [rq_methods rq_reserved rq_target rq_port_hi rq_port_lo].
  destruct (read_host_target t ([hi; lo] ++ rest) e (out ++ [[VER; METHOD_NO_AUTH]]) [] Ht) as (atyp & body & -> & Hhost).
  assert (serve_greeting (mkApp (([VER; as_u8 (Z.of_nat (length methods))] ++ methods ++
      [VER; CMD_CONNECT; rsv] ++ (atyp :: body) ++ [hi; lo]) ++ rest) e out []) =
    (mkApp ([VER; CMD_CONNECT; rsv; atyp] ++ body ++ [hi; lo] ++ rest) e (out ++ [[VER; METHOD_NO_AUTH]]) [], Ok ())) as Hg.
  { unfold serve_greeting. rewrite <- app_assoc. erewrite st_bind_Ok_eq by (by apply app_read_app).
    erewrite st_bind_Ok_eq by done. rewrite bool_decide_true by done. cbn [negb]. erewrite st_bind_Ok_eq by done.
    rewrite <- app_assoc. erewrite st_bind_Ok_eq by (apply app_read_app; by apply u8_as_nat).
    rewrite bool_decide_true by done. cbn [negb]. unfold app_write. simpl. by rewrite <- app_assoc. }
  erewrite st_bind_Ok_eq by exact Hg. erewrite st_bind_Ok_eq by (by apply app_read_app).
  erewrite st_bind_Ok_eq by done. rewrite bool_decide_true by done. cbn [negb]. erewrite st_bind_Ok_eq by done.
  rewrite bool_decide_true by done. cbn [negb]. erewrite st_bind_Ok_eq by done.
  erewrite st_bind_Ok_eq by exact Hhost. erewrite st_bind_Ok_eq by (by apply app_read_app). done.
Qed.

Lemma on_app_eq `{Ed25519} {A} (m : st app SocksError A) s :
  on_app m s = let '(a, o) := m (ss_app s) in (mkSession a (ss_dialler s), o).
Proof. done. Qed.

Section serve_lemmas.
Context `{Base64, Sha256, Ed25519, RegistryJson, StateJson, ModInverse, Snow, ServerNames}.
Context `{Urls, ApiJson, Pem}.

(** What a session is left with once its destination is known. *)
Lemma serve_circuit_cases ch host port a d :
  ∃ a' res, serve_circuit ch host port (mkSession a d) = (mkSession a' (fst (build_circuit ch host port d)), res) ∧
    match snd (build_circuit ch host port d) with
    | Ok (Some layers) =>
        (res = Ok (Some layers) ∧ a_out a' = a_out a ++ [reply_bytes REP_SUCCESS] ∧ a_in a' = a_in a) ∨
        (res = Err (SIo IoOther) ∧ a_out a' = a_out a)
    | Ok None => res = Ok None ∧ a_out a' = a_out a
    | Err e => res = Err (SClient e) ∧ (a_out a' = a_out a ++ [reply_bytes REP_GENERAL_FAILURE] ∨ a_out a' = a_out a)
    | Panic => res = Panic
    end.
Proof.
  unfold serve_circuit, on_dialler, on_field. cbn [ss_dialler].
  destruct (build_circuit ch host port d) as [d' [[layers|]|e|]]; cbn [fst snd ss_app];
    [|by eauto| |by eauto]; unfold mbind, st_bind; rewrite on_app_eq; cbn [ss_app ss_dialler]; unfold write_reply, app_write;
    destruct (a_fails a) as [|[] fs]; cbn; eexists _, _; (split; [reflexivity|]); cbn; auto.
Qed.

(** The client's part of building a circuit does not depend on the
    destination; the rest is [dial]. *)
Lemma build_circuit_cases ch host port d d' o :
  build_circuit ch host port d = (d', o) →
  dl_client d' = fst (issue_token (ch_m_raw ch) (ch_draws ch) (dl_client d)) ∧
  ∀ layers, o = Ok (Some layers) →
    ∃ m_raw token route,
      issue_token (ch_m_raw ch) (ch_draws ch) (dl_client d) = (dl_client d', Ok (Some (m_raw, token))) ∧
      build_path (dl_client d') (ch_now ch) (ch_gen ch) = Ok route ∧
      dial (ch_rng1 ch) (ch_rng2 ch) (ch_rng3 ch) route m_raw token host port (dl_streams d) = (dl_streams d', Ok layers).
Proof.
  unfold build_circuit, on_dl_client, on_dl_streams, on_field, get_client, lift, mret, st_ret, mbind, st_bind.
  destruct (issue_token _ _ (dl_client d)) as [c1 [[[m_raw token]|]|e|]]; cbn [dl_client dl_streams fst].
  - destruct (build_path c1 (ch_now ch) (ch_gen ch)) as [route|e|] eqn:Hp; [|by intros [= <- <-]..].
    destruct (dial _ _ _ route m_raw token host port (dl_streams d)) as [n' [layers|e|]] eqn:Hd; intros [= <- <-];
      (split; [done|]); intros ? [= <-]. exists m_raw, token, route. done.
  - by intros [= <- <-].
  - by intros [= <- <-].
  - by intros [= <- <-].
Qed.
End serve_lemmas.

(** ** Properties *)

Section socks_theorems.
Context `{Base64, Sha256, Ed25519, RegistryJson, StateJson, ModInverse, Snow, ServerNames}.
Context `{Urls, ApiJson, Pem}.

(** C31. The SOCKS5 server serves exactly the CONNECT requests of RFC 1928
    without authentication.  On a socket that takes its writes, every well-formed
    request is read to its last byte, answered with the chosen method, and named
    to the client as its host and port; an IP address is passed on in a text
    that parses back to the very same address.  Conversely, whenever the
    server gets as far as a destination, the input began with such a request for
    it; and on no input, and no failure of a write, does it panic. *)
Theorem socks_requests_exact :
  (∀ r rest e out, request_wf r →
     serve_request (mkApp (request_bytes r ++ rest) e out []) =
       (mkApp rest e (out ++ [[VER; METHOD_NO_AUTH]]) [], Ok (request_dest r))) ∧
  (∀ a a' dest, serve_request a = (a', Ok dest) →
     ∃ r, request_wf r ∧ a_in a = request_bytes r ++ a_in a' ∧ dest = request_dest r) ∧
  (∀ a, snd (serve_request a) ≠ Panic) ∧
  (∀ ip, ip_wf ip → parse_ip (target_host (TIp ip)) = Some ip).
Proof.
  split_and!; [apply serve_request_accepts| | |apply show_ip_round_trip].
  - intros a a' dest Hs. pose proof (serve_request_spec a) as Hspec. rewrite Hs in Hspec.
    destruct Hspec as (u & w & Hin & _ & _ & _ & r & Hr & -> & -> & _). eauto.
  - intros a Hp. pose proof (serve_request_spec a) as Hspec. by destruct (serve_request a) as [a' [| |]].
Qed.

(** C17. An application hears of success only when there is a circuit to the
    destination it asked for.  Either the request is refused before the client
    is touched (no token is issued, nothing is dialled, no success reply is
    written), or the input began with a well-formed request and the client's
    state and its network afterwards are exactly those of building that circuit:
    success is reported if and only if it was built, a general failure (as far
    as the socket takes it) if it was not, and the client's error is returned. *)
Theorem socks_success_means_circuit ch s :
  let '(s', res) := socks_serve ch s in
  (∃ e w, res = Err e ∧ (∀ x, e ≠ SClient x) ∧ ss_dialler s' = ss_dialler s ∧
     a_out (ss_app s') = a_out (ss_app s) ++ w ∧ (reply_bytes REP_SUCCESS ∉ w)) ∨
  (∃ r rest, request_wf r ∧ a_in (ss_app s) = request_bytes r ++ rest ∧
     let '(d', built) := build_circuit ch (request_dest r).1 (request_dest r).2 (ss_dialler s) in
     ss_dialler s' = d' ∧
     let out := a_out (ss_app s) ++ [[VER; METHOD_NO_AUTH]] in
     match built with
     | Ok (Some layers) =>
         (res = Ok (Some layers) ∧ a_out (ss_app s') = out ++ [reply_bytes REP_SUCCESS] ∧ a_in (ss_app s') = rest) ∨
         (res = Err (SIo IoOther) ∧ a_out (ss_app s') = out)
     | Ok None => res = Ok None ∧ a_out (ss_app s') = out
     | Err e => res = Err (SClient e) ∧
         (a_out (ss_app s') = out ++ [reply_bytes REP_GENERAL_FAILURE] ∨ a_out (ss_app s') = out)
     | Panic => res = Panic
     end).
Proof.
  unfold socks_serve, mbind, st_bind. rewrite on_app_eq. pose proof (serve_request_spec (ss_app s)) as Hspec.
  destruct (serve_request (ss_app s)) as [a1 [dest|e|]]; [| |done]; cycle 1.
  { cbn beta iota. left. destruct Hspec as [(w & Hw & Hn) He]. exists e, w. done. }
  destruct Hspec as (u & w & Hin & Hout & _ & _ & r & Hr & -> & -> & ->).
  cbn beta iota. destruct (serve_circuit_cases ch (request_dest r).1 (request_dest r).2 a1 (ss_dialler s))
    as (a2 & res & Hs & Hcases).
  destruct (request_dest r) as [host port] eqn:Hdest. cbn [fst snd] in Hs, Hcases. rewrite Hs. right.
  exists r, (a_in a1). rewrite Hdest. cbn [fst snd ss_app ss_dialler].
  destruct (build_circuit ch host port (ss_dialler s)) as [d' built]. rewrite <- Hout. auto.
Qed.

(** What a network observer between the client and its guard can compare. *)
Lemma dial_same_view r1 r2 r3 route m_raw token h1 p1 h2 p2 n n1 l1 n2 l2 :
  dial r1 r2 r3 route m_raw token h1 p1 n = (n1, Ok l1) → dial r1 r2 r3 route m_raw token h2 p2 n = (n2, Ok l2) →
  ∃ pre f1 f2, sent n1 = pre ++ [TlsWrite f1; TlsFlush] ∧ sent n2 = pre ++ [TlsWrite f2; TlsFlush] ∧
    length f1 = link_cell_len CLIENT_LAYERS ∧ length f2 = link_cell_len CLIENT_LAYERS.
Proof.
  assert (∀ h p n' l, dial r1 r2 r3 route m_raw token h p n = (n', Ok l) →
    ∃ na a nb b x nc c y z w, dial_guard r1 route m_raw token n = (na, Ok a) ∧
      run_extend r2 (sp_middle route) a None na = (nb, Ok (b, x, c)) ∧
      run_extend r3 (sp_exit route) b (Some c) nb = (nc, Ok (y, z, w)) ∧
      ∃ f, sent n' = sent nc ++ [TlsWrite f; TlsFlush] ∧ length f = link_cell_len CLIENT_LAYERS) as Hdial.
  { intros h p n' l. unfold dial. intros (na & a & Ha & Hd)%st_bind_Ok.
    apply st_bind_Ok in Hd as (nb & [[b x] c] & Hb & Hd). apply st_bind_Ok in Hd as (nc & [[y z] w] & Hc & Hd).
    cbn zeta in Hd. apply st_bind_Ok in Hd as (? & connect & [= <- _] & Hd).
    apply st_bind_Ok in Hd as (? & cell & [= <- _] & Hd).
    destruct (seal_for_exit cell _) as [ls o] eqn:Hseal. apply st_bind_Ok in Hd as (? & wire & [= <- ->] & Hd).
    apply st_bind_Ok in Hd as (n3 & [] & Hw3 & Hd). apply st_bind_Ok in Hd as (n4 & [] & Hw4 & [= <- <-]).
    exists na, a, nb, b, x, nc, c, y, z, w. split_and!; [done..|]. exists wire. split.
    - unfold act in Hw3, Hw4. destruct (next_reply nc) as [? ?]. injection Hw3 as <- _.
      destruct (next_reply _) as [? ?]. injection Hw4 as <- _. simpl. by rewrite <- app_assoc.
    - unfold seal_for_exit in Hseal. apply st_bind_Ok in Hseal as (? & inner & _ & Hseal).
      apply st_bind_Ok in Hseal as (l2' & mid & _ & Hseal).
      unfold on_guard, on_field in Hseal. destruct (st_map_err CLayer _ _) as [t' o'] eqn:Hs. injection Hseal as _ ->.
      apply st_map_err_Ok in Hs. by eapply seal_forward_length. }
  intros (na & a & nb & b & x & nc & c & y & z & w & Ha & Hb & Hc & f1 & Hs1 & Hl1)%Hdial.
  intros (na' & a' & nb' & b' & x' & nc' & c' & y' & z' & w' & Ha' & Hb' & Hc' & f2 & Hs2 & Hl2)%Hdial.
  rewrite Ha in Ha'. injection Ha' as <- <-. rewrite Hb in Hb'. injection Hb' as <- <- <- <-.
  rewrite Hc in Hc'. injection Hc' as <- _ _ _. exists (sent nc), f1, f2. done.
Qed.

(** C11. Neither the authority nor the wire tells two destinations apart.  Serve
    two well-formed requests for any two destinations from the same state with
    the same randomness: the client ends in the same state, so the requests it
    made to the authority and the registry's traffic are identical; and if
    both circuits are built, what was done on the connection to the guard is
    the same action by action, except for the contents of the one last frame,
    whose length is the fixed cell length in both. *)
Theorem destination_stays_hidden ch d r1 r2 rest1 rest2 e1 e2 out1 out2 :
  request_wf r1 → request_wf r2 →
  let '(s1, o1) := socks_serve ch (mkSession (mkApp (request_bytes r1 ++ rest1) e1 out1 []) d) in
  let '(s2, o2) := socks_serve ch (mkSession (mkApp (request_bytes r2 ++ rest2) e2 out2 []) d) in
  dl_client (ss_dialler s1) = dl_client (ss_dialler s2) ∧
  ∀ l1 l2, o1 = Ok (Some l1) → o2 = Ok (Some l2) →
    ∃ pre f1 f2, sent (dl_streams (ss_dialler s1)) = pre ++ [TlsWrite f1; TlsFlush] ∧
      sent (dl_streams (ss_dialler s2)) = pre ++ [TlsWrite f2; TlsFlush] ∧ length f1 = length f2.
Proof.
  intros Hw1 Hw2. unfold socks_serve, mbind, st_bind. rewrite !on_app_eq. cbn [ss_app ss_dialler].
  rewrite !serve_request_accepts by done.
  destruct (request_dest r1) as [h1 p1], (request_dest r2) as [h2 p2]. cbn beta iota.
  set (a1 := mkApp rest1 _ _ _). set (a2 := mkApp rest2 _ _ _).
  destruct (serve_circuit_cases ch h1 p1 a1 d) as (a1' & o1 & -> & Hc1).
  destruct (serve_circuit_cases ch h2 p2 a2 d) as (a2' & o2 & -> & Hc2).
  destruct (build_circuit ch h1 p1 d) as [d1 b1] eqn:Hb1, (build_circuit ch h2 p2 d) as [d2 b2] eqn:Hb2.
  apply build_circuit_cases in Hb1 as [Hk1 Hb1]. apply build_circuit_cases in Hb2 as [Hk2 Hb2].
  cbn [fst snd ss_dialler] in *. split; [congruence|]. intros l1 l2 -> ->.
  assert (b1 = Ok (Some l1) ∧ b2 = Ok (Some l2)) as [-> ->].
  { destruct b1 as [[]| |], b2 as [[]| |]; naive_solver. }
  destruct (Hb1 l1 eq_refl) as (m1 & t1 & route1 & Hi1 & Hp1 & Hd1), (Hb2 l2 eq_refl) as (m2 & t2 & route2 & Hi2 & Hp2 & Hd2).
  rewrite Hk1, <- Hk2 in Hi1. rewrite Hk1, <- Hk2 in Hp1. rewrite Hi2 in Hi1. injection Hi1 as <- <-.
  rewrite Hp2 in Hp1. injection Hp1 as <-.
  destruct (dial_same_view _ _ _ _ _ _ _ _ _ _ _ _ _ _ _ Hd1 Hd2) as (pre & f1 & f2 & ? & ? & ? & ?).
  exists pre, f1, f2. split_and!; congruence.
Qed.
End socks_theorems.

(** ** Witness *)

Definition sample_request1 : request := mkRequest [x00] x00 (TDomain (as_bytes "a.example")) x01 xbb.
Definition sample_request2 : request :=
  mkRequest [x02; x00] x00 (TIp (V6 (v6_of_groups [8193; 3512; 0; 0; 0; 0; 0; 1]))) x00 x50.

(** A client that is logged in and primed; the authority answers the key and
    one token. *)
Definition sample_dialler : outcome ClientError dialler :=
  c ← client_new true [true] sample_client_cfg (mkDisk ∅ []) sample_client_net
        (mkApi [] [Response 200 (Some (as_bytes "jwt")); Response 200 (Some []);
                   Response 200 (Some (as_bytes (hex_lower (to_bytes_be (2 * from_bytes_be sample_m_raw)))))]);
  Ok (mkDialler (run_clients [Login; PrimeRegistry sample_now] c) (mkStreams [] [])).
Definition sample_chance : chance := mkChance sample_m_raw [2] sample_now (λ _, 0%nat) [x01] [x02] [x03].

Lemma destination_stays_hidden_witness :
  ∃ d, sample_dialler = Ok d ∧
  let s1 := fst (socks_serve sample_chance (mkSession (mkApp (request_bytes sample_request1) UnexpectedEof [] []) d)) in
  let s2 := fst (socks_serve sample_chance (mkSession (mkApp (request_bytes sample_request2) UnexpectedEof [] []) d)) in
  length (api_sent (qc_api (dl_client (ss_dialler s1)))) = 3%nat ∧
  sent (dl_streams (ss_dialler s1)) ≠ [] ∧
  dl_client (ss_dialler s1) = dl_client (ss_dialler s2).
Proof.
  assert (is_ok sample_dialler = true) as Hok by (vm_compute; reflexivity).
  destruct sample_dialler as [d| |] eqn:Hd; [|discriminate Hok..]. exists d. split; [reflexivity|].
  assert (request_wf sample_request1) as Hw1.
  { split; [vm_compute; lia|]. split; [left|]. split; [vm_compute; lia|vm_compute; reflexivity]. }
  assert (request_wf sample_request2) as Hw2.
  { split; [vm_compute; lia|]. split; [right; left|]. vm_compute. reflexivity. }
  pose proof (destination_stays_hidden sample_chance d sample_request1 sample_request2 [] [] UnexpectedEof UnexpectedEof
    [] [] Hw1 Hw2) as Ht. rewrite !app_nil_r in Ht. cbn zeta. split; [|split].
  - injection Hd as <-. vm_compute. reflexivity.
  - injection Hd as <-. vm_compute. discriminate.
  - destruct (socks_serve _ _) as [s1 o1]. destruct (socks_serve _ _) as [s2 o2]. apply Ht.
Defined.
