(* ===== verification/Daemon.v ===== *)
(** QuietHop: the client's daemon at work.

    [quiethop-client/src/main.rs] from the listener on: the accept loop, one
    task per application, and the task that refreshes the registry, over one
    client behind a mutex.  A step is what happens between two waits: a tick of
    the refresh task, an accept, a request read by one session, or one session's
    turn with the locked client.  Any order of steps is a run. *)

From S2P Require Import Prelude Bytes Text NetAddr Ipv6 Cell Noise SampleNoise Layer Civil State Registry SampleRegistry.
From S2P Require Import RegistryCache Token Config Path Blind Dial Client Socks5.

#[local] Open Scope Z_scope.

Section daemon.
Context `{Base64, Sha256, Ed25519, RegistryJson, StateJson, ModInverse, Snow, ServerNames}.
Context `{Urls, ApiJson, Pem}.

(** Where the task of one application is. *)
Inductive served :=
  | Fresh (a : app)
  | Asked (a : app) (host : string) (port : Z)
  | Joined (a : app) (n : streams) (layers : Layers)
  | Ended (a : app) (e : option SocksError).

(** The shared client, the refresh task (which a panic would end), and the
    sessions in the order in which they were accepted. *)
Record daemon := mkDaemon { dm_client : QuietHopClient; dm_refreshing : bool; dm_sessions : list served }.

Inductive devent :=
  | RefreshTick (now : Z)
  | AcceptFailed
  | Accepted (a : app)
  | ReadRequest (i : nat)
  | TakeLock (i : nat) (ch : chance) (n : streams).

Definition set_served (i : nat) (s : served) (d : daemon) : daemon :=
  mkDaemon (dm_client d) (dm_refreshing d) (<[i := s]> (dm_sessions d)).

(** The body of the refresh loop: whatever comes of it, the loop goes on. *)
Definition refresh_turn (now : Z) (d : daemon) : daemon :=
  if dm_refreshing d then
    let '(c, r) := refresh_registry now (dm_client d) in
    mkDaemon c (match r with Panic => false | _ => true end) (dm_sessions d)
  else d.

(** A session reads its greeting and its request, without the client. *)
Definition read_turn (i : nat) (d : daemon) : daemon :=
  match dm_sessions d !! i with
  | Some (Fresh a) =>
      set_served i (match serve_request a with
                    | (a, Ok (host, port)) => Asked a host port
                    | (a, Err e) => Ended a (Some e)
                    | (a, Panic) => Ended a None
                    end) d
  | _ => d
  end.

(** A session locks the client for its circuit, and answers.  While [blind]
    still draws, the turn is not over. *)
Definition lock_turn (i : nat) (ch : chance) (n : streams) (d : daemon) : daemon :=
  match dm_sessions d !! i with
  | Some (Asked a host port) =>
      let '(s, r) := serve_circuit ch host port (mkSession a (mkDialler (dm_client d) n)) in
      let put v := mkDaemon (dl_client (ss_dialler s)) (dm_refreshing d) (<[i := v]> (dm_sessions d)) in
      match r with
      | Ok (Some layers) => put (Joined (ss_app s) (dl_streams (ss_dialler s)) layers)
      | Ok None => d
      | Err e => put (Ended (ss_app s) (Some e))
      | Panic => put (Ended (ss_app s) None)
      end
  | _ => d
  end.

Definition daemon_step (e : devent) (d : daemon) : daemon :=
  match e with
  | RefreshTick now => refresh_turn now d
  | AcceptFailed => d
  | Accepted a => mkDaemon (dm_client d) (dm_refreshing d) (dm_sessions d ++ [Fresh a])
  | ReadRequest i => read_turn i d
  | TakeLock i ch n => lock_turn i ch n d
  end.

Definition run_daemon (es : list devent) (d : daemon) : daemon := fold_left (λ d e, daemon_step e d) es d.

(** The daemon as its listener is bound. *)
Definition listening (c : QuietHopClient) : daemon := mkDaemon c true [].

(** ** The run, seen from the client *)

(** What a step does to the client. *)
Definition step_call (e : devent) (d : daemon) : list client_call :=
  match e with
  | RefreshTick now => if dm_refreshing d then [RefreshRegistry now] else []
  | TakeLock i ch n =>
      match dm_sessions d !! i with
      | Some (Asked a host port) =>
          match snd (serve_circuit ch host port (mkSession a (mkDialler (dm_client d) n))) with
          | Ok None => []
          | _ => [IssueToken (ch_m_raw ch) (ch_draws ch)]
          end
      | _ => []
      end
  | _ => []
  end.

Fixpoint daemon_calls (es : list devent) (d : daemon) : list client_call :=
  match es with
  | [] => []
  | e :: es => step_call e d ++ daemon_calls es (daemon_step e d)
  end.

(** The applications accepted. *)
Definition arrivals (es : list devent) : list app :=
  omap (λ e, match e with Accepted a => Some a | _ => None end) es.

(** Some turn of the client's history is all of [socks_serve] for the
    application [a], run alone. *)
Definition whole_turn (c : QuietHopClient) (ks : list client_call) (a : app) (ch : chance)
    (n : streams) (s : session) (r : outcome SocksError (option Layers)) : Prop :=
  ∃ before after, ks = before ++ IssueToken (ch_m_raw ch) (ch_draws ch) :: after ∧
    socks_serve ch (mkSession a (mkDialler (run_clients before c) n)) = (s, r) ∧
    dl_client (ss_dialler s) = run_clients (before ++ [IssueToken (ch_m_raw ch) (ch_draws ch)]) c.

(** What the state of a session says of the application it serves. *)
Definition session_story (c : QuietHopClient) (ks : list client_call) (a : app) (v : served) : Prop :=
  match v with
  | Fresh a' => a' = a
  | Asked a' host port => serve_request a = (a', Ok (host, port))
  | Joined a' n' layers =>
      ∃ ch n s, whole_turn c ks a ch n s (Ok (Some layers)) ∧ ss_app s = a' ∧ dl_streams (ss_dialler s) = n'
  | Ended a' (Some e) =>
      serve_request a = (a', Err e) ∨ ∃ ch n s, whole_turn c ks a ch n s (Err e) ∧ ss_app s = a'
  | Ended a' None => ∃ ch n s, whole_turn c ks a ch n s Panic ∧ ss_app s = a'
  end.
End daemon.

(** ** Lemmas *)

Section daemon_lemmas.
Context `{Base64Laws, Sha256, Ed25519, RegistryJson, StateJsonLaws, ModInverse, Snow, ServerNames}.
Context `{Urls, ApiJson, Pem}.

Lemma whole_turn_mono c ks ks' a ch n s r : whole_turn c ks a ch n s r → whole_turn c (ks ++ ks') a ch n s r.
Proof. intros (before & after & -> & Hs & Hc). exists before, (after ++ ks'). by rewrite <- app_assoc. Qed.

Lemma session_story_mono c ks ks' a v : session_story c ks a v → session_story c (ks ++ ks') a v.
Proof.
  destruct v as [| | |? [e|]]; cbn [session_story]; [done..| | |].
  - intros (ch & m & s & Hw & ?). exists ch, m, s. eauto using whole_turn_mono.
  - intros [?|(ch & m & s & Hw & ?)]; [by left|right]. exists ch, m, s. eauto using whole_turn_mono.
  - intros (ch & m & s & Hw & ?). exists ch, m, s. eauto using whole_turn_mono.
Qed.

(** One turn with the lock issues one token, and ends a whole [socks_serve]. *)
Lemma serve_circuit_client ch host port a cl n s r :
  serve_circuit ch host port (mkSession a (mkDialler cl n)) = (s, r) →
  dl_client (ss_dialler s) = run_client (IssueToken (ch_m_raw ch) (ch_draws ch)) cl.
Proof.
  intros Hs. destruct (serve_circuit_cases ch host port a (mkDialler cl n)) as (a2 & res & Hs2 & _).
  rewrite Hs in Hs2. injection Hs2 as -> ->. destruct (build_circuit _ _ _ _) as [d' o] eqn:Hb.
  by apply build_circuit_cases in Hb as [Hc _].
Qed.

Lemma serve_circuit_whole ch host port a a' d :
  serve_request a = (a', Ok (host, port)) →
  socks_serve ch (mkSession a d) = serve_circuit ch host port (mkSession a' d).
Proof. intros Hr. unfold socks_serve. by erewrite st_bind_Ok_eq by (rewrite on_app_eq; cbn [ss_app]; by rewrite Hr). Qed.

Lemma run_clients_snoc ks k c : run_clients (ks ++ [k]) c = run_client k (run_clients ks c).
Proof. unfold run_clients. by rewrite fold_left_app. Qed.

Lemma whole_turn_last c ks a a' ch host port n s r :
  serve_request a = (a', Ok (host, port)) →
  serve_circuit ch host port (mkSession a' (mkDialler (run_clients ks c) n)) = (s, r) →
  whole_turn c (ks ++ [IssueToken (ch_m_raw ch) (ch_draws ch)]) a ch n s r.
Proof.
  intros Ha Hs. exists ks, []. rewrite run_clients_snoc. split_and!; [done| |by eapply serve_circuit_client].
  by erewrite serve_circuit_whole.
Qed.

Lemma refresh_registry_turn now c :
  snd (refresh_registry now c) ≠ Panic ∧
  qc_registry (fst (refresh_registry now c)) = fst (refresh_if_stale now (qc_registry c)).
Proof.
  split; [|by destruct (on_registry_keeps (refresh_if_stale now) c) as (_ & _ & _ & _ & ?)].
  destruct (refresh_by_staleness now (qc_registry c)) as [Hn _].
  unfold refresh_registry, on_registry, on_field, st_map_err. by destruct (refresh_if_stale _ _) as [w [| |]].
Qed.

(** The state of a run that started with the client [c]: what has been done to
    the client, and how far each application has got. *)
Definition daemon_inv (c : QuietHopClient) (ks : list client_call) (apps : list app) (d : daemon) : Prop :=
  dm_client d = run_clients ks c ∧ dm_refreshing d = true ∧ Forall2 (session_story c ks) apps (dm_sessions d).

Lemma set_served_inv c ks ks' apps d i v v' cl :
  daemon_inv c ks apps d → dm_sessions d !! i = Some v → cl = run_clients (ks ++ ks') c →
  (∀ a, session_story c ks a v → session_story c (ks ++ ks') a v') →
  daemon_inv c (ks ++ ks') apps (mkDaemon cl (dm_refreshing d) (<[i := v']> (dm_sessions d))).
Proof.
  intros (_ & Hr & Hf) Hi -> Hv. split; [done|]. split; [done|]. cbn [dm_sessions].
  apply Forall2_lookup_r with (i := i) (y := v) in Hf as Ha; [|done]. destruct Ha as (a & Hia & Ha).
  rewrite <- (list_insert_id apps i a) by done. apply Forall2_insert; [|by apply Hv].
  eapply Forall2_impl; [exact Hf|]. intros. by apply session_story_mono.
Qed.

Lemma daemon_inv_same c ks apps d : daemon_inv c ks apps d → daemon_inv c (ks ++ []) (apps ++ []) d.
Proof. by rewrite !app_nil_r. Qed.

Lemma read_turn_inv c ks apps i d : daemon_inv c ks apps d → daemon_inv c ks apps (read_turn i d).
Proof.
  intros Hd. unfold read_turn. destruct (dm_sessions d !! i) as [[a| | |]|] eqn:Hi; [|done..].
  rewrite <- (app_nil_r ks). eapply set_served_inv; [done..|rewrite app_nil_r; apply Hd|]. rewrite app_nil_r.
  intros a' ->. pose proof (serve_request_spec a') as Hs. destruct (serve_request a') as [a2 [[host port]|e|]] eqn:Hq; simpl; auto; done.
Qed.

Lemma lock_turn_inv c ks apps i ch n d :
  daemon_inv c ks apps d → daemon_inv c (ks ++ step_call (TakeLock i ch n) d) apps (lock_turn i ch n d).
Proof.
  intros Hd. unfold lock_turn. cbn [step_call]. destruct (dm_sessions d !! i) as [[|a host port| |]|] eqn:Hi;
    [by rewrite app_nil_r| |by rewrite app_nil_r..].
  destruct (serve_circuit ch host port _) as [s r] eqn:Hs. cbn [snd]. destruct Hd as (Hc & Hd). pose proof (conj Hc Hd) as Hinv.
  rewrite Hc in Hs. pose proof (serve_circuit_client _ _ _ _ _ _ _ _ Hs) as Hcl. rewrite <- run_clients_snoc in Hcl.
  assert (∀ a0, serve_request a0 = (a, Ok (host, port)) →
    whole_turn c (ks ++ [IssueToken (ch_m_raw ch) (ch_draws ch)]) a0 ch n s r) as Hw by eauto using whole_turn_last.
  destruct r as [[layers|]|e|]; [|by rewrite app_nil_r| |]; (eapply set_served_inv; [done..|]; simpl; naive_solver).
Qed.

Lemma daemon_step_inv c ks apps e d :
  daemon_inv c ks apps d → daemon_inv c (ks ++ step_call e d) (apps ++ arrivals [e]) (daemon_step e d).
Proof.
  intros Hd. destruct e as [now| |a|i|i ch n]; cbn [daemon_step arrivals omap list_omap]; rewrite ?(app_nil_r apps).
  - destruct Hd as (Hc & Hr & Hf). unfold refresh_turn. cbn [step_call]. rewrite Hr.
    destruct (refresh_registry_turn now (dm_client d)) as [Hn _].
    destruct (refresh_registry now (dm_client d)) as [c' r] eqn:Hq. split_and!; cbn [dm_client dm_refreshing dm_sessions].
    + rewrite run_clients_snoc, <- Hc. cbn [run_client]. by rewrite Hq.
    + by destruct r.
    + eapply Forall2_impl; [exact Hf|]. intros. by apply session_story_mono.
  - by apply daemon_inv_same in Hd; rewrite (app_nil_r apps) in Hd.
  - cbn [step_call]. rewrite app_nil_r. destruct Hd as (Hc & Hr & Hf). split_and!; [done..|]. cbn [dm_sessions].
    apply Forall2_app; [done|]. by repeat constructor.
  - cbn [step_call]. rewrite app_nil_r. by apply read_turn_inv.
  - by apply lock_turn_inv.
Qed.

Lemma run_daemon_inv es c ks apps d :
  daemon_inv c ks apps d → daemon_inv c (ks ++ daemon_calls es d) (apps ++ arrivals es) (run_daemon es d).
Proof.
  revert ks apps d. induction es as [|e es IH]; intros ks apps d Hd; [by apply daemon_inv_same|].
  cbn [daemon_calls]. change (run_daemon (e :: es) d) with (run_daemon es (daemon_step e d)).
  replace (arrivals (e :: es)) with (arrivals [e] ++ arrivals es) by (by destruct e).
  rewrite !app_assoc. by apply IH, daemon_step_inv.
Qed.
End daemon_lemmas.

(** ** Properties *)

Section daemon_theorems.
Context `{Base64Laws, Sha256, Ed25519, RegistryJson, StateJsonLaws, ModInverse, Snow, ServerNames}.
Context `{Urls, ApiJson, Pem}.

(** The registry, as the daemon's client holds it. *)
Definition dm_registry (d : daemon) : world := qc_registry (dm_client d).

Lemma daemon_step_registry e c ks apps d :
  daemon_inv c ks apps d →
  dm_registry (daemon_step e d) =
    match e with RefreshTick now => fst (refresh_if_stale now (dm_registry d)) | _ => dm_registry d end.
Proof.
  intros Hd. pose proof (daemon_step_inv c ks apps e d Hd) as (Hc' & _ & _). destruct Hd as (Hc & Hr & _).
  unfold dm_registry. rewrite Hc', Hc. unfold run_clients. rewrite fold_left_app. fold (run_clients ks c).
  assert (∀ ch, qc_registry (run_client (IssueToken (ch_m_raw ch) (ch_draws ch)) (run_clients ks c)) =
    qc_registry (run_clients ks c)) as Hi by (intros ch; by destruct (run_client_step (IssueToken (ch_m_raw ch) (ch_draws ch)) (run_clients ks c)) as (_ & _ & ?)).
  destruct e as [now| |a|i|i ch n]; cbn [step_call]; rewrite ?Hr; [|done..|].
  - cbn. apply refresh_registry_turn.
  - repeat case_match; try done; apply Hi.
Qed.

(** C18. The daemon is one client, and every session its own.  Whatever the order
    in which applications arrive, requests are read, the registry is refreshed
    and sessions get the lock, the shared client ends up as one sequence of
    refreshes and token issues leaves it; the refresh task is still there; and
    each application has been served exactly as by [socks_serve] run alone, from
    its first byte to its reply, against the client as it was at one point of
    that sequence.  Sessions never see a half-built circuit of another, and no
    failure of one, nor of an accept, touches any other. *)
Theorem daemon_linearizes es c :
  let d := run_daemon es (listening c) in
  let ks := daemon_calls es (listening c) in
  dm_client d = run_clients ks c ∧ dm_refreshing d = true ∧
  Forall2 (session_story c ks) (arrivals es) (dm_sessions d).
Proof. apply (run_daemon_inv es c [] []). by repeat constructor. Qed.

(** C15. The authority sees a fetch only when the document in hand is stale.  In
    every state a daemon reaches, the only step that touches the registry is a
    tick of the refresh task at which there is no fresh document, and that makes
    exactly one request; sessions, however many circuits they build, make none.
    So from the moment a document is held until its [fresh_until], nothing the
    daemon does fetches or changes anything of the registry. *)
Theorem fetches_follow_freshness es c :
  let d := run_daemon es (listening c) in
  (∀ e, match e, is_stale (cache (dm_registry d)) (match e with RefreshTick now => now | _ => 0 end) with
        | RefreshTick _, Ok true => fetches (dm_registry (daemon_step e d)) = S (fetches (dm_registry d))
        | _, _ => dm_registry (daemon_step e d) = dm_registry d
        end) ∧
  (∀ es' v f, current (cache (dm_registry d)) = Some v → Document_fresh_until_unix (document v) = Ok f →
     Forall (λ e, match e with RefreshTick now => now < f | _ => True end) es' →
     dm_registry (run_daemon es' d) = dm_registry d).
Proof.
  assert (daemon_inv c (daemon_calls es (listening c)) (arrivals es) (run_daemon es (listening c))) as Hd
    by (apply (run_daemon_inv es c [] []); by repeat constructor).
  cbn zeta. generalize dependent (run_daemon es (listening c)). generalize (daemon_calls es (listening c)) (arrivals es).
  intros ks apps d Hd. split.
  - intros e. rewrite (daemon_step_registry e c ks apps d Hd). destruct e as [now| | | |]; [|by repeat case_match..].
    destruct (refresh_by_staleness now (dm_registry d)) as [_ Hw]. by destruct (is_stale _ now) as [[]| |].
  - intros es'. revert ks apps d Hd. induction es' as [|e es' IH]; intros ks apps d Hd v f Hv Hf Hall; [done|].
    apply Forall_cons in Hall as [He Hall]. change (run_daemon (e :: es') d) with (run_daemon es' (daemon_step e d)).
    assert (dm_registry (daemon_step e d) = dm_registry d) as Hsame.
    { rewrite (daemon_step_registry e c ks apps d Hd). destruct e as [now| | | |]; [|done..].
      destruct (refresh_by_staleness now (dm_registry d)) as [_ Hw]. unfold is_stale in Hw. rewrite Hv, Hf in Hw. simpl in Hw.
      by destruct (Z.leb_spec f now); [lia|]. }
    rewrite <- Hsame in Hv |- *. by eapply IH; [apply daemon_step_inv|..].
Qed.
End daemon_theorems.

(** ** Witnesses *)

Definition sample_app : app := mkApp (request_bytes sample_request1) UnexpectedEof [] [].
(** An application that hangs up at once. *)
Definition sample_dropped : app := mkApp [] UnexpectedEof [] [].
Definition sample_daemon_run : list devent :=
  [RefreshTick sample_now; Accepted sample_dropped; Accepted sample_app; AcceptFailed; ReadRequest 1; ReadRequest 0;
   RefreshTick (sample_now + 60); TakeLock 1 sample_chance (mkStreams [] [])].

Lemma daemon_linearizes_witness :
  ∃ d0, sample_dialler = Ok d0 ∧
  let d := run_daemon sample_daemon_run (listening (dl_client d0)) in
  map (λ v, match v with Ended a _ => length (a_out a) | _ => 0%nat end) (dm_sessions d) = [0; 2]%nat ∧
  Forall2 (session_story (dl_client d0) (daemon_calls sample_daemon_run (listening (dl_client d0))))
    [sample_dropped; sample_app] (dm_sessions d).
Proof.
  assert (is_ok sample_dialler = true) as Hok by (vm_compute; reflexivity).
  destruct sample_dialler as [d0| |] eqn:Hd; [|discriminate Hok..]. exists d0. split; [reflexivity|]. split.
  - injection Hd as <-. vm_compute. reflexivity.
  - apply (daemon_linearizes sample_daemon_run (dl_client d0)).
Defined.

Lemma fetches_follow_freshness_witness :
  ∃ d0, sample_dialler = Ok d0 ∧
  let d := run_daemon sample_daemon_run (listening (dl_client d0)) in
  fetches (dm_registry d) = 2%nat ∧
  fetches (dm_registry (daemon_step (RefreshTick (sample_now + 80000)) d)) = 3%nat.
Proof.
  assert (is_ok sample_dialler = true) as Hok by (vm_compute; reflexivity).
  destruct sample_dialler as [d0| |] eqn:Hd; [|discriminate Hok..]. exists d0. split; [reflexivity|].
  assert (fetches (dm_registry (run_daemon sample_daemon_run (listening (dl_client d0)))) = 2%nat) as H1
    by (injection Hd as <-; vm_compute; reflexivity).
  assert (is_stale (cache (dm_registry (run_daemon sample_daemon_run (listening (dl_client d0))))) (sample_now + 80000) = Ok true)
    as Hs by (injection Hd as <-; vm_compute; reflexivity).
  destruct (fetches_follow_freshness sample_daemon_run (dl_client d0)) as [Ht _].
  specialize (Ht (RefreshTick (sample_now + 80000))). cbv beta iota zeta in Ht |- *. rewrite Hs, H1 in Ht. split; [exact H1|exact Ht].
Defined.
