(* ===== verification/RelayNode.v ===== *)
(** QuietHop: the relay process.

    [main] of [relay/src/main.rs]: its arguments, [run_keygen], the startup
    sequence down to the three listeners, the registry refresh task and one
    turn of [accept_loop]; with [AuthorityClient::fetch_and_pin] of
    [relay/src/authority.rs], the heartbeat of [relay/src/heartbeat.rs] and the
    outbound connector and routed accept of [relay/src/tls.rs].  A running
    relay is a record, its life a list of events (a refresh tick, an accepted
    connection), and the theorems cover every such list. *)

From stdpp Require Import pretty.
From S2P Require Import Prelude Bytes Text NetAddr Cell Noise SampleNoise Layer Civil State Registry SampleRegistry.
From S2P Require Import RegistryCache Circuit Token Config Exit RelayRegistry Relay RelayTheorems StaticKey.
From S2P Require Import Path Blind Dial Client.

#[local] Open Scope Z_scope.

(** ** The authority's key *)

Inductive AuthorityError := AuthHttp | AuthBadUrl | BadStatus (code : Z) | EmptyBody | ParseFailure.

Section node.
Context `{Base64, Sha256, Ed25519, RegistryJson, StateJson, Snow, UrlParser, ApiJson, Pem}.

Definition parse_pubkey (body : string) : outcome AuthorityError RsaPublicKey :=
  match from_public_key_pem body with
  | Some k => Ok k
  | None => match from_pkcs1_pem body with Some k => Ok k | None => Err ParseFailure end
  end.

(** [fetch_and_pin]; [get https_only url] is what the HTTP client answers, with
    [None] when it does not build. *)
Definition fetch_and_pin (get : bool → string → option http_response) (url : string)
    : outcome AuthorityError RsaPublicKey :=
  parsed ← ok_or (url_parse url) AuthBadUrl;
  let https_only := eq_ignore_ascii_case (url_scheme parsed) "https" in
  resp ← ok_or (get https_only url) AuthHttp;
  match resp with
  | NoResponse => Err AuthHttp
  | Response status body =>
      if negb ((200 <=? status) && (status <? 300)) then Err (BadStatus status) else
      bytes ← ok_or body AuthHttp;
      let body := text_of bytes in
      if str_empty (trim body) then Err EmptyBody else parse_pubkey (trim body)
  end.

(** ** The heartbeat *)

Definition STATUS_STATIC_PUBKEY_MISMATCH : Z := 409.

Record HeartbeatPayload := mkHeartbeat {
  hb_node_id : string; hb_role : string; hb_relay_port : Z; hb_static_pubkey : string;
}.

Definition heartbeat_payload (cfg : RelayConfig) (static_pubkey : string) : HeartbeatPayload :=
  mkHeartbeat (node_id cfg) (Role_fmt (cfg_role cfg)) (relay_port cfg) static_pubkey.

(** How [send_one] reports an answer. *)
Inductive log_level := Debug_ | Warn | Error_.
Definition heartbeat_report (r : http_response) : log_level :=
  match r with
  | NoResponse => Warn
  | Response status _ =>
      if (200 <=? status) && (status <? 300) then Debug_
      else if status =? STATUS_STATIC_PUBKEY_MISMATCH then Error_ else Warn
  end.

(** ** Arguments and key generation *)

Inductive main_mode := Keygen (path : option string) | Usage | Serve.
Definition main_args (args : list string) : main_mode :=
  match args with
  | [] => Serve
  | a :: rest => if String.eqb a "keygen" then Keygen (head rest) else Usage
  end.

(** [run_keygen]: the exit code and what it prints. *)
Definition run_keygen (path_arg : option string) (env : source) (rng : list byte) (d : disk) : disk * Z * list string :=
  match (match path_arg with Some p => Some p | None => env_set env "RELAY_STATIC_KEY_PATH" end) with
  | None => (d, 2, [])
  | Some path =>
      match key_generate path rng d with
      | (d, Ok public_hex) => (d, 0, [public_hex])
      | (d, Err _) => (d, 1, [])
      | (d, Panic) => (d, 101, [])
      end
  end.

(** [redact_proxy_url]. *)
Definition redact_proxy_url (raw : string) : string :=
  match url_parse raw with
  | Some u =>
      let host := default "" (url_host_str u) in
      match url_port u with
      | Some p => url_scheme u +:+ "://" +:+ host +:+ ":" +:+ pretty p
      | None => url_scheme u +:+ "://" +:+ host
      end
  | None => "<unparseable>"
  end.

(** ** Startup *)

Inductive listener := RelayListener (port : Z) | MetricsListener (at_ : SocketAddr) | Port80Listener.

Inductive boot_error :=
  | BootConfig (e : ConfigError) | BootKey (e : StaticKeyError) | BootAuthority (e : AuthorityError)
  | BootAcme (e : io_error) | BootRoots | BootRegistry (e : RegistryError) | BootBind (l : listener) | BootHeartbeat.

(** What the process has done to the outside so far. *)
Record boot := mkBoot { bt_disk : disk; bt_net : list http_response; bt_bound : list listener }.

(** A relay that serves. *)
Record node := mkNode {
  nd_cfg : RelayConfig; nd_key : StaticKeypair; nd_authority : RsaPublicKey;
  nd_world : world; nd_handle : RegistryHandle; nd_replay : ReplayWindow; nd_metrics : metrics;
}.

(** What startup meets: the environment, the files, the network, the clock at
    its two readings, and whether the remaining steps work. *)
Record surroundings := mkSurroundings {
  su_env : source; su_read : string → option string; su_rng_i : list byte; su_rng_r : list byte;
  su_get : bool → string → option http_response; su_roots : list bool;
  su_now1 : Z; su_now2 : Z; su_can_bind : listener → bool; su_http : bool;
}.

Definition on_bt_disk {A} (m : st disk boot_error A) : st boot boot_error A :=
  on_field bt_disk (λ d b, mkBoot d (bt_net b) (bt_bound b)) m.

(** The directory [acme_setup] needs; the rest of it is [rustls-acme]'s. *)
Definition acme_setup (cfg : RelayConfig) : st disk boot_error unit :=
  st_map_err BootAcme (fs_create_dir_all (acme_dir cfg)).

(** The relay's [outbound_connector]; [roots] says of each native certificate
    whether the root store takes it. *)
Definition relay_connector (roots : list bool) : outcome boot_error unit :=
  if existsb id roots then Ok () else Err BootRoots.

(** [TcpListener::bind]. *)
Definition bind (su : surroundings) (l : listener) : st boot boot_error unit := λ b,
  if su_can_bind su l then (mkBoot (bt_disk b) (bt_net b) (bt_bound b ++ [l]), Ok ()) else (b, Err (BootBind l)).

(** [Duration::from_secs], in the nanoseconds of [Token]. *)
Definition from_secs (secs : Z) : Z := secs * 1000000000.

(** The trust root: build the cache, prime it, and publish what is usable. *)
Definition start_registry (su : surroundings) (cfg : RelayConfig) : st boot boot_error (world * RegistryHandle) := λ b,
  match RegistryCache_new (registry_url cfg) (registry_state_dir cfg) (registry_signing_pubkeys cfg) 1 with
  | Ok c =>
      let '(w, r) := prime (su_now1 su) (mkWorld c (bt_disk b) (bt_net b) 0) in
      (mkBoot (w_disk w) (network w) (bt_bound b),
       _ ← map_err BootRegistry r;
       v ← map_err BootRegistry (usable (cache w) (su_now2 su));
       Ok (w, RegistryHandle_publish v RegistryHandle_new))
  | Err e => (b, Err (BootRegistry e))
  | Panic => (b, Panic)
  end.

Definition relay_start (su : surroundings) : st boot boot_error node :=
  cfg ← lift (map_err BootConfig (from_source (su_read su) (su_env su)));
  static_key ← on_bt_disk (st_map_err BootKey (key_load (static_key_path cfg) (su_rng_i su) (su_rng_r su)));
  authority ← lift (map_err BootAuthority (fetch_and_pin (su_get su) (authority_pubkey_url cfg)));
  let replay := ReplayWindow_new (from_secs (replay_window_ttl cfg)) in
  _ ← on_bt_disk (acme_setup cfg);
  _ ← lift (relay_connector (su_roots su));
  '(w, registry) ← start_registry su cfg;
  _ ← bind su (RelayListener (relay_port cfg));
  _ ← bind su (MetricsListener (metrics_bind cfg));
  _ ← bind su Port80Listener;
  _ ← lift (if su_http su then Ok () else Err BootHeartbeat);
  mret (mkNode cfg static_key authority w registry replay (mkMetrics 0 0 0 0)).

(** ** The running relay *)

(** One wake of the refresh task, with its two clock readings. *)
Definition refresh_tick (now1 now2 : Z) (n : node) : node :=
  let '(w, r) := refresh_if_stale now1 (nd_world n) in
  let handle :=
    match r with
    | Ok true => match usable (cache w) now2 with Ok v => RegistryHandle_publish v (nd_handle n) | _ => nd_handle n end
    | _ => nd_handle n
    end in
  mkNode (nd_cfg n) (nd_key n) (nd_authority n) w handle (nd_replay n) (nd_metrics n).

(** A new socket: the ClientHello, if one comes, and whether it is an ACME
    challenge; whether the handshake then completes; whether all of it is in
    time. *)
Record arrival := mkArrival { ar_hello : option bool; ar_handshake : bool; ar_in_time : bool }.

(** [tls::accept_routed]: the stream, [None] for a completed challenge, or an
    error. *)
Definition accept_routed (ar : arrival) : outcome unit bool :=
  challenge ← ok_or (ar_hello ar) ();
  if (challenge : bool) then Ok false else
  if ar_handshake ar then Ok true else Err ().

(** The routing in [accept_loop]: whether the handler runs. *)
Definition routed (ar : arrival) : bool :=
  if ar_in_time ar then match accept_routed ar with Ok true => true | _ => false end else false.

Definition node_ctx (n : node) (now_unix now_instant : Z) : ConnCtx :=
  mkConnCtx (nd_cfg n) (nd_authority n) (kp_private (nd_key n)) (nd_handle n) now_unix now_instant.

Inductive node_event :=
  | Tick (now1 now2 : Z)
  | Accepted (ar : arrival) (peer : SocketAddr) (rng : list byte) (evs : list io_event) (sock : net)
      (now_unix now_instant : Z).

(** One event; for a connection that reached the handler, what became of it. *)
Definition node_step (e : node_event) (n : node) : node * option conn :=
  match e with
  | Tick now1 now2 => (refresh_tick now1 now2 n, None)
  | Accepted ar peer rng evs sock now_unix now_instant =>
      if negb (routed ar) then (n, None) else
      let c := fst (handle_connection (node_ctx n now_unix now_instant) peer rng evs
                      (mkConn sock (nd_replay n) (nd_metrics n) None)) in
      (mkNode (nd_cfg n) (nd_key n) (nd_authority n) (nd_world n) (nd_handle n) (cn_replay c) (cn_metrics c), Some c)
  end.

(** The trace of a life: each event with the relay before and after it. *)
Fixpoint run_node (es : list node_event) (n : node) : list (node * node_event * option conn * node) :=
  match es with
  | [] => []
  | e :: es => let '(n', c) := node_step e n in (n, e, c, n') :: run_node es n'
  end.
End node.

(** ** Lemmas *)

Section node_lemmas.
Context `{Base64Laws, Sha256, Ed25519, RegistryJson, StateJsonLaws, Snow, UrlParser, ApiJson, Pem}.

(** *** The replay window over a connection *)

(** Entries that still block stay as they are, and the lifetime is fixed. *)
Definition keeps_live (now : Z) (w w' : ReplayWindow) : Prop :=
  ttl w' = ttl w ∧ ∀ h t, Token.inner w !! h = Some t → still_live (ttl w) now t = true → Token.inner w' !! h = Some t.

Lemma keeps_live_refl now w : keeps_live now w w.
Proof. split; auto. Qed.

Lemma token_verify_keeps_live m_raw token k now w :
  rsa_key_wf k → keeps_live now w (fst (token_verify m_raw token k now w)).
Proof.
  intros Hk. destruct (token_verify_cases m_raw token k now w Hk) as [(_ & _ & ->)|[(_ & Hns & ->)|(_ & e & -> & _)]];
    (split; [done|]); intros h t Ht Hl; simpl; [by apply evict_lookup| |done].
  rewrite lookup_insert_ne; [by apply evict_lookup|]. intros <-. apply Hns. by exists t.
Qed.

Lemma handle_client_replay ctx rng evs c c' o :
  rsa_key_wf (authority_pubkey ctx) → handle_client_connection ctx rng evs c = (c', o) →
  keeps_live (now_instant ctx) (cn_replay c) (cn_replay c').
Proof.
  intros Hk. unfold handle_client_connection, mbind at 1, st_bind at 1.
  destruct (on_conn (read_exact PRESENTATION_LEN) c) as [c1 o1] eqn:E1.
  apply on_conn_read_cases in E1 as ([<- _] & _ & _ & Ho1).
  destruct o1 as [buf|e|]; [|intros [= <- <-]; apply keeps_live_refl|done].
  unfold slice_to, slice_from. rewrite !slice_in_range by (rewrite ?Ho1; unfold PRESENTATION_LEN; lia).
  set (token := take (length buf - M_RAW_LEN)%nat _). set (m_raw := take (M_RAW_LEN - 0)%nat _). clearbody m_raw token.
  unfold mbind, st_bind, lift.
  pose proof (token_verify_keeps_live m_raw token (authority_pubkey ctx) (now_instant ctx) (cn_replay c1) Hk) as Hl.
  destruct (token_verify m_raw token _ _ _) as [w [[]|e|]]; [|by intros [= <- <-]..].
  intros Hd. apply drive_circuit_cases in Hd as ([-> _] & _). done.
Qed.

Lemma handle_relay_replay ctx peer rng evs c c' o :
  handle_relay_connection ctx peer rng evs c = (c', o) → cn_replay c' = cn_replay c.
Proof.
  unfold handle_relay_connection, mbind, st_bind, lift.
  destruct (RegistryHandle_usable _ _) as [doc|]; simpl; [|by intros [= <- <-]].
  destruct (admits_inbound doc _ _); simpl; [|by intros [= <- <-]].
  destruct (on_conn (read_exact 1) c) as [c1 o1] eqn:E1. apply on_conn_read_cases in E1 as ([<- _] & _ & _ & Ho1).
  destruct o1 as [signal|e|]; [|by repeat case_match; intros [= <- <-]|done].
  case_bool_decide; [by intros [= <- <-]|]. intros Hd. apply drive_circuit_cases in Hd as ([-> _] & _). done.
Qed.

Lemma handle_connection_replay ctx peer rng evs c c' o :
  rsa_key_wf (authority_pubkey ctx) → handle_connection ctx peer rng evs c = (c', o) →
  keeps_live (now_instant ctx) (cn_replay c) (cn_replay c').
Proof.
  intros Hk. unfold handle_connection, mbind at 1, st_bind at 1.
  destruct (on_conn (read_exact 1) c) as [c1 o1] eqn:E1. apply on_conn_read_cases in E1 as ([<- _] & _ & _ & Ho1).
  destruct o1 as [proto|e|]; [|intros [= <- <-]; apply keeps_live_refl|done].
  destruct proto as [|b []]; try done. cbn [index lookup list_lookup]. unfold mbind at 1, st_bind at 1, lift at 1.
  assert (∀ b r, ((_ ← on_conn (perform_ignored ShutdownIn); fail (UnexpectedProtocol b)) :
      st conn HandleError flow) c1 = (c', r) → keeps_live (now_instant ctx) (cn_replay c1) (cn_replay c')) as Hrefuse.
  { intros b' r. unfold on_conn, on_field, perform_ignored, attempt, mbind, st_bind.
    destruct (script (cn_net c1)) as [|x rest]; simpl; intros [= <- <-]; apply keeps_live_refl. }
  destruct b; try apply Hrefuse; destruct (cfg_role (cfg ctx)); try apply Hrefuse;
    [by apply handle_client_replay|intros ->%handle_relay_replay; apply keeps_live_refl..].
Qed.

(** *** The registry over a life *)

(** The relay serves from a document that its pinned keys signed and that its
    state file remembers. *)
Definition node_inv (n : node) : Prop :=
  cache_inv (nd_world n) ∧ ∃ v b, slot (nd_handle n) = Some v ∧ holds b v ∧
    base_le b (w_baseline (nd_world n)) ∧ provenance (cache (nd_world n)) v.

(** A document and one that may replace it. *)
Definition supersedes (v v' : Verified) : Prop :=
  version (document v) < version (document v') ∨ version (document v) = version (document v') ∧ bytes v = bytes v'.

#[export] Instance supersedes_preorder : PreOrder supersedes.
Proof.
  split; [by right|]. intros a b c [Hab|[Hab Hab']] [Hbc|[Hbc Hbc']]; [left; lia..|].
  right. split; [lia|congruence].
Qed.

Definition same_setup (n n' : node) : Prop :=
  nd_cfg n' = nd_cfg n ∧ nd_key n' = nd_key n ∧ nd_authority n' = nd_authority n ∧
  pinned (cache (nd_world n')) = pinned (cache (nd_world n)) ∧
  threshold (cache (nd_world n')) = threshold (cache (nd_world n)).

Lemma refresh_tick_step now1 now2 n :
  node_inv n →
  node_inv (refresh_tick now1 now2 n) ∧ same_setup n (refresh_tick now1 now2 n) ∧
  nd_replay (refresh_tick now1 now2 n) = nd_replay n ∧
  ∀ v v', slot (nd_handle n) = Some v → slot (nd_handle (refresh_tick now1 now2 n)) = Some v' → supersedes v v'.
Proof.
  intros [Hinv (v & b & Hslot & Hh & Hle & Hpr)]. unfold refresh_tick.
  pose proof (refresh_step now1 (nd_world n) Hinv) as Hstep.
  destruct (refresh_if_stale now1 (nd_world n)) as [w r]. cbn [fst] in Hstep. destruct Hstep as (Hd & Hp & Ht & Hle' & Hinv').
  assert (provenance (cache w) v) as Hpr' by (unfold provenance in *; by rewrite Hp, Ht).
  assert (base_le b (w_baseline w)) as Hlew by (by etransitivity).
  assert (∀ h, slot h = Some v → node_inv (mkNode (nd_cfg n) (nd_key n) (nd_authority n) w h (nd_replay n) (nd_metrics n)))
    as Hkeep by (intros h Hs; split; [done|]; eauto 10).
  assert (∀ v1, slot (nd_handle n) = Some v1 → v1 = v) as Huniq by (intros; congruence).
  destruct (match r with Ok true => _ | _ => _ end) as [sl po] eqn:Hm. cbn [nd_handle slot].
  assert (sl = Some v ∨ ∃ v', sl = Some v' ∧ current (cache w) = Some v') as [->|(v' & -> & Hcur)].
  { assert (nd_handle n = mkHandle sl po → sl = Some v ∨ ∃ v', sl = Some v' ∧ current (cache w) = Some v') as Hsame
      by (intros E; rewrite E in Hslot; by left).
    destruct r as [[]|e|]; [|by auto..]. destruct (usable (cache w) now2) as [v2|e|] eqn:Hu; [|by auto..].
    apply usable_Ok in Hu as [Hu _]. injection Hm as <- _. right. eauto. }
  - split; [by apply Hkeep|]. split; [by unfold same_setup|]. split; [done|]. intros v1 v2 ->%Huniq [= <-]. done.
  - destruct (proj2 Hinv' v' Hcur) as [Hh' Hpr2]. split; [split; [done|]; exists v', (w_baseline w); done|].
    split; [by unfold same_setup|]. split; [done|]. intros v1 v2 ->%Huniq [= <-]. by eapply holds_ordered.
Qed.

Lemma node_step_inv e n :
  node_inv n → rsa_key_wf (nd_authority n) →
  node_inv (fst (node_step e n)) ∧ same_setup n (fst (node_step e n)) ∧
  ∀ v v', slot (nd_handle n) = Some v → slot (nd_handle (fst (node_step e n))) = Some v' → supersedes v v'.
Proof.
  intros Hn Hk. destruct e as [now1 now2|ar peer rng evs sock now_unix now_instant]; cbn [node_step fst].
  - destruct (refresh_tick_step now1 now2 n Hn) as (? & ? & _ & ?). auto.
  - assert (∀ v v', slot (nd_handle n) = Some v → slot (nd_handle n) = Some v' → supersedes v v') as Hs
      by (intros v v' -> [= <-]; done).
    destruct (negb (routed ar)); cbn [fst]; (split; [exact Hn|]); (split; [by unfold same_setup|exact Hs]).
Qed.

(** Every step of a life starts in a relay with the invariant, of the same
    setup, and serving from a document that superseded the first. *)
Lemma run_node_inv es n i ni e c ni' :
  node_inv n → rsa_key_wf (nd_authority n) → run_node es n !! i = Some (ni, e, c, ni') →
  node_inv ni ∧ same_setup n ni ∧ (ni', c) = node_step e ni ∧
  ∀ v v', slot (nd_handle n) = Some v → slot (nd_handle ni) = Some v' → supersedes v v'.
Proof.
  revert n i. induction es as [|e0 es IH]; intros n i Hn Hk Hi; [done|]. cbn [run_node] in Hi.
  destruct (node_step_inv e0 n Hn Hk) as (Hn' & Hset & Hsup). destruct (node_step e0 n) as [n' c0] eqn:Hstep.
  cbn [fst] in *. destruct i as [|i].
  - injection Hi as <- <- <- <-. split; [done|]. split; [by unfold same_setup|]. split; [done|].
    intros v v' -> [= <-]. done.
  - cbn in Hi. destruct Hset as (Hc & Hkey & Ha & Hp & Ht). apply IH in Hi as (Hni & Hset' & Hs & Hsup'); [|done|congruence].
    split; [done|]. split; [destruct Hset' as (? & ? & ? & ? & ?); unfold same_setup; split_and!; congruence|].
    split; [done|]. intros v v' Hv Hv'. destruct Hn' as [_ (v1 & b & Hv1 & _)].
    transitivity v1; [by apply Hsup|by apply Hsup'].
Qed.

Definition event_instant (e : node_event) : option Z :=
  match e with Tick _ _ => None | Accepted _ _ _ _ _ _ t => Some t end.

Lemma node_step_replay e n :
  rsa_key_wf (nd_authority n) →
  nd_authority (fst (node_step e n)) = nd_authority n ∧
  ttl (nd_replay (fst (node_step e n))) = ttl (nd_replay n) ∧
  ∀ h t, Token.inner (nd_replay n) !! h = Some t →
    (∀ t', event_instant e = Some t' → still_live (ttl (nd_replay n)) t' t = true) →
    Token.inner (nd_replay (fst (node_step e n))) !! h = Some t.
Proof.
  intros Hk. destruct e as [now1 now2|ar peer rng evs sock now_unix now_instant]; cbn [node_step event_instant].
  - unfold refresh_tick. by destruct (refresh_if_stale now1 (nd_world n)).
  - destruct (negb (routed ar)); [done|].
    destruct (handle_connection _ _ _ _ _) as [c o] eqn:Hh. apply handle_connection_replay in Hh as [Httl Hkeep]; [|done].
    simpl in *. split_and!; [done..|]. intros h t Ht Hl. apply Hkeep; auto.
Qed.

(** An accepted token's entry is still there at every later step that happens
    within its lifetime. *)
Lemma run_node_blocks es n j nj e c nj' h t :
  rsa_key_wf (nd_authority n) → Token.inner (nd_replay n) !! h = Some t →
  run_node es n !! j = Some (nj, e, c, nj') →
  (∀ m nm em cm nm' tm, (m < j)%nat → run_node es n !! m = Some (nm, em, cm, nm') → event_instant em = Some tm →
     still_live (ttl (nd_replay n)) tm t = true) →
  Token.inner (nd_replay nj) !! h = Some t ∧ ttl (nd_replay nj) = ttl (nd_replay n).
Proof.
  revert n j. induction es as [|e0 es IH]; intros n j Hk Ht Hj Hlive; [done|]. cbn [run_node] in Hj, Hlive.
  destruct (node_step_replay e0 n Hk) as (Ha & Httl & Hkeep). destruct (node_step e0 n) as [n' c0]. cbn [fst] in *.
  destruct j as [|j]; [by injection Hj as <- <- <- <-|]. cbn in Hj. rewrite <- Httl. eapply IH; [by rewrite Ha| |exact Hj|].
  - apply Hkeep; [done|]. intros t' Ht'. by eapply (Hlive 0%nat); [lia|reflexivity|].
  - intros m nm em cm nm' tm Hm Hlook Htm. rewrite Httl. eapply (Hlive (S m)); [lia|exact Hlook|exact Htm].
Qed.

(** The steps after the [i]th are a life of their own. *)
Lemma run_node_rest es n i ni e c ni' :
  run_node es n !! i = Some (ni, e, c, ni') →
  ∃ es', ∀ m, run_node es n !! (S i + m)%nat = run_node es' ni' !! m.
Proof.
  revert n i. induction es as [|e0 es IH]; intros n i Hi; [done|]. cbn [run_node] in *.
  destruct (node_step e0 n) as [n' c0]. destruct i as [|i].
  - injection Hi as <- <- <- <-. by exists es.
  - cbn in Hi. apply IH in Hi as [es' Hes']. exists es'. intros m. by rewrite <- Hes'.
Qed.

(** *** Startup *)

Lemma on_bt_disk_keeps {A} (m : st disk boot_error A) b b' r :
  on_bt_disk m b = (b', r) → bt_bound b' = bt_bound b ∧ m (bt_disk b) = (bt_disk b', r).
Proof. unfold on_bt_disk, on_field. destruct (m (bt_disk b)) as [d o]. by intros [= <- <-]. Qed.

Lemma start_registry_cases su cfg b b' r :
  start_registry su cfg b = (b', r) →
  bt_bound b' = bt_bound b ∧
  ∀ w h, r = Ok (w, h) → ∃ v body previous,
    RegistryCache_new (registry_url cfg) (registry_state_dir cfg) (registry_signing_pubkeys cfg) 1 =
      Ok (mkCache (registry_url cfg) (registry_state_dir cfg) (registry_signing_pubkeys cfg) 1 None) ∧
    w = fst (prime (su_now1 su) (mkWorld (mkCache (registry_url cfg) (registry_state_dir cfg)
              (registry_signing_pubkeys cfg) 1 None) (bt_disk b) (bt_net b) 0)) ∧
    current (cache w) = Some v ∧ h = mkHandle (Some v) false ∧
    verify body (registry_signing_pubkeys cfg) 1 (su_now1 su) previous = Ok v ∧
    Document_is_usable_at (document v) (su_now2 su) = Ok true.
Proof.
  unfold start_registry. destruct (RegistryCache_new _ _ _ _) as [c|e|] eqn:Hc; [|intros [= <- <-]; done..].
  assert (c = mkCache (registry_url cfg) (registry_state_dir cfg) (registry_signing_pubkeys cfg) 1 None) as ->.
  { unfold RegistryCache_new in Hc. by repeat (case_match; simplify_eq). }
  destruct (prime _ _) as [w [[]|e|]] eqn:Hp; [|intros [= <- <-]; done..].
  destruct (usable (cache w) (su_now2 su)) as [v|e|] eqn:Hu; intros [= <- <-]; (split; [done|]); try done.
  intros w' h [= <- <-]. apply usable_Ok in Hu as [Hcur Hu].
  apply prime_Ok in Hp as (v' & body & Hcur' & Hv). rewrite Hcur in Hcur'. injection Hcur' as <-. eauto 10.
Qed.

(** What has been established by the time anything is bound. *)
Definition trusted_start (su : surroundings) (b : boot) (n : node) : Prop :=
  from_source (su_read su) (su_env su) = Ok (nd_cfg n) ∧
  (∃ f, files (bt_disk b) !! static_key_path (nd_cfg n) = Some f ∧
     f_data f = kp_private (nd_key n) ++ kp_public (nd_key n) ∧
     ∀ i, 0 ≤ i < 12 → Z.testbit (f_mode f) i = true → i = 7 ∨ i = 8) ∧
  fetch_and_pin (su_get su) (authority_pubkey_url (nd_cfg n)) = Ok (nd_authority n) ∧
  nd_replay n = ReplayWindow_new (from_secs (replay_window_ttl (nd_cfg n))) ∧
  (∃ d net, nd_world n = fst (prime (su_now1 su) (mkWorld (mkCache (registry_url (nd_cfg n)) (registry_state_dir (nd_cfg n))
     (registry_signing_pubkeys (nd_cfg n)) 1 None) d net 0)) ∧ files d = files (bt_disk b)) ∧
  ∃ v body previous, slot (nd_handle n) = Some v ∧ current (cache (nd_world n)) = Some v ∧
    verify body (registry_signing_pubkeys (nd_cfg n)) 1 (su_now1 su) previous = Ok v ∧
    Document_is_usable_at (document v) (su_now2 su) = Ok true.

Lemma relay_start_cases su b b' r :
  bt_bound b = [] → relay_start su b = (b', r) →
  (bt_bound b' = [] ∧ is_ok r = false) ∨
  ∃ n, trusted_start su b n ∧
    (r = Ok n ∧ bt_bound b' = [RelayListener (relay_port (nd_cfg n)); MetricsListener (metrics_bind (nd_cfg n)); Port80Listener] ∨
     is_ok r = false).
Proof.
  intros Hb. unfold relay_start, mbind at 1, st_bind at 1, lift at 1.
  destruct (from_source _ _) as [cfg|e|] eqn:Hcfg; cbn [map_err]; [|by intros [= <- <-]; auto..].
  unfold mbind at 1, st_bind at 1.
  destruct (on_bt_disk _ b) as [b1 o1] eqn:E1. apply on_bt_disk_keeps in E1 as [Hb1 Hkey]. rewrite Hb in Hb1.
  destruct o1 as [kp|e|]; [|by intros [= <- <-]; auto..]. apply st_map_err_Ok in Hkey.
  destruct (key_load_cases (static_key_path cfg) (su_rng_i su) (su_rng_r su) (bt_disk b)) as [r0 [[E _]|[E _]]];
    rewrite E in Hkey; [done|]. injection Hkey as Hd1 Hkp. apply key_verdict_Ok in Hkp as (f & Hf & Hdata & _ & Hmode).
  unfold mbind at 1, st_bind at 1, lift at 1.
  destruct (fetch_and_pin _ _) as [key|e|] eqn:Hauth; cbn [map_err]; [|by intros [= <- <-]; auto..]. cbn zeta.
  unfold mbind at 1, st_bind at 1. destruct (on_bt_disk (acme_setup cfg) b1) as [b2 o2] eqn:E2.
  apply on_bt_disk_keeps in E2 as [Hb2 Hacme]. rewrite Hb1 in Hb2.
  destruct o2 as [[]|e|]; [|by intros [= <- <-]; auto..]. apply st_map_err_Ok in Hacme.
  destruct (fs_simple_cases id (bt_disk b1)) as [r1 [E3|E3]]; unfold fs_create_dir_all in Hacme; rewrite E3 in Hacme; [done|].
  injection Hacme as Hd2.
  unfold mbind at 1, st_bind at 1, lift at 1. destruct (relay_connector _) as [[]|e|]; [|by intros [= <- <-]; auto..].
  unfold mbind at 1, st_bind at 1. destruct (start_registry su cfg b2) as [b3 o3] eqn:E4.
  apply start_registry_cases in E4 as [Hb3 Hreg]. rewrite Hb2 in Hb3.
  destruct o3 as [[w h]|e|]; [|by intros [= <- <-]; auto..].
  destruct (Hreg w h eq_refl) as (v & body & previous & _ & Hw & Hcur & -> & Hv & Hu).
  set (n := mkNode cfg kp key w (mkHandle (Some v) false) (ReplayWindow_new (from_secs (replay_window_ttl cfg))) (mkMetrics 0 0 0 0)).
  assert (trusted_start su b n) as Hn.
  { unfold trusted_start, n. cbn [nd_cfg nd_key nd_authority nd_world nd_handle nd_replay slot].
    split_and!; [done|by eauto|done|done| |by exists v, body, previous].
    exists (bt_disk b2), (bt_net b2). split; [done|]. by rewrite <- Hd2, <- Hd1. }
  intros Hr. right. exists n. split; [done|]. unfold bind, mbind, st_bind, lift, mret, st_ret in Hr.
  repeat (destruct (su_can_bind su _) in Hr; [|injection Hr as <- <-; by auto]).
  destruct (su_http su); injection Hr as <- <-; [|by auto]. left. split; [done|]. simpl. by rewrite Hb3.
Qed.

(** A started relay has the invariant of its life. *)
Lemma trusted_start_inv su b n :
  trusted_start su b n → coherent (baseline (registry_state_dir (nd_cfg n)) (bt_disk b)) →
  node_inv n ∧ pinned (cache (nd_world n)) = registry_signing_pubkeys (nd_cfg n) ∧ threshold (cache (nd_world n)) = 1%nat.
Proof.
  intros (_ & _ & _ & _ & (d & net & Hw & Hd) & (v & body & previous & Hslot & Hcur & Hv & _)) Hco.
  set (w0 := mkWorld _ d net 0) in Hw.
  assert (cache_inv w0) as Hi.
  { split; [|discriminate]. unfold w_baseline, baseline in *. simpl. by rewrite Hd. }
  pose proof (prime_step (su_now1 su) w0 Hi) as (Hdir & Hp & Ht & Hle & Hinv). rewrite <- Hw in *.
  split; [|done]. split; [done|]. destruct (proj2 Hinv v Hcur) as [Hh Hpr].
  exists v, (w_baseline (nd_world n)). done.
Qed.

Lemma relay_start_Ok su b b' n :
  bt_bound b = [] → relay_start su b = (b', Ok n) → trusted_start su b n.
Proof.
  intros Hb Hs. by destruct (relay_start_cases su b b' (Ok n) Hb Hs) as [[_ ?]|(n1 & Hn & [[[= <-] _]|?])].
Qed.
End node_lemmas.

(** ** Properties *)

Section node_theorems.
Context `{Base64Laws, Sha256, Ed25519, RegistryJson, StateJsonLaws, Snow, UrlParser, ApiJson, Pem}.

(** C24. A relay listens on nothing until its trust is established.  If startup
    binds any listener at all, let alone succeeds, then by then the configuration
    was complete, the static key came from a file that opens nothing to group or
    others, the authority's key was pinned, and the registry was verified under
    a pinned key at startup and is usable; a relay that starts serves from that
    document and has bound exactly its three listeners. *)
Theorem relay_binds_only_when_trusted su b b' r :
  bt_bound b = [] → relay_start su b = (b', r) → bt_bound b' ≠ [] ∨ is_ok r = true →
  ∃ n, trusted_start su b n ∧
    ∀ n', r = Ok n' → n' = n ∧
      bt_bound b' = [RelayListener (relay_port (nd_cfg n)); MetricsListener (metrics_bind (nd_cfg n)); Port80Listener].
Proof.
  intros Hb Hs Hbound. destruct (relay_start_cases su b b' r Hb Hs) as [[Hb' Hr]|(n & Hn & Hcase)].
  - destruct Hbound as [?|Hr']; [done|]. by rewrite Hr in Hr'.
  - exists n. split; [done|]. intros n' ->. destruct Hcase as [[[= <-] ?]|?]; done.
Qed.

(** The step of a life at which a connection was let in by a token. *)
Definition admitted_by (token : list byte) (t : Z) (step : node * node_event * option conn * node) : Prop :=
  let '(n, e, c, n') := step in
  event_instant e = Some t ∧ (∃ c0 k m_raw, c = Some c0 ∧ cn_circuit c0 = Some k ∧ signed m_raw token (nd_authority n)) ∧
  ¬ seen (nd_replay n) t token ∧ Token.inner (nd_replay n') !! sha256 token = Some t.

(** Over the whole life of a relay, whatever connects to it and however its
    refreshes go, a circuit exists only for someone entitled to it: at a guard,
    the holder of a token that the pinned key signed and the window had not
    seen; at a middle or an exit, a peer listed with the upstream role in a
    document that a pinned key signed, usable at that moment, and no older than
    the one the relay started with. *)
Theorem relay_life_authorised su b b' n es i ni e c ni' c0 k :
  bt_bound b = [] → relay_start su b = (b', Ok n) → coherent (baseline (registry_state_dir (nd_cfg n)) (bt_disk b)) →
  rsa_key_wf (nd_authority n) → run_node es n !! i = Some (ni, e, c, ni') → c = Some c0 → cn_circuit c0 = Some k →
  (cfg_role (nd_cfg n) = Guard ∧ ∃ token t, admitted_by token t (ni, e, c, ni') ∧ nd_authority ni = nd_authority n) ∨
  (cfg_role (nd_cfg n) ≠ Guard ∧ ∃ ar peer rng evs sock now_unix now_instant v v0 body t previous,
     e = Accepted ar peer rng evs sock now_unix now_instant ∧
     verify body (registry_signing_pubkeys (nd_cfg n)) 1 t previous = Ok v ∧
     Document_is_usable_at (document v) now_unix = Ok true ∧
     admits_inbound v (cfg_role (nd_cfg n)) (sa_ip peer) = true ∧
     slot (nd_handle n) = Some v0 ∧ supersedes v0 v).
Proof.
  intros Hb Hs Hco Hk Hi -> Hc.
  apply relay_start_Ok in Hs as Hn; [|done]. destruct (trusted_start_inv su b n Hn Hco) as (Hinv & Hpin & Hth).
  destruct (run_node_inv es n i ni e (Some c0) ni' Hinv Hk Hi) as ([_ (v & bb & Hv & _ & _ & Hpr)] & Hset & Hstep & Hsup).
  destruct Hset as (Hcfg & Hkey & Hauth & Hpin' & Hth').
  destruct e as [now1 now2|ar peer rng evs sock now_unix now_instant]; [done|]. cbn [node_step] in Hstep.
  destruct (negb (routed ar)); [done|].
  destruct (handle_connection _ _ _ _ _) as [c1 o] eqn:Hh. cbn [fst] in Hstep. injection Hstep as -> ->.
  apply handle_connection_cases in Hh as [_ Hcases]; [|by cbn; rewrite Hauth|done].
  cbn [cfg node_ctx authority_pubkey cx_registry Relay.now_unix Relay.now_instant cn_replay] in Hcases. rewrite Hcfg in Hcases.
  destruct Hcases as [(Hnone & _)|[(k1 & _ & Hg & m_raw & token & _ & _ & Hsig & Hns & Hin & _)|
    (k1 & _ & Hg & _ & doc & Hdoc & Hadm)]]; [congruence| |].
  - left. split; [done|]. exists token, now_instant. split; [|done]. unfold admitted_by. cbn [event_instant].
    split_and!; [done|by eauto 10|done|done].
  - right. split; [done|]. destruct Hn as (_ & _ & _ & _ & _ & (v0 & _ & _ & Hslot & _)).
    unfold RegistryHandle_usable in Hdoc. destruct (poisoned (nd_handle ni)); [done|]. rewrite Hv in Hdoc. cbn in Hdoc.
    destruct (Document_is_usable_at (document v) now_unix) as [[]|?|] eqn:Hu; try done. injection Hdoc as <-.
    destruct Hpr as (body & t & previous & Hver). rewrite Hpin', Hth', Hpin, Hth in Hver.
    exists ar, peer, rng, evs, sock, now_unix, now_instant, v, v0, body, t, previous. split_and!; auto.
Qed.

(** A token buys one circuit per window, over the whole life of a relay.  On
    a clock that does not run backwards, two connections let in by the same
    token are at least the window's lifetime apart, whatever happened in
    between (other connections, replays, refreshes). *)
Theorem relay_life_no_double_spend es n i j si sj token ti tj :
  rsa_key_wf (nd_authority n) → node_inv n → (i < j)%nat →
  (∀ a b xa xb ta tb, (a < b)%nat → run_node es n !! a = Some xa → run_node es n !! b = Some xb →
     event_instant xa.1.1.2 = Some ta → event_instant xb.1.1.2 = Some tb → ta ≤ tb) →
  run_node es n !! i = Some si → run_node es n !! j = Some sj →
  admitted_by token ti si → admitted_by token tj sj →
  ti + ttl (nd_replay si.2) ≤ tj.
Proof.
  intros Hk Hinv Hij Horder Hi Hj Hai Haj. destruct si as [[[ni ei] ci] ni'], sj as [[[nj ej] cj] nj'].
  destruct Hai as (Hti & _ & _ & Hin), Haj as (Htj & _ & Hns & _). cbn [snd].
  destruct (run_node_inv es n i ni ei ci ni' Hinv Hk Hi) as (_ & (_ & _ & Ha & _) & Hstep & _).
  destruct (node_step_replay ei ni) as (Ha' & _); [by rewrite Ha|]. rewrite <- Hstep in Ha'. cbn [fst] in Ha'.
  destruct (run_node_rest es n i ni ei ci ni' Hi) as [es' Hrest].
  assert (run_node es' ni' !! (j - S i)%nat = Some (nj, ej, cj, nj')) as Hj' by (rewrite <- Hrest, <- Hj; f_equal; lia).
  destruct (Z.le_gt_cases (ti + ttl (nd_replay ni')) tj) as [|Hearly]; [done|]. exfalso.
  assert (ti ≤ tj) as Hle by exact (Horder i j _ _ ti tj Hij Hi Hj Hti Htj).
  destruct (run_node_blocks es' ni' (j - S i) nj ej cj nj' (sha256 token) ti) as [Hblock Httl].
  - by rewrite Ha', Ha.
  - done.
  - done.
  - intros m nm em cm nm' tm Hm Hlook Htm. rewrite <- Hrest in Hlook.
    assert (ti ≤ tm) by (refine (Horder i (S i + m)%nat _ _ ti tm _ Hi Hlook Hti Htm); lia).
    assert (tm ≤ tj) by (refine (Horder (S i + m)%nat j _ _ tm tj _ Hlook Hj Htm Htj); lia).
    unfold still_live. apply Z.ltb_lt. lia.
  - apply Hns. exists ti. split; [done|]. unfold still_live. rewrite Httl. apply Z.ltb_lt. lia.
Qed.
End node_theorems.

(** *** Keys and logs *)

Lemma decode_hex32_hex_of l : length l = 32%nat → decode_hex32 (hex_of l) = Some l.
Proof.
  intros Hl. pose proof (decode_hex_hex_of l) as Hd. unfold decode_hex32, decode_hex in *.
  rewrite length_hex_of, Hl in *. done.
Qed.

(** [keygen] prints the public half of the key it stored and nothing else.
    Exit code 0 means that the file was created whole and its public half
    printed in hex; with any other code nothing is printed, and a file that was
    there before is untouched. *)
Theorem keygen_prints_public_only `{SnowLaws} path_arg env rng d :
  let '(d', code, out) := run_keygen path_arg env rng d in
  (code = 0 ∧ ∃ path kp, files d !! path = None ∧ files d' = <[path := key_file kp]> (files d) ∧
     out = [hex_of (kp_public kp)] ∧ decode_hex32 (hex_of (kp_public kp)) = Some (kp_public kp)) ∨
  ((code = 1 ∨ code = 2) ∧ out = [] ∧ ∀ p, is_Some (files d !! p) → files d' !! p = files d !! p).
Proof.
  unfold run_keygen. destruct (generate_static_keypair_Ok rng) as (kp & Hg & _ & Hp & Hq).
  destruct (match path_arg with Some p => Some p | None => _ end) as [path|]; [|right; auto].
  destruct (key_generate_cases path rng d kp Hg Hp Hq) as [r [->|[[_ ->]|[[Hn [k ->]]|[Hn ->]]]]]; cbn beta iota.
  - right. auto.
  - right. auto.
  - right. split_and!; [auto|done|]. intros p [f Hf]. cbn [files]. rewrite lookup_insert_ne; [done|]. intros <-. by rewrite Hn in Hf.
  - left. split; [done|]. exists path, kp. split_and!; try done.
    by apply decode_hex32_hex_of.
Qed.

(** ** Witnesses *)

Definition sample_keypair : outcome NoiseError StaticKeypair := generate_static_keypair [x01].
Definition sample_guard_env : source := λ k, if String.eqb k "RELAY_ROLE" then Some "guard" else sample_env k.
Definition sample_surroundings (env : source) : surroundings :=
  mkSurroundings env (λ _, None) [x02] [x03] (λ _ _, Some (Response 200 (Some [x70]))) [false; true]
    sample_now sample_now (λ _, true) true.
Lemma sample_keypair_ok : is_ok sample_keypair = true.
Proof. vm_compute. reflexivity. Qed.
Definition sample_key : StaticKeypair := get_ok sample_keypair sample_keypair_ok.
Definition sample_boot : boot :=
  mkBoot (mkDisk (<["x" := key_file sample_key]> ∅) [])
    [serve [x02; x0b; x00]; serve [x02; x0c; x00]] [].

Lemma sample_boot_coherent : coherent (baseline "x" (bt_disk sample_boot)).
Proof. intros s e body env bs doc Hs. vm_compute in Hs. discriminate. Qed.

Lemma sample_start_ok : is_ok (snd (relay_start (sample_surroundings sample_guard_env) sample_boot)) = true.
Proof. vm_compute. reflexivity. Qed.

Definition sample_started : node :=
  get_ok (snd (relay_start (sample_surroundings sample_guard_env) sample_boot)) sample_start_ok.

(** A guard that lets a token in, ticks, refuses its replay, and lets it in
    again a day later. *)
Definition sample_presented : net :=
  mkNet [] [Got [x01]; Got (sample_m_raw ++ sample_token sample_m_raw)].
Definition sample_arrival : arrival := mkArrival (Some false) true true.
Definition sample_life : list node_event :=
  [Accepted sample_arrival (mkSocketAddr (V4 (Ipv4 x01 x02 x03 x04)) 5) [x01] [] sample_presented sample_now 0;
   Tick (sample_now + 3600) (sample_now + 3600);
   Accepted sample_arrival (mkSocketAddr (V4 (Ipv4 x01 x02 x03 x05)) 5) [x01] [] sample_presented (sample_now + 3601) 3601000000000;
   Accepted sample_arrival (mkSocketAddr (V4 (Ipv4 x01 x02 x03 x06)) 5) [x01] [] sample_presented (sample_now + 86400) 86400000000000].

(** [admitted_by], as a check. *)
Definition admitted_check (m_raw token : list byte) (t : Z) (step : node * node_event * option conn * node) : bool :=
  let '(n, e, c, n') := step in
  let k := nd_authority n in
  bool_decide (event_instant e = Some t) &&
  match c with Some c => is_some (cn_circuit c) | None => false end &&
  ((bits (rsa_n k) + 7) / 8 <=? Z.of_nat (length token)) && (from_bytes_be token <? rsa_n k) &&
  (from_bytes_be token ^ rsa_e k mod rsa_n k =? from_bytes_be (sha256 m_raw)) &&
  match Token.inner (nd_replay n) !! sha256 token with Some t0 => negb (still_live (ttl (nd_replay n)) t t0) | None => true end &&
  bool_decide (Token.inner (nd_replay n') !! sha256 token = Some t).

Lemma admitted_check_sound m_raw token t step : admitted_check m_raw token t step = true → admitted_by token t step.
Proof.
  destruct step as [[[n e] c] n']. unfold admitted_check, admitted_by. rewrite !andb_true_iff.
  intros [[[[[[He Hc] Hl] Hlt] Heq] Hs] Hin]. apply bool_decide_eq_true in He, Hin.
  apply Z.leb_le in Hl. apply Z.ltb_lt in Hlt. apply Z.eqb_eq in Heq.
  destruct c as [c|]; [|done]. destruct (cn_circuit c) as [k|] eqn:Hk; [|done]. split_and!; [done| | |done].
  - exists c, k, m_raw. done.
  - intros (t0 & Ht0 & Hlive). rewrite Ht0, Hlive in Hs. done.
Qed.

Lemma run_node_events es n i x : run_node es n !! i = Some x → es !! i = Some x.1.1.2.
Proof.
  revert n i. induction es as [|e es IH]; intros n i Hx; [done|]. cbn [run_node] in Hx.
  destruct (node_step e n) as [n' c]. destruct i as [|i]; [by injection Hx as <-|]. by eapply IH.
Qed.

Lemma sample_start_eq :
  relay_start (sample_surroundings sample_guard_env) sample_boot =
    (fst (relay_start (sample_surroundings sample_guard_env) sample_boot), Ok sample_started).
Proof. rewrite (surjective_pairing (relay_start _ _)) at 1. by rewrite (get_ok_eq _ sample_start_ok). Qed.

Lemma sample_started_facts :
  bool_decide (registry_state_dir (nd_cfg sample_started) = "x") && (0 <=? rsa_n (nd_authority sample_started)) &&
  (0 <=? rsa_e (nd_authority sample_started)) && bool_decide (cfg_role (nd_cfg sample_started) = Guard) = true.
Proof. vm_compute. reflexivity. Qed.

Lemma relay_binds_only_when_trusted_witness :
  ∃ n, trusted_start (sample_surroundings sample_guard_env) sample_boot n ∧ n = sample_started.
Proof.
  destruct (relay_binds_only_when_trusted (sample_surroundings sample_guard_env) sample_boot _ _ eq_refl sample_start_eq
    (or_intror eq_refl)) as (n & Hn & Huniq).
  exists n. split; [exact Hn|]. destruct (Huniq sample_started eq_refl) as [Heq _]. symmetry. exact Heq.
Defined.

Lemma relay_life_authorised_witness :
  ∃ step token t, run_node sample_life sample_started !! 0%nat = Some step ∧ admitted_by token t step.
Proof.
  pose proof sample_started_facts as Hf. rewrite !andb_true_iff in Hf. destruct Hf as [[[Hd Hn] He] Hr].
  apply bool_decide_eq_true in Hd, Hr. apply Z.leb_le in Hn, He.
  assert (admitted_check sample_m_raw (sample_token sample_m_raw) 0 <$> run_node sample_life sample_started !! 0%nat = Some true)
    as Hc by (vm_compute; reflexivity).
  destruct (run_node sample_life sample_started !! 0%nat) as [[[[ni e] c] ni']|] eqn:Hi; [|discriminate Hc].
  apply (inj Some), admitted_check_sound in Hc. destruct Hc as (_ & (c0 & k & _ & -> & Hk & _) & _).
  destruct (relay_life_authorised (sample_surroundings sample_guard_env) sample_boot _ sample_started sample_life 0
    ni e (Some c0) ni' c0 k eq_refl sample_start_eq) as [(_ & token & t & Ha & _)|[Hne _]].
  - rewrite Hd. exact sample_boot_coherent.
  - split; assumption.
  - exact Hi.
  - reflexivity.
  - exact Hk.
  - exists (ni, e, Some c0, ni'), token, t. split; [reflexivity|exact Ha].
  - contradiction (Hne Hr).
Defined.

Lemma relay_life_no_double_spend_witness :
  ∃ si sj, run_node sample_life sample_started !! 0%nat = Some si ∧ run_node sample_life sample_started !! 3%nat = Some sj ∧
    admitted_by (sample_token sample_m_raw) 0 si ∧ admitted_by (sample_token sample_m_raw) 86400000000000 sj ∧
    0 + ttl (nd_replay si.2) ≤ 86400000000000.
Proof.
  pose proof sample_started_facts as Hf. rewrite !andb_true_iff in Hf. destruct Hf as [[[Hd Hn] He] Hr].
  apply bool_decide_eq_true in Hd, Hr. apply Z.leb_le in Hn, He.
  assert (admitted_check sample_m_raw (sample_token sample_m_raw) 0 <$> run_node sample_life sample_started !! 0%nat = Some true)
    as Hci by (vm_compute; reflexivity).
  assert (admitted_check sample_m_raw (sample_token sample_m_raw) 86400000000000 <$> run_node sample_life sample_started !! 3%nat = Some true)
    as Hcj by (vm_compute; reflexivity).
  destruct (run_node sample_life sample_started !! 0%nat) as [si|] eqn:Hi; [|discriminate Hci].
  destruct (run_node sample_life sample_started !! 3%nat) as [sj|] eqn:Hj; [|discriminate Hcj].
  apply (inj Some), admitted_check_sound in Hci. apply (inj Some), admitted_check_sound in Hcj.
  exists si, sj. split; [reflexivity|]. split; [reflexivity|]. split; [exact Hci|]. split; [exact Hcj|].
  apply (relay_life_no_double_spend sample_life sample_started 0 3 si sj (sample_token sample_m_raw)).
  - split; assumption.
  - apply (trusted_start_inv _ _ _ (relay_start_Ok (sample_surroundings sample_guard_env) sample_boot _ _ eq_refl sample_start_eq)).
    rewrite Hd. exact sample_boot_coherent.
  - lia.
  - intros a b xa xb ta tb Hab Ha%run_node_events Hb%run_node_events Hta Htb. revert Hta Htb.
    destruct a as [|[|[|[|a]]]], b as [|[|[|[|b]]]]; try lia; try discriminate Ha; try discriminate Hb;
      cbn in Ha, Hb; injection Ha as <-; injection Hb as <-; cbn; congruence || (intros [= <-] [= <-]; lia).
  - exact Hi.
  - exact Hj.
  - exact Hci.
  - exact Hcj.
Defined.
