(* ===== verification/Tls.v ===== *)
(** QuietHop: the relay's TLS.

    [relay/src/tls.rs] in full: the ACME bundle and its driver, the routed accept
    of an inbound connection, the outbound connector, and the dial of a next hop.
    [rustls] and [rustls-acme] are classes; what they are asked to do, in which
    order and with which configuration, is here.  [Relay] and [RelayNode] use
    summaries of these operations; that they are summaries is the theorem of
    this file. *)

From stdpp Require Import pretty.
From S2P Require Import Prelude Bytes Text NetAddr Ipv6 Cell Noise SampleNoise Layer Civil State Registry SampleRegistry.
From S2P Require Import RegistryCache Circuit Token Config Exit RelayRegistry Relay RelayTheorems StaticKey.
From S2P Require Import Path Blind Dial Client RelayNode.

(** ** Interfaces *)

(** [rustls-acme]: the builder of its configuration, the two server
    configurations of its state, and the test on a ClientHello. *)
Class RustlsAcme := {
  AcmeConfig : Type;
  AcmeState : Type;
  ServerConfig : Type;
  ClientHello : Type;
  AcmeConfig_new : list string → AcmeConfig;
  contact_push : string → AcmeConfig → AcmeConfig;
  dir_cache : string → AcmeConfig → AcmeConfig;
  directory_lets_encrypt : bool → AcmeConfig → AcmeConfig;
  acme_state : AcmeConfig → AcmeState;
  default_rustls_config : AcmeState → ServerConfig;
  challenge_rustls_config : AcmeState → ServerConfig;
  is_tls_alpn_challenge : ClientHello → bool;
}.

(** What its documentation says of the builder and of what is made with it: whom
    a state orders certificates for and whom it names as contact, where it keeps
    them, whether it uses the production directory (a new configuration uses the
    staging one), each setting leaving the others alone; and, of a server
    configuration, the state whose certificates it serves and whether it answers
    challenges, advertising [acme-tls/1]. *)
Class RustlsAcmeLaws `{RustlsAcme} := {
  domains : AcmeState → list string;
  contacts : AcmeState → list string;
  cached_in : AcmeState → option string;
  production : AcmeState → bool;
  serves : ServerConfig → AcmeState;
  answers_challenges : ServerConfig → bool;
  domains_new l : domains (acme_state (AcmeConfig_new l)) = l;
  contacts_new l : contacts (acme_state (AcmeConfig_new l)) = [];
  cached_new l : cached_in (acme_state (AcmeConfig_new l)) = None;
  production_new l : production (acme_state (AcmeConfig_new l)) = false;
  contacts_push c k : contacts (acme_state (contact_push c k)) = contacts (acme_state k) ++ [c];
  push_keeps c k : domains (acme_state (contact_push c k)) = domains (acme_state k) ∧
    cached_in (acme_state (contact_push c k)) = cached_in (acme_state k) ∧
    production (acme_state (contact_push c k)) = production (acme_state k);
  cached_cache d k : cached_in (acme_state (dir_cache d k)) = Some d;
  cache_keeps d k : domains (acme_state (dir_cache d k)) = domains (acme_state k) ∧
    contacts (acme_state (dir_cache d k)) = contacts (acme_state k) ∧
    production (acme_state (dir_cache d k)) = production (acme_state k);
  production_directory b k : production (acme_state (directory_lets_encrypt b k)) = b;
  directory_keeps b k : domains (acme_state (directory_lets_encrypt b k)) = domains (acme_state k) ∧
    contacts (acme_state (directory_lets_encrypt b k)) = contacts (acme_state k) ∧
    cached_in (acme_state (directory_lets_encrypt b k)) = cached_in (acme_state k);
  default_config_serves s : serves (default_rustls_config s) = s ∧ answers_challenges (default_rustls_config s) = false;
  challenge_config_serves s : serves (challenge_rustls_config s) = s ∧ answers_challenges (challenge_rustls_config s) = true;
}.

(** [rustls]'s root store and the connector made of it. *)
Class RustlsRoots := {
  Certificate : Type;
  RootCertStore : Type;
  TlsConnector : Type;
  roots_empty : RootCertStore;
  roots_add : Certificate → RootCertStore → option RootCertStore;
  roots_is_empty : RootCertStore → bool;
  connector_from : RootCertStore → TlsConnector;
}.

(** A store is empty until something is added. *)
Class RustlsRootsLaws `{RustlsRoots} := {
  roots_empty_is_empty : roots_is_empty roots_empty = true;
  roots_add_not_empty c s s' : roots_add c s = Some s' → roots_is_empty s' = false;
}.

(** ** Errors *)



(** ** Inbound *)

Section inbound.
Context `{RustlsAcme}.



(** The driver: it logs what the state yields, until that ends. *)
Inductive driver_log := AcmeEvent | AcmeError.
Fixpoint acme_driver (results : list (option bool)) : list driver_log :=
  match results with
  | Some ok :: results => (if (ok : bool) then AcmeEvent else AcmeError) :: acme_driver results
  | _ => []
  end.


End inbound.

(** ** Outbound *)

Section outbound.
Context `{RustlsRoots, ServerNames}.





End outbound.

(** ** The summaries *)

Section summaries.
Context `{RustlsAcme, RustlsRoots, RustlsRootsLaws, ServerNames}.




End summaries.

Section lemmas.
Context `{RustlsRoots, RustlsRootsLaws}.


End lemmas.

(** *** Each operation, exactly *)

Section exact.
Context `{RustlsAcme, !RustlsAcmeLaws, RustlsRoots, !RustlsRootsLaws, ServerNames}.







End exact.

(** *** The name a next hop is known by *)

Section names.
Context `{Snow, Sha256, Ed25519, UrlParser}.


End names.

(** ** Properties *)


(** ** Witness *)

(** A sample in which everything is made of what it is asked for. *)
Record sample_acme_config := mkSampleAcme { sa_domains : list string; sa_contacts : list string; sa_cache : option string; sa_production : bool }.
#[local] Instance sample_acme : RustlsAcme := {|
  AcmeConfig := sample_acme_config; AcmeState := sample_acme_config; ServerConfig := bool * sample_acme_config; ClientHello := list string;
  AcmeConfig_new l := mkSampleAcme l [] None false;
  contact_push c k := mkSampleAcme (sa_domains k) (sa_contacts k ++ [c]) (sa_cache k) (sa_production k);
  dir_cache c k := mkSampleAcme (sa_domains k) (sa_contacts k) (Some c) (sa_production k);
  directory_lets_encrypt b k := mkSampleAcme (sa_domains k) (sa_contacts k) (sa_cache k) b;
  acme_state k := k; default_rustls_config k := (false, k); challenge_rustls_config k := (true, k);
  is_tls_alpn_challenge h := bool_decide (h = ["acme-tls/1"]);
|}.
#[local] Instance sample_acme_laws : RustlsAcmeLaws.
Proof. by apply (@Build_RustlsAcmeLaws sample_acme sa_domains sa_contacts sa_cache sa_production snd fst). Defined.
#[local] Instance sample_roots : RustlsRoots := {|
  Certificate := string; RootCertStore := list string; TlsConnector := list string; roots_empty := [];
  roots_add c s := if String.eqb c "" then None else Some (s ++ [c]); roots_is_empty s := length s =? 0; connector_from s := s;
|}.
#[local] Instance sample_roots_laws : RustlsRootsLaws.
Proof.
  split; [done|]. intros c s s'. cbn. destruct (String.eqb c ""); [done|]. intros [= <-]. rewrite length_app. cbn.
  by destruct (length s + 1) eqn:E; [lia|].
Qed.



