(* ===== verification/Interleave.v ===== *)
(** QuietHop: the relay's connections, running at once.

    [RelayNode] takes a connection from its first byte to its last in one
    event.  Here a connection of [relay/src/main.rs] is a task that runs up to
    its next wait, so that any number of them interleave with one another and
    with the refresh task, on the state they share: the replay window, the
    counters, the registry handle and the clock.  A turn is what happens
    between two waits: the protocol byte and the dispatch on it, the
    presentation and the token check, the circuit-start byte, the handshake, or
    one turn of the circuit loop.  The turns are put together from the
    operations of [Relay]; that they are that handler is a theorem. *)

From stdpp Require Import pretty.
From S2P Require Import Prelude Bytes Text NetAddr Cell Noise SampleNoise Layer Civil State Registry SampleRegistry.
From S2P Require Import RegistryCache Circuit Token Config Exit RelayRegistry Relay RelayTheorems StaticKey.
From S2P Require Import Path Blind Dial Client RelayNode.

#[local] Open Scope Z_scope.

Section turns.
Context `{Snow, Sha256, Ed25519, UrlParser}.

(** Where the task of a connection waits. *)
Inductive phase :=
  | Opening
  | Presenting
  | Signalling
  | Handshaking
  | Looping (t : TransportState) (nl : option NextLinkState) (dest : option nat)
  | Over (o : outcome HandleError flow).

(** [handle_relay_connection] up to its first wait. *)
Definition admission (ctx : ConnCtx) (peer : SocketAddr) : st conn HandleError phase :=
  doc ← lift (ok_or (RegistryHandle_usable (cx_registry ctx) (now_unix ctx)) PeerNotAllowed);
  if negb (admits_inbound doc (cfg_role (cfg ctx)) (sa_ip peer)) then fail PeerNotAllowed else mret Signalling.

(** [handle_connection], up to the first wait of the handler it calls. *)
Definition opening (ctx : ConnCtx) (peer : SocketAddr) : st conn HandleError phase :=
  proto ← on_conn (read_exact 1);
  b ← lift (index proto 0);
  match b, cfg_role (cfg ctx) with
  | x01, Guard => mret Presenting
  | x02, Middle | x02, Exit => admission ctx peer
  | b, _ => _ ← on_conn (perform_ignored ShutdownIn); fail (UnexpectedProtocol b)
  end.

(** [let mut circuit = Circuit::new();], the first line of [drive_circuit]. *)
Definition start_circuit : st conn HandleError phase :=
  _ ← put_circuit Circuit_new; mret Handshaking.

(** [handle_client_connection] up to [drive_circuit]. *)
Definition presenting (ctx : ConnCtx) : st conn HandleError phase :=
  buf ← on_conn (read_exact PRESENTATION_LEN);
  m_raw ← lift (slice_to buf M_RAW_LEN);
  token ← lift (slice_from buf M_RAW_LEN);
  _ ← (λ c,
    let '(w, r) := token_verify m_raw token (authority_pubkey ctx) (now_instant ctx) (cn_replay c) in
    match r with
    | Ok _ => (mkConn (cn_net c) w (record_verified (cn_metrics c)) (cn_circuit c), Ok ())
    | Err e => (mkConn (cn_net c) w (record_rejected e (cn_metrics c)) (cn_circuit c), Err (HToken e))
    | Panic => (mkConn (cn_net c) w (cn_metrics c) (cn_circuit c), Panic)
    end) : st conn HandleError unit;
  start_circuit.

(** [handle_relay_connection], from its read to [drive_circuit]. *)
Definition signalling : st conn HandleError phase := λ c,
  match on_conn (read_exact 1) c with
  | (c, Ok signal) => if bool_decide (signal ≠ [CIRCUIT_START]) then (c, Ok (Over (Ok Finished))) else start_circuit c
  | (c, Err (Io UnexpectedEof)) => (c, Ok (Over (Ok Finished)))
  | (c, Err e) => (c, Err e)
  | (c, Panic) => (c, Panic)
  end.

(** [drive_circuit] up to its loop. *)
Definition handshaking (ctx : ConnCtx) (rng : list byte) : st conn HandleError phase :=
  msg1 ← on_conn (read_exact NOISE_MSG_LEN);
  '(t, msg2) ← lift (map_err (λ _, HHandshake) (respond (static_private ctx) msg1 rng));
  _ ← on_conn (perform (WriteIn msg2));
  _ ← on_conn (perform FlushIn);
  circuit ← get_circuit;
  let '(circuit, r) := Circuit_activate circuit in
  _ ← put_circuit circuit;
  _ ← lift (map_err HCircuit r);
  mret (Looping t None None).

(** One turn of the loop. *)
Definition looping (ctx : ConnCtx) (ev : io_event) (t : TransportState) (nl : option NextLinkState) (dest : option nat)
    : st conn HandleError phase := λ c,
  let '(s, o) := io_turn ctx (cfg_role (cfg ctx)) ev (mkCircuitIo t nl dest (cn_net c)) in
  (mkConn (io_net s) (cn_replay c) (cn_metrics c) (cn_circuit c),
   match o with
   | Ok Continue => Ok (Looping (transport s) (next_link s) (dest_link s))
   | Ok Finished => Ok (Over (Ok Finished))
   | Err e => Err e
   | Panic => Panic
   end).

Definition phase_turn (ctx : ConnCtx) (peer : SocketAddr) (rng : list byte) (ev : io_event) (ph : phase)
    : st conn HandleError phase :=
  match ph with
  | Opening => opening ctx peer
  | Presenting => presenting ctx
  | Signalling => signalling
  | Handshaking => handshaking ctx rng
  | Looping t nl dest => looping ctx ev t nl dest
  | Over o => mret (Over o)
  end.

(** The end of [drive_circuit], for a connection that has a circuit. *)
Definition wind_up (o : outcome HandleError flow) (c : conn) : conn :=
  mkConn (cn_net c) (cn_replay c) (cn_metrics c)
    ((λ k, match o with
           | Ok Finished => fst (Circuit_close k)
           | Ok Continue | Panic => k
           | Err _ => Circuit_fail k
           end) <$> cn_circuit c).

(** One turn of a task, and what it waits for then. *)
Definition conn_turn (ctx : ConnCtx) (peer : SocketAddr) (rng : list byte) (ev : io_event) (ph : phase) (c : conn)
    : conn * phase :=
  match ph with
  | Over _ => (c, ph)
  | _ =>
      match phase_turn ctx peer rng ev ph c with
      | (c, Ok (Over o)) => (wind_up o c, Over o)
      | (c, Ok ph') => (c, ph')
      | (c, Err e) => (wind_up (Err e) c, Over (Err e))
      | (c, Panic) => (wind_up Panic c, Over Panic)
      end
  end.

(** A task that runs alone: its three turns before the loop, and the loop. *)
Fixpoint loop_turns (ctx : ConnCtx) (peer : SocketAddr) (rng : list byte) (evs : list io_event) (x : conn * phase)
    : conn * phase :=
  match evs with
  | [] => x
  | ev :: evs => loop_turns ctx peer rng evs (conn_turn ctx peer rng ev x.2 x.1)
  end.
Definition alone (ctx : ConnCtx) (peer : SocketAddr) (rng : list byte) (evs : list io_event) (c : conn) : conn * phase :=
  loop_turns ctx peer rng (replicate 3 InTimeout ++ evs) (c, Opening).

(** What [handle_connection] has returned, [Ok Continue] in the loop. *)
Definition settled (ph : phase) : option (outcome HandleError flow) :=
  match ph with Looping _ _ _ => Some (Ok Continue) | Over o => Some o | _ => None end.
End turns.

Section interleaved.
Context `{Base64, Sha256, Ed25519, RegistryJson, StateJson, Snow, UrlParser, ApiJson, Pem}.

Record relay_task := mkRelayTask { tk_peer : SocketAddr; tk_net : net; tk_circuit : option Circuit; tk_phase : phase }.
Record busy := mkBusy { bz_node : node; bz_tasks : list relay_task }.

Inductive busy_event :=
  | BTick (now1 now2 : Z)
  | BAccept (ar : arrival) (peer : SocketAddr) (sock : net)
  | BTurn (i : nat) (rng : list byte) (ev : io_event) (now_unix now_instant : Z).

(** A task and the state it shares with the others, as a connection. *)
Definition conn_of (n : node) (t : relay_task) : conn := mkConn (tk_net t) (nd_replay n) (nd_metrics n) (tk_circuit t).
Definition put_conn (c : conn) (n : node) : node :=
  mkNode (nd_cfg n) (nd_key n) (nd_authority n) (nd_world n) (nd_handle n) (cn_replay c) (cn_metrics c).

Definition busy_step (e : busy_event) (s : busy) : busy :=
  match e with
  | BTick now1 now2 => mkBusy (refresh_tick now1 now2 (bz_node s)) (bz_tasks s)
  | BAccept ar peer sock =>
      if negb (routed ar) then s else mkBusy (bz_node s) (bz_tasks s ++ [mkRelayTask peer sock None Opening])
  | BTurn i rng ev now_unix now_instant =>
      match bz_tasks s !! i with
      | None => s
      | Some t =>
          let '(c, ph) := conn_turn (node_ctx (bz_node s) now_unix now_instant) (tk_peer t) rng ev (tk_phase t)
                            (conn_of (bz_node s) t) in
          mkBusy (put_conn c (bz_node s)) (<[i := mkRelayTask (tk_peer t) (cn_net c) (cn_circuit c) ph]> (bz_tasks s))
      end
  end.

Definition run_busy (es : list busy_event) (s : busy) : busy := fold_left (λ s e, busy_step e s) es s.
End interleaved.

(** ** A task alone is the handler *)

Section alone_lemmas.
Context `{Snow, Sha256, Ed25519, UrlParser}.

(** What is left of the handler for a task in a phase. *)
Definition rest_of (ctx : ConnCtx) (peer : SocketAddr) (rng : list byte) (evs : list io_event) (ph : phase)
    : st conn HandleError flow := λ c,
  match ph with
  | Opening => handle_connection ctx peer rng evs c
  | Presenting => handle_client_connection ctx rng evs c
  | Signalling =>
      match on_conn (read_exact 1) c with
      | (c, Ok signal) =>
          if bool_decide (signal ≠ [CIRCUIT_START]) then (c, Ok Finished)
          else drive_circuit ctx (cfg_role (cfg ctx)) rng evs c
      | (c, Err (Io UnexpectedEof)) => (c, Ok Finished)
      | (c, Err e) => (c, Err e)
      | (c, Panic) => (c, Panic)
      end
  | Handshaking => let '(c, o) := drive_body ctx (cfg_role (cfg ctx)) rng evs c in (wind_up o c, o)
  | Looping t nl dest =>
      let '(s, o) := run_circuit_io ctx (cfg_role (cfg ctx)) evs (mkCircuitIo t nl dest (cn_net c)) in
      (wind_up o (mkConn (io_net s) (cn_replay c) (cn_metrics c) (cn_circuit c)), o)
  | Over o => (c, o)
  end.

Lemma wind_up_none o c : cn_circuit c = None → wind_up o c = c.
Proof. destruct c as [n w m k]. by intros [= ->]. Qed.

Lemma wind_up_continue c : wind_up (Ok Continue) c = c.
Proof. destruct c as [n w m [k|]]; done. Qed.

(** A new circuit, and the handler goes on where the task does. *)
Lemma drive_circuit_rest ctx rng evs peer c :
  drive_circuit ctx (cfg_role (cfg ctx)) rng evs c =
    rest_of ctx peer rng evs Handshaking (mkConn (cn_net c) (cn_replay c) (cn_metrics c) (Some Circuit_new)).
Proof.
  unfold drive_circuit, rest_of. destruct (drive_body _ _ _ _ _) as [c1 o] eqn:Hb.
  apply drive_body_cases in Hb as (_ & _ & Hk & _); [|done]. unfold wind_up.
  destruct Hk as [(e & k & -> & -> & _)|[[f ->] ->]]; done.
Qed.

Lemma looping_turn ctx peer rng ev evs t nl dest c :
  rest_of ctx peer rng (ev :: evs) (Looping t nl dest) c =
    let '(c', ph) := conn_turn ctx peer rng ev (Looping t nl dest) c in rest_of ctx peer rng evs ph c'.
Proof.
  unfold conn_turn, phase_turn, looping, rest_of at 1. cbn [run_circuit_io]. unfold mbind at 1, st_bind at 1.
  destruct (io_turn _ _ _ _) as [s [[]|e|]]; [|done..]. unfold rest_of. cbn. by destruct s.
Qed.

Lemma handshaking_turn ctx peer rng ev evs c :
  rest_of ctx peer rng evs Handshaking c =
    let '(c', ph) := conn_turn ctx peer rng ev Handshaking c in rest_of ctx peer rng evs ph c'.
Proof.
  unfold conn_turn, phase_turn, handshaking, rest_of at 1, drive_body, mbind, st_bind, lift.
  destruct (on_conn (read_exact NOISE_MSG_LEN) c) as [c1 [msg1|e|]]; [|done..].
  destruct (respond _ _ _) as [[t msg2]|e|]; [|done..]. cbn [map_err].
  destruct (on_conn (perform (WriteIn msg2)) c1) as [c2 [[]|e|]]; [|done..].
  destruct (on_conn (perform FlushIn) c2) as [c3 [[]|e|]]; [|done..]. unfold get_circuit.
  destruct (Circuit_activate _) as [k r]. unfold put_circuit. destruct r as [[]|e|]; [|done..]. cbn.
  unfold run_io, rest_of. cbn. by destruct (run_circuit_io _ _ _ _) as [s o].
Qed.

(** What the rest of the handler makes of the outcome of a turn. *)
Definition after (ctx : ConnCtx) (peer : SocketAddr) (rng : list byte) (evs : list io_event)
    (x : conn * outcome HandleError phase) : conn * outcome HandleError flow :=
  match x with
  | (c, Ok (Over o)) => (wind_up o c, o)
  | (c, Ok ph) => rest_of ctx peer rng evs ph c
  | (c, Err e) => (wind_up (Err e) c, Err e)
  | (c, Panic) => (wind_up Panic c, Panic)
  end.

Lemma conn_turn_after ctx peer rng ev evs ph c :
  match ph with Over _ => False | _ => True end →
  (let '(c', ph') := conn_turn ctx peer rng ev ph c in rest_of ctx peer rng evs ph' c') =
    after ctx peer rng evs (phase_turn ctx peer rng ev ph c).
Proof. intros Hph. unfold conn_turn. by destruct ph; destruct (phase_turn _ _ _ _ _ _) as [c' [[]| |]]. Qed.

(** Two sequences that begin with the same operation. *)
Lemma after_bind {A} ctx peer rng evs (m : st conn HandleError A) (f : A → st conn HandleError flow)
    (g : A → st conn HandleError phase) c :
  (∀ c1 o, m c = (c1, o) → cn_circuit c1 = None) →
  (∀ c1 a, m c = (c1, Ok a) → cn_circuit c1 = None → f a c1 = after ctx peer rng evs (g a c1)) →
  (m ≫= f) c = after ctx peer rng evs ((m ≫= g) c).
Proof.
  intros Hc Hf. unfold mbind, st_bind. destruct (m c) as [c1 [a|e|]] eqn:Hm; cbn [after].
  - apply Hf; [done|by eapply Hc].
  - rewrite wind_up_none; [done|by eapply Hc].
  - rewrite wind_up_none; [done|by eapply Hc].
Qed.

Lemma after_lift {A} ctx peer rng evs (m : outcome HandleError A) (f : A → st conn HandleError flow)
    (g : A → st conn HandleError phase) c :
  cn_circuit c = None → (∀ a, m = Ok a → f a c = after ctx peer rng evs (g a c)) →
  (lift m ≫= f) c = after ctx peer rng evs ((lift m ≫= g) c).
Proof. intros Hc Hf. apply after_bind; unfold lift; [by intros c1 o [= <- _]|]. by intros c1 a [= <- ?] _; apply Hf. Qed.

Lemma after_fail ctx peer rng evs e c :
  cn_circuit c = None → fail e c = after ctx peer rng evs (fail e c).
Proof. intros Hc. unfold fail, after. by rewrite wind_up_none. Qed.

Lemma on_conn_circuit {A} (m : st net HandleError A) c c1 o : on_conn m c = (c1, o) → cn_circuit c1 = cn_circuit c.
Proof. unfold on_conn, on_field. destruct (m (cn_net c)). by intros [= <- _]. Qed.

Ltac after_step :=
  first [ apply after_lift; [done|intros ? ?]
        | apply after_bind; [by intros ? ? ->%on_conn_circuit|intros ? ? _ ?]
        | by apply after_fail ].

(** A turn before the handshake leaves the rest of the handler to the phase it
    ends in. *)
Lemma early_turn ctx peer rng ev evs ph c :
  cn_circuit c = None → ph = Opening ∨ ph = Presenting ∧ cfg_role (cfg ctx) = Guard ∨ ph = Signalling →
  rest_of ctx peer rng evs ph c =
    (let '(c', ph') := conn_turn ctx peer rng ev ph c in rest_of ctx peer rng evs ph' c').
Proof.
  intros Hc Hph. destruct Hph as [Hp|[[Hp Hg]|Hp]]; subst ph; (rewrite conn_turn_after by done); cbn [phase_turn].
  - unfold rest_of at 1, handle_connection, opening. do 2 after_step.
    match goal with b : byte, Hc1 : cn_circuit ?c1 = None |- _ =>
      assert (∀ b', (_ ← on_conn (perform_ignored ShutdownIn); fail (UnexpectedProtocol b')) c1 =
        after ctx peer rng evs ((_ ← on_conn (perform_ignored ShutdownIn); fail (UnexpectedProtocol b')) c1)) as Hrefuse
        by (intros b'; after_step; after_step); destruct b; try exact (Hrefuse _) end.
    { destruct (cfg_role (cfg ctx)); [done|exact (Hrefuse _)..]. }
    destruct (cfg_role (cfg ctx)) eqn:Hrole; [exact (Hrefuse _)|..];
      unfold handle_relay_connection, admission; rewrite Hrole; after_step;
      (destruct (negb _); [by after_step|by unfold after, rest_of; rewrite Hrole]).
  - unfold rest_of at 1, handle_client_connection, presenting. do 3 after_step. apply after_bind; [|intros c2 [] _ _].
    + intros c2 o. destruct (token_verify _ _ _ _ _) as [w [[]|e|]]; by intros [= <- _].
    + rewrite <- Hg. apply drive_circuit_rest.
  - unfold rest_of at 1, signalling. destruct (on_conn (read_exact 1) c) as [c1 o1] eqn:E1.
    apply on_conn_circuit in E1. rewrite Hc in E1. destruct o1 as [signal|e|]; [| |by unfold after; rewrite wind_up_none].
    + case_bool_decide; [by unfold after; rewrite wind_up_none|]. apply drive_circuit_rest.
    + repeat case_match; simplify_eq; unfold after; by rewrite wind_up_none.
Qed.

(** Where a turn may lead, and what a task has by then. *)
Definition phase_ok (ctx : ConnCtx) (ph : phase) (circuit : option Circuit) : Prop :=
  match ph with
  | Opening => circuit = None
  | Presenting => circuit = None ∧ cfg_role (cfg ctx) = Guard
  | Signalling => circuit = None ∧ cfg_role (cfg ctx) ≠ Guard
  | Handshaking => circuit = Some Circuit_new
  | Looping _ _ _ => circuit = Some (mkCircuit Active)
  | Over _ => True
  end.

(** How far from the loop. *)
Definition turns_left (ph : phase) : nat :=
  match ph with Opening => 3 | Presenting | Signalling => 2 | Handshaking => 1 | _ => 0 end.

(** What a turn may do to the outside. *)
Definition turn_effect (ctx : ConnCtx) (ph : phase) (a : action) : Prop :=
  match ph with
  | Opening => a = ShutdownIn
  | Handshaking => a = FlushIn ∨ ∃ msg2, a = WriteIn msg2 ∧ length msg2 = NOISE_MSG_LEN
  | Looping _ _ _ => legal_action ctx (cfg_role (cfg ctx)) a
  | _ => False
  end.

(** The decision a turn takes when it moves a task on. *)
Definition turn_decision (ctx : ConnCtx) (peer : SocketAddr) (ph ph' : phase) (c c' : conn) : Prop :=
  match ph, ph' with
  | Opening, Signalling => ∃ doc,
      RegistryHandle_usable (cx_registry ctx) (now_unix ctx) = Some doc ∧
      admits_inbound doc (cfg_role (cfg ctx)) (sa_ip peer) = true
  | Presenting, Handshaking => ∃ m_raw token,
      signed m_raw token (authority_pubkey ctx) ∧ ¬ seen (cn_replay c) (now_instant ctx) token ∧
      Token.inner (cn_replay c') !! sha256 token = Some (now_instant ctx)
  | Opening, Presenting | Signalling, Handshaking | Handshaking, Looping _ _ _ | Looping _ _ _, Looping _ _ _ => True
  | Signalling, Over (Ok Finished) | Looping _ _ _, Over (Ok Finished) => True
  | _, _ => False
  end.

(** All there is to say of a turn. *)
Record turn_spec (ctx : ConnCtx) (peer : SocketAddr) (ph : phase) (c c' : conn) (o : outcome HandleError phase) : Prop := {
  ts_no_panic : o ≠ Panic;
  ts_replay : match ph with Presenting => keeps_live (now_instant ctx) (cn_replay c) (cn_replay c') | _ => cn_replay c' = cn_replay c end;
  ts_log : ∃ new, cn_log c' = cn_log c ++ new ∧ Forall (turn_effect ctx ph) new;
  ts_circuit : ph ≠ Handshaking → is_Some (cn_circuit c') → is_Some (cn_circuit c) ∨ o = Ok Handshaking;
  ts_decision : ∀ ph', o = Ok ph' → phase_ok ctx ph' (cn_circuit c') ∧ turn_decision ctx peer ph ph' c c';
}.

Lemma opening_spec ctx peer c c' o :
  cn_circuit c = None → opening ctx peer c = (c', o) → turn_spec ctx peer Opening c c' o.
Proof.
  intros Hc. unfold opening, mbind at 1, st_bind at 1. destruct (on_conn (read_exact 1) c) as [c1 o1] eqn:E1.
  apply on_conn_read_cases in E1 as ([Hr1 Hm1] & Hk1 & Hl1 & Ho1).
  assert (∀ e, (c1, Err e) = (c', o) → turn_spec ctx peer Opening c c' o) as Herr.
  { intros e [= <- <-]. split; [done|done| |rewrite Hk1; by auto|done]. exists []. by rewrite app_nil_r. }
  destruct o1 as [proto|e|]; [|apply Herr|done]. destruct proto as [|b []]; try done.
  unfold mbind at 1, st_bind at 1, lift at 1. cbn [index lookup list_lookup].
  assert (∀ b', ((_ ← on_conn (perform_ignored ShutdownIn); fail (UnexpectedProtocol b')) : st conn HandleError phase) c1 = (c', o) →
    turn_spec ctx peer Opening c c' o) as Hrefuse.
  { intros b'. unfold on_conn, on_field, perform_ignored, attempt, mbind, st_bind, fail.
    destruct (script (cn_net c1)) as [|x rest]; simpl; intros [= <- <-]; (split; [done|done| |rewrite <- Hk1; by auto|done]);
      exists [ShutdownIn]; unfold cn_log in *; simpl; rewrite Hl1; (split; [done|by constructor]). }
  assert (∀ ph', phase_ok ctx ph' None → turn_decision ctx peer Opening ph' c c1 → (c1, Ok ph') = (c', o) →
    turn_spec ctx peer Opening c c' o) as Hok.
  { intros ph' Hp Hd [= <- <-]. split; [done|done| |rewrite Hk1; by auto|]; [exists []; by rewrite app_nil_r|].
    intros ph2 [= <-]. by rewrite Hk1, Hc. }
  destruct b; try exact (Hrefuse _); destruct (cfg_role (cfg ctx)) eqn:Hrole; try exact (Hrefuse _);
    [by apply Hok|..]; unfold admission, mbind, st_bind, lift; rewrite ?Hrole;
    (destruct (RegistryHandle_usable _ _) as [doc|] eqn:Hdoc; cbn [ok_or]; [|apply Herr]);
    (destruct (admits_inbound doc _ _) eqn:Ha; cbn [negb]; [|apply Herr]);
    (apply Hok; [by split; [|rewrite Hrole]|]; exists doc; by rewrite Hrole).
Qed.

Lemma presenting_spec ctx peer c c' o :
  rsa_key_wf (authority_pubkey ctx) → cn_circuit c = None → presenting ctx c = (c', o) →
  turn_spec ctx peer Presenting c c' o.
Proof.
  intros Hk Hc. unfold presenting, mbind at 1, st_bind at 1.
  destruct (on_conn (read_exact PRESENTATION_LEN) c) as [c1 o1] eqn:E1.
  apply on_conn_read_cases in E1 as ([Hr1 Hm1] & Hk1 & Hl1 & Ho1).
  destruct o1 as [buf|e|]; [| |done]; cycle 1.
  { intros [= <- <-]. split; [done|by rewrite Hr1| |rewrite Hk1; by auto|done]. exists []. by rewrite app_nil_r. }
  unfold slice_to, slice_from. rewrite !slice_in_range by (rewrite ?Ho1; unfold PRESENTATION_LEN; lia).
  set (token := take (length buf - M_RAW_LEN)%nat _). set (m_raw := take (M_RAW_LEN - 0)%nat _). clearbody m_raw token.
  unfold mbind, st_bind, lift.
  pose proof (token_verify_keeps_live m_raw token (authority_pubkey ctx) (now_instant ctx) (cn_replay c1) Hk) as Hl.
  destruct (token_verify_cases m_raw token (authority_pubkey ctx) (now_instant ctx) (cn_replay c1) Hk)
    as [(Hs & Hseen & E)|[(Hs & Hseen & E)|(Hs & e & E & _)]]; rewrite E in *; intros [= <- <-]; rewrite Hr1 in *;
    (split; [done|done| |cbn; rewrite ?Hk1; by auto|]; [exists []; rewrite app_nil_r; by unfold cn_log in *|]); try done.
  intros ph' [= <-]. split; [done|]. exists m_raw, token. cbn. by rewrite lookup_insert_eq.
Qed.

Lemma signalling_spec ctx peer c c' o :
  cn_circuit c = None → signalling c = (c', o) → turn_spec ctx peer Signalling c c' o.
Proof.
  intros Hc. unfold signalling. destruct (on_conn (read_exact 1) c) as [c1 o1] eqn:E1.
  apply on_conn_read_cases in E1 as ([Hr1 Hm1] & Hk1 & Hl1 & Ho1). unfold cn_log in *.
  assert (∃ new, log (cn_net c1) = log (cn_net c) ++ new ∧ Forall (turn_effect ctx Signalling) new) as Hlog
    by (exists []; by rewrite app_nil_r).
  assert (∀ ph', o = Ok ph' → c' = c1 → turn_decision ctx peer Signalling ph' c c1 → phase_ok ctx ph' (cn_circuit c1) →
    turn_spec ctx peer Signalling c c' o) as Hok.
  { intros ph' -> -> Hd Hp. split; [done|done|done|rewrite Hk1; by auto|]. by intros ph2 [= <-]. }
  destruct o1 as [signal|e|]; [| |done].
  - case_bool_decide; [by intros [= <- <-]; eapply Hok|].
    intros [= <- <-]. split; [done|done|done|by auto|]. by intros ph' [= <-].
  - assert (∀ e', (c1, Err e') = (c', o) → turn_spec ctx peer Signalling c c' o) as Herr
      by (intros e' [= <- <-]; split; [done|done|done|rewrite Hk1; by auto|done]).
    destruct e as [[]| | | | | | | | | | | | | | |]; try exact (Herr _). intros [= <- <-]. by eapply Hok.
Qed.

Lemma handshaking_spec ctx peer rng c c' o :
  cn_circuit c = Some Circuit_new → handshaking ctx rng c = (c', o) → turn_spec ctx peer Handshaking c c' o.
Proof.
  intros Hk. unfold handshaking, mbind at 1, st_bind at 1.
  destruct (on_conn (read_exact NOISE_MSG_LEN) c) as [c1 o1] eqn:E1. apply on_conn_read_cases in E1 as ([Hr1 _] & Hk1 & Hl1 & Ho1).
  assert (∀ c2 e new, cn_replay c2 = cn_replay c → cn_log c2 = cn_log c ++ new → Forall (turn_effect ctx Handshaking) new →
    (c2, Err e) = (c', o) → turn_spec ctx peer Handshaking c c' o) as Herr.
  { intros c2 e new Hr Hl Hn [= <- <-]. split; [done|done|by exists new|done|done]. }
  destruct o1 as [msg1|e|]; [|by apply (Herr _ _ []); [..|rewrite app_nil_r|]|done].
  unfold mbind at 1, st_bind at 1, lift at 1. pose proof (respond_no_panic (static_private ctx) msg1 rng).
  destruct (respond _ msg1 rng) as [[t msg2]|e|] eqn:Hresp; [|by apply (Herr _ _ []); [..|rewrite app_nil_r|]|done].
  apply respond_Ok in Hresp as Hmsg2. cbn [map_err]. unfold mbind at 1, st_bind at 1.
  destruct (on_conn (perform (WriteIn msg2)) c1) as [c2 o2] eqn:E2. apply on_conn_perform_cases in E2 as ([Hr2 _] & Hk2 & Hl2 & Ho2).
  assert (Forall (turn_effect ctx Handshaking) [WriteIn msg2; FlushIn]) as Heff
    by (constructor; [right; eauto|constructor; [by left|done]]).
  destruct o2 as [[]|e|]; [|apply (Herr _ _ [WriteIn msg2]); [congruence|by rewrite Hl2, Hl1|]|done]; cycle 1.
  { apply Forall_cons in Heff as [? _]. by constructor. }
  unfold mbind at 1, st_bind at 1. destruct (on_conn (perform FlushIn) c2) as [c3 o3] eqn:E3.
  apply on_conn_perform_cases in E3 as ([Hr3 _] & Hk3 & Hl3 & Ho3).
  assert (cn_log c3 = cn_log c ++ [WriteIn msg2; FlushIn]) as Hl03 by (rewrite Hl3, Hl2, Hl1, <- app_assoc; done).
  destruct o3 as [[]|e|]; [|apply (Herr c3 e [WriteIn msg2; FlushIn]); [congruence|done..]|done].
  unfold mbind, st_bind, get_circuit. rewrite Hk3, Hk2, Hk1, Hk. cbn. intros [= <- <-].
  split; [done|cbn; congruence|by eexists|done|]. by intros ph' [= <-].
Qed.

Lemma looping_spec ctx peer ev t nl dest c c' o :
  cn_circuit c = Some (mkCircuit Active) → looping ctx ev t nl dest c = (c', o) →
  turn_spec ctx peer (Looping t nl dest) c c' o.
Proof.
  intros Hk. unfold looping. pose proof (io_turn_safe ctx (cfg_role (cfg ctx)) ev (mkCircuitIo t nl dest (cn_net c))) as [Hl Ho].
  destruct (io_turn _ _ _ _) as [s o1]. cbn [fst snd] in *. intros [= <- <-]. split.
  - by destruct o1 as [[]| |].
  - done.
  - exact Hl.
  - by left.
  - intros ph'. destruct o1 as [[]| |]; by intros [= <-].
Qed.

Lemma turn_satisfies ctx peer rng ev ph c c' o :
  rsa_key_wf (authority_pubkey ctx) → phase_ok ctx ph (cn_circuit c) → match ph with Over _ => False | _ => True end →
  phase_turn ctx peer rng ev ph c = (c', o) → turn_spec ctx peer ph c c' o.
Proof.
  intros Hk Hp Hph. destruct ph; cbn [phase_turn phase_ok] in *.
  - by apply opening_spec.
  - apply presenting_spec; [done|apply Hp].
  - apply signalling_spec, Hp.
  - by apply handshaking_spec.
  - by apply looping_spec.
  - done.
Qed.

(** The same of a task's turn, its end included. *)
Record step_spec (ctx : ConnCtx) (peer : SocketAddr) (ph : phase) (c c' : conn) (ph' : phase) : Prop := {
  ss_replay : match ph with Presenting => keeps_live (now_instant ctx) (cn_replay c) (cn_replay c') | _ => cn_replay c' = cn_replay c end;
  ss_log : ∃ new, cn_log c' = cn_log c ++ new ∧ Forall (turn_effect ctx ph) new;
  ss_phase : phase_ok ctx ph' (cn_circuit c');
  ss_left : (∃ o, ph' = Over o) ∨ turns_left ph' = pred (turns_left ph);
  ss_circuit : ph ≠ Handshaking → is_Some (cn_circuit c') → is_Some (cn_circuit c) ∨ ph' = Handshaking;
  ss_decision : match ph' with Over _ => True | _ => turn_decision ctx peer ph ph' c c' end;
}.

Lemma turn_decision_left ctx peer ph ph' c c' :
  turn_decision ctx peer ph ph' c c' → (∃ o, ph' = Over o) ∨ turns_left ph' = pred (turns_left ph).
Proof. destruct ph, ph'; simpl; eauto; done. Qed.

Lemma is_Some_wind_up o c : is_Some (cn_circuit (wind_up o c)) ↔ is_Some (cn_circuit c).
Proof. apply fmap_is_Some. Qed.

Lemma conn_turn_spec ctx peer rng ev ph c c' ph' :
  rsa_key_wf (authority_pubkey ctx) → phase_ok ctx ph (cn_circuit c) → conn_turn ctx peer rng ev ph c = (c', ph') →
  step_spec ctx peer ph c c' ph'.
Proof.
  intros Hk Hp Ht. assert ((∃ o, ph = Over o) ∨ match ph with Over _ => False | _ => True end) as [[o ->]|Hph]
    by (destruct ph; eauto).
  { injection Ht as <- <-. split; eauto. exists []. by rewrite app_nil_r. }
  unfold conn_turn in Ht. destruct (phase_turn ctx peer rng ev ph c) as [c1 o1] eqn:Hturn.
  apply turn_satisfies in Hturn as [Hn Hr Hl Hc Hd]; [|done..].
  assert (∀ o, (wind_up o c1, Over o) = (c', ph') → o1 ≠ Ok Handshaking → step_spec ctx peer ph c c' ph') as Hover.
  { intros o [= <- <-] Hne. split; [done|done|done|by eauto| |done].
    intros Hph' [?|?]%is_Some_wind_up%Hc; [by left|done|done]. }
  destruct o1 as [p|e|]; [|by destruct ph; try done; eapply Hover|done].
  destruct (Hd p eq_refl) as [Hpo Hde].
  assert ((∃ o, p = Over o) ∨ (c1, p) = (c', ph')) as [[o ->]|Hgo] by (destruct ph; try done; destruct p; eauto).
  - destruct ph; try done; by eapply Hover.
  - injection Hgo as <- <-. split; [done..|by eapply turn_decision_left| |by destruct p].
    intros Hph' [?|[= ->]]%Hc; [by left|by right|done].
Qed.
End alone_lemmas.

Section alone_theorem.
Context `{Snow, Sha256, Ed25519, UrlParser}.

(** One turn before the loop. *)
Lemma setup_turn ctx peer rng ev evs ph c :
  rsa_key_wf (authority_pubkey ctx) → phase_ok ctx ph (cn_circuit c) → (turns_left ph ≠ 0)%nat →
  rest_of ctx peer rng evs ph c =
    (let '(c', ph') := conn_turn ctx peer rng ev ph c in rest_of ctx peer rng evs ph' c').
Proof.
  intros Hk Hp Hl. destruct ph; try done; [apply early_turn..|apply handshaking_turn]; auto.
  - apply Hp.
  - destruct Hp. auto.
  - apply Hp.
Qed.

(** Turns in the loop, or after its end. *)
Lemma loop_turns_rest ctx peer rng evs ph c :
  rsa_key_wf (authority_pubkey ctx) → phase_ok ctx ph (cn_circuit c) → turns_left ph = 0%nat →
  ∃ o, settled (loop_turns ctx peer rng evs (c, ph)).2 = Some o ∧
    rest_of ctx peer rng evs ph c = ((loop_turns ctx peer rng evs (c, ph)).1, o).
Proof.
  intros Hk. revert c ph. induction evs as [|ev evs IH]; intros c ph Hp Hl.
  - destruct ph; try done; cbn; [|by eauto]. exists (Ok Continue). split; [done|].
    rewrite wind_up_continue. by destruct c.
  - cbn [loop_turns fst snd]. destruct (conn_turn ctx peer rng ev ph c) as [c' ph'] eqn:Ht.
    apply conn_turn_spec in Ht as Hs; [|done..]. destruct Hs as [_ _ Hp' Hl' _ _].
    destruct (IH c' ph' Hp') as (o & Ho & Hr); [destruct Hl' as [[? ->]|Hl']; [done|by rewrite Hl', Hl]|]. exists o. split; [exact Ho|].
    rewrite <- Hr. destruct ph; try done.
    + by rewrite (looping_turn ctx peer rng ev), Ht.
    + by injection Ht as <- <-.
Qed.

(** A connection that is left alone is the handler.  The turns into which a
    connection is cut, each up to its next wait, put together again under one
    clock and one registry, are exactly [handle_connection]: the same effects in
    the same order, the same counters and replay window, the same state of the
    circuit, and the same result. *)
Theorem turns_are_the_handler ctx peer rng evs c :
  rsa_key_wf (authority_pubkey ctx) → cn_circuit c = None →
  ∃ o, settled (alone ctx peer rng evs c).2 = Some o ∧
    handle_connection ctx peer rng evs c = ((alone ctx peer rng evs c).1, o).
Proof.
  intros Hk Hc. change (handle_connection ctx peer rng evs c) with (rest_of ctx peer rng evs Opening c).
  assert (∀ k ph c, phase_ok ctx ph (cn_circuit c) → (∃ o, ph = Over o) ∨ turns_left ph = k →
    ∃ o, settled (loop_turns ctx peer rng (replicate k InTimeout ++ evs) (c, ph)).2 = Some o ∧
      rest_of ctx peer rng evs ph c = ((loop_turns ctx peer rng (replicate k InTimeout ++ evs) (c, ph)).1, o)) as Hrun;
    [|apply (Hrun 3%nat); [exact Hc|by right]].
  clear c Hc. intros k. induction k as [|k IH]; intros ph c Hp Hl.
  - apply loop_turns_rest; [done..|]. by destruct Hl as [[? ->]|?].
  - cbn [replicate app loop_turns fst snd]. destruct (conn_turn ctx peer rng InTimeout ph c) as [c' ph'] eqn:Ht.
    apply conn_turn_spec in Ht as Hs; [|done..]. destruct Hs as [_ _ Hp' Hl' _ _].
    destruct Hl as [[o ->]|Hl].
    + injection Ht as <- <-. apply IH; [done|by eauto].
    + rewrite (setup_turn ctx peer rng InTimeout evs ph c), Ht by (done || lia). apply IH; [done|]. by rewrite Hl in Hl'.
Qed.
End alone_theorem.

(** ** Many connections at once *)

Section interleaved_lemmas.
Context `{Base64Laws, Sha256, Ed25519, RegistryJson, StateJsonLaws, Snow, UrlParser, ApiJson, Pem}.

Definition busy_instant (e : busy_event) : option Z :=
  match e with BTurn _ _ _ _ t => Some t | _ => None end.

Definition tasks_ok (s : busy) : Prop :=
  ∀ i t, bz_tasks s !! i = Some t → phase_ok (node_ctx (bz_node s) 0 0) (tk_phase t) (tk_circuit t).

Lemma run_busy_app es es' s : run_busy (es ++ es') s = run_busy es' (run_busy es s).
Proof. unfold run_busy. by rewrite fold_left_app. Qed.

(** A turn, spelled out. *)
Lemma busy_turn s i t rng ev now_unix now_instant :
  rsa_key_wf (nd_authority (bz_node s)) → tasks_ok s → bz_tasks s !! i = Some t →
  ∃ c ph, busy_step (BTurn i rng ev now_unix now_instant) s =
      mkBusy (put_conn c (bz_node s)) (<[i := mkRelayTask (tk_peer t) (cn_net c) (cn_circuit c) ph]> (bz_tasks s)) ∧
    step_spec (node_ctx (bz_node s) now_unix now_instant) (tk_peer t) (tk_phase t) (conn_of (bz_node s) t) c ph.
Proof.
  intros Hk Hok Hi. cbn [busy_step]. rewrite Hi.
  destruct (conn_turn _ _ _ _ _ _) as [c ph] eqn:Ht. exists c, ph. split; [done|].
  eapply conn_turn_spec; [exact Hk| |exact Ht]. exact (Hok i t Hi).
Qed.

(** Every step keeps the setup and the shape of the tasks. *)
Lemma busy_step_ok e s :
  rsa_key_wf (nd_authority (bz_node s)) → tasks_ok s →
  tasks_ok (busy_step e s) ∧ nd_cfg (bz_node (busy_step e s)) = nd_cfg (bz_node s) ∧
  nd_authority (bz_node (busy_step e s)) = nd_authority (bz_node s).
Proof.
  intros Hk Hok. destruct e as [now1 now2|ar peer sock|i rng ev now_unix now_instant].
  - cbn. unfold refresh_tick. destruct (refresh_if_stale now1 _). split; [exact Hok|done].
  - cbn [busy_step]. destruct (negb (routed ar)); [done|]. split; [|done]. intros i t. cbn [bz_tasks bz_node].
    rewrite lookup_app_Some. intros [?|[_ Hi]]; [by eapply Hok|]. by apply list_lookup_singleton_Some in Hi as [_ <-].
  - destruct (bz_tasks s !! i) as [t|] eqn:Hi; [|cbn [busy_step]; rewrite Hi; done].
    destruct (busy_turn s i t rng ev now_unix now_instant Hk Hok Hi) as (c & ph & -> & [_ _ Hp _ _ _]). split; [|done].
    intros j u. cbn [bz_tasks bz_node]. destruct (decide (i = j)) as [<-|Hne].
    + rewrite list_lookup_insert_eq by (by eapply lookup_lt_Some). by intros [= <-].
    + rewrite list_lookup_insert_ne by done. apply Hok.
Qed.

Lemma run_busy_ok es s :
  rsa_key_wf (nd_authority (bz_node s)) → tasks_ok s →
  tasks_ok (run_busy es s) ∧ nd_cfg (bz_node (run_busy es s)) = nd_cfg (bz_node s) ∧
  nd_authority (bz_node (run_busy es s)) = nd_authority (bz_node s).
Proof.
  revert s. induction es as [|e es IH]; intros s Hk Hok; [done|].
  destruct (busy_step_ok e s Hk Hok) as (Hok' & Hc & Ha). change (run_busy (e :: es) s) with (run_busy es (busy_step e s)).
  rewrite <- Hc, <- Ha. apply IH; [by rewrite Ha|done].
Qed.

(** *** The registry *)

Lemma busy_step_registry e s :
  nd_world (bz_node (busy_step e s)) = nd_world (bz_node s) ∧ nd_handle (bz_node (busy_step e s)) = nd_handle (bz_node s) ∧
    nd_cfg (bz_node (busy_step e s)) = nd_cfg (bz_node s) ∧ nd_key (bz_node (busy_step e s)) = nd_key (bz_node s) ∧
    nd_authority (bz_node (busy_step e s)) = nd_authority (bz_node s) ∨
  ∃ now1 now2, bz_node (busy_step e s) = refresh_tick now1 now2 (bz_node s).
Proof.
  destruct e as [now1 now2|ar peer sock|i rng ev now_unix now_instant]; cbn [busy_step]; [by eauto|left..].
  - by destruct (negb (routed ar)).
  - destruct (bz_tasks s !! i) as [t|]; [|done]. by destruct (conn_turn _ _ _ _ _ _).
Qed.

Lemma busy_step_inv e s :
  node_inv (bz_node s) →
  node_inv (bz_node (busy_step e s)) ∧ same_setup (bz_node s) (bz_node (busy_step e s)) ∧
  ∀ v v', slot (nd_handle (bz_node s)) = Some v → slot (nd_handle (bz_node (busy_step e s))) = Some v' → supersedes v v'.
Proof.
  intros Hn. destruct (busy_step_registry e s) as [(Hw & Hh & Hc & Hk & Ha)|(now1 & now2 & ->)].
  - unfold node_inv, same_setup. rewrite Hw, Hh, Hc, Hk, Ha. split; [exact Hn|]. split; [done|]. by intros v v' -> [= <-].
  - destruct (refresh_tick_step now1 now2 (bz_node s) Hn) as (? & ? & _ & ?). done.
Qed.

Lemma run_busy_inv es s :
  node_inv (bz_node s) →
  node_inv (bz_node (run_busy es s)) ∧ same_setup (bz_node s) (bz_node (run_busy es s)) ∧
  ∀ v v', slot (nd_handle (bz_node s)) = Some v → slot (nd_handle (bz_node (run_busy es s))) = Some v' → supersedes v v'.
Proof.
  revert s. induction es as [|e es IH]; intros s Hn.
  - split; [done|]. split; [by unfold same_setup|]. by intros v v' Hv [= <-]%(eq_trans (eq_sym Hv)).
  - change (run_busy (e :: es) s) with (run_busy es (busy_step e s)).
    destruct (busy_step_inv e s Hn) as (Hn' & Hset & Hsup). destruct (IH _ Hn') as (Hn2 & Hset2 & Hsup2). split; [done|].
    destruct Hset as (? & ? & ? & ? & ?), Hset2 as (? & ? & ? & ? & ?). split; [unfold same_setup; split_and!; congruence|].
    intros v v' Hv Hv'. destruct Hn' as [_ (v1 & b & Hv1 & _)]. transitivity v1; auto.
Qed.

(** *** The replay window *)

Lemma busy_step_replay e s :
  rsa_key_wf (nd_authority (bz_node s)) → tasks_ok s →
  ttl (nd_replay (bz_node (busy_step e s))) = ttl (nd_replay (bz_node s)) ∧
  ∀ h t, Token.inner (nd_replay (bz_node s)) !! h = Some t →
    (∀ t', busy_instant e = Some t' → still_live (ttl (nd_replay (bz_node s))) t' t = true) →
    Token.inner (nd_replay (bz_node (busy_step e s))) !! h = Some t.
Proof.
  intros Hk Hok. destruct e as [now1 now2|ar peer sock|i rng ev now_unix now_instant]; cbn [busy_instant].
  - cbn. unfold refresh_tick. by destruct (refresh_if_stale now1 _).
  - cbn [busy_step]. by destruct (negb (routed ar)).
  - destruct (bz_tasks s !! i) as [t|] eqn:Hi; [|cbn [busy_step]; rewrite Hi; done].
    destruct (busy_turn s i t rng ev now_unix now_instant Hk Hok Hi) as (c & ph & -> & [Hr _ _ _ _ _]). cbn [bz_node put_conn nd_replay].
    assert (keeps_live now_instant (nd_replay (bz_node s)) (cn_replay c)) as [Httl Hkeep]
      by (destruct (tk_phase t); try (rewrite Hr; apply keeps_live_refl); exact Hr).
    split; [exact Httl|]. intros h t0 Ht0 Hl. apply Hkeep; auto.
Qed.

Lemma run_busy_blocks es s h t :
  rsa_key_wf (nd_authority (bz_node s)) → tasks_ok s → Token.inner (nd_replay (bz_node s)) !! h = Some t →
  Forall (λ t', still_live (ttl (nd_replay (bz_node s))) t' t = true) (omap busy_instant es) →
  Token.inner (nd_replay (bz_node (run_busy es s))) !! h = Some t ∧
  ttl (nd_replay (bz_node (run_busy es s))) = ttl (nd_replay (bz_node s)).
Proof.
  revert s. induction es as [|e es IH]; intros s Hk Hok Ht Hall; [done|].
  destruct (busy_step_replay e s Hk Hok) as [Httl Hkeep], (busy_step_ok e s Hk Hok) as (Hok' & _ & Ha).
  change (run_busy (e :: es) s) with (run_busy es (busy_step e s)). rewrite <- Httl.
  apply IH; [by rewrite Ha|done|apply Hkeep; [done|]|rewrite Httl].
  - intros t' He. cbn in Hall. rewrite He in Hall. by apply Forall_cons in Hall as [? _].
  - cbn in Hall. destruct (busy_instant e); [by apply Forall_cons in Hall as [_ ?]|done].
Qed.
End interleaved_lemmas.

(** ** Properties *)

Section interleaved_theorems.
Context `{Base64Laws, Sha256, Ed25519, RegistryJson, StateJsonLaws, Snow, UrlParser, ApiJson, Pem}.

(** The turn of task [i] that lets it in. *)
Definition granted (peer : SocketAddr) (i : nat) (s : busy) (e : busy_event) : Prop :=
  ∃ rng ev now_unix now_instant t, e = BTurn i rng ev now_unix now_instant ∧ bz_tasks s !! i = Some t ∧ tk_peer t = peer ∧
    match cfg_role (nd_cfg (bz_node s)) with
    | Guard => ∃ m_raw token,
        signed m_raw token (nd_authority (bz_node s)) ∧ ¬ seen (nd_replay (bz_node s)) now_instant token ∧
        Token.inner (nd_replay (bz_node (busy_step e s))) !! sha256 token = Some now_instant
    | role => ∃ doc,
        RegistryHandle_usable (nd_handle (bz_node s)) now_unix = Some doc ∧ admits_inbound doc role (sa_ip peer) = true
    end.

(** A task that has a circuit, or a peer that is let in, was granted it. *)
Definition needs_grant (t : relay_task) : Prop := is_Some (tk_circuit t) ∨ tk_phase t = Signalling.

Lemma granted_turn s i t rng ev now_unix now_instant c ph :
  phase_ok (node_ctx (bz_node s) now_unix now_instant) (tk_phase t) (tk_circuit t) → bz_tasks s !! i = Some t →
  busy_step (BTurn i rng ev now_unix now_instant) s =
    mkBusy (put_conn c (bz_node s)) (<[i := mkRelayTask (tk_peer t) (cn_net c) (cn_circuit c) ph]> (bz_tasks s)) →
  step_spec (node_ctx (bz_node s) now_unix now_instant) (tk_peer t) (tk_phase t) (conn_of (bz_node s) t) c ph →
  needs_grant (mkRelayTask (tk_peer t) (cn_net c) (cn_circuit c) ph) →
  needs_grant t ∨ granted (tk_peer t) i s (BTurn i rng ev now_unix now_instant).
Proof.
  intros Hok Hi Hstep [_ _ Hp _ Hc Hd] Hneeds.
  assert (ph = Signalling → needs_grant t ∨ granted (tk_peer t) i s (BTurn i rng ev now_unix now_instant)) as Hsig.
  { intros ->. right. destruct (tk_phase t); try done. destruct Hp as [_ Hr]. destruct Hd as (doc & Hdoc & Ha).
    exists rng, ev, now_unix, now_instant, t. split_and!; [done..|]. cbn in *. destruct (cfg_role _); [done|by exists doc..]. }
  destruct Hneeds as [Hs|Hs]; [|by apply Hsig]. cbn [tk_circuit] in Hs.
  assert (tk_phase t = Handshaking ∨ tk_phase t ≠ Handshaking) as [Hh|Hh] by (destruct (tk_phase t); auto).
  { left. left. rewrite Hh in Hok. rewrite Hok. eauto. }
  destruct (Hc Hh Hs) as [?| ->]; [by left; left|].
  destruct (tk_phase t) eqn:Hph; try done; [|left; right; done]. right.
  destruct Hok as [_ Hg], Hd as (m_raw & token & Hd). exists rng, ev, now_unix, now_instant, t. split_and!; [done..|].
  cbn in Hg. rewrite Hg, Hstep. by exists m_raw, token.
Qed.

Lemma granted_before es n i t :
  rsa_key_wf (nd_authority n) → bz_tasks (run_busy es (mkBusy n [])) !! i = Some t → needs_grant t →
  ∃ es1 e es2, es = es1 ++ e :: es2 ∧ granted (tk_peer t) i (run_busy es1 (mkBusy n [])) e.
Proof.
  intros Hk. revert t. induction es as [|e es IH] using rev_ind; intros t Ht Hn; [done|].
  destruct (run_busy_ok es (mkBusy n []) Hk) as (Hok & _ & Ha); [done|].
  rewrite run_busy_app in Ht. change (run_busy [e] ?s) with (busy_step e s) in Ht. set (s := run_busy es (mkBusy n [])) in *.
  assert (∀ u, bz_tasks s !! i = Some u → needs_grant u → tk_peer u = tk_peer t →
    ∃ es1 e0 es2, es ++ [e] = es1 ++ e0 :: es2 ∧ granted (tk_peer t) i (run_busy es1 (mkBusy n [])) e0) as Hold.
  { intros u Hu Hnu <-. destruct (IH u Hu Hnu) as (es1 & e0 & es2 & -> & Hg). exists es1, e0, (es2 ++ [e]).
    by rewrite <- app_assoc. }
  destruct e as [now1 now2|ar peer sock|j rng ev now_unix now_instant].
  - cbn in Ht. unfold refresh_tick in Ht. by apply (Hold t).
  - cbn [busy_step] in Ht. destruct (negb (routed ar)); [by apply (Hold t)|]. cbn [bz_tasks] in Ht.
    apply lookup_app_Some in Ht as [Ht|[_ Ht]]; [by apply (Hold t)|].
    apply list_lookup_singleton_Some in Ht as [_ <-]. by destruct Hn as [[? ?]|?].
  - destruct (bz_tasks s !! j) as [u|] eqn:Hj; [|cbn [busy_step] in Ht; rewrite Hj in Ht; by apply (Hold t)].
    assert (rsa_key_wf (nd_authority (bz_node s))) as Hks by (by rewrite Ha).
    destruct (busy_turn s j u rng ev now_unix now_instant Hks Hok Hj) as (c & ph & Hstep & Hspec).
    rewrite Hstep in Ht. cbn [bz_tasks] in Ht. destruct (decide (j = i)) as [->|Hne]; cycle 1.
    { rewrite list_lookup_insert_ne in Ht by done. by apply (Hold t). }
    rewrite list_lookup_insert_eq in Ht by (by eapply lookup_lt_Some). injection Ht as <-.
    destruct (granted_turn s i u rng ev now_unix now_instant c ph (Hok i u Hj) Hj Hstep Hspec Hn) as [Hu|Hg]; [by apply (Hold u)|].
    by exists es, (BTurn i rng ev now_unix now_instant), [].
Qed.

(** C8. However the connections of a relay interleave, a circuit belongs to someone
    entitled to it.  At any moment of any schedule of any number of connections
    and refreshes, a connection that has a circuit was let in by an earlier turn
    of its own: at a guard, one that found a token which the pinned key signed
    and the window had not seen, and recorded it; at a middle or an exit, one
    that found its peer, with the upstream role, in the document published at
    that very moment, which a pinned key signed, which was usable then, and
    which is no older than the one the relay started with. *)
Theorem interleaved_authorised su b b' n es i t k :
  bt_bound b = [] → relay_start su b = (b', Ok n) → coherent (baseline (registry_state_dir (nd_cfg n)) (bt_disk b)) →
  rsa_key_wf (nd_authority n) → bz_tasks (run_busy es (mkBusy n [])) !! i = Some t → tk_circuit t = Some k →
  ∃ es1 e es2, es = es1 ++ e :: es2 ∧ granted (tk_peer t) i (run_busy es1 (mkBusy n [])) e ∧
    same_setup n (bz_node (run_busy es1 (mkBusy n []))) ∧
    ∃ v v0 body at_ previous, slot (nd_handle (bz_node (run_busy es1 (mkBusy n [])))) = Some v ∧
      verify body (registry_signing_pubkeys (nd_cfg n)) 1 at_ previous = Ok v ∧
      slot (nd_handle n) = Some v0 ∧ supersedes v0 v.
Proof.
  intros Hb Hs Hco Hk Ht Hc. apply relay_start_Ok in Hs as Hn; [|done].
  destruct (trusted_start_inv su b n Hn Hco) as (Hinv & Hpin & Hth).
  destruct (granted_before es n i t Hk Ht) as (es1 & e & es2 & -> & Hg); [left; rewrite Hc; eauto|].
  destruct (run_busy_inv es1 (mkBusy n []) Hinv) as ([_ (v & bb & Hv & _ & _ & Hpr)] & Hset & Hsup).
  destruct Hn as (_ & _ & _ & _ & _ & (v0 & _ & _ & Hslot & _)). destruct Hpr as (body & at_ & previous & Hver).
  pose proof Hset as (_ & _ & _ & Hp & Hth'). cbn [bz_node] in Hp, Hth'. rewrite Hp, Hth', Hpin, Hth in Hver.
  exists es1, e, es2. split_and!; [done..|]. exists v, v0, body, at_, previous. split_and!; auto.
Qed.

(** The token that a turn lets a connection in with: its task waited with a
    presentation to read and goes on to the handshake; the token is what
    follows [m_raw] in the presentation. *)
Definition let_in (e : busy_event) (s : busy) : option (list byte) :=
  match e with
  | BTurn i _ _ _ _ =>
      t ← bz_tasks s !! i;
      t' ← bz_tasks (busy_step e s) !! i;
      match tk_phase t, tk_phase t', script (tk_net t) with
      | Presenting, Handshaking, Got presentation :: _ => Some (drop M_RAW_LEN presentation)
      | _, _, _ => None
      end
  | _ => None
  end.

(** A presentation that is accepted. *)
Lemma presenting_Ok ctx c c' ph presentation rest :
  rsa_key_wf (authority_pubkey ctx) → script (cn_net c) = Got presentation :: rest → presenting ctx c = (c', Ok ph) →
  ¬ seen (cn_replay c) (now_instant ctx) (drop M_RAW_LEN presentation) ∧
  Token.inner (cn_replay c') !! sha256 (drop M_RAW_LEN presentation) = Some (now_instant ctx).
Proof.
  intros Hk Hs. unfold presenting, mbind at 1, st_bind at 1, on_conn, on_field, read_exact. rewrite Hs.
  destruct (Nat.eqb_spec (length presentation) PRESENTATION_LEN) as [Hl|]; [|done].
  unfold slice_to, slice_from. rewrite !slice_in_range by (rewrite ?Hl; unfold PRESENTATION_LEN; lia).
  unfold mbind, st_bind, lift. cbn [cn_replay cn_net cn_metrics cn_circuit].
  rewrite (take_ge (drop M_RAW_LEN presentation)) by (rewrite length_drop; lia). set (token := drop M_RAW_LEN presentation).
  destruct (token_verify_cases (take (M_RAW_LEN - 0) (drop 0 presentation)) token (authority_pubkey ctx) (now_instant ctx)
    (cn_replay c) Hk) as [(_ & _ & ->)|[(_ & Hseen & ->)|(_ & e & -> & _)]]; [done| |done].
  intros [= <- <-]. split; [done|]. cbn. by rewrite lookup_insert_eq.
Qed.

(** Whoever is let in had a token that the window did not hold, and the window
    holds it from then on. *)
Lemma let_in_fresh e s token :
  rsa_key_wf (nd_authority (bz_node s)) → let_in e s = Some token →
  ∃ t, busy_instant e = Some t ∧ ¬ seen (nd_replay (bz_node s)) t token ∧
    Token.inner (nd_replay (bz_node (busy_step e s))) !! sha256 token = Some t.
Proof.
  intros Hk. destruct e as [| |i rng ev now_unix now_instant]; try done. cbn [let_in].
  destruct (bz_tasks s !! i) as [t|] eqn:Hi; [|done]. cbn [mbind option_bind busy_step]. rewrite Hi.
  destruct (conn_turn _ _ _ _ _ _) as [c ph] eqn:Ht. cbn [bz_tasks bz_node].
  rewrite list_lookup_insert_eq by (by eapply lookup_lt_Some). cbn [tk_phase].
  destruct (tk_phase t) eqn:Hph; try done. destruct ph; try done.
  destruct (script (tk_net t)) as [|[| | |presentation] rest] eqn:Hsc; try done. intros [= <-].
  exists now_instant. split; [done|]. cbn [put_conn nd_replay].
  unfold conn_turn, phase_turn in Ht. destruct (presenting _ _) as [c1 [p|e|]] eqn:Hp; try done.
  assert (c1 = c) as -> by (destruct p; by simplify_eq).
  by apply (presenting_Ok (node_ctx (bz_node s) now_unix now_instant) (conn_of (bz_node s) t) c p presentation rest Hk Hsc) in Hp.
Qed.

(** C9. No race lets a token in twice.  Whatever turns of whatever connections come
    between, also of two that have both read the same token already, on a clock
    that does not run backwards two connections that go from their presentation
    to the handshake on the same token do so at least the window's lifetime
    apart. *)
Theorem interleaved_no_double_spend n es1 e1 es2 e2 es3 token :
  rsa_key_wf (nd_authority n) →
  StronglySorted Z.le (omap busy_instant (es1 ++ e1 :: es2 ++ e2 :: es3)) →
  let_in e1 (run_busy es1 (mkBusy n [])) = Some token →
  let_in e2 (run_busy (es1 ++ e1 :: es2) (mkBusy n [])) = Some token →
  ∃ t1 t2, busy_instant e1 = Some t1 ∧ busy_instant e2 = Some t2 ∧ t1 + ttl (nd_replay n) ≤ t2.
Proof.
  intros Hk Hsort Hlet1 Hlet2. destruct (run_busy_ok (es1 ++ e1 :: es2) (mkBusy n []) Hk) as (_ & _ & Hak); [done|].
  destruct (run_busy_ok es1 (mkBusy n []) Hk) as (_ & _ & Hak1); [done|].
  apply let_in_fresh in Hlet1 as (t1 & Ht1 & _ & Hin); [|by rewrite Hak1].
  apply let_in_fresh in Hlet2 as (t2 & Ht2 & Hns & _); [|by rewrite Hak]. exists t1, t2. split; [done|]. split; [done|].
  assert (∀ es s, rsa_key_wf (nd_authority (bz_node s)) → tasks_ok s →
    ttl (nd_replay (bz_node (run_busy es s))) = ttl (nd_replay (bz_node s))) as Httls.
  { intros es. induction es as [|e es IH]; intros s Hks Hok; [done|]. change (run_busy (e :: es) s) with (run_busy es (busy_step e s)).
    destruct (busy_step_ok e s Hks Hok) as (Hok' & _ & Ha). rewrite IH by (rewrite ?Ha; done). by apply busy_step_replay. }
  destruct (run_busy_ok es1 (mkBusy n []) Hk) as (Hok & _ & Ha); [done|]. set (s := run_busy es1 (mkBusy n [])) in *.
  assert (rsa_key_wf (nd_authority (bz_node s))) as Hks by (by rewrite Ha).
  destruct (busy_step_ok e1 s Hks Hok) as (Hok1 & _ & Ha1). destruct (busy_step_replay e1 s Hks Hok) as [Httl _].
  assert (ttl (nd_replay (bz_node s)) = ttl (nd_replay n)) as Htn by (by apply (Httls es1 (mkBusy n []))). rewrite Htn in Httl.
  rewrite run_busy_app in Hns. fold s in Hns. change (run_busy (e1 :: es2) s) with (run_busy es2 (busy_step e1 s)) in Hns.
  destruct (Z.le_gt_cases (t1 + ttl (nd_replay n)) t2) as [|Hearly]; [done|]. exfalso.
  rewrite omap_app in Hsort. cbn [omap list_omap] in Hsort. rewrite Ht1 in Hsort. fold (omap busy_instant (es2 ++ e2 :: es3)) in Hsort.
  rewrite omap_app in Hsort. cbn [omap list_omap] in Hsort. rewrite Ht2 in Hsort. apply StronglySorted_app in Hsort as (_ & _ & Hsort).
  apply StronglySorted_inv in Hsort as [Hsort Hle].
  apply StronglySorted_app in Hsort as (Hcross & _ & _).
  assert (t1 ≤ t2) as H12 by (rewrite Forall_forall in Hle; apply Hle, elem_of_app; right; by left).
  destruct (run_busy_blocks es2 (busy_step e1 s) (sha256 token) t1) as [Hblock Httl2]; [by rewrite Ha1|done|done| |].
  - rewrite Httl. apply Forall_forall. intros t' Ht'. assert (t' ≤ t2) as Hlt by (apply Hcross; [done|by left]).
    unfold still_live. apply Z.ltb_lt. lia.
  - apply Hns. exists t1. rewrite Httl2, Httl. split; [exact Hblock|]. unfold still_live. apply Z.ltb_lt. lia.
Qed.

(** C12. What a connection may do is decided turn by turn, by the registry of that
    moment.  In any state that any schedule reaches, a turn of a connection
    touches no other connection and does to the outside only what its phase
    allows: before the handshake nothing (but shutting down a refused socket),
    in it message 2, and in the loop what [legal_action] says for the role,
    every dialled next hop being listed in the document published and usable at
    that very turn, however long ago the circuit was built. *)
Theorem interleaved_effects_legal n es i t rng ev now_unix now_instant :
  rsa_key_wf (nd_authority n) →
  let s := run_busy es (mkBusy n []) in
  let s' := busy_step (BTurn i rng ev now_unix now_instant) s in
  bz_tasks s !! i = Some t →
  (∃ t' new, bz_tasks s' !! i = Some t' ∧ tk_peer t' = tk_peer t ∧ log (tk_net t') = log (tk_net t) ++ new ∧
     Forall (turn_effect (node_ctx (bz_node s) now_unix now_instant) (tk_phase t)) new) ∧
  ∀ j, j ≠ i → bz_tasks s' !! j = bz_tasks s !! j.
Proof.
  intros Hk s s' Hi. destruct (run_busy_ok es (mkBusy n []) Hk) as (Hok & _ & Ha); [done|]. fold s in Hok, Ha.
  assert (rsa_key_wf (nd_authority (bz_node s))) as Hks by (by rewrite Ha). subst s'.
  destruct (busy_turn s i t rng ev now_unix now_instant Hks Hok Hi) as (c & ph & -> & [_ (new & Hl & Hf) _ _ _ _]).
  cbn [bz_tasks]. split; [|by intros j Hj; rewrite list_lookup_insert_ne].
  eexists _, new. rewrite list_lookup_insert_eq by (by eapply lookup_lt_Some). split_and!; [done..|exact Hl|exact Hf].
Qed.
End interleaved_theorems.

(** ** Witnesses *)

Definition sample_middle_conn : conn :=
  sample_conn [Got [PROTO_RELAY]; Got [CIRCUIT_START]; Got sample_msg1; Fine; Fine].

Lemma turns_are_the_handler_witness :
  match (alone (sample_ctx Middle) sample_peer [] [InTimeout] sample_middle_conn).2 with Over (Err Timeout) => True | _ => False end ∧
  handle_connection (sample_ctx Middle) sample_peer [] [InTimeout] sample_middle_conn =
    ((alone (sample_ctx Middle) sample_peer [] [InTimeout] sample_middle_conn).1, Err Timeout).
Proof.
  assert (settled (alone (sample_ctx Middle) sample_peer [] [InTimeout] sample_middle_conn).2 = Some (Err Timeout)) as Hs
    by (vm_compute; reflexivity).
  split; [vm_compute; exact I|].
  destruct (turns_are_the_handler (sample_ctx Middle) sample_peer [] [InTimeout] sample_middle_conn) as (o & Ho & Hh).
  - split; vm_compute; congruence.
  - reflexivity.
  - rewrite Hs in Ho. injection Ho as <-. exact Hh.
Defined.

(** Two connections read the same token before either is checked; the second
    to arrive is let in, the first is refused, and a third gets in a day later. *)
Definition sample_peer_at (b : byte) : SocketAddr := mkSocketAddr (V4 (Ipv4 x01 x02 x03 b)) 5.
Definition sample_before : list busy_event :=
  [BAccept sample_arrival (sample_peer_at x04) sample_presented; BAccept sample_arrival (sample_peer_at x05) sample_presented;
   BTurn 0 [] InTimeout sample_now 0; BTurn 1 [] InTimeout sample_now 1; BTick (sample_now + 3600) (sample_now + 3600)].
Definition sample_let_in : busy_event := BTurn 1 [] InTimeout sample_now 2.
Definition sample_between : list busy_event :=
  [BTurn 0 [] InTimeout sample_now 3; BAccept sample_arrival (sample_peer_at x06) sample_presented;
   BTurn 2 [] InTimeout (sample_now + 86400) 86400000000001].
Definition sample_again : busy_event := BTurn 2 [] InTimeout (sample_now + 86400) 86400000000002.

Lemma sample_key_wf : rsa_key_wf (nd_authority sample_started).
Proof.
  pose proof sample_started_facts as Hf. rewrite !andb_true_iff in Hf. destruct Hf as [[[_ Hn] He] _].
  apply Z.leb_le in Hn, He. split; assumption.
Qed.

Lemma interleaved_no_double_spend_witness :
  ∃ t1 t2, busy_instant sample_let_in = Some t1 ∧ busy_instant sample_again = Some t2 ∧ t1 + ttl (nd_replay sample_started) ≤ t2.
Proof.
  apply (interleaved_no_double_spend sample_started sample_before sample_let_in sample_between sample_again []
    (sample_token sample_m_raw)).
  - exact sample_key_wf.
  - assert (omap busy_instant (sample_before ++ sample_let_in :: sample_between ++ [sample_again]) =
      [0; 1; 2; 3; 86400000000001; 86400000000002]) as -> by (vm_compute; reflexivity).
    repeat (apply SSorted_nil || apply SSorted_cons || apply Forall_nil_2 || (apply Forall_cons; split)); lia.
  - vm_compute. reflexivity.
  - vm_compute. reflexivity.
Defined.

Lemma interleaved_authorised_witness :
  ∃ t k es1 e es2, bz_tasks (run_busy (sample_before ++ [sample_let_in]) (mkBusy sample_started [])) !! 1%nat = Some t ∧
    tk_circuit t = Some k ∧ sample_before ++ [sample_let_in] = es1 ++ e :: es2 ∧
    granted (tk_peer t) 1 (run_busy es1 (mkBusy sample_started [])) e.
Proof.
  assert ((λ t, is_some (tk_circuit t)) <$>
    bz_tasks (run_busy (sample_before ++ [sample_let_in]) (mkBusy sample_started [])) !! 1%nat = Some true) as Hc
    by (vm_compute; reflexivity).
  destruct (bz_tasks (run_busy (sample_before ++ [sample_let_in]) (mkBusy sample_started [])) !! 1%nat) as [t|] eqn:Ht;
    [|discriminate Hc].
  destruct (tk_circuit t) as [k|] eqn:Hk; [|cbn in Hc; rewrite Hk in Hc; discriminate Hc].
  pose proof sample_started_facts as Hf. rewrite !andb_true_iff in Hf. destruct Hf as [[[Hd _] _] _].
  apply bool_decide_eq_true in Hd.
  destruct (interleaved_authorised (sample_surroundings sample_guard_env) sample_boot _ sample_started
    (sample_before ++ [sample_let_in]) 1 t k eq_refl sample_start_eq) as (es1 & e & es2 & Hes & Hg & _).
  - rewrite Hd. exact sample_boot_coherent.
  - exact sample_key_wf.
  - exact Ht.
  - exact Hk.
  - exists t, k, es1, e, es2. split; [reflexivity|]. split; [exact Hk|]. split; [exact Hes|exact Hg].
Defined.

Lemma interleaved_effects_legal_witness :
  ∃ t t' new, bz_tasks (run_busy sample_before (mkBusy sample_started [])) !! 1%nat = Some t ∧
    bz_tasks (busy_step sample_let_in (run_busy sample_before (mkBusy sample_started []))) !! 1%nat = Some t' ∧
    log (tk_net t') = log (tk_net t) ++ new.
Proof.
  assert (is_some (bz_tasks (run_busy sample_before (mkBusy sample_started [])) !! 1%nat) = true) as Hs
    by (vm_compute; reflexivity).
  destruct (bz_tasks (run_busy sample_before (mkBusy sample_started [])) !! 1%nat) as [t|] eqn:Ht; [|discriminate Hs].
  destruct (interleaved_effects_legal sample_started sample_before 1 t [] InTimeout sample_now 2 sample_key_wf Ht)
    as [(t' & new & Ht' & _ & Hl & _) _].
  exists t, t', new. split; [reflexivity|]. split; [exact Ht'|exact Hl].
Defined.
