(* ===== verification/Isolation.v ===== *)
(** QuietHop: a connection of a relay, among the others.

    [Interleave] runs the connections of [relay/src/main.rs] turn by turn on the
    state they share.  Here the turns of one connection are taken out of a
    schedule, and compared with the connection that has the relay to itself; and
    a whole schedule is compared with [RelayNode], where a connection is one
    event.  The connections share the replay window, the counters and the
    registry handle; a connection looks at the window in one turn only, its
    second, which is where it counts as taking place. *)

From stdpp Require Import pretty.
From S2P Require Import Prelude Bytes Text NetAddr Cell Noise SampleNoise Layer Civil State Registry SampleRegistry.
From S2P Require Import RegistryCache Circuit Token Config Exit RelayRegistry Relay RelayTheorems StaticKey.
From S2P Require Import Path Blind Dial Client RelayNode Interleave.

#[local] Open Scope Z_scope.

(** ** One connection's turns *)

Section own.
Context `{Snow, Sha256, Ed25519, UrlParser}.

(** The turns that a schedule gives task [i]. *)
Fixpoint own_turns (i : nat) (es : list busy_event) : list (list byte * io_event) :=
  match es with
  | [] => []
  | BTurn j rng ev _ _ :: es => if decide (j = i) then (rng, ev) :: own_turns i es else own_turns i es
  | _ :: es => own_turns i es
  end.

(** Turns of a connection, each with what it draws and what it is handed. *)
Definition turns (ctx : ConnCtx) (peer : SocketAddr) (ts : list (list byte * io_event)) (x : conn * phase) : conn * phase :=
  fold_left (λ x t, conn_turn ctx peer t.1 t.2 x.2 x.1) ts x.

End own.

Section serial.
Context `{Base64, Sha256, Ed25519, RegistryJson, StateJson, Snow, UrlParser, ApiJson, Pem}.

(** At each of its turns, task [i] is served by [doc]. *)
Fixpoint served_by (i : nat) (doc : option Verified) (es : list busy_event) (s : busy) : Prop :=
  match es with
  | [] => True
  | e :: es =>
      match e with
      | BTurn j _ _ now_unix _ => j = i → RegistryHandle_usable (nd_handle (bz_node s)) now_unix = doc
      | _ => True
      end ∧ served_by i doc es (busy_step e s)
  end.
Definition steady (doc : nat → option Verified) (es : list busy_event) (s : busy) : Prop := ∀ i, served_by i (doc i) es s.

(** A connection a relay has accepted, and how many turns it has had. *)
Record accepted := mkAccepted { ac_arrival : arrival; ac_peer : SocketAddr; ac_sock : net; ac_turns : nat }.

(** The connections accepted by then, after one more step. *)
Definition note (acs : list accepted) (e : busy_event) : list accepted :=
  match e with
  | BTick _ _ => acs
  | BAccept ar peer sock => if routed ar then acs ++ [mkAccepted ar peer sock 0] else acs
  | BTurn i _ _ _ _ => alter (λ a, mkAccepted (ac_arrival a) (ac_peer a) (ac_sock a) (S (ac_turns a))) i acs
  end.
Definition history (acs : list accepted) (es : list busy_event) : list accepted := fold_left note es acs.

(** What a step is in the relay that takes a connection in one event: the whole
    connection, when it is the second turn, with what it is to draw and to be
    handed in the turns that follow. *)
Definition piece (acs : list accepted) (e : busy_event) (es : list busy_event) : list node_event :=
  match e with
  | BTick now1 now2 => [Tick now1 now2]
  | BAccept _ _ _ => []
  | BTurn i _ _ now_unix now_instant =>
      match acs !! i with
      | Some (mkAccepted ar peer sock 1) =>
          let ts := own_turns i es in
          [Accepted ar peer (match ts with [] => [] | t :: _ => t.1 end) (drop 1 ts).*2 sock now_unix now_instant]
      | _ => []
      end
  end.

(** The schedule with each connection in one piece, where its second turn is. *)
Fixpoint serial (acs : list accepted) (es : list busy_event) : list node_event :=
  match es with
  | [] => []
  | e :: es => piece acs e es ++ serial (note acs e) es
  end.

(** The relay at the end of a trace. *)
Definition node_after (n : node) (tr : list (node * node_event * option conn * node)) : node :=
  match last tr with Some (_, n') => n' | None => n end.
End serial.

(** ** Contexts that a connection cannot tell apart *)

Section alike.
Context `{Snow, Sha256, Ed25519, UrlParser}.

Definition ctx_alike (ctx ctx' : ConnCtx) : Prop :=
  cfg ctx = cfg ctx' ∧ authority_pubkey ctx = authority_pubkey ctx' ∧ static_private ctx = static_private ctx' ∧
  RegistryHandle_usable (cx_registry ctx) (now_unix ctx) = RegistryHandle_usable (cx_registry ctx') (now_unix ctx').

(** The same socket and the same circuit. *)
Definition alike (c c' : conn) : Prop := cn_net c = cn_net c' ∧ cn_circuit c = cn_circuit c'.

(** Two operations that do the same to them, and have the same result. *)
Definition agree {A} (m m' : st conn HandleError A) : Prop :=
  ∀ c c', alike c c' → alike (fst (m c)) (fst (m' c')) ∧ snd (m c) = snd (m' c').

Lemma agree_bind {A B} (m m' : st conn HandleError A) (f f' : A → st conn HandleError B) :
  agree m m' → (∀ a, agree (f a) (f' a)) → agree (m ≫= f) (m' ≫= f').
Proof.
  intros Hm Hf c c' Hc. destruct (Hm c c' Hc) as [Ha Ho]. unfold mbind, st_bind.
  destruct (m c) as [c1 o], (m' c') as [c1' o']. cbn in Ha, Ho. subst o'. destruct o; [by apply Hf|done..].
Qed.

Lemma agree_lift {A} (o : outcome HandleError A) : agree (lift o) (lift o).
Proof. by intros c c'. Qed.
Lemma agree_fail {A} e : agree (fail e : st conn HandleError A) (fail e).
Proof. by intros c c'. Qed.
Lemma agree_on_conn {A} (m : st net HandleError A) : agree (on_conn m) (on_conn m).
Proof. intros c c' [Hn Hk]. unfold on_conn, on_field. rewrite Hn. by destruct (m (cn_net c')). Qed.
Lemma agree_put k : agree (put_circuit k) (put_circuit k).
Proof. by intros c c' [Hn _]. Qed.
Lemma agree_get : agree get_circuit get_circuit.
Proof. intros c c' [Hn Hk]. unfold get_circuit. by rewrite Hk. Qed.
End alike.

Create HintDb agree.
#[export] Hint Resolve agree_lift agree_fail agree_on_conn agree_put agree_get : agree.
Ltac agree_step := apply agree_bind; [by auto with agree|intros ?].

Section alike_turns.
Context `{Snow, Sha256, Ed25519, UrlParser}.

Lemma start_circuit_agree : agree start_circuit start_circuit.
Proof. agree_step. apply (agree_lift (Ok _)). Qed.

Lemma opening_agree ctx ctx' peer : ctx_alike ctx ctx' → agree (opening ctx peer) (opening ctx' peer).
Proof.
  intros (Hcfg & _ & _ & Hu). unfold opening, admission. do 2 agree_step. rewrite Hcfg, Hu.
  assert (∀ b', agree (_ ← on_conn (perform_ignored ShutdownIn); fail (UnexpectedProtocol b') : st conn HandleError phase)
    (_ ← on_conn (perform_ignored ShutdownIn); fail (UnexpectedProtocol b'))) as Hr by (intros b'; agree_step; auto with agree).
  assert (agree (mret Presenting : st conn HandleError phase) (mret Presenting)) as Hp by (by intros c c').
  assert (agree (doc ← lift (ok_or (RegistryHandle_usable (cx_registry ctx') (now_unix ctx')) PeerNotAllowed);
     if negb (admits_inbound doc (cfg_role (cfg ctx')) (sa_ip peer)) then fail PeerNotAllowed else mret Signalling : st conn HandleError phase)
    (doc ← lift (ok_or (RegistryHandle_usable (cx_registry ctx') (now_unix ctx')) PeerNotAllowed);
     if negb (admits_inbound doc (cfg_role (cfg ctx')) (sa_ip peer)) then fail PeerNotAllowed else mret Signalling)) as Ha.
  { agree_step. destruct (negb _); [auto with agree|by intros c c']. }
  destruct a0, (cfg_role (cfg ctx')); first [exact (Hr _)|exact Hp|exact Ha].
Qed.

Lemma signalling_agree : agree signalling signalling.
Proof.
  intros c c' Hc. unfold signalling. destruct (agree_on_conn (read_exact 1) c c' Hc) as [Ha Ho].
  destruct (on_conn (read_exact 1) c) as [c1 o], (on_conn (read_exact 1) c') as [c1' o']. cbn in Ha, Ho. subst o'.
  destruct o as [signal|e|]; [|by repeat case_match|done]. case_bool_decide; [done|by apply start_circuit_agree].
Qed.

Lemma handshaking_agree ctx ctx' rng : ctx_alike ctx ctx' → agree (handshaking ctx rng) (handshaking ctx' rng).
Proof.
  intros (_ & _ & Hk & _). unfold handshaking. rewrite Hk. agree_step. agree_step. destruct a0 as [t msg2].
  do 3 agree_step. destruct (Circuit_activate _) as [k r]. do 2 agree_step. apply (agree_lift (Ok _)).
Qed.

(** The loop looks only at the configuration and at the usable document. *)
Lemma io_turn_alike ctx ctx' r ev s : ctx_alike ctx ctx' → io_turn ctx r ev s = io_turn ctx' r ev s.
Proof.
  destruct ctx as [cf a k h u ni], ctx' as [cf' a' k' h' u' ni']. intros (Hcfg & _ & _ & Hu). cbn in Hcfg, Hu. subst cf'.
  assert (∀ ext len, open_next_link ext (mkConnCtx cf a k h u ni) len = open_next_link ext (mkConnCtx cf a' k' h' u' ni') len) as Ho
    by (intros ext len; unfold open_next_link; cbn; by rewrite Hu).
  unfold io_turn, handle_inbound, mbind, st_bind, get_io. destruct ev; try reflexivity.
  destruct (on_transport _ _) as [s1 [[c|blob]|e|]]; [|done..]. unfold handle_cell.
  destruct (cell_type c), r; try reflexivity; unfold handle_extend, mbind, st_bind, get_io, lift;
    (destruct (next_link s1); [done|]); (destruct (map_err _ _); [|done..]); (destruct (ok_or _ _); [|done..]); by rewrite Ho.
Qed.

Lemma looping_agree ctx ctx' ev t nl dest : ctx_alike ctx ctx' → agree (looping ctx ev t nl dest) (looping ctx' ev t nl dest).
Proof.
  intros Hc c c' [Hn Hk]. unfold looping. assert (cfg ctx = cfg ctx') as -> by apply Hc.
  rewrite (io_turn_alike ctx ctx') by done. rewrite Hn. by destruct (io_turn _ _ _ _).
Qed.

Lemma presenting_agree ctx ctx' c c' :
  ctx_alike ctx ctx' → now_instant ctx = now_instant ctx' → cn_replay c = cn_replay c' → alike c c' →
  alike (fst (presenting ctx c)) (fst (presenting ctx' c')) ∧ snd (presenting ctx c) = snd (presenting ctx' c').
Proof.
  intros (_ & Ha & _) Hi Hw Hc. unfold presenting, mbind, st_bind.
  pose proof (agree_on_conn (read_exact PRESENTATION_LEN) c c' Hc) as [Hn Ho].
  assert (∀ c, cn_replay (fst (on_conn (read_exact PRESENTATION_LEN) c)) = cn_replay c) as Hr
    by (intros c0; unfold on_conn, on_field; by destruct (read_exact _ _)).
  pose proof (Hr c) as Hr1. pose proof (Hr c') as Hr2.
  destruct (on_conn (read_exact PRESENTATION_LEN) c) as [c1 o], (on_conn (read_exact PRESENTATION_LEN) c') as [c1' o'].
  cbn in Hn, Ho, Hr1, Hr2. subst o'. destruct o as [buf|e|]; [|done..]. unfold lift.
  destruct (slice_to buf M_RAW_LEN) as [m_raw|e|]; [|done..]. destruct (slice_from buf M_RAW_LEN) as [token|e|]; [|done..].
  rewrite Ha, Hi, Hr1, Hr2, Hw. destruct Hn as [Hn Hk], (token_verify _ _ _ _ _) as [w [[]|e|]]; cbn; unfold alike; cbn; auto.
Qed.

Lemma alike_wind_up o c c' : alike c c' → alike (wind_up o c) (wind_up o c').
Proof. intros [Hn Hk]. split; [done|]. cbn. by rewrite Hk. Qed.

(** A turn does the same under contexts and with shared state that it cannot
    tell apart: only the presentation looks at the window and the clock. *)
Lemma conn_turn_alike ctx ctx' peer rng ev ph c c' :
  ctx_alike ctx ctx' → alike c c' →
  (ph = Presenting → now_instant ctx = now_instant ctx' ∧ cn_replay c = cn_replay c') →
  alike (fst (conn_turn ctx peer rng ev ph c)) (fst (conn_turn ctx' peer rng ev ph c')) ∧
  snd (conn_turn ctx peer rng ev ph c) = snd (conn_turn ctx' peer rng ev ph c').
Proof.
  intros Hx Hc Hp. unfold conn_turn.
  assert (match ph with Over _ => True | _ => False end ∨
    alike (fst (phase_turn ctx peer rng ev ph c)) (fst (phase_turn ctx' peer rng ev ph c')) ∧
    snd (phase_turn ctx peer rng ev ph c) = snd (phase_turn ctx' peer rng ev ph c')) as [Hover|[Ha Ho]].
  { destruct ph; cbn [phase_turn]; [right..|by left].
    - by apply opening_agree.
    - destruct (Hp eq_refl) as [Hi Hw]. by apply presenting_agree.
    - by apply signalling_agree.
    - by apply handshaking_agree.
    - by apply looping_agree. }
  - by destruct ph.
  - destruct (phase_turn ctx _ _ _ _ c) as [c1 o], (phase_turn ctx' _ _ _ _ c') as [c1' o']. cbn in Ha, Ho. subst o'.
    destruct ph; try done; destruct o as [[]|e|]; cbn; auto using alike_wind_up.
Qed.
End alike_turns.

(** ** What a turn leaves to the others *)

Section private.
Context `{Snow, Sha256, Ed25519, UrlParser}.

(** An operation that leaves the shared state as it is. *)
Definition private {A} (m : st conn HandleError A) : Prop :=
  ∀ c, cn_replay (fst (m c)) = cn_replay c ∧ cn_metrics (fst (m c)) = cn_metrics c.

Lemma private_bind {A B} (m : st conn HandleError A) (f : A → st conn HandleError B) :
  private m → (∀ a, private (f a)) → private (m ≫= f).
Proof.
  intros Hm Hf c. unfold mbind, st_bind. destruct (Hm c) as [Hr Hs]. destruct (m c) as [c1 [a|e|]]; [|done..].
  destruct (Hf a c1). cbn in *. split; congruence.
Qed.
Lemma private_lift {A} (o : outcome HandleError A) : private (lift o).
Proof. by intros c. Qed.
Lemma private_fail {A} e : private (fail e : st conn HandleError A).
Proof. by intros c. Qed.
Lemma private_on_conn {A} (m : st net HandleError A) : private (on_conn m).
Proof. intros c. unfold on_conn, on_field. by destruct (m (cn_net c)). Qed.
Lemma private_put k : private (put_circuit k).
Proof. by intros c. Qed.
Lemma private_get : private get_circuit.
Proof. by intros c. Qed.
End private.

Create HintDb private.
#[export] Hint Resolve private_lift private_fail private_on_conn private_put private_get : private.
Ltac private_step := apply private_bind; [by auto with private|intros ?].

Section lives.
Context `{Snow, Sha256, Ed25519, UrlParser}.

Lemma private_turn ctx peer rng ev ph :
  match ph with Presenting | Over _ => False | _ => True end → private (phase_turn ctx peer rng ev ph).
Proof.
  destruct ph; try done; intros _; cbn [phase_turn].
  - unfold opening, admission. do 2 private_step.
    assert (∀ b', private (_ ← on_conn (perform_ignored ShutdownIn); fail (UnexpectedProtocol b') : st conn HandleError phase)) as Hr
      by (intros b'; private_step; auto with private).
    assert (private (mret Presenting : st conn HandleError phase)) as Hp by (by intros c).
    assert (private (doc ← lift (ok_or (RegistryHandle_usable (cx_registry ctx) (now_unix ctx)) PeerNotAllowed);
      if negb (admits_inbound doc (cfg_role (cfg ctx)) (sa_ip peer)) then fail PeerNotAllowed else mret Signalling
        : st conn HandleError phase)) as Ha
      by (private_step; destruct (negb _); [auto with private|by intros c]).
    destruct a0, (cfg_role (cfg ctx)); first [exact (Hr _)|exact Hp|exact Ha].
  - intros c. unfold signalling. pose proof (private_on_conn (read_exact 1) c) as [Hr Hm].
    destruct (on_conn (read_exact 1) c) as [c1 [signal|e|]]; cbn in Hr, Hm; [|by repeat case_match|done].
    by case_bool_decide.
  - unfold handshaking. private_step. private_step. destruct a0 as [t msg2]. do 3 private_step.
    destruct (Circuit_activate _) as [k r]. do 2 private_step. by intros c.
  - intros c. unfold looping. by destruct (io_turn _ _ _ _).
Qed.

(** Only the presentation changes the window and the counters. *)
Lemma conn_turn_private ctx peer rng ev ph c :
  ph ≠ Presenting → cn_replay (fst (conn_turn ctx peer rng ev ph c)) = cn_replay c ∧
    cn_metrics (fst (conn_turn ctx peer rng ev ph c)) = cn_metrics c.
Proof.
  intros Hp. unfold conn_turn. assert (match ph with Over _ => True | _ => False end ∨ private (phase_turn ctx peer rng ev ph))
    as [Ho|Hpr]; [destruct ph; try done; [right..|by left]; by apply private_turn|by destruct ph|].
  destruct (Hpr c) as [Hr Hm]. by destruct ph, (phase_turn ctx peer rng ev _ c) as [c1 [[]|e|]].
Qed.

(** Past the second turn. *)
Definition late (ph : phase) : Prop := (turns_left ph ≤ 1)%nat.

Lemma late_not_presenting ph : late ph → ph ≠ Presenting.
Proof. intros Hl ->. unfold late in Hl. cbn in Hl. lia. Qed.

Lemma conn_turn_left ctx peer rng ev ph c c' ph' k :
  rsa_key_wf (authority_pubkey ctx) → phase_ok ctx ph (cn_circuit c) → (turns_left ph ≤ S k)%nat →
  conn_turn ctx peer rng ev ph c = (c', ph') → (turns_left ph' ≤ k)%nat ∧ phase_ok ctx ph' (cn_circuit c').
Proof.
  intros Hk Hp Hl [_ _ Hp' Hl' _ _]%conn_turn_spec; [|done..]. split; [|done]. destruct Hl' as [[o ->]|Hl']; [simpl|]; lia.
Qed.

(** From then on a connection is alone: what it does is what its turns do on
    any shared state. *)
Lemma turns_alike ctx ctx' peer ts c c' ph :
  rsa_key_wf (authority_pubkey ctx) → phase_ok ctx ph (cn_circuit c) → late ph → ctx_alike ctx ctx' → alike c c' →
  alike (fst (turns ctx peer ts (c, ph))) (fst (turns ctx' peer ts (c', ph))) ∧
  snd (turns ctx peer ts (c, ph)) = snd (turns ctx' peer ts (c', ph)) ∧
  cn_replay (fst (turns ctx peer ts (c, ph))) = cn_replay c ∧ cn_metrics (fst (turns ctx peer ts (c, ph))) = cn_metrics c.
Proof.
  intros Hk Hp Hl Hx. revert c c' ph Hp Hl. induction ts as [|[rng ev] ts IH]; intros c c' ph Hp Hl Hc; [done|].
  pose proof (late_not_presenting ph Hl) as Hn.
  destruct (conn_turn_alike ctx ctx' peer rng ev ph c c' Hx Hc) as [Ha Hph]; [done|].
  destruct (conn_turn_private ctx peer rng ev ph c Hn) as [Hr Hm].
  cbn [turns fold_left fst snd]. destruct (conn_turn ctx peer rng ev ph c) as [c1 ph1] eqn:Ht.
  destruct (conn_turn ctx' peer rng ev ph c') as [c1' ph1']. cbn in Ha, Hph, Hr, Hm. subst ph1'.
  destruct (conn_turn_left ctx peer rng ev ph c c1 ph1 0 Hk Hp Hl Ht) as [Hl1 Hp1].
  destruct (IH c1 c1' ph1 Hp1) as (? & ? & Hr' & Hm'); [unfold late; lia|done|].
  split_and!; [done..|exact (eq_trans Hr' Hr)|exact (eq_trans Hm' Hm)].
Qed.

(** In the loop nothing is drawn, and before it nothing is handed over. *)
Lemma turns_loop ctx peer rng ts c ph :
  rsa_key_wf (authority_pubkey ctx) → phase_ok ctx ph (cn_circuit c) → turns_left ph = 0%nat →
  turns ctx peer ts (c, ph) = loop_turns ctx peer rng ts.*2 (c, ph).
Proof.
  intros Hk. revert c ph. induction ts as [|[g ev] ts IH]; intros c ph Hp Hl; [done|].
  cbn [turns fold_left fmap list_fmap loop_turns fst snd].
  assert (conn_turn ctx peer g ev ph c = conn_turn ctx peer rng ev ph c) as -> by (by destruct ph).
  destruct (conn_turn ctx peer rng ev ph c) as [c1 ph1] eqn:Ht.
  destruct (conn_turn_left ctx peer rng ev ph c c1 ph1 0 Hk Hp) as [Hl1 Hp1]; [lia|done|]. apply IH; [done|lia].
Qed.

(** A connection past its second turn has done the rest of the handler once it
    has settled. *)
Definition two_turns_on (ph : phase) : Prop := turns_left ph = 1%nat ∨ ∃ o, ph = Over o.

Lemma two_turns_late ph : two_turns_on ph → late ph.
Proof. unfold late. intros [->|[o ->]]; simpl; lia. Qed.

Lemma turns_over ctx peer ts c o : turns ctx peer ts (c, Over o) = (c, Over o).
Proof. by induction ts. Qed.

Lemma late_rest ctx peer ts c ph o :
  rsa_key_wf (authority_pubkey ctx) → phase_ok ctx ph (cn_circuit c) → two_turns_on ph →
  settled (turns ctx peer ts (c, ph)).2 = Some o →
  rest_of ctx peer (match ts with [] => [] | t :: _ => t.1 end) (drop 1 ts).*2 ph c = ((turns ctx peer ts (c, ph)).1, o).
Proof.
  intros Hk Hp [Hl|[o' ->]] Hs; [|rewrite turns_over in *; by injection Hs as <-].
  destruct ph; try done. destruct ts as [|[g ev] ts]; [done|]. cbn [turns fold_left fst snd drop] in *.
  rewrite (handshaking_turn ctx peer g ev). destruct (conn_turn ctx peer g ev Handshaking c) as [c1 ph1] eqn:Ht.
  destruct (conn_turn_left ctx peer g ev _ c c1 ph1 0 Hk Hp) as [Hl1 Hp1]; [simpl; lia|done|].
  fold (turns ctx peer ts (c1, ph1)) in *. change (drop 0 ts) with ts.
  rewrite (turns_loop ctx peer g) in * by (done || lia). destruct (loop_turns_rest ctx peer g ts.*2 ph1 c1) as (o' & Ho & Hr); [done..|lia|].
  rewrite Hs in Ho. by injection Ho as <-.
Qed.
End lives.

(** ** A connection in a schedule *)

Section schedule.
Context `{Base64Laws, Sha256, Ed25519, RegistryJson, StateJsonLaws, Snow, UrlParser, ApiJson, Pem}.

(** A context that shows a task of this relay what the relay shows it. *)
Definition fits (ctx : ConnCtx) (n : node) (doc : option Verified) : Prop :=
  cfg ctx = nd_cfg n ∧ authority_pubkey ctx = nd_authority n ∧ static_private ctx = kp_private (nd_key n) ∧
  RegistryHandle_usable (cx_registry ctx) (now_unix ctx) = doc.

Lemma fits_alike ctx n doc now_unix now_instant :
  fits ctx n doc → RegistryHandle_usable (nd_handle n) now_unix = doc → ctx_alike ctx (node_ctx n now_unix now_instant).
Proof. intros (Hc & Ha & Hs & Hd) Hu. by rewrite <- Hu in Hd. Qed.

Lemma node_ctx_fits n doc now_unix now_instant :
  RegistryHandle_usable (nd_handle n) now_unix = doc → fits (node_ctx n now_unix now_instant) n doc.
Proof. done. Qed.

Lemma busy_step_fits ctx s doc e : fits ctx (bz_node (busy_step e s)) doc ↔ fits ctx (bz_node s) doc.
Proof.
  unfold fits. destruct (busy_step_registry e s) as [(_ & _ & -> & -> & ->)|(now1 & now2 & ->)]; [done|].
  unfold refresh_tick. by destruct (refresh_if_stale now1 _).
Qed.

(** A step that is no turn of task [i] leaves it alone. *)
Lemma busy_step_other e s i t :
  (∀ rng ev u ni, e ≠ BTurn i rng ev u ni) → bz_tasks s !! i = Some t → bz_tasks (busy_step e s) !! i = Some t.
Proof.
  intros He Hi. destruct e as [now1 now2|ar peer sock|j rng ev now_unix now_instant]; cbn [busy_step]; [done|..].
  - destruct (negb (routed ar)); [done|]. cbn [bz_tasks]. by apply lookup_app_l_Some.
  - destruct (bz_tasks s !! j) as [u|]; [|done]. destruct (conn_turn _ _ _ _ _ _) as [c ph]. cbn [bz_tasks].
    rewrite list_lookup_insert_ne; [done|]. intros ->. by eapply He.
Qed.

Lemma own_turns_other e es i :
  (∀ rng ev u ni, e ≠ BTurn i rng ev u ni) → own_turns i (e :: es) = own_turns i es.
Proof. intros He. destruct e as [| |j rng ev u ni]; [done..|]. cbn. case_decide; [subst; by edestruct He|done]. Qed.

Lemma is_turn_of e i : (∃ rng ev u ni, e = BTurn i rng ev u ni) ∨ (∀ rng ev u ni, e ≠ BTurn i rng ev u ni).
Proof.
  destruct e as [| |j rng ev u ni]; [by right..|]. destruct (decide (j = i)) as [->|]; [left; by eauto|right; congruence].
Qed.

(** A turn of task [i], spelled out. *)
Lemma busy_turn_eq s i t rng ev now_unix now_instant :
  bz_tasks s !! i = Some t →
  let x := conn_turn (node_ctx (bz_node s) now_unix now_instant) (tk_peer t) rng ev (tk_phase t) (conn_of (bz_node s) t) in
  busy_step (BTurn i rng ev now_unix now_instant) s =
    mkBusy (put_conn x.1 (bz_node s)) (<[i := mkRelayTask (tk_peer t) (cn_net x.1) (cn_circuit x.1) x.2]> (bz_tasks s)).
Proof. intros Hi. cbn [busy_step]. rewrite Hi. by destruct (conn_turn _ _ _ _ _ _). Qed.

Lemma busy_turn_task s i t rng ev now_unix now_instant :
  bz_tasks s !! i = Some t →
  let x := conn_turn (node_ctx (bz_node s) now_unix now_instant) (tk_peer t) rng ev (tk_phase t) (conn_of (bz_node s) t) in
  bz_tasks (busy_step (BTurn i rng ev now_unix now_instant) s) !! i =
    Some (mkRelayTask (tk_peer t) (cn_net x.1) (cn_circuit x.1) x.2).
Proof. intros Hi x. rewrite (busy_turn_eq s i t) by done. apply list_lookup_insert_eq. by eapply lookup_lt_Some. Qed.

Lemma steady_cons doc e es s :
  steady doc (e :: es) s →
  match e with BTurn i _ _ now_unix _ => RegistryHandle_usable (nd_handle (bz_node s)) now_unix = doc i | _ => True end ∧
  steady doc es (busy_step e s).
Proof. intros Hst. split; [destruct e; try done; by apply (Hst i)|]. intros i. apply (Hst i). Qed.

(** Past its second turn, a task in a schedule is the connection alone. *)
Lemma late_task doc es s i t ctx c :
  rsa_key_wf (nd_authority (bz_node s)) → tasks_ok s → served_by i doc es s → bz_tasks s !! i = Some t → late (tk_phase t) →
  fits ctx (bz_node s) doc → alike c (conn_of (bz_node s) t) →
  let x := turns ctx (tk_peer t) (own_turns i es) (c, tk_phase t) in
  bz_tasks (run_busy es s) !! i = Some (mkRelayTask (tk_peer t) (cn_net x.1) (cn_circuit x.1) x.2).
Proof.
  revert s t c. induction es as [|e es IH]; intros s t c Hk Hok Hst Hi Hl Hf Hc.
  { destruct Hc as [Hn Hk']. cbn in *. rewrite Hn, Hk', Hi. by destruct t. }
  destruct (busy_step_ok e s Hk Hok) as (Hok' & _ & Ha), Hst as [Hd Hst].
  change (run_busy (e :: es) s) with (run_busy es (busy_step e s)).
  destruct (is_turn_of e i) as [(rng & ev & u & ni & ->)|He]; [specialize (Hd eq_refl)|clear Hd].
  - cbn [own_turns]. rewrite decide_True by done. cbn [turns fold_left fst snd].
    pose proof (busy_turn_task s i t rng ev u ni Hi) as Hi'. cbn zeta in Hi'.
    destruct (conn_turn_alike (node_ctx (bz_node s) u ni) ctx (tk_peer t) rng ev (tk_phase t) (conn_of (bz_node s) t) c) as [Hal Hph].
    + destruct (fits_alike ctx _ _ u ni Hf Hd) as (? & ? & ? & ?). by unfold ctx_alike.
    + destruct Hc. by split.
    + by intros ?%(late_not_presenting _ Hl).
    + destruct (conn_turn (node_ctx (bz_node s) u ni) _ _ _ _ _) as [c1 ph1] eqn:Ht, (conn_turn ctx _ _ _ _ _) as [c1' ph1'].
      cbn [fst snd] in Hal, Hph, Hi'. subst ph1'.
      destruct (conn_turn_left (node_ctx (bz_node s) u ni) (tk_peer t) rng ev (tk_phase t) (conn_of (bz_node s) t) c1 ph1 0
        Hk (Hok i t Hi) Hl Ht) as [Hl1 _].
      refine (IH _ _ c1' _ Hok' Hst Hi' _ _ _).
      * by rewrite Ha.
      * unfold late. cbn. lia.
      * by apply busy_step_fits.
      * destruct Hal. by split.
  - rewrite own_turns_other by done. apply IH; try done.
    + by rewrite Ha.
    + by apply busy_step_other.
    + by apply busy_step_fits.
Qed.
End schedule.

(** ** A schedule, one connection at a time *)

Section serialized.
Context `{Base64Laws, Sha256, Ed25519, RegistryJson, StateJsonLaws, Snow, UrlParser, ApiJson, Pem}.

Lemma node_after_app n tr tr' : node_after n (tr ++ tr') = node_after (node_after n tr) tr'.
Proof. unfold node_after. rewrite last_app. by destruct (last tr'). Qed.

Lemma node_after_cons n x tr : node_after n (x :: tr) = node_after x.2 tr.
Proof. change (x :: tr) with ([x] ++ tr). rewrite node_after_app. by destruct x. Qed.

Lemma run_node_app es es' n : run_node (es ++ es') n = run_node es n ++ run_node es' (node_after n (run_node es n)).
Proof.
  revert n. induction es as [|e es IH]; intros n; [done|]. cbn [app run_node]. destruct (node_step e n) as [n' c].
  by rewrite IH, node_after_cons.
Qed.

(** Where the connection [a] stands as task [t] of the relay. *)
Definition standing (doc : option Verified) (n : node) (a : accepted) (t : relay_task) : Prop :=
  routed (ac_arrival a) = true ∧ tk_peer t = ac_peer a ∧
  match ac_turns a with
  | 0%nat => tk_net t = ac_sock a ∧ tk_circuit t = None ∧ tk_phase t = Opening
  | 1%nat => (turns_left (tk_phase t) = 2%nat ∨ ∃ e, tk_phase t = Over (Err e)) ∧ tk_circuit t = None ∧
      ∀ ctx rng ev w ms, fits ctx n doc →
        conn_turn ctx (ac_peer a) rng ev Opening (mkConn (ac_sock a) w ms None) = (mkConn (tk_net t) w ms (tk_circuit t), tk_phase t)
  | _ => late (tk_phase t)
  end.

Definition in_step (doc : nat → option Verified) (acs : list accepted) (s : busy) : Prop :=
  length acs = length (bz_tasks s) ∧
  ∀ i a t, acs !! i = Some a → bz_tasks s !! i = Some t → standing (doc i) (bz_node s) a t.

(** The first turn. *)
Lemma first_turn ctx peer rng ev c c' ph :
  rsa_key_wf (authority_pubkey ctx) → cn_circuit c = None → conn_turn ctx peer rng ev Opening c = (c', ph) →
  (turns_left ph = 2%nat ∨ ∃ e, ph = Over (Err e)) ∧ cn_circuit c' = None.
Proof.
  intros Hk Hc Ht. pose proof Ht as [_ _ Hp Hl Hci _]%conn_turn_spec; [|done..]. split.
  - destruct Hl as [[o ->]|]; [right|by left]. unfold conn_turn in Ht. cbn [phase_turn] in Ht.
    destruct (opening ctx peer c) as [c1 o1] eqn:Ho. apply opening_spec in Ho as [Hn _ _ _ Hd]; [|done].
    destruct o1 as [p|e|]; [|injection Ht as <- <-; by eauto|done]. destruct (Hd p eq_refl) as [_ Hde].
    by destruct p.
  - destruct (cn_circuit c') eqn:Hk'; [|done]. exfalso. destruct (Hci ltac:(done) ltac:(eauto)) as [[? ?]| ->]; [congruence|].
    destruct Hl as [[? ?]|?]; done.
Qed.

(** What the first turn makes of a task is what it would be under any context
    that fits, whatever it shares. *)
Lemma standing_first doc s i a t rng ev now_unix now_instant :
  rsa_key_wf (nd_authority (bz_node s)) → bz_tasks s !! i = Some t → ac_turns a = 0%nat → standing doc (bz_node s) a t →
  RegistryHandle_usable (nd_handle (bz_node s)) now_unix = doc →
  ∃ t', bz_tasks (busy_step (BTurn i rng ev now_unix now_instant) s) !! i = Some t' ∧
    standing doc (bz_node s) (mkAccepted (ac_arrival a) (ac_peer a) (ac_sock a) 1) t'.
Proof.
  intros Hk Hi Hn (Hr & Hpeer & Hs) Hd. rewrite Hn in Hs. destruct Hs as (Hnet & Hcirc & Hph).
  pose proof (busy_turn_task s i t rng ev now_unix now_instant Hi) as Hu. cbn zeta in Hu.
  set (ctx := node_ctx (bz_node s) now_unix now_instant) in *. rewrite Hph in Hu.
  destruct (conn_turn ctx (tk_peer t) rng ev Opening (conn_of (bz_node s) t)) as [c ph] eqn:Ht. cbn [fst snd] in Hu.
  destruct (first_turn ctx (tk_peer t) rng ev (conn_of (bz_node s) t) c ph Hk Hcirc Ht) as [Hl Hcn].
  eexists. split; [exact Hu|]. split; [done|]. split; [done|]. cbn [ac_turns ac_sock ac_peer tk_phase tk_net tk_circuit].
  split; [done|]. split; [done|]. intros ctx' rng' ev' w ms Hf.
  destruct (conn_turn_alike ctx ctx' (tk_peer t) rng ev Opening (conn_of (bz_node s) t) (mkConn (ac_sock a) w ms None)) as [Hal Hp'].
  { destruct (fits_alike ctx' _ _ now_unix now_instant Hf Hd) as (? & ? & ? & ?). by unfold ctx_alike. }
  { split; [exact Hnet|exact Hcirc]. }
  { done. }
  assert (conn_turn ctx' (ac_peer a) rng' ev' Opening (mkConn (ac_sock a) w ms None) =
    conn_turn ctx' (tk_peer t) rng ev Opening (mkConn (ac_sock a) w ms None)) as -> by (by rewrite <- Hpeer).
  destruct (conn_turn_private ctx' (tk_peer t) rng ev Opening (mkConn (ac_sock a) w ms None)) as [Hrp Hm]; [done|].
  rewrite Ht in Hal, Hp'. destruct (conn_turn ctx' (tk_peer t) rng ev Opening _) as [[net1 w1 ms1 k1] ph1].
  destruct Hal as [Hn1 Hk1]. cbn in *. by subst.
Qed.

(** The second turn of a task leaves the rest of the handler, as it would have
    been from the start, to what follows. *)
Lemma second_turn ctx n a t rng ev rng' evs' c ph :
  rsa_key_wf (authority_pubkey ctx) → phase_ok ctx (tk_phase t) (tk_circuit t) → tk_peer t = ac_peer a →
  (turns_left (tk_phase t) = 2%nat ∨ ∃ e, tk_phase t = Over (Err e)) →
  (∀ rng ev, conn_turn ctx (ac_peer a) rng ev Opening (mkConn (ac_sock a) (nd_replay n) (nd_metrics n) None) = (conn_of n t, tk_phase t)) →
  conn_turn ctx (tk_peer t) rng ev (tk_phase t) (conn_of n t) = (c, ph) →
  two_turns_on ph ∧ phase_ok ctx ph (cn_circuit c) ∧
  handle_connection ctx (ac_peer a) rng' evs' (mkConn (ac_sock a) (nd_replay n) (nd_metrics n) None) =
    rest_of ctx (ac_peer a) rng' evs' ph c.
Proof.
  intros Hk Hp Hpeer Hl Hfirst Ht.
  pose proof (setup_turn ctx (ac_peer a) rng' ev evs' Opening (mkConn (ac_sock a) (nd_replay n) (nd_metrics n) None)
    Hk eq_refl ltac:(done)) as Hset.
  rewrite Hfirst in Hset. cbn beta iota in Hset. unfold rest_of at 1 in Hset. rewrite Hset. clear Hset.
  pose proof Ht as [_ _ Hp' Hl' _ _]%conn_turn_spec; [|done..]. rewrite Hpeer in Ht. destruct Hl as [Hl|[e He]].
  - split; [destruct Hl' as [Ho|Hl']; [by right|left; by rewrite Hl', Hl]|]. split; [done|].
    rewrite (setup_turn ctx (ac_peer a) rng' ev evs' (tk_phase t) (conn_of n t)) by (done || by rewrite Hl).
    assert (conn_turn ctx (ac_peer a) rng' ev (tk_phase t) (conn_of n t) = (c, ph)) as ->; [|done].
    rewrite <- Ht. by destruct (tk_phase t).
  - rewrite He in *. injection Ht as <- <-. split; [right; eauto|]. done.
Qed.

(** The rest of the handler, from there, leaves the shared state as it is. *)
Lemma rest_private ctx peer rng evs ph c :
  rsa_key_wf (authority_pubkey ctx) → phase_ok ctx ph (cn_circuit c) → two_turns_on ph →
  cn_replay (fst (rest_of ctx peer rng evs ph c)) = cn_replay c ∧ cn_metrics (fst (rest_of ctx peer rng evs ph c)) = cn_metrics c.
Proof.
  intros Hk Hp [Hl|[o ->]]; [|done]. destruct ph; try done. rewrite (handshaking_turn ctx peer rng InTimeout).
  destruct (conn_turn_private ctx peer rng InTimeout Handshaking c) as [Hr Hm]; [done|].
  destruct (conn_turn ctx peer rng InTimeout Handshaking c) as [c1 ph1] eqn:Ht. cbn [fst] in Hr, Hm.
  destruct (conn_turn_left ctx peer rng InTimeout _ c c1 ph1 0 Hk Hp) as [Hl1 Hp1]; [simpl; lia|done|].
  destruct (loop_turns_rest ctx peer rng evs ph1 c1) as (o & _ & ->); [done..|lia|]. cbn [fst].
  pose proof (turns_loop ctx peer rng ((λ ev, ([], ev)) <$> evs) c1 ph1) as Hts. rewrite <- list_fmap_compose in Hts.
  rewrite (list_fmap_id evs : (snd ∘ (λ ev, ([] : list byte, ev))) <$> evs = evs) in Hts.
  rewrite <- Hts by (done || lia). rewrite <- Hr, <- Hm.
  destruct (turns_alike ctx ctx peer ((λ ev, ([], ev)) <$> evs) c1 c1 ph1) as (_ & _ & ? & ?); try done. unfold late. lia.
Qed.

(** A turn that is not the second. *)
Lemma private_turn_node s i t rng ev now_unix now_instant :
  bz_tasks s !! i = Some t → tk_phase t ≠ Presenting →
  bz_node (busy_step (BTurn i rng ev now_unix now_instant) s) = bz_node s.
Proof.
  intros Hi Hp. rewrite (busy_turn_eq s i t) by done. cbn [bz_node].
  destruct (conn_turn_private (node_ctx (bz_node s) now_unix now_instant) (tk_peer t) rng ev (tk_phase t) (conn_of (bz_node s) t) Hp)
    as [Hr Hm]. unfold put_conn. rewrite Hr, Hm. by destruct (bz_node s).
Qed.

(** The second turn, given where the connection stands. *)
Lemma standing_second doc s i a t rng ev now_unix now_instant rng' evs' :
  rsa_key_wf (nd_authority (bz_node s)) → tasks_ok s → bz_tasks s !! i = Some t → ac_turns a = 1%nat →
  standing doc (bz_node s) a t → RegistryHandle_usable (nd_handle (bz_node s)) now_unix = doc →
  let ctx := node_ctx (bz_node s) now_unix now_instant in
  ∃ c ph, conn_turn ctx (tk_peer t) rng ev (tk_phase t) (conn_of (bz_node s) t) = (c, ph) ∧
    two_turns_on ph ∧ phase_ok ctx ph (cn_circuit c) ∧
    handle_connection ctx (ac_peer a) rng' evs' (mkConn (ac_sock a) (nd_replay (bz_node s)) (nd_metrics (bz_node s)) None) =
      rest_of ctx (ac_peer a) rng' evs' ph c.
Proof.
  intros Hk Hok Hi Ha (_ & Hpeer & Hst) Hd ctx. rewrite Ha in Hst. destruct Hst as (Hl & Hc & Hfirst).
  destruct (conn_turn ctx (tk_peer t) rng ev (tk_phase t) (conn_of (bz_node s) t)) as [c ph] eqn:Ht.
  exists c, ph. split; [done|]. eapply second_turn; try done; [exact (Hok i t Hi)|].
  intros rng0 ev0. by apply Hfirst.
Qed.

Lemma in_step_turn doc acs s i rng ev now_unix now_instant :
  rsa_key_wf (nd_authority (bz_node s)) → tasks_ok s → RegistryHandle_usable (nd_handle (bz_node s)) now_unix = doc i →
  in_step doc acs s →
  in_step doc (note acs (BTurn i rng ev now_unix now_instant)) (busy_step (BTurn i rng ev now_unix now_instant) s).
Proof.
  intros Hk Hok Hd [Hlen Hst]. cbn [note].
  destruct (bz_tasks s !! i) as [t|] eqn:Hi; cycle 1.
  { cbn [busy_step]. rewrite Hi. split; [by rewrite length_alter|]. intros j a u Ha Hu. destruct (decide (j = i)) as [->|Hne]; [congruence|].
    rewrite list_lookup_alter_ne in Ha by done. by apply (Hst j a u). }
  split; [rewrite length_alter, (busy_turn_eq s i t) by done; cbn [bz_tasks]; by rewrite length_insert|].
  intros j a u Ha Hu. destruct (decide (i = j)) as [<-|Hne]; cycle 1.
  { rewrite list_lookup_alter_ne in Ha by done. rewrite (busy_turn_eq s i t) in Hu |- * by done. cbn [bz_tasks bz_node] in *.
    rewrite list_lookup_insert_ne in Hu by done. exact (Hst j a u Ha Hu). }
  rewrite list_lookup_alter_eq in Ha. destruct (acs !! i) as [a0|] eqn:Ha0; [|done]. injection Ha as <-.
  pose proof (Hst i a0 t Ha0 Hi) as Hs. destruct (ac_turns a0) as [|[|k]] eqn:Hn.
  - destruct (standing_first (doc i) s i a0 t rng ev now_unix now_instant Hk Hi Hn Hs Hd) as (t' & Ht' & Hs').
    rewrite Hu in Ht'. injection Ht' as <-. destruct Hs' as (? & ? & ? & ? & Hf). do 4 (split; [done|]).
    intros ctx rng' ev' w ms Hfit. apply Hf. by rewrite busy_step_fits in Hfit.
  - destruct (standing_second (doc i) s i a0 t rng ev now_unix now_instant [] [] Hk Hok Hi Hn Hs Hd) as (c & ph & Ht & Htwo & _).
    pose proof (busy_turn_task s i t rng ev now_unix now_instant Hi) as Hu'. cbn zeta in Hu'. rewrite Ht, Hu in Hu'. injection Hu' as ->.
    destruct Hs as (? & ? & _). do 2 (split; [done|]). by apply two_turns_late.
  - destruct Hs as (Hr & Hpeer & Hs). rewrite Hn in Hs. set (ctx := node_ctx (bz_node s) now_unix now_instant).
    pose proof (busy_turn_task s i t rng ev now_unix now_instant Hi) as Hu'. cbn zeta in Hu'. rewrite Hu in Hu'. injection Hu' as ->.
    do 2 (split; [done|]). cbn [ac_turns tk_phase]. fold ctx.
    destruct (conn_turn ctx (tk_peer t) rng ev (tk_phase t) (conn_of (bz_node s) t)) as [c ph] eqn:Ht.
    destruct (conn_turn_left ctx (tk_peer t) rng ev (tk_phase t) (conn_of (bz_node s) t) c ph 0 Hk (Hok i t Hi) Hs Ht) as [Hl _].
    unfold late. cbn [snd]. lia.
Qed.

Lemma in_step_step doc acs s e :
  rsa_key_wf (nd_authority (bz_node s)) → tasks_ok s →
  match e with BTurn i _ _ now_unix _ => RegistryHandle_usable (nd_handle (bz_node s)) now_unix = doc i | _ => True end →
  in_step doc acs s → in_step doc (note acs e) (busy_step e s).
Proof.
  intros Hk Hok Hd Hin. destruct e as [now1 now2|ar peer sock|i rng ev now_unix now_instant]; [| |by apply in_step_turn].
  - destruct Hin as [Hlen Hst]. split; [exact Hlen|]. intros i a t Ha Ht.
    destruct (Hst i a t Ha Ht) as (? & ? & Hs). split; [done|]. split; [done|].
    destruct (ac_turns a) as [|[|]]; [exact Hs| |exact Hs]. destruct Hs as (? & ? & Hs). split; [done|]. split; [done|].
    intros ctx rng ev w ms Hf. apply Hs. by rewrite busy_step_fits in Hf.
  - destruct Hin as [Hlen Hst]. cbn [busy_step note]. destruct (routed ar) eqn:Hr; [|by split].
    cbn [negb bz_tasks bz_node]. split; [cbn [bz_tasks]; rewrite !length_app, Hlen; done|]. intros i a t Ha Ht. cbn [bz_tasks bz_node] in *.
    destruct (decide (i < length acs)%nat) as [Hi|Hi].
    + rewrite lookup_app_l in Ha by lia. rewrite lookup_app_l in Ht by lia. by apply (Hst i a t).
    + rewrite lookup_app_r in Ha by lia. rewrite lookup_app_r in Ht by lia.
      apply list_lookup_singleton_Some in Ha as [_ <-]. by apply list_lookup_singleton_Some in Ht as [_ <-].
Qed.

(** A step is its piece, on the shared state. *)
Lemma piece_node doc acs s e es :
  rsa_key_wf (nd_authority (bz_node s)) → tasks_ok s →
  match e with BTurn i _ _ now_unix _ => RegistryHandle_usable (nd_handle (bz_node s)) now_unix = doc i | _ => True end →
  in_step doc acs s → bz_node (busy_step e s) = node_after (bz_node s) (run_node (piece acs e es) (bz_node s)).
Proof.
  intros Hk Hok Hd [Hlen Hst]. destruct e as [now1 now2|ar peer sock|i rng ev now_unix now_instant]; [done| |].
  { cbn [busy_step]. by destruct (negb (routed ar)). }
  unfold piece. destruct (acs !! i) as [a|] eqn:Ha; cycle 1.
  { cbn [busy_step]. destruct (bz_tasks s !! i) eqn:Hi; [|done]. apply lookup_lt_Some in Hi. apply lookup_ge_None in Ha. lia. }
  destruct (lookup_lt_is_Some_2 (bz_tasks s) i) as [t Hi]; [rewrite <- Hlen; by eapply lookup_lt_Some|].
  pose proof (Hst i a t Ha Hi) as Hs. destruct a as [ar peer sock [|[|k]]].
  - apply private_turn_node with t; [done|]. destruct Hs as (_ & _ & _ & _ & ->). done.
  - set (rng' := match own_turns i es with [] => [] | t0 :: _ => t0.1 end). set (evs' := (drop 1 (own_turns i es)).*2).
    destruct (standing_second (doc i) s i (mkAccepted ar peer sock 1) t rng ev now_unix now_instant rng' evs'
      Hk Hok Hi eq_refl Hs Hd) as (c & ph & Ht & Htwo & Hp & Hh). cbn [ac_peer ac_sock] in Hh.
    cbn [run_node node_step]. rewrite (proj1 Hs : routed ar = true). cbn [negb]. rewrite Hh.
    destruct (rest_private (node_ctx (bz_node s) now_unix now_instant) peer rng' evs' ph c Hk Hp Htwo) as [Hr Hm].
    unfold node_after. cbn [last]. rewrite Hr, Hm. rewrite (busy_turn_eq s i t) by done. by rewrite Ht.
  - apply private_turn_node with t; [done|]. destruct Hs as (_ & _ & Hl). by apply late_not_presenting.
Qed.

(** The connection [a], as one event of the trace, is the task [t], and its
    result is [o]. *)
Definition as_one (tr : list (node * node_event * option conn * node)) (a : accepted) (t : relay_task)
    (o : outcome HandleError flow) : Prop :=
  ∃ n1 n2 rng evs now_unix now_instant c,
    (n1, Accepted (ac_arrival a) (ac_peer a) rng evs (ac_sock a) now_unix now_instant, Some c, n2) ∈ tr ∧
    handle_connection (node_ctx n1 now_unix now_instant) (ac_peer a) rng evs
      (mkConn (ac_sock a) (nd_replay n1) (nd_metrics n1) None) = (c, o) ∧
    cn_net c = tk_net t ∧ cn_circuit c = tk_circuit t.

Lemma piece_entry doc acs s i a rng ev now_unix now_instant es t' o :
  rsa_key_wf (nd_authority (bz_node s)) → tasks_ok s → in_step doc acs s →
  steady doc (BTurn i rng ev now_unix now_instant :: es) s → acs !! i = Some a → ac_turns a = 1%nat →
  bz_tasks (run_busy es (busy_step (BTurn i rng ev now_unix now_instant) s)) !! i = Some t' → settled (tk_phase t') = Some o →
  as_one (run_node (piece acs (BTurn i rng ev now_unix now_instant) es) (bz_node s)) a t' o.
Proof.
  intros Hk Hok [Hlen Hst] [Hd Hsteady]%steady_cons Ha Hn Ht' Ho.
  destruct (lookup_lt_is_Some_2 (bz_tasks s) i) as [t Hi]; [rewrite <- Hlen; by eapply lookup_lt_Some|].
  pose proof (Hst i a t Ha Hi) as Hs. set (ctx := node_ctx (bz_node s) now_unix now_instant).
  set (rng' := match own_turns i es with [] => [] | t0 :: _ => t0.1 end). set (evs' := (drop 1 (own_turns i es)).*2).
  destruct (standing_second (doc i) s i a t rng ev now_unix now_instant rng' evs' Hk Hok Hi Hn Hs Hd)
    as (c & ph & Ht & Htwo & Hp & Hh). fold ctx in Ht, Hp, Hh.
  destruct (busy_step_ok (BTurn i rng ev now_unix now_instant) s Hk Hok) as (Hok' & _ & Hauth).
  pose proof (busy_turn_task s i t rng ev now_unix now_instant Hi) as Hi'. cbn zeta in Hi'. fold ctx in Hi'.
  rewrite Ht in Hi'. cbn [fst snd] in Hi'.
  pose proof (late_task (doc i) es _ i _ ctx c ltac:(by rewrite Hauth) Hok' (Hsteady i) Hi' (two_turns_late _ Htwo)
    ltac:(by apply busy_step_fits, node_ctx_fits) ltac:(done)) as Hend.
  cbn zeta in Hend. cbn [tk_peer tk_phase] in Hend. rewrite Hend in Ht'. injection Ht' as <-. cbn [tk_phase] in Ho.
  assert (tk_peer t = ac_peer a) as Hpeer by apply Hs. rewrite Hpeer in *.
  rewrite (late_rest ctx (ac_peer a) (own_turns i es) c ph o) in Hh; [|done..].
  unfold piece. rewrite Ha. destruct a as [ar peer sock k]. cbn [ac_turns ac_peer ac_sock ac_arrival] in *. subst k.
  cbn [run_node node_step]. rewrite (proj1 Hs : routed ar = true). cbn [negb].
  fold ctx rng' evs'. rewrite Hh. do 7 eexists. split; [by left|]. cbn [fst]. split; [exact Hh|done].
Qed.

Lemma history_lookup acs es i a :
  acs !! i = Some a → ∃ k, history acs es !! i = Some (mkAccepted (ac_arrival a) (ac_peer a) (ac_sock a) k) ∧ (ac_turns a ≤ k)%nat.
Proof.
  revert acs a. induction es as [|e es IH]; intros acs a Ha; [exists (ac_turns a); destruct a; done|].
  assert (∃ k, note acs e !! i = Some (mkAccepted (ac_arrival a) (ac_peer a) (ac_sock a) k) ∧ (ac_turns a ≤ k)%nat) as (k & Hk & Hle).
  { destruct e as [|ar peer sock|j rng ev u ni]; cbn [note].
    - exists (ac_turns a). destruct a; done.
    - exists (ac_turns a). destruct (routed ar); [rewrite lookup_app_l by (by eapply lookup_lt_Some)|]; by destruct a.
    - destruct (decide (j = i)) as [->|Hne].
      + rewrite list_lookup_alter_eq, Ha. eexists. split; [done|]. lia.
      + rewrite list_lookup_alter_ne by done. exists (ac_turns a). destruct a; done. }
  destruct (IH _ _ Hk) as (k' & Hk' & Hle'). exists k'. cbn [ac_turns] in Hle'. split; [exact Hk'|lia].
Qed.

(** All the pieces. *)
Lemma serial_node doc es acs s :
  rsa_key_wf (nd_authority (bz_node s)) → tasks_ok s → in_step doc acs s → steady doc es s →
  bz_node (run_busy es s) = node_after (bz_node s) (run_node (serial acs es) (bz_node s)) ∧
  in_step doc (history acs es) (run_busy es s).
Proof.
  revert acs s. induction es as [|e es IH]; intros acs s Hk Hok Hin Hst; [done|].
  apply steady_cons in Hst as [Hd Hst]. destruct (busy_step_ok e s Hk Hok) as (Hok' & _ & Ha).
  change (run_busy (e :: es) s) with (run_busy es (busy_step e s)). cbn [serial].
  rewrite run_node_app, node_after_app, <- (piece_node doc acs s e es Hk Hok Hd Hin).
  apply IH; [by rewrite Ha|done|by apply in_step_step|done].
Qed.

Lemma serial_task doc es acs s i a t o :
  rsa_key_wf (nd_authority (bz_node s)) → tasks_ok s → in_step doc acs s → steady doc es s →
  history acs es !! i = Some a → bz_tasks (run_busy es s) !! i = Some t → settled (tk_phase t) = Some o →
  (2 ≤ ac_turns a)%nat → (∀ a0, acs !! i = Some a0 → (ac_turns a0 ≤ 1)%nat) →
  as_one (run_node (serial acs es) (bz_node s)) a t o.
Proof.
  revert acs s. induction es as [|e es IH]; intros acs s Hk Hok Hin Hsteady Ha Ht Ho Hn Hle; [cbn in Ha; apply Hle in Ha; lia|].
  pose proof Hsteady as [Hd Hst]%steady_cons. destruct (busy_step_ok e s Hk Hok) as (Hok' & _ & Hauth).
  cbn [serial]. rewrite run_node_app, <- (piece_node doc acs s e es Hk Hok Hd Hin).
  assert ((∃ rng ev u ni a0, e = BTurn i rng ev u ni ∧ acs !! i = Some a0 ∧ ac_turns a0 = 1%nat) ∨
    ∀ a0, note acs e !! i = Some a0 → (ac_turns a0 ≤ 1)%nat) as [(rng & ev & u & ni & a0 & -> & Ha0 & Hone)|Hle'].
  { destruct e as [|ar peer sock|j rng ev u ni]; cbn [note].
    - by right.
    - right. intros a0. destruct (routed ar); [|apply Hle]. rewrite lookup_app_Some.
      intros [?|[_ [_ <-]%list_lookup_singleton_Some]]; [by apply Hle|simpl; lia].
    - destruct (decide (j = i)) as [->|Hne]; [|right; by rewrite list_lookup_alter_ne].
      rewrite list_lookup_alter_eq. destruct (acs !! i) as [a0|] eqn:Ha0; [|by right].
      pose proof (Hle a0 eq_refl). destruct (decide (ac_turns a0 = 1%nat)); [left; naive_solver|].
      right. intros a1 [= <-]. simpl. lia. }
  - destruct (history_lookup acs (BTurn i rng ev u ni :: es) i a0 Ha0) as (k & Hk' & _). rewrite Ha in Hk'. injection Hk' as ->.
    destruct (piece_entry doc acs s i a0 rng ev u ni es t o) as (n1 & n2 & r & evs & u' & ni' & c & Hel & Hrest); try done.
    exists n1, n2, r, evs, u', ni', c. split; [|exact Hrest]. apply elem_of_app. by left.
  - destruct (IH (note acs e) (busy_step e s)) as (n1 & n2 & r & evs & u' & ni' & c & Hel & Hrest);
      [by rewrite Hauth|done|by apply in_step_step|done..|].
    exists n1, n2, r, evs, u', ni', c. split; [|exact Hrest]. apply elem_of_app. by right.
Qed.
End serialized.

(** ** Properties *)

Section isolation_theorems.
Context `{Base64Laws, Sha256, Ed25519, RegistryJson, StateJsonLaws, Snow, UrlParser, ApiJson, Pem}.

(** C13. The relay's concurrency is linearizable.  Take any schedule of any number of
    connections and refreshes, in which each connection is served by one
    document.  Take each connection as one event, at its second turn, where it
    presents its token or its circuit-start byte.  Then that sequence of whole
    connections leaves the relay as the schedule does (the replay window, the
    counters, the registry handle, the state file); and every connection that
    has come to its loop or to its end is in the sequence as a run of the
    handler with the same effects, the same circuit and the same result, unless
    it was refused before its second turn. *)
Theorem interleaved_linearizes n es doc :
  rsa_key_wf (nd_authority n) → steady doc es (mkBusy n []) →
  let s := run_busy es (mkBusy n []) in
  let tr := run_node (serial [] es) n in
  bz_node s = node_after n tr ∧ length (bz_tasks s) = length (history [] es) ∧
  ∀ i a t o, history [] es !! i = Some a → bz_tasks s !! i = Some t → settled (tk_phase t) = Some o →
    tk_peer t = ac_peer a ∧
    if decide (2 ≤ ac_turns a)%nat then as_one tr a t o else tk_circuit t = None ∧ ∃ e, o = Err e.
Proof.
  intros Hk Hst s tr.
  destruct (serial_node doc es [] (mkBusy n []) Hk) as [Hnode [Hlen Hstand]]; [done|by split|done|].
  split; [exact Hnode|]. split; [by rewrite Hlen|]. intros i a t o Ha Ht Ho. pose proof (Hstand i a t Ha Ht) as (_ & Hpeer & Hs).
  split; [done|]. case_decide as Hn; [by apply (serial_task doc es [] (mkBusy n []) i)|].
  destruct (ac_turns a) as [|[|k]]; [destruct Hs as (_ & _ & Hph); by rewrite Hph in Ho| |lia].
  destruct Hs as ([Hl|[e He]] & Hc & _); [by destruct (tk_phase t)|]. split; [done|]. rewrite He in Ho. injection Ho as <-. eauto.
Qed.
End isolation_theorems.

(** ** Witness *)

(** Two connections with the same token at a guard: both have read it when the
    second is let in; it shakes hands while the first is refused. *)
Definition isolated_arrival : net :=
  mkNet [] [Got [x01]; Got (sample_m_raw ++ sample_token sample_m_raw);
            Got (replicate 32 x0c ++ take 16 (kp_private (nd_key sample_started))); Fine; Fine].
Definition isolated_now : Z := sample_now + 60.
Definition isolated_events : list busy_event :=
  [BTick isolated_now isolated_now; BAccept sample_arrival (sample_peer_at x04) isolated_arrival; BTurn 0 [] InTimeout isolated_now 0;
   BAccept sample_arrival (sample_peer_at x05) isolated_arrival; BTurn 1 [] InTimeout isolated_now 1;
   BTurn 1 [] InTimeout isolated_now 2; BTick isolated_now isolated_now; BTurn 0 [] InTimeout isolated_now 3;
   BTurn 1 [x01] InTimeout isolated_now 4].
Definition isolated_doc (i : nat) : option Verified :=
  RegistryHandle_usable (nd_handle (refresh_tick isolated_now isolated_now sample_started)) isolated_now.

Lemma isolated_steady : steady isolated_doc isolated_events (mkBusy sample_started []).
Proof. intros i. repeat split; intros _; vm_compute; reflexivity. Qed.

Lemma interleaved_linearizes_witness :
  length (history [] isolated_events) = 2%nat ∧
  ∃ a t, bz_tasks (run_busy isolated_events (mkBusy sample_started [])) !! 1%nat = Some t ∧
    as_one (run_node (serial [] isolated_events) sample_started) a t (Ok Continue).
Proof.
  split; [vm_compute; reflexivity|].
  destruct (interleaved_linearizes sample_started isolated_events isolated_doc sample_key_wf isolated_steady) as (_ & Hlen & Hall).
  assert ((settled ∘ tk_phase) <$> bz_tasks (run_busy isolated_events (mkBusy sample_started [])) !! 1%nat = Some (Some (Ok Continue)))
    as Hs by (vm_compute; reflexivity).
  destruct (bz_tasks (run_busy isolated_events (mkBusy sample_started [])) !! 1%nat) as [t|] eqn:Ht; [|discriminate Hs].
  assert (history [] isolated_events !! 1%nat = Some (mkAccepted sample_arrival (sample_peer_at x05) isolated_arrival 3)) as Ha
    by (vm_compute; reflexivity).
  injection Hs as Hs. destruct (Hall 1%nat _ t (Ok Continue) Ha Ht Hs) as [_ Hone].
  exists (mkAccepted sample_arrival (sample_peer_at x05) isolated_arrival 3), t. split; [reflexivity|]. exact Hone.
Defined.
