(* ===== verification/EndToEnd.v ===== *)
(** QuietHop: a whole circuit, from the client to the destination and back.

    The client of [Dial] and three relays of [Relay], composed along the
    circuit: what one of them writes on a link is what the next one reads.  The
    theorems follow bytes through all four of them, from the telescoping
    handshake to data in both directions. *)

From S2P Require Import Prelude Bytes Text NetAddr Cell Noise SampleNoise Layer Civil State Registry SampleRegistry.
From S2P Require Import Circuit Token Config Exit RelayRegistry Relay RelayTheorems Path Dial.

(** What a relay logs when it passes frames on. *)
Definition passed_on (blobs : list (list byte)) : list action := flat_map (λ b, [WriteNext b; FlushNext]) blobs.
Definition passed_back (frames : list (list byte)) : list action := flat_map (λ f, [WriteIn f; FlushIn]) frames.
Definition delivered (pieces : list (list byte)) : list action := flat_map (λ p, [WriteDest p; FlushDest]) pieces.

(** Split a conjunction without looking into the conjuncts. *)
Ltac split_ands := repeat match goal with |- _ ∧ _ => split end; first [assumption | reflexivity].

Section end_to_end.
Context `{SnowLaws, Sha256, Ed25519, UrlParser, ServerNames}.

(** The circuit as its four parties hold it: each of the client's transports
    is in step with its hop's for [k] more messages, the two links are open,
    and no operation is going to fail. *)
Definition hops_ready (k : nat) (L : Layers) (g m x : circuit_io) : Prop :=
  paired k (l_guard L) (transport g) ∧ paired k (l_middle L) (transport m) ∧ paired k (l_exit L) (transport x) ∧
  is_some (next_link g) = true ∧ is_some (next_link m) = true ∧
  script (io_net g) = [] ∧ script (io_net m) = [] ∧ script (io_net x) = [].

(** And the destination is connected. *)
Definition circuit_ready (k : nat) (L : Layers) (g m x : circuit_io) : Prop :=
  hops_ready k L g m x ∧ is_some (dest_link x) = true.

Definition with_transport (t : TransportState) (s : circuit_io) : circuit_io :=
  mkCircuitIo t (next_link s) (dest_link s) (io_net s).
Definition with_log (new : list action) (s : circuit_io) : circuit_io :=
  mkCircuitIo (transport s) (next_link s) (dest_link s) (mkNet (io_log s ++ new) []).

(** ** Single steps, when nothing fails *)

Lemma on_transport_Ok {A} (m : st TransportState LayerError A) s t a :
  m (transport s) = (t, Ok a) → on_transport m s = (with_transport t s, Ok a).
Proof. intros Hm. unfold on_transport, on_field, st_map_err. by rewrite Hm. Qed.

Lemma perform_Ok a s : script (io_net s) = [] → on_net (perform a) s = (with_log [a] s, Ok ()).
Proof. intros Hs. unfold on_net, on_field, perform, attempt, mbind, st_bind. by rewrite Hs. Qed.

Lemma with_log_app a b s : with_log b (with_log a s) = with_log (a ++ b) s.
Proof. unfold with_log, io_log. simpl. by rewrite app_assoc. Qed.

Lemma io_log_step new t s : io_log (with_log new (with_transport t s)) = io_log s ++ new.
Proof. done. Qed.

(** A hop passes on a frame that is not for it. *)
Lemma turn_forward ctx r s wire t blob :
  script (io_net s) = [] → is_some (next_link s) = true →
  peel wire (inbound_layers r) (transport s) = (t, Ok (Forward blob)) →
  io_turn ctx r (InFrame wire) s = (with_log [WriteNext blob; FlushNext] (with_transport t s), Ok Continue).
Proof.
  intros Hs Hn Hp. unfold io_turn. erewrite st_bind_Ok_eq by (unfold get_io; reflexivity).
  unfold handle_inbound. erewrite st_bind_Ok_eq by (by apply on_transport_Ok).
  unfold handle_forward. erewrite st_bind_Ok_eq by (unfold get_io; reflexivity).
  cbn [next_link with_transport]. destruct (next_link s) eqn:Hnl; [|done].
  erewrite st_bind_Ok_eq by (by apply perform_Ok). erewrite st_bind_Ok_eq by (by apply perform_Ok).
  by rewrite with_log_app.
Qed.

(** A hop acts on a cell that is for it. *)
Lemma turn_to_me ctx r s wire t c :
  peel wire (inbound_layers r) (transport s) = (t, Ok (ToMe c)) →
  io_turn ctx r (InFrame wire) s = handle_cell ctx r c (with_transport t s).
Proof.
  intros Hp. unfold io_turn. erewrite st_bind_Ok_eq by (unfold get_io; reflexivity).
  unfold handle_inbound. by erewrite st_bind_Ok_eq by (by apply on_transport_Ok).
Qed.

(** A hop wraps a frame of its next link for the client. *)
Lemma turn_next ctx r s blob t wire :
  script (io_net s) = [] → is_some (next_link s) = true →
  seal_forward blob (inbound_layers r) (transport s) = (t, Ok wire) →
  io_turn ctx r (NextFrame blob) s = (with_log [WriteIn wire; FlushIn] (with_transport t s), Ok Continue).
Proof.
  intros Hs Hn Hp. unfold io_turn. erewrite st_bind_Ok_eq by (unfold get_io; reflexivity).
  rewrite Hn. unfold handle_next. erewrite st_bind_Ok_eq by (by apply on_transport_Ok).
  unfold send_inbound, mbind at 1 2. unfold st_bind at 1 2. rewrite perform_Ok by done.
  rewrite perform_Ok by done. by rewrite with_log_app.
Qed.

(** ** One cell to the exit *)

(** The client wraps a cell three times and the hops unwrap it: the guard
    and the middle pass it on, the exit peels the cell itself. *)
Lemma cell_reaches_exit k cg cm L g m x c :
  hops_ready (S k) L g m x → length (payload c) ≤ CELL_PAYLOAD_LEN →
  ∃ L' tg tm tx f b i,
    seal_for_exit c L = (L', Ok f) ∧ length f = link_cell_len CLIENT_LAYERS ∧
    io_turn cg Guard (InFrame f) g = (with_log (passed_on [b]) (with_transport tg g), Ok Continue) ∧
    io_turn cm Middle (InFrame b) m = (with_log (passed_on [i]) (with_transport tm m), Ok Continue) ∧
    peel i 1 (transport x) = (tx, Ok (ToMe c)) ∧
    hops_ready k L' (with_log (passed_on [b]) (with_transport tg g))
      (with_log (passed_on [i]) (with_transport tm m)) (with_transport tx x).
Proof.
  intros (Hg & Hm & Hx & Hng & Hnm & Hsg & Hsm & Hsx) Hc.
  destruct (paired_to_me k _ _ c 1 Hx) as (ex & tx & i & Hs1 & Hl1 & Hp1 & Hx'); [unfold MAX_LAYERS; lia|done|].
  destruct (paired_forward k _ _ i 2 Hm) as (em & tm & b & Hs2 & Hl2 & Hp2 & Hm'); [unfold MAX_LAYERS; lia|done|].
  destruct (paired_forward k _ _ b 3 Hg) as (eg & tg & f & Hs3 & Hl3 & Hp3 & Hg'); [unfold MAX_LAYERS; lia|done|].
  exists (mkLayers eg em ex), tg, tm, tx, f, b, i. split_and!; try assumption.
  - unfold seal_for_exit, on_exit, on_middle, on_guard, on_field, st_map_err, mbind, st_bind.
    change (CLIENT_LAYERS - 1) with 2. change CLIENT_LAYERS with 3.
    rewrite Hs1. cbn [map_err l_middle]. rewrite Hs2. cbn [map_err l_guard]. by rewrite Hs3.
  - by apply turn_forward.
  - by apply turn_forward.
  - unfold circuit_ready, hops_ready; split_ands.
Qed.

Lemma handle_data_Ok s p :
  p ≠ [] → script (io_net s) = [] → is_some (dest_link s) = true →
  handle_data Exit p s = (with_log [WriteDest p; FlushDest] s, Ok Continue).
Proof.
  intros Hp Hs Hd. unfold handle_data. destruct p as [|a p]; [done|].
  erewrite st_bind_Ok_eq by (unfold get_io; reflexivity). destruct (dest_link s) eqn:Hdl; [|done].
  erewrite st_bind_Ok_eq by (by apply perform_Ok). erewrite st_bind_Ok_eq by (by apply perform_Ok).
  by rewrite with_log_app.
Qed.

(** A DATA cell ends up at the destination. *)
Lemma data_cell_reaches_destination k cg cm cx L g m x p :
  circuit_ready (S k) L g m x → 0 < length p ≤ CELL_PAYLOAD_LEN →
  ∃ L' g' m' x' f b i,
    seal_for_exit (mkCell Data p) L = (L', Ok f) ∧
    io_turn cg Guard (InFrame f) g = (g', Ok Continue) ∧ io_log g' = io_log g ++ passed_on [b] ∧
    io_turn cm Middle (InFrame b) m = (m', Ok Continue) ∧ io_log m' = io_log m ++ passed_on [i] ∧
    io_turn cx Exit (InFrame i) x = (x', Ok Continue) ∧ io_log x' = io_log x ++ delivered [p] ∧
    circuit_ready k L' g' m' x'.
Proof.
  intros [Hr Hd] [Hpos Hp]. destruct (cell_reaches_exit k cg cm L g m x (mkCell Data p) Hr Hp)
    as (L' & tg & tm & tx & f & b & i & Hs & _ & Hg & Hm & Hx & Hr').
  assert (script (io_net x) = []) as Hsx by apply Hr'.
  exists L', (with_log (passed_on [b]) (with_transport tg g)), (with_log (passed_on [i]) (with_transport tm m)),
    (with_log (delivered [p]) (with_transport tx x)), f, b, i.
  split_and!; try assumption; try reflexivity; [|destruct Hr' as (? & ? & ? & ? & ? & ? & ? & ?); unfold circuit_ready, hops_ready; split_ands].
  rewrite (turn_to_me cx Exit x i tx (mkCell Data p)) by assumption.
  change (handle_cell cx Exit (mkCell Data p)) with (handle_data Exit p).
  apply handle_data_Ok; [|done..]. by destruct p; [simpl in Hpos; lia|].
Qed.

(** ** One cell to the client *)

Lemma cell_reaches_client k cg cm L g m x c :
  circuit_ready (S k) L g m x → length (payload c) ≤ CELL_PAYLOAD_LEN →
  ∃ L' tg tm tx f b i,
    seal_to_me c 1 (transport x) = (tx, Ok i) ∧
    io_turn cm Middle (NextFrame i) m = (with_log (passed_back [b]) (with_transport tm m), Ok Continue) ∧
    io_turn cg Guard (NextFrame b) g = (with_log (passed_back [f]) (with_transport tg g), Ok Continue) ∧
    peel_inbound f L = (L', Ok c) ∧
    circuit_ready k L' (with_log (passed_back [f]) (with_transport tg g))
      (with_log (passed_back [b]) (with_transport tm m)) (with_transport tx x).
Proof.
  intros [(Hg & Hm & Hx & Hng & Hnm & Hsg & Hsm & Hsx) Hdx] Hc.
  apply paired_sym in Hg, Hm, Hx.
  destruct (paired_to_me k _ _ c 1 Hx) as (tx & ex & i & Hs1 & Hl1 & Hp1 & Hx'); [unfold MAX_LAYERS; lia|done|].
  destruct (paired_forward k _ _ i 2 Hm) as (tm & em & b & Hs2 & Hl2 & Hp2 & Hm'); [unfold MAX_LAYERS; lia|done|].
  destruct (paired_forward k _ _ b 3 Hg) as (tg & eg & f & Hs3 & Hl3 & Hp3 & Hg'); [unfold MAX_LAYERS; lia|done|].
  apply paired_sym in Hg', Hm', Hx'.
  exists (mkLayers eg em ex), tg, tm, tx, f, b, i. split_and!; try assumption.
  - by apply turn_next.
  - by apply turn_next.
  - unfold peel_inbound, on_exit, on_middle, on_guard, on_field, st_map_err, mbind, st_bind.
    change (CLIENT_LAYERS - 1) with 2. change CLIENT_LAYERS with 3.
    rewrite Hp3. cbn [map_err l_middle]. rewrite Hp2. cbn [map_err l_exit]. by rewrite Hp1.
  - unfold circuit_ready, hops_ready; split_ands.
Qed.

(** A run that starts with a turn. *)
Lemma run_circuit_io_cons ctx r ev evs s s1 s2 o :
  io_turn ctx r ev s = (s1, Ok Continue) → run_circuit_io ctx r evs s1 = (s2, o) →
  run_circuit_io ctx r (ev :: evs) s = (s2, o).
Proof. intros Ht Hr. cbn [run_circuit_io]. by erewrite st_bind_Ok_eq by exact Ht. Qed.

Lemma run_circuit_io_app ctx r evs1 evs2 s s1 :
  run_circuit_io ctx r evs1 s = (s1, Ok Continue) →
  run_circuit_io ctx r (evs1 ++ evs2) s = run_circuit_io ctx r evs2 s1.
Proof.
  revert s. induction evs1 as [|ev evs1 IH]; intros s; cbn [run_circuit_io app]; [by intros [= ->]|].
  unfold mbind, st_bind. destruct (io_turn ctx r ev s) as [s' [[]| |]]; [apply IH|done..].
Qed.

(** ** Streams of cells *)

Definition piece_ok (p : list byte) : Prop := 0 < length p ≤ CELL_PAYLOAD_LEN.

Lemma Cell_new_Ok t p : length p ≤ CELL_PAYLOAD_LEN → Cell_new t p = Ok (mkCell t p).
Proof. intros Hp. unfold Cell_new. by rewrite (proj2 (Nat.ltb_ge _ _) Hp). Qed.

Lemma act_Ok a sn : act a (mkStreams sn []) = (mkStreams (sn ++ [a]) [], Ok ()).
Proof. done. Qed.

(** One piece of the user's data, as [send_user] treats it. *)
Lemma send_user_cons p ps L L' f sn :
  piece_ok p → seal_for_exit (mkCell Data p) L = (L', Ok f) →
  send_user (p :: ps) (mkTask L (mkStreams sn [])) = send_user ps (mkTask L' (mkStreams (sn ++ [TlsWrite f]) [])).
Proof.
  intros [_ Hp] Hs. cbn [send_user]. rewrite (Cell_new_Ok Data p Hp).
  erewrite st_bind_Ok_eq by apply lift_eq.
  erewrite st_bind_Ok_eq by (unfold on_layers, on_field; cbn [t_layers]; rewrite Hs; reflexivity).
  erewrite st_bind_Ok_eq by (unfold on_streams, on_field; cbn [t_net]; rewrite act_Ok; reflexivity). done.
Qed.

Lemma user_data_through k cg cm cx ps L g m x sn :
  Forall piece_ok ps → circuit_ready (length ps + k) L g m x →
  ∃ L' g' m' x' fs bs fx,
    send_user ps (mkTask L (mkStreams sn [])) = (mkTask L' (mkStreams (sn ++ (TlsWrite <$> fs)) []), Ok ()) ∧
    run_circuit_io cg Guard (InFrame <$> fs) g = (g', Ok Continue) ∧ io_log g' = io_log g ++ passed_on bs ∧
    run_circuit_io cm Middle (InFrame <$> bs) m = (m', Ok Continue) ∧ io_log m' = io_log m ++ passed_on fx ∧
    run_circuit_io cx Exit (InFrame <$> fx) x = (x', Ok Continue) ∧ io_log x' = io_log x ++ delivered ps ∧
    circuit_ready k L' g' m' x'.
Proof.
  intros Hps. revert L g m x sn. induction Hps as [|p ps Hp Hps IH]; intros L g m x sn Hr.
  { exists L, g, m, x, [], [], []. simpl. rewrite !app_nil_r. by split_and!. }
  destruct (data_cell_reaches_destination (length ps + k) cg cm cx L g m x p Hr Hp)
    as (L1 & g1 & m1 & x1 & f & b & i & Hs & Hg & Hlg & Hm & Hlm & Hx & Hlx & Hr1).
  destruct (IH L1 g1 m1 x1 (sn ++ [TlsWrite f]) Hr1)
    as (L' & g' & m' & x' & fs & bs & fx & Hs' & Hg' & Hlg' & Hm' & Hlm' & Hx' & Hlx' & Hr').
  exists L', g', m', x', (f :: fs), (b :: bs), (i :: fx). rewrite (send_user_cons p ps L L1 f sn Hp Hs), Hs'.
  cbn [fmap list_fmap]. split_and!.
  - by rewrite <- app_assoc.
  - by eapply run_circuit_io_cons.
  - by rewrite Hlg', Hlg, <- app_assoc.
  - by eapply run_circuit_io_cons.
  - by rewrite Hlm', Hlm, <- app_assoc.
  - by eapply run_circuit_io_cons.
  - by rewrite Hlx', Hlx, <- app_assoc.
  - done.
Qed.

(** One piece of the destination's data, as [send_chunks] treats it. *)
Lemma send_chunks_cons r p ps s t f :
  piece_ok p → script (io_net s) = [] → seal_to_me (mkCell Data p) (inbound_layers r) (transport s) = (t, Ok f) →
  send_chunks r (p :: ps) s = send_chunks r ps (with_log [WriteIn f] (with_transport t s)).
Proof.
  intros [_ Hp] Hsc Hs. cbn [send_chunks]. rewrite (Cell_new_Ok Data p Hp).
  erewrite st_bind_Ok_eq by apply lift_eq. erewrite st_bind_Ok_eq by (by apply on_transport_Ok).
  by erewrite st_bind_Ok_eq by (by apply perform_Ok).
Qed.

Lemma task_loop_data L L' f p evs sn :
  p ≠ [] → peel_inbound f L = (L', Ok (mkCell Data p)) →
  task_loop (Inbound f :: evs) (mkTask L (mkStreams sn [])) =
    task_loop evs (mkTask L' (mkStreams (sn ++ [UserWrite p]) [])).
Proof.
  intros Hp Hf. cbn [task_loop task_turn]. unfold mbind at 1 2. unfold st_bind at 1 2.
  unfold on_layers, on_field. cbn [t_layers]. rewrite Hf. cbn [cell_type payload t_net].
  destruct p as [|a p]; [done|]. done.
Qed.

Lemma destination_data_through k cg cm ps L g m x sn :
  Forall piece_ok ps → circuit_ready (length ps + k) L g m x →
  ∃ L' g' m' x' fs bs fx,
    send_chunks Exit ps x = (x', Ok ()) ∧ io_log x' = io_log x ++ (WriteIn <$> fx) ∧
    run_circuit_io cm Middle (NextFrame <$> fx) m = (m', Ok Continue) ∧ io_log m' = io_log m ++ passed_back bs ∧
    run_circuit_io cg Guard (NextFrame <$> bs) g = (g', Ok Continue) ∧ io_log g' = io_log g ++ passed_back fs ∧
    task_loop (Inbound <$> fs) (mkTask L (mkStreams sn [])) =
      (mkTask L' (mkStreams (sn ++ (UserWrite <$> ps)) []), Ok Again) ∧
    circuit_ready k L' g' m' x'.
Proof.
  intros Hps. revert L g m x sn. induction Hps as [|p ps Hp Hps IH]; intros L g m x sn Hr.
  { exists L, g, m, x, [], [], []. simpl. rewrite !app_nil_r. by split_and!. }
  destruct (cell_reaches_client (length ps + k) cg cm L g m x (mkCell Data p) Hr (proj2 Hp))
    as (L1 & tg & tm & tx & f & b & i & Hs & Hm & Hg & Hf & Hr1).
  assert (circuit_ready (length ps + k) L1 (with_log (passed_back [f]) (with_transport tg g))
    (with_log (passed_back [b]) (with_transport tm m)) (with_log [WriteIn i] (with_transport tx x))) as Hr2
    by (destruct Hr1 as [(? & ? & ? & ? & ? & ? & ? & ?) ?]; unfold circuit_ready, hops_ready; split_ands).
  assert (script (io_net x) = []) as Hsx by apply Hr.
  destruct (IH L1 _ _ _ (sn ++ [UserWrite p]) Hr2)
    as (L' & g' & m' & x' & fs & bs & fx & Hs' & Hls' & Hm' & Hlm' & Hg' & Hlg' & Ht' & Hr').
  exists L', g', m', x', (f :: fs), (b :: bs), (i :: fx).
  rewrite (send_chunks_cons Exit p ps x tx i Hp Hsx Hs). cbn [fmap list_fmap].
  rewrite (task_loop_data L L1 f p _ sn) by (assumption || by destruct Hp as [Hp0 _]; destruct p; [simpl in Hp0; lia|]).
  split_and!; try assumption.
  - rewrite Hls'. unfold io_log at 1. cbn. by rewrite <- app_assoc.
  - by eapply run_circuit_io_cons.
  - rewrite Hlm'. unfold io_log at 1. cbn. by rewrite <- app_assoc.
  - by eapply run_circuit_io_cons.
  - rewrite Hlg'. unfold io_log at 1. cbn. by rewrite <- app_assoc.
  - rewrite Ht'. by rewrite <- app_assoc.
Qed.
(** One write of the user, through the whole circuit. *)
Lemma user_turn_through
    k cg cm cx L g m x data sn :
  data ≠ [] → circuit_ready (length (chunks CELL_PAYLOAD_LEN data) + k) L g m x →
  ∃ L' g' m' x' fs bs fx pieces,
    task_turn (FromUser data) (mkTask L (mkStreams sn [])) =
      (mkTask L' (mkStreams (sn ++ (TlsWrite <$> fs) ++ [TlsFlush]) []), Ok Again) ∧
    run_circuit_io cg Guard (InFrame <$> fs) g = (g', Ok Continue) ∧ io_log g' = io_log g ++ passed_on bs ∧
    run_circuit_io cm Middle (InFrame <$> bs) m = (m', Ok Continue) ∧ io_log m' = io_log m ++ passed_on fx ∧
    run_circuit_io cx Exit (InFrame <$> fx) x = (x', Ok Continue) ∧ io_log x' = io_log x ++ delivered pieces ∧
    concat pieces = data ∧ circuit_ready k L' g' m' x'.
Proof.
  intros Hne Hr. assert (0 < CELL_PAYLOAD_LEN) as Hpos by sizes.
  destruct (user_data_through k cg cm cx (chunks CELL_PAYLOAD_LEN data) L g m x sn (chunks_bound _ data Hpos) Hr)
    as (L' & g' & m' & x' & fs & bs & fx & Hs & Hg & Hlg & Hm & Hlm & Hx & Hlx & Hr').
  exists L', g', m', x', fs, bs, fx, (chunks CELL_PAYLOAD_LEN data).
  split_and!; try assumption; [|by apply chunks_concat]. destruct data as [|d data]; [done|]. cbn [task_turn].
  erewrite st_bind_Ok_eq by exact Hs.
  erewrite st_bind_Ok_eq by (unfold on_streams, on_field; cbn [t_net]; rewrite act_Ok; reflexivity).
  by rewrite <- app_assoc.
Qed.
(** One read from the destination, through the whole circuit. *)
Lemma destination_turn_through
    k cg cm cx L g m x data sn :
  data ≠ [] → circuit_ready (length (chunks CELL_PAYLOAD_LEN data) + k) L g m x →
  ∃ L' g' m' x' fs bs fx pieces,
    io_turn cx Exit (DestBytes data) x = (x', Ok Continue) ∧ io_log x' = io_log x ++ (WriteIn <$> fx) ++ [FlushIn] ∧
    run_circuit_io cm Middle (NextFrame <$> fx) m = (m', Ok Continue) ∧ io_log m' = io_log m ++ passed_back bs ∧
    run_circuit_io cg Guard (NextFrame <$> bs) g = (g', Ok Continue) ∧ io_log g' = io_log g ++ passed_back fs ∧
    task_loop (Inbound <$> fs) (mkTask L (mkStreams sn [])) =
      (mkTask L' (mkStreams (sn ++ (UserWrite <$> pieces)) []), Ok Again) ∧
    concat pieces = data ∧ circuit_ready k L' g' m' x'.
Proof.
  intros Hne Hr. assert (0 < CELL_PAYLOAD_LEN) as Hpos by sizes.
  assert (is_some (dest_link x) = true) as Hd by apply Hr.
  destruct (destination_data_through k cg cm (chunks CELL_PAYLOAD_LEN data) L g m x sn (chunks_bound _ data Hpos) Hr)
    as (L' & g' & m' & x' & fs & bs & fx & Hs & Hlx & Hm & Hlm & Hg & Hlg & Ht & Hr').
  exists L', g', m', (with_log [FlushIn] x'), fs, bs, fx, (chunks CELL_PAYLOAD_LEN data).
  split_and!; try assumption.
  - unfold io_turn. erewrite st_bind_Ok_eq by (unfold get_io; reflexivity). rewrite Hd.
    unfold handle_dest. destruct data as [|d data]; [done|]. erewrite st_bind_Ok_eq by exact Hs.
    by erewrite st_bind_Ok_eq by (apply perform_Ok; apply Hr').
  - unfold io_log at 1. cbn. by rewrite Hlx, <- app_assoc.
  - by apply chunks_concat.
  - destruct Hr' as [(? & ? & ? & ? & ? & ? & ? & ?) ?]. by split_and!.
Qed.
End end_to_end.

(** ** Properties *)

(** A circuit on the sample transports, for the witnesses. *)
Definition sample_layers : @Layers sample_snow := mkLayers sample_tx sample_tx sample_tx.
Definition sample_hop (next : option NextLinkState) (dest : option nat) : circuit_io :=
  mkCircuitIo sample_rx next dest (mkNet [] []).
Definition sample_link (len : nat) : option NextLinkState := Some (mkNextLink len []).
Definition sample_guard_io : circuit_io := sample_hop (sample_link 547) None.
Definition sample_middle_io : circuit_io := sample_hop (sample_link 530) None.
Definition sample_exit_io : circuit_io := sample_hop None (Some 0).

Lemma sample_circuit_ready k : circuit_ready k sample_layers sample_guard_io sample_middle_io sample_exit_io.
Proof. repeat split. Qed.

(** C4. What the user writes arrives at the destination, and nothing else
    does.  On a circuit whose transports are in step, a write of any length
    becomes frames that the guard, the middle and the exit each pass on one by
    one; the bytes the exit writes to the destination are, in order, exactly the
    bytes the user wrote, in pieces of at most one payload, and the circuit is
    still in step afterwards. *)
Theorem user_data_reaches_destination `{SnowLaws, Sha256, Ed25519, UrlParser, ServerNames}
    k cg cm cx L g m x data sn :
  data ≠ [] → circuit_ready (length (chunks CELL_PAYLOAD_LEN data) + k) L g m x →
  ∃ L' g' m' x' fs bs fx pieces,
    task_turn (FromUser data) (mkTask L (mkStreams sn [])) =
      (mkTask L' (mkStreams (sn ++ (TlsWrite <$> fs) ++ [TlsFlush]) []), Ok Again) ∧
    run_circuit_io cg Guard (InFrame <$> fs) g = (g', Ok Continue) ∧ io_log g' = io_log g ++ passed_on bs ∧
    run_circuit_io cm Middle (InFrame <$> bs) m = (m', Ok Continue) ∧ io_log m' = io_log m ++ passed_on fx ∧
    run_circuit_io cx Exit (InFrame <$> fx) x = (x', Ok Continue) ∧ io_log x' = io_log x ++ delivered pieces ∧
    concat pieces = data ∧ circuit_ready k L' g' m' x'.
Proof. apply user_turn_through. Qed.

(** Eight hundred bytes: two cells. *)
Definition sample_data : list byte := replicate 800 x41.

Lemma user_data_reaches_destination_witness :
  length (chunks CELL_PAYLOAD_LEN sample_data) = 2 ∧
  ∃ L' fs, task_turn (FromUser sample_data) (mkTask sample_layers (mkStreams [] [])) =
      (mkTask L' (mkStreams ((TlsWrite <$> fs) ++ [TlsFlush]) []), Ok Again) ∧
    snd (run_circuit_io (sample_ctx Guard) Guard (InFrame <$> fs) sample_guard_io) = Ok Continue.
Proof.
  split; [by vm_compute|].
  destruct (user_data_reaches_destination 0 (sample_ctx Guard) (sample_ctx Middle) (sample_ctx Exit)
    sample_layers sample_guard_io sample_middle_io sample_exit_io sample_data [])
    as (L' & g' & m' & x' & fs & bs & fx & ps & Ht & Hg & _).
  - discriminate.
  - apply sample_circuit_ready.
  - exists L', fs. split; [exact Ht|]. rewrite Hg. reflexivity.
Defined.

(** C5. What the destination sends arrives at the user.  The exit seals its
    bytes in frames, the middle and the guard wrap each one for the client, and
    the bytes the client hands to the user are, in order, exactly the bytes the
    destination sent; the circuit is still in step afterwards. *)
Theorem destination_data_reaches_user `{SnowLaws, Sha256, Ed25519, UrlParser, ServerNames}
    k cg cm cx L g m x data sn :
  data ≠ [] → circuit_ready (length (chunks CELL_PAYLOAD_LEN data) + k) L g m x →
  ∃ L' g' m' x' fs bs fx pieces,
    io_turn cx Exit (DestBytes data) x = (x', Ok Continue) ∧ io_log x' = io_log x ++ (WriteIn <$> fx) ++ [FlushIn] ∧
    run_circuit_io cm Middle (NextFrame <$> fx) m = (m', Ok Continue) ∧ io_log m' = io_log m ++ passed_back bs ∧
    run_circuit_io cg Guard (NextFrame <$> bs) g = (g', Ok Continue) ∧ io_log g' = io_log g ++ passed_back fs ∧
    task_loop (Inbound <$> fs) (mkTask L (mkStreams sn [])) =
      (mkTask L' (mkStreams (sn ++ (UserWrite <$> pieces)) []), Ok Again) ∧
    concat pieces = data ∧ circuit_ready k L' g' m' x'.
Proof. apply destination_turn_through. Qed.

Lemma destination_data_reaches_user_witness :
  ∃ x' fx pieces, io_turn (sample_ctx Exit) Exit (DestBytes sample_data) sample_exit_io = (x', Ok Continue) ∧
    io_log x' = [] ++ (WriteIn <$> fx) ++ [FlushIn] ∧ concat pieces = sample_data.
Proof.
  destruct (destination_data_reaches_user 0 (sample_ctx Guard) (sample_ctx Middle) (sample_ctx Exit)
    sample_layers sample_guard_io sample_middle_io sample_exit_io sample_data [])
    as (L' & g' & m' & x' & fs & bs & fx & ps & Hx & Hlx & _ & _ & _ & _ & _ & Hp & _).
  - discriminate.
  - apply sample_circuit_ready.
  - exists x', fx, ps. split; [exact Hx|]. split; [exact Hlx|exact Hp].
Defined.
