(* ===== verification/Telescope.v ===== *)
(** QuietHop: the telescoping handshake, end to end.

    [dial] of the client against three honest relays: the guard answers the
    client's handshake on the stream itself, the guard extends to the middle,
    the middle extends to the exit, and the exit connects.  Everything a party
    reads is what its neighbour wrote. *)

From S2P Require Import Prelude Bytes Text NetAddr Cell Noise SampleNoise Layer Civil State Registry SampleRegistry.
From S2P Require Import Circuit Token Config Exit RelayRegistry Relay RelayTheorems Path Dial EndToEnd.

Section telescope.
Context `{SnowLaws, Sha256, Ed25519, UrlParser, ServerNames}.

(** An address of the registry is spelled canonically. *)
Lemma RelayEntry_addr_wf e a :
  RelayEntry_addr e = Ok a → u16_in_range (port e) → sockaddr_wf a ∧ canonical_addr a = a.
Proof.
  unfold RelayEntry_addr, RelayEntry_ip_addr. intros Ha Hport.
  apply bind_Ok in Ha as (i & Hi & Ha). apply bind_Ok in Hi as (i' & Hi & [= <-]). apply ok_or_Ok in Hi.
  case_match; [done|]. injection Ha as <-. split; [split; [|done]|].
  - by apply canonical_ip_wf, (parse_ip_wf _ _ Hi).
  - unfold canonical_addr. simpl. by rewrite canonical_ip_idemp.
Qed.

(** ** The client's side of an extension *)

Lemma extend_cell_Ok addr msg1 :
  sockaddr_wf addr → length msg1 = NOISE_MSG_LEN →
  Cell_new Extend (ExtendForward_encode (mkExtendForward addr msg1)) =
    Ok (mkCell Extend (ExtendForward_encode (mkExtendForward addr msg1))) ∧
  length (ExtendForward_encode (mkExtendForward addr msg1)) ≤ CELL_PAYLOAD_LEN.
Proof.
  intros Ha Hm. pose proof (length_ExtendForward_encode (mkExtendForward addr msg1) (conj Ha Hm)) as Hl.
  assert (length (ExtendForward_encode (mkExtendForward addr msg1)) ≤ CELL_PAYLOAD_LEN) as Hle by (rewrite Hl; sizes).
  split; [|done]. unfold Cell_new. by rewrite (proj2 (Nat.ltb_ge _ _) Hle).
Qed.

Lemma parse_extend_backward_Ok msg2 : length msg2 = NOISE_MSG_LEN → parse_extend_backward msg2 = Ok msg2.
Proof. intros Hm. rewrite parse_extend_backward_spec. by rewrite Hm. Qed.

(** [extend_hop], given what sealing, peeling and the handshake do. *)
Lemma run_extend_completes rng next pub init msg1 addr msg2 t a mid a1 mid1 a2 mid2 f r sn rest :
  RelayEntry_static_key next = Ok pub → RelayEntry_addr next = Ok addr → sockaddr_wf addr →
  Initiator_start pub rng = Ok (init, msg1) → length msg1 = NOISE_MSG_LEN → length msg2 = NOISE_MSG_LEN →
  Initiator_finish init msg2 = Ok t → length r = link_cell_len CLIENT_LAYERS →
  (∀ n, seal_extend (mkCell Extend (ExtendForward_encode (mkExtendForward addr msg1))) (mkHops n a mid) =
     (mkHops n a1 mid1, Ok f)) →
  (∀ n, peel_extend r (mkHops n a1 mid1) = (mkHops n a2 mid2, Ok (mkCell Extend msg2))) →
  run_extend rng next a mid (mkStreams sn (Succeeds :: Succeeds :: Delivers r :: rest)) =
    (mkStreams (sn ++ [TlsWrite f; TlsFlush]) rest, Ok (a2, mid2, t)).
Proof.
  intros Hk Ha Hwf Hi Hm1 Hm2 Hf Hr Hseal Hpeel. destruct (extend_cell_Ok addr msg1 Hwf Hm1) as [Hc _].
  unfold run_extend, extend_hop. rewrite Hk. erewrite st_bind_Ok_eq by apply lift_eq. rewrite Hi.
  erewrite st_bind_Ok_eq by apply lift_eq. rewrite Ha. erewrite st_bind_Ok_eq by apply lift_eq. rewrite Hc.
  erewrite st_bind_Ok_eq by apply lift_eq. erewrite st_bind_Ok_eq by apply Hseal.
  do 2 (erewrite st_bind_Ok_eq by reflexivity).
  erewrite st_bind_Ok_eq by (unfold on_tls, on_field, read_reply, next_reply; cbn [h_tls replies sent fst snd];
    rewrite Hr, Nat.eqb_refl; reflexivity).
  erewrite st_bind_Ok_eq by apply Hpeel. cbn [cell_type payload]. rewrite bool_decide_false by naive_solver.
  erewrite st_bind_Ok_eq by reflexivity. rewrite (parse_extend_backward_Ok msg2 Hm2).
  erewrite st_bind_Ok_eq by apply lift_eq. rewrite Hf. cbn. by rewrite <- app_assoc.
Qed.

(** ** The guard extends to the middle *)

Lemma extend_from_guard k cg g doc e a rng next pub init msg1 addr msg2 t :
  paired (S (S k)) a (transport g) → next_link g = None → script (io_net g) = courier_script msg2 →
  RegistryHandle_usable (cx_registry cg) (now_unix cg) = Some doc →
  extend_target doc (cfg_role (cfg cg)) addr = Some e →
  RelayEntry_static_key next = Ok pub → RelayEntry_addr next = Ok addr → u16_in_range (port next) →
  Initiator_start pub rng = Ok (init, msg1) → length msg1 = NOISE_MSG_LEN → length msg2 = NOISE_MSG_LEN →
  Initiator_finish init msg2 = Ok t →
  ∃ a' g' f r,
    io_turn cg Guard (InFrame f) g = (g', Ok Continue) ∧
    io_log g' = io_log g ++ courier_log (mkExtendForward addr msg1) e r ∧
    (∀ sn rest, run_extend rng next a None (mkStreams sn (Succeeds :: Succeeds :: Delivers r :: rest)) =
      (mkStreams (sn ++ [TlsWrite f; TlsFlush]) rest, Ok (a', None, t))) ∧
    paired k a' (transport g') ∧ is_some (next_link g') = true ∧ script (io_net g') = [].
Proof.
  intros Hp Hnl Hsc Hdoc He Hk Ha Hport Hi Hm1 Hm2 Hf.
  destruct (RelayEntry_addr_wf next addr Ha Hport) as [Hwf Hcan].
  destruct (extend_cell_Ok addr msg1 Hwf Hm1) as [_ Hlen].
  set (ext := mkExtendForward addr msg1) in *.
  destruct (paired_to_me (S k) _ _ (mkCell Extend (ExtendForward_encode ext)) 3 Hp)
    as (a1 & tg & f & Hs & Hlf & Hpf & Hp1); [unfold MAX_LAYERS; lia|done|].
  destruct (handle_extend_courier k cg Guard (with_transport tg g) a1 ext doc e msg2)
    as (g' & r & a2 & Hh & Hlog & Hnext & Hlr & Hpr & Hp2 & _ & Hsc'); [discriminate|by split|assumption|by apply paired_sym|assumption..|].
  exists a2, g', f, r. split_and!; try assumption.
  - rewrite (turn_to_me cg Guard g f tg (mkCell Extend (ExtendForward_encode ext))) by assumption. exact Hh.
  - intros sn rest. eapply run_extend_completes; try eassumption.
    + intros n. fold ext. unfold seal_extend, get_middle, on_h_guard, on_field, st_map_err, mbind, st_bind. cbn [h_middle h_guard].
      change CLIENT_LAYERS with 3. by rewrite Hs.
    + intros n. unfold peel_extend, get_middle, on_h_guard, on_field, st_map_err, mbind, st_bind. cbn [h_middle h_guard].
      change CLIENT_LAYERS with (inbound_layers Guard). by rewrite Hpr.
  - by apply paired_sym.
  - by rewrite Hnext.
Qed.

(** ** The middle extends to the exit, through the guard *)

Lemma extend_from_middle k cg cm g m doc e a b rng next pub init msg1 addr msg2 t :
  paired (S (S k)) a (transport g) → is_some (next_link g) = true → script (io_net g) = [] →
  paired (S (S k)) b (transport m) → next_link m = None → script (io_net m) = courier_script msg2 →
  RegistryHandle_usable (cx_registry cm) (now_unix cm) = Some doc →
  extend_target doc (cfg_role (cfg cm)) addr = Some e →
  RelayEntry_static_key next = Ok pub → RelayEntry_addr next = Ok addr → u16_in_range (port next) →
  Initiator_start pub rng = Ok (init, msg1) → length msg1 = NOISE_MSG_LEN → length msg2 = NOISE_MSG_LEN →
  Initiator_finish init msg2 = Ok t →
  ∃ a' b' g' m' f blob rr r,
    run_circuit_io cg Guard [InFrame f; NextFrame rr] g = (g', Ok Continue) ∧
    io_log g' = io_log g ++ passed_on [blob] ++ passed_back [r] ∧
    io_turn cm Middle (InFrame blob) m = (m', Ok Continue) ∧
    io_log m' = io_log m ++ courier_log (mkExtendForward addr msg1) e rr ∧
    (∀ sn rest, run_extend rng next a (Some b) (mkStreams sn (Succeeds :: Succeeds :: Delivers r :: rest)) =
      (mkStreams (sn ++ [TlsWrite f; TlsFlush]) rest, Ok (a', Some b', t))) ∧
    paired k a' (transport g') ∧ is_some (next_link g') = true ∧ script (io_net g') = [] ∧
    paired k b' (transport m') ∧ is_some (next_link m') = true ∧ script (io_net m') = [].
Proof.
  intros Hpg Hng Hsg Hpm Hnm Hsm Hdoc He Hk Ha Hport Hi Hm1 Hm2 Hf.
  destruct (RelayEntry_addr_wf next addr Ha Hport) as [Hwf Hcan].
  destruct (extend_cell_Ok addr msg1 Hwf Hm1) as [_ Hlen].
  set (ext := mkExtendForward addr msg1) in *.
  destruct (paired_to_me (S k) _ _ (mkCell Extend (ExtendForward_encode ext)) 2 Hpm)
    as (b1 & tm & blob & Hs1 & Hlb & Hpb & Hpm1); [unfold MAX_LAYERS; lia|done|].
  destruct (paired_forward (S k) _ _ blob 3 Hpg) as (a1 & tg & f & Hs2 & Hlf & Hpf & Hpg1); [unfold MAX_LAYERS; lia|done|].
  destruct (handle_extend_courier k cm Middle (with_transport tm m) b1 ext doc e msg2)
    as (m' & rr & b2 & Hh & Hlog & Hnext & Hlr & Hpr & Hpm2 & _ & Hsc'); [discriminate|by split|assumption|by apply paired_sym|assumption..|].
  destruct (paired_forward k tg a1 rr 3 (paired_sym _ _ _ Hpg1)) as (tg2 & a2 & r & Hs3 & Hlr3 & Hp3 & Hpg2);
    [unfold MAX_LAYERS; lia|exact Hlr|].
  exists a2, b2, (with_log (passed_back [r]) (with_transport tg2 (with_log (passed_on [blob]) (with_transport tg g)))),
    m', f, blob, rr, r. split_and!; try assumption.
  - eapply run_circuit_io_cons; [by apply turn_forward|].
    eapply run_circuit_io_cons; [apply (turn_next _ _ _ _ tg2 r); [done..|exact Hs3]|reflexivity].
  - unfold io_log. cbn. rewrite <- app_assoc. reflexivity.
  - rewrite (turn_to_me cm Middle m blob tm (mkCell Extend (ExtendForward_encode ext))) by assumption. exact Hh.
  - intros sn rest. apply (run_extend_completes rng next pub init msg1 addr msg2 t a (Some b) a1 (Some b1) a2 (Some b2)); try assumption.
    + intros n. fold ext. unfold seal_extend, get_middle, on_h_guard, on_h_middle, on_field, st_map_err, mbind, st_bind.
      cbn [h_middle h_guard]. change (CLIENT_LAYERS - 1) with 2. change CLIENT_LAYERS with 3.
      rewrite Hs1. cbn [map_err h_guard]. by rewrite Hs2.
    + intros n. unfold peel_extend, get_middle, on_h_guard, on_h_middle, on_field, st_map_err, mbind, st_bind.
      cbn [h_middle h_guard]. change (CLIENT_LAYERS - 1) with (inbound_layers Middle). change CLIENT_LAYERS with 3.
      rewrite Hp3. cbn [map_err h_middle]. by rewrite Hpr.
  - by apply paired_sym.
  - reflexivity.
  - by apply paired_sym.
  - by rewrite Hnext.
Qed.

(** ** The client's handshake with the guard, and the exit's connection *)

Lemma dial_guard_completes rng route m_raw token addr pub init msg1 msg2 t rest :
  RelayEntry_addr (sp_guard route) = Ok addr → RelayEntry_static_key (sp_guard route) = Ok pub →
  server_name_valid (tls_name (sp_guard route)) = true →
  Initiator_start pub rng = Ok (init, msg1) → length msg2 = NOISE_MSG_LEN → Initiator_finish init msg2 = Ok t →
  dial_guard rng route m_raw token (mkStreams [] (replicate 8 Succeeds ++ Delivers msg2 :: rest)) =
    (mkStreams [TcpConnect addr; SetNoDelay; TlsConnect (tls_name (sp_guard route)); TlsWrite [PROTO_CLIENT];
       TlsWrite m_raw; TlsWrite token; TlsWrite msg1; TlsFlush] rest, Ok t).
Proof.
  intros Ha Hk Hn Hi Hm Hf. unfold dial_guard. rewrite Ha. erewrite st_bind_Ok_eq by apply lift_eq.
  rewrite Hk. erewrite st_bind_Ok_eq by apply lift_eq.
  erewrite st_bind_Ok_eq by (unfold tls_dial; rewrite Hn; reflexivity).
  do 3 (erewrite st_bind_Ok_eq by reflexivity). rewrite Hi. erewrite st_bind_Ok_eq by apply lift_eq. cbn [map_err].
  do 2 (erewrite st_bind_Ok_eq by reflexivity).
  erewrite st_bind_Ok_eq by (unfold read_reply, next_reply; cbn; rewrite Hm, Nat.eqb_refl; reflexivity).
  by rewrite Hf.
Qed.

Lemma handle_connect_Ok cx s p payload url req :
  dest_link s = None → script (io_net s) = [] → ConnectPayload_decode payload = Ok p →
  decodo_proxy_url (cfg cx) = Some url →
  dial_via_socks5 (λ _, DialConnected 0) url (cp_host p) (cp_port p) (allowed_exit_ports (cfg cx)) = ([req], Ok 0) →
  handle_connect cx Exit payload s =
    (mkCircuitIo (transport s) (next_link s) (Some 0) (mkNet (io_log s ++ [DialProxy req]) []), Ok Continue).
Proof.
  intros Hd Hs Hp Hu Hdial. unfold handle_connect. erewrite st_bind_Ok_eq by (unfold get_io; reflexivity).
  rewrite Hd, Hp. erewrite st_bind_Ok_eq by apply lift_eq.
  erewrite st_bind_Ok_eq by (unfold on_net, on_field, dial_destination; rewrite Hu, Hs; cbn zeta; cbn [fst snd];
    rewrite Hdial; reflexivity). done.
Qed.

(** ** The three parts of [dial] put together *)

Lemma dial_completes rng1 rng2 rng3 route m_raw token host port s0 s1 s2 s3 a1 a2 a3 b1 b2 t3 bytes L wire :
  dial_guard rng1 route m_raw token s0 = (s1, Ok a1) →
  run_extend rng2 (sp_middle route) a1 None s1 = (s2, Ok (a2, None, b1)) →
  run_extend rng3 (sp_exit route) a2 (Some b1) s2 = (mkStreams s3 [], Ok (a3, Some b2, t3)) →
  ConnectPayload_encode (mkConnectPayload host port) = Ok bytes → length bytes ≤ CELL_PAYLOAD_LEN →
  seal_for_exit (mkCell Connect bytes) (mkLayers a3 b2 t3) = (L, Ok wire) →
  dial rng1 rng2 rng3 route m_raw token host port s0 = (mkStreams (s3 ++ [TlsWrite wire; TlsFlush]) [], Ok L).
Proof.
  intros Hd1 Hd2 Hd3 Hc Hl Hs. unfold dial. erewrite st_bind_Ok_eq by exact Hd1. erewrite st_bind_Ok_eq by exact Hd2.
  cbn beta iota. erewrite st_bind_Ok_eq by exact Hd3. cbn beta iota zeta. rewrite Hc.
  erewrite st_bind_Ok_eq by apply lift_eq. rewrite (Cell_new_Ok Connect bytes Hl).
  erewrite st_bind_Ok_eq by apply lift_eq. cbn [default]. unfold default, id. rewrite Hs.
  erewrite st_bind_Ok_eq by apply lift_eq. do 2 (erewrite st_bind_Ok_eq by reflexivity).
  unfold mret, st_ret. cbn. by rewrite <- app_assoc.
Qed.
End telescope.

(** ** Properties *)

Section established.
Context `{SnowLaws, Sha256, Ed25519, UrlParser, ServerNames}.

(** A relay that holds the key and the address its registry entry names. *)
Record honest_relay (ctx : ConnCtx) (e : RelayEntry) (addr : SocketAddr) (pub : list byte) : Prop := {
  hr_addr : RelayEntry_addr e = Ok addr;
  hr_port : u16_in_range (port e);
  hr_key : RelayEntry_static_key e = Ok pub;
  hr_pair : key_pair (static_private ctx) pub;
}.

(** The relay's own usable registry lets it extend to [addr], as [e]. *)
Definition extends_to (ctx : ConnCtx) (addr : SocketAddr) (e : RelayEntry) : Prop :=
  ∃ doc, RegistryHandle_usable (cx_registry ctx) (now_unix ctx) = Some doc ∧
         extend_target doc (cfg_role (cfg ctx)) addr = Some e.

(** What the client does on its stream while it dials. *)
Definition dial_log (addr : SocketAddr) (name : string) (m_raw token msg1 f1 f2 f3 : list byte) : list client_action :=
  [TcpConnect addr; SetNoDelay; TlsConnect name; TlsWrite [PROTO_CLIENT]; TlsWrite m_raw; TlsWrite token;
   TlsWrite msg1; TlsFlush; TlsWrite f1; TlsFlush; TlsWrite f2; TlsFlush; TlsWrite f3; TlsFlush].

(** What arrives on it meanwhile: nothing fails, the guard's message 2 and
    the two answers to EXTEND. *)
Definition dial_replies (msg2 r1 r2 : list byte) : list reply :=
  replicate 8 Succeeds ++ [Delivers msg2; Succeeds; Succeeds; Delivers r1; Succeeds; Succeeds; Delivers r2].

(** The loop of a relay that has just answered the handshake. *)
Definition started (lg : list action) (t : TransportState) (script : list answer) : circuit_io :=
  mkCircuitIo t None None (mkNet lg script).
Definition fresh_circuit : TransportState → list answer → circuit_io := started [].
End established.

(** A circuit through three honest relays, step by step; what the relays
    logged before may depend on the handshake message they answered. *)
Lemma circuit_completes `{SnowLaws, Sha256, Ed25519, UrlParser, ServerNames}
    k (lg lm lx : list byte → list action) cg cm cx route ag am ax pg pm px em ex rng1 rng2 rng3 rg rm rx m_raw token host dport url req :
  5 + k ≤ budget →
  honest_relay cg (sp_guard route) ag pg → honest_relay cm (sp_middle route) am pm →
  honest_relay cx (sp_exit route) ax px →
  extends_to cg am em → extends_to cm ax ex →
  server_name_valid (tls_name (sp_guard route)) = true →
  ConnectPayload_wf (mkConnectPayload host dport) → String.length host ≤ MAX_CONNECT_HOST_LEN →
  decodo_proxy_url (cfg cx) = Some url →
  dial_via_socks5 (λ _, DialConnected 0) url host dport (allowed_exit_ports (cfg cx)) = ([req], Ok 0) →
  ∃ msg1g msg2g tg msg1m msg2m tm msg1x msg2x tx L g m x f1 f2 f3 r1 r2 rr b2 b3 i3,
    Forall (λ msg1, length msg1 = NOISE_MSG_LEN) [msg1g; msg1m; msg1x] ∧
    respond (static_private cg) msg1g rg = Ok (tg, msg2g) ∧
    respond (static_private cm) msg1m rm = Ok (tm, msg2m) ∧
    respond (static_private cx) msg1x rx = Ok (tx, msg2x) ∧
    dial rng1 rng2 rng3 route m_raw token host dport (mkStreams [] (dial_replies msg2g r1 r2)) =
      (mkStreams (dial_log ag (tls_name (sp_guard route)) m_raw token msg1g f1 f2 f3) [], Ok L) ∧
    run_circuit_io cg Guard [InFrame f1; InFrame f2; NextFrame rr; InFrame f3]
      (started (lg msg2g) tg (courier_script msg2m)) = (g, Ok Continue) ∧
    io_log g = lg msg2g ++ courier_log (mkExtendForward am msg1m) em r1 ++ passed_on [b2] ++ passed_back [r2] ++ passed_on [b3] ∧
    run_circuit_io cm Middle [InFrame b2; InFrame b3] (started (lm msg2m) tm (courier_script msg2x)) = (m, Ok Continue) ∧
    io_log m = lm msg2m ++ courier_log (mkExtendForward ax msg1x) ex rr ++ passed_on [i3] ∧
    run_circuit_io cx Exit [InFrame i3] (started (lx msg2x) tx []) = (x, Ok Continue) ∧
    io_log x = lx msg2x ++ [DialProxy req] ∧ circuit_ready k L g m x.
Proof.
  intros Hb [Hag Hpg Hkg Hprg] [Ham Hpm Hkm Hprm] [Hax Hpx Hkx Hprx] (docg & Hdg & Heg) (docm & Hdm & Hem)
    Hname Hwf Hhost Hurl Hdial.
  destruct (handshake_completes pg (static_private cg) rng1 rg Hprg)
    as (ig & msg1g & a0 & tg & msg2g & Hig & Hl1g & Hrg & Hl2g & Hfg & Hc1 & Hc2).
  destruct (handshake_completes pm (static_private cm) rng2 rm Hprm)
    as (im & msg1m & b0 & tm & msg2m & Him & Hl1m & Hrm & Hl2m & Hfm & Hc3 & Hc4).
  destruct (handshake_completes px (static_private cx) rng3 rx Hprx)
    as (ix & msg1x & c0 & tx & msg2x & Hix & Hl1x & Hrx & Hl2x & Hfx & Hc5 & Hc6).
  pose proof (paired_weaken_le (5 + k) budget a0 tg Hb (conj Hc1 Hc2)) as Hpa.
  pose proof (paired_weaken_le (3 + k) budget b0 tm ltac:(lia) (conj Hc3 Hc4)) as Hpb.
  pose proof (paired_weaken_le (1 + k) budget c0 tx ltac:(lia) (conj Hc5 Hc6)) as Hpc.
  clear Hc1 Hc2 Hc3 Hc4 Hc5 Hc6 Hb.
  destruct (extend_from_guard (3 + k) cg (started (lg msg2g) tg (courier_script msg2m)) docg em a0 rng2 (sp_middle route)
    pm im msg1m am msg2m b0) as (a1 & g1 & f1 & r1 & Hg1 & Hlg1 & Hx1 & Hpa1 & Hng1 & Hsg1); try assumption; [reflexivity..|].
  destruct (extend_from_middle (1 + k) cg cm g1 (started (lm msg2m) tm (courier_script msg2x)) docm ex a1 b0 rng3 (sp_exit route)
    px ix msg1x ax msg2x c0) as (a2 & b1 & g2 & m1 & f2 & b2 & rr & r2 & Hg2 & Hlg2 & Hm1 & Hlm1 & Hx2 & Hpa2 & Hng2 & Hsg2 &
      Hpb1 & Hnm1 & Hsm1); try assumption; [reflexivity..|].
  destruct (ConnectPayload_fits (mkConnectPayload host dport) Hwf) as (bytes & Henc & Hlb & Hdec);
    [by rewrite length_as_bytes|].
  destruct (cell_reaches_exit k cg cm (mkLayers a2 b1 c0) g2 m1 (started (lx msg2x) tx []) (mkCell Connect bytes))
    as (L & tg' & tm' & tx' & f3 & b3 & i3 & Hs3 & _ & Hg3 & Hm3 & Hx3 & Hready); [unfold hops_ready; split_ands|assumption|].
  pose proof (handle_connect_Ok cx (with_transport tx' (started (lx msg2x) tx [])) _ bytes url req
    eq_refl eq_refl Hdec Hurl Hdial) as Hconn.
  eexists msg1g, msg2g, tg, msg1m, msg2m, tm, msg1x, msg2x, tx, L, _, _, _, f1, f2, f3, r1, r2, rr, b2, b3, i3.
  split; [by repeat constructor|]. split; [exact Hrg|]. split; [exact Hrm|]. split; [exact Hrx|]. split.
  { unfold dial_replies. etransitivity.
    - eapply dial_completes; [eapply dial_guard_completes; eassumption|apply Hx1|apply Hx2|exact Henc|exact Hlb|exact Hs3].
    - reflexivity. }
  split; [eapply run_circuit_io_cons; [exact Hg1|];
    etransitivity; [exact (run_circuit_io_app cg Guard [InFrame f2; NextFrame rr] [InFrame f3] _ _ Hg2)|];
    eapply run_circuit_io_cons; [exact Hg3|reflexivity]|].
  split; [rewrite io_log_step, Hlg2, Hlg1, <- !app_assoc; reflexivity|].
  split; [eapply run_circuit_io_cons; [exact Hm1|]; eapply run_circuit_io_cons; [exact Hm3|reflexivity]|].
  split; [rewrite io_log_step, Hlm1, <- app_assoc; reflexivity|].
  split; [eapply run_circuit_io_cons; [rewrite (turn_to_me cx Exit _ i3 tx' (mkCell Connect bytes)) by exact Hx3; exact Hconn|reflexivity]|].
  split; [reflexivity|]. destruct Hready as (? & ? & ? & ? & ? & ? & ? & ?). unfold circuit_ready, hops_ready. split_ands.
Qed.

(** C3. The telescoping handshake builds the circuit.  Dialling through three
    relays that hold the keys the registry names, where the guard's registry
    lists the middle and the middle's the exit, succeeds: the client writes its
    token, one handshake message and three frames; the guard couriers the
    middle's handshake, the middle the exit's, and the exit dials the requested
    destination; every message a party reads is one its neighbour wrote.  The
    client then holds one transport in step with each hop, and both links and
    the destination are open. *)
Theorem circuit_established `{SnowLaws, Sha256, Ed25519, UrlParser, ServerNames}
    k cg cm cx route ag am ax pg pm px em ex rng1 rng2 rng3 rg rm rx m_raw token host dport url req :
  5 + k ≤ budget →
  honest_relay cg (sp_guard route) ag pg → honest_relay cm (sp_middle route) am pm →
  honest_relay cx (sp_exit route) ax px →
  extends_to cg am em → extends_to cm ax ex →
  server_name_valid (tls_name (sp_guard route)) = true →
  ConnectPayload_wf (mkConnectPayload host dport) → String.length host ≤ MAX_CONNECT_HOST_LEN →
  decodo_proxy_url (cfg cx) = Some url →
  dial_via_socks5 (λ _, DialConnected 0) url host dport (allowed_exit_ports (cfg cx)) = ([req], Ok 0) →
  ∃ msg1g msg2g tg msg1m msg2m tm msg1x msg2x tx L g m x f1 f2 f3 r1 r2 rr b2 b3 i3,
    Forall (λ msg1, length msg1 = NOISE_MSG_LEN) [msg1g; msg1m; msg1x] ∧
    respond (static_private cg) msg1g rg = Ok (tg, msg2g) ∧
    respond (static_private cm) msg1m rm = Ok (tm, msg2m) ∧
    respond (static_private cx) msg1x rx = Ok (tx, msg2x) ∧
    dial rng1 rng2 rng3 route m_raw token host dport (mkStreams [] (dial_replies msg2g r1 r2)) =
      (mkStreams (dial_log ag (tls_name (sp_guard route)) m_raw token msg1g f1 f2 f3) [], Ok L) ∧
    run_circuit_io cg Guard [InFrame f1; InFrame f2; NextFrame rr; InFrame f3]
      (fresh_circuit tg (courier_script msg2m)) = (g, Ok Continue) ∧
    io_log g = courier_log (mkExtendForward am msg1m) em r1 ++ passed_on [b2] ++ passed_back [r2] ++ passed_on [b3] ∧
    run_circuit_io cm Middle [InFrame b2; InFrame b3] (fresh_circuit tm (courier_script msg2x)) = (m, Ok Continue) ∧
    io_log m = courier_log (mkExtendForward ax msg1x) ex rr ++ passed_on [i3] ∧
    run_circuit_io cx Exit [InFrame i3] (fresh_circuit tx []) = (x, Ok Continue) ∧
    io_log x = [DialProxy req] ∧ circuit_ready k L g m x.
Proof. apply (circuit_completes k (λ _, []) (λ _, []) (λ _, [])). Qed.

(** Three relays of the sample registry, each with the key of its entry. *)
Definition sample_party (r : Role) (key : byte) : ConnCtx :=
  mkConnCtx (sample_cfg r [80; 443]%Z) sample_rsa (replicate 32 key) (mkHandle (Some sample_verified) false) sample_now 0.
Definition sample_route : SelectedPath :=
  mkSelectedPath (SampleReg.relay_of 2 1 "guard") (SampleReg.relay_of 2 2 "middle") (SampleReg.relay_of 2 3 "exit") 3.
Definition sample_addr (i : byte) : SocketAddr := mkSocketAddr (V4 (Ipv4 x0a i x02 x01)) 443.
Definition sample_request : dial_request :=
  hd (mkDialRequest "" "" 0 None)
    (fst (dial_via_socks5 (λ _, DialConnected 0) sample_proxy "example.com" 443 [80; 443]%Z)).

Lemma circuit_established_witness :
  honest_relay (sample_party Guard x01) (sp_guard sample_route) (sample_addr x01) (replicate 32 x01) ∧
  ∃ L msg2g r1 r2, snd (dial [] [x01] [x02] sample_route [] [] "example.com" 443
    (mkStreams [] (dial_replies msg2g r1 r2))) = Ok L.
Proof.
  assert (honest_relay (sample_party Guard x01) (sp_guard sample_route) (sample_addr x01) (replicate 32 x01)) as Hg
    by (constructor; [vm_compute; reflexivity|split; vm_compute; congruence|vm_compute; reflexivity|vm_compute; split; reflexivity]).
  split; [exact Hg|].
  destruct (circuit_established 0 (sample_party Guard x01) (sample_party Middle x02) (sample_party Exit x03) sample_route
    (sample_addr x01) (sample_addr x02) (sample_addr x03) (replicate 32 x01) (replicate 32 x02) (replicate 32 x03)
    (sp_middle sample_route) (sp_exit sample_route) [] [x01] [x02] [] [] [] [] [] "example.com" 443 sample_proxy sample_request)
    as (msg1g & msg2g & tg & msg1m & msg2m & tm & msg1x & msg2x & tx & L & g & m & x & f1 & f2 & f3 & r1 & r2 & rr & b2 & b3 & i3 &
        _ & _ & _ & _ & Hd & _).
  - apply Nat.leb_le. reflexivity.
  - exact Hg.
  - constructor; [vm_compute; reflexivity|split; vm_compute; congruence|vm_compute; reflexivity|vm_compute; split; reflexivity].
  - constructor; [vm_compute; reflexivity|split; vm_compute; congruence|vm_compute; reflexivity|vm_compute; split; reflexivity].
  - exists sample_verified. split; vm_compute; reflexivity.
  - exists sample_verified. split; vm_compute; reflexivity.
  - reflexivity.
  - split; [reflexivity|split; vm_compute; congruence].
  - apply Nat.leb_le. reflexivity.
  - reflexivity.
  - vm_compute. reflexivity.
  - exists L, msg2g, r1, r2. rewrite Hd. reflexivity.
Defined.
