(* ===== verification/Service.v ===== *)
(** QuietHop: one request of an application, served by the whole system.

    The composition of every part: the SOCKS5 front reads the request, the
    client has a token signed by the authority and picks a path from its verified
    registry, the guard's verifier takes that token, and the three relays, each
    from the first byte of its connection, build the circuit at whose end the
    exit dials the destination the application named. *)

From S2P Require Import Prelude Bytes Text NetAddr Ipv6 Cell Noise SampleNoise Layer Civil State Registry SampleRegistry.
From S2P Require Import RegistryCache Circuit Token Config Exit RelayRegistry Relay RelayTheorems Path Blind Dial Client Socks5.
From S2P Require Import EndToEnd Telescope.

#[local] Open Scope Z_scope.

(** ** The destination fits a CONNECT cell *)

Lemma target_host_fits t :
  target_wf t →
  utf8_valid (as_bytes (target_host t)) = true ∧ (String.length (target_host t) ≤ MAX_CONNECT_HOST_LEN)%nat.
Proof.
  rewrite <- length_as_bytes. destruct t as [ip|name]; simpl.
  - intros Hw. destruct (show_ip_fits ip Hw) as [Hu Hl]. split; [done|]. sizes.
  - intros [Hl Hu]. rewrite as_bytes_of_bytes. split; [done|]. sizes.
Qed.

Lemma request_dest_wf r :
  request_wf r →
  ConnectPayload_wf (mkConnectPayload (request_dest r).1 (request_dest r).2) ∧
  (String.length (request_dest r).1 ≤ MAX_CONNECT_HOST_LEN)%nat.
Proof.
  intros (_ & _ & Ht). destruct (target_host_fits _ Ht) as [Hu Hl]. split; [|done].
  split; [done|]. apply u16_from_be_bytes_range.
Qed.

(** ** A token from the authority *)

Section issuing.
Context `{Base64, Sha256Laws, Ed25519, RegistryJson, StateJson, ModInverseLaws, Snow, ServerNames}.
Context `{Urls, ApiJson, Pem}.

(** The token of [m_raw]: the authority's signature of its hash. *)
Definition token_of (key : RsaPublicKey) (d : Z) (m_raw : list byte) : list byte :=
  token_to_wire (sign_blinded key d (from_bytes_be (sha256 m_raw) mod rsa_n key)) (modulus_bytes key).

(** The guard's verifier takes it. *)
Lemma token_of_signed key d m_raw :
  rsa_key_wf key → 2 ^ 256 ≤ rsa_n key → rsa_pair key d →
  signed m_raw (token_of key d m_raw) key ∧ length (token_of key d m_raw) = modulus_bytes key.
Proof.
  intros Hk Hn Hd. set (hm := from_bytes_be (sha256 m_raw) mod rsa_n key).
  assert (0 ≤ hm < rsa_n key) as Hm by (apply Z.mod_pos_bound; lia).
  assert (sign_blinded key d hm = hm ^ d mod rsa_n key) as Hs by (apply modpow_spec; [lia|apply Hd]).
  assert (0 ≤ sign_blinded key d hm < rsa_n key) as Hr by (rewrite Hs; apply Z.mod_pos_bound; lia).
  split; [|by apply token_to_wire_spec]. apply verified_is_signed; [done..|].
  unfold token_of. fold hm. rewrite Hs. by apply rsa_pair_inv.
Qed.

(** A client that is logged in and knows the key, a generator that draws a
    usable factor, and an authority that signs the request it is sent. *)
Record can_issue (ch : chance) (c : QuietHopClient) (key : RsaPublicKey) (d : Z) : Prop := {
  ci_session : is_some (qc_session c) = true;
  ci_pubkey : qc_pubkey c = Some key;
  ci_url : is_some (url_join (qh_authority_url (qc_cfg c)) "/api/v1/tokens/issue") = true;
  ci_pair : rsa_pair key d;
  ci_below : Forall (λ r, 0 ≤ r < rsa_n key) (ch_draws ch);
  ci_usable : Exists (usable_draw (rsa_n key)) (ch_draws ch);
  ci_signs : ∀ req, blind key (ch_m_raw ch) (ch_draws ch) = Some req → 0 ≤ blinded req < rsa_n key →
    ∃ status body rest, api_answers (qc_api c) = Response status (Some body) :: rest ∧ 200 ≤ status < 300 ∧
      issue_signed body = Some (hex_lower (to_bytes_be (sign_blinded key d (blinded req))));
}.

Lemma can_issue_issues ch c key d :
  can_issue ch c key d → rsa_key_wf key → 0 < rsa_n key →
  ∃ c', issue_token (ch_m_raw ch) (ch_draws ch) c =
      (c', Ok (Some (ch_m_raw ch, token_of key d (ch_m_raw ch)))) ∧
    qc_cfg c' = qc_cfg c ∧ qc_registry c' = qc_registry c.
Proof.
  intros [Hs Hk Hu Hd Hb Hus Ha] Hwf Hn.
  destruct (qc_session c) as [jwt|] eqn:Hjwt; [|done].
  destruct (url_join (qh_authority_url (qc_cfg c)) "/api/v1/tokens/issue") as [to|] eqn:Hto; [|done].
  destruct (honest_issue (post_issue (qh_authority_url (qc_cfg c)) jwt) key d (ch_m_raw ch) (ch_draws ch) (qc_api c))
    as [a' Hi]; try assumption.
  { intros req Hreq Hr. destruct (Ha req Hreq Hr) as (status & body & rest & Hans & Hst & Hbody). eexists.
    unfold post_issue. rewrite Hto. erewrite st_bind_Ok_eq by apply lift_eq.
    unfold api_call. erewrite st_bind_Ok_eq by (rewrite Hans; cbn beta iota;
      rewrite (proj2 (Z.leb_le 200 status)), (proj2 (Z.ltb_lt status 300)) by lia; reflexivity).
    rewrite Hbody. reflexivity. }
  eexists. split.
  - unfold issue_token. erewrite st_bind_Ok_eq by reflexivity. rewrite Hjwt. erewrite st_bind_Ok_eq by apply lift_eq.
    cbn zeta. rewrite Hk. do 2 (erewrite st_bind_Ok_eq by reflexivity). rewrite Hk. unfold on_api, on_field.
    rewrite Hi. reflexivity.
  - done.
Qed.

(** The client's part, then [dial]. *)
Lemma build_circuit_Ok ch c key d route host port n n' L :
  can_issue ch c key d → rsa_key_wf key → 0 < rsa_n key →
  build_path c (ch_now ch) (ch_gen ch) = Ok route →
  dial (ch_rng1 ch) (ch_rng2 ch) (ch_rng3 ch) route (ch_m_raw ch) (token_of key d (ch_m_raw ch)) host port n =
    (n', Ok L) →
  ∃ c', build_circuit ch host port (mkDialler c n) = (mkDialler c' n', Ok (Some L)).
Proof.
  intros Hc Hwf Hn Hp Hd. destruct (can_issue_issues ch c key d Hc Hwf Hn) as (c' & Hi & Hcfg & Hreg). exists c'.
  assert (build_path c' (ch_now ch) (ch_gen ch) = Ok route) as Hp'
    by (rewrite <- Hp; unfold build_path, path_rules; by rewrite Hcfg, Hreg).
  unfold build_circuit. erewrite st_bind_Ok_eq by (unfold on_dl_client, on_field; cbn [dl_client]; rewrite Hi; reflexivity).
  cbn beta iota. erewrite st_bind_Ok_eq by reflexivity. cbn [dl_client]. rewrite Hp'.
  erewrite st_bind_Ok_eq by apply lift_eq.
  erewrite st_bind_Ok_eq by (unfold on_dl_streams, on_field; cbn [dl_streams]; rewrite Hd; reflexivity).
  reflexivity.
Qed.
End issuing.

(** ** Relays, from the first byte of a connection *)

Section serving.
Context `{SnowLaws, Sha256, Ed25519, UrlParser, ServerNames}.

(** A connection that has just been accepted. *)
Definition arriving (w : ReplayWindow) (ms : metrics) (script : list answer) : conn :=
  mkConn (mkNet [] script) w ms None.

(** A relay answers [msg1], after the preamble [pre], with [msg2], and its
    connection then goes through the events [evs] to the loop's state [s]. *)
Record relay_serves (ctx : ConnCtx) (peer : SocketAddr) (rng : list byte) (w : ReplayWindow) (ms : metrics)
    (pre : list answer) (msg1 : list byte) (t : TransportState) (msg2 : list byte) (rest : list answer)
    (evs : list io_event) (s : circuit_io) : Prop := {
  rs_answers : respond (static_private ctx) msg1 rng = Ok (t, msg2);
  rs_runs : run_circuit_io ctx (cfg_role (cfg ctx)) evs (started [WriteIn msg2; FlushIn] t rest) = (s, Ok Continue);
  rs_handles : ∃ c', handle_connection ctx peer rng evs (arriving w ms (pre ++ [Got msg1; Fine; Fine] ++ rest)) =
                     (c', Ok Continue) ∧ cn_net c' = io_net s;
}.

(** The part of it after the preamble: the handshake and the loop. *)
Record circuit_runs (ctx : ConnCtx) (rng msg1 : list byte) (t : TransportState) (msg2 : list byte) (rest : list answer)
    (evs : list io_event) (s : circuit_io) : Prop := {
  cr_length : length msg1 = NOISE_MSG_LEN;
  cr_answers : respond (static_private ctx) msg1 rng = Ok (t, msg2);
  cr_runs : run_circuit_io ctx (cfg_role (cfg ctx)) evs (started [WriteIn msg2; FlushIn] t rest) = (s, Ok Continue);
}.

Lemma relay_serves_intro ctx peer rng w ms pre msg1 t msg2 rest evs s :
  rsa_key_wf (authority_pubkey ctx) → (∀ script, presented ctx peer (arriving w ms script) pre) →
  circuit_runs ctx rng msg1 t msg2 rest evs s → relay_serves ctx peer rng w ms pre msg1 t msg2 rest evs s.
Proof.
  intros Hk Hpre [Hl Hr Hrun]. split; [done..|].
  pose proof (presented_runs ctx peer rng evs (arriving w ms (pre ++ [Got msg1; Fine; Fine] ++ rest)) pre msg1 rest t msg2
    Hk (Hpre _) eq_refl Hl Hr) as Hp.
  change (opened t msg2 _ rest) with (started [WriteIn msg2; FlushIn] t rest) in Hp. rewrite Hrun in Hp. exact Hp.
Qed.

(** The relay before it in the circuit is one its registry admits. *)
Definition admits (ctx : ConnCtx) (peer : SocketAddr) : Prop :=
  ∃ doc, RegistryHandle_usable (cx_registry ctx) (now_unix ctx) = Some doc ∧
         admits_inbound doc (cfg_role (cfg ctx)) (sa_ip peer) = true.

Definition relay_preamble : list answer := [Got [PROTO_RELAY]; Got [CIRCUIT_START]].
Definition client_preamble (m_raw token : list byte) : list answer := [Got [PROTO_CLIENT]; Got (m_raw ++ token)].

Lemma admits_presented ctx peer w ms script :
  cfg_role (cfg ctx) ≠ Guard → admits ctx peer → presented ctx peer (arriving w ms script) relay_preamble.
Proof. intros Hr Ha. right. done. Qed.
End serving.

(** ** Properties *)

Section service.
Context `{Base64, Sha256Laws, Ed25519, RegistryJson, StateJson, ModInverseLaws, SnowLaws, ServerNames}.
Context `{Urls, ApiJson, Pem, UrlParser}.

(** The relays of a path, as the three processes run: each holds the key and
    the address of its entry and lets in the relay before it; the guard checks
    tokens with the key [key], the guard and the middle find the next hop in
    their own registries. *)
Record relays_up (cg cm cx : ConnCtx) (route : SelectedPath) (ag am ax : SocketAddr) (pg pm px : list byte)
    (em ex : RelayEntry) (peer_m peer_x : SocketAddr) (key : RsaPublicKey) : Prop := {
  up_roles : cfg_role (cfg cg) = Guard ∧ cfg_role (cfg cm) = Middle ∧ cfg_role (cfg cx) = Exit;
  up_guard : honest_relay cg (sp_guard route) ag pg;
  up_middle : honest_relay cm (sp_middle route) am pm;
  up_exit : honest_relay cx (sp_exit route) ax px;
  up_name : server_name_valid (tls_name (sp_guard route)) = true;
  up_key : authority_pubkey cg = key;
  up_keys : rsa_key_wf (authority_pubkey cm) ∧ rsa_key_wf (authority_pubkey cx);
  up_extends : extends_to cg am em ∧ extends_to cm ax ex;
  up_admits : admits cm peer_m ∧ admits cx peer_x;
}.

(** The exit may dial the host and the port, through its proxy, as [req]. *)
Definition may_dial (cx : ConnCtx) (dest : string * Z) (req : dial_request) : Prop :=
  ∃ url, decodo_proxy_url (cfg cx) = Some url ∧
    dial_via_socks5 (λ _, DialConnected 0) url dest.1 dest.2 (allowed_exit_ports (cfg cx)) = ([req], Ok 0%nat).

(** The client's token is one the guard takes. *)
Lemma client_presented cg peer key d ch w ms script :
  cfg_role (cfg cg) = Guard → authority_pubkey cg = key → rsa_key_wf key → 2 ^ 256 ≤ rsa_n key →
  modulus_bytes key = TOKEN_LEN → length (ch_m_raw ch) = M_RAW_LEN → rsa_pair key d →
  ¬ seen w (now_instant cg) (token_of key d (ch_m_raw ch)) →
  presented cg peer (arriving w ms script) (client_preamble (ch_m_raw ch) (token_of key d (ch_m_raw ch))).
Proof.
  intros Hr Hkey Hk Hn Hlen Hraw Hd Hseen. left. split; [done|].
  destruct (token_of_signed key d (ch_m_raw ch)) as [Hsig Htok]; [done..|].
  exists (ch_m_raw ch), (token_of key d (ch_m_raw ch)). rewrite Hkey. split_and!; try done. by rewrite <- Hlen.
Qed.

(** A request served, up to how each relay's connection begins. *)
Lemma request_runs k cg cm cx route ag am ax pg pm px em ex peer_m peer_x key d ch c rg rm rx r rest e out req :
  (5 + k ≤ budget)%nat → request_wf r → rsa_key_wf key → 2 ^ 256 ≤ rsa_n key →
  can_issue ch c key d → build_path c (ch_now ch) (ch_gen ch) = Ok route →
  relays_up cg cm cx route ag am ax pg pm px em ex peer_m peer_x key → may_dial cx (request_dest r) req →
  ∃ c' msg1g msg2g tg msg1m msg2m tm msg1x msg2x tx L g m x f1 f2 f3 r1 r2 rr b2 b3 i3,
    let token := token_of key d (ch_m_raw ch) in
    socks_serve ch (mkSession (mkApp (request_bytes r ++ rest) e out [])
                              (mkDialler c (mkStreams [] (dial_replies msg2g r1 r2)))) =
      (mkSession (mkApp rest e (out ++ [[VER; METHOD_NO_AUTH]; reply_bytes REP_SUCCESS]) [])
         (mkDialler c' (mkStreams
           (dial_log ag (tls_name (sp_guard route)) (ch_m_raw ch) token msg1g f1 f2 f3) [])), Ok (Some L)) ∧
    circuit_runs cg rg msg1g tg msg2g (courier_script msg2m) [InFrame f1; InFrame f2; NextFrame rr; InFrame f3] g ∧
    io_log g = [WriteIn msg2g; FlushIn] ++ courier_log (mkExtendForward am msg1m) em r1 ++
      passed_on [b2] ++ passed_back [r2] ++ passed_on [b3] ∧
    circuit_runs cm rm msg1m tm msg2m (courier_script msg2x) [InFrame b2; InFrame b3] m ∧
    io_log m = [WriteIn msg2m; FlushIn] ++ courier_log (mkExtendForward ax msg1x) ex rr ++ passed_on [i3] ∧
    circuit_runs cx rx msg1x tx msg2x [] [InFrame i3] x ∧
    io_log x = [WriteIn msg2x; FlushIn; DialProxy req] ∧
    circuit_ready k L g m x.
Proof.
  intros Hb Hr Hk Hn Hissue Hpath Hup (url & Hurl & Hdial).
  destruct Hup as [(Hrg & Hrm & Hrx) Hg Hm Hx Hname Hkey (Hkm & Hkx) (Heg & Hem) (Ham & Hax)].
  destruct (request_dest_wf r Hr) as [Hwf Hfit].
  set (token := token_of key d (ch_m_raw ch)) in *. set (answered := λ msg2 : list byte, [WriteIn msg2; FlushIn]).
  destruct (circuit_completes k answered answered answered cg cm cx route ag am ax pg pm px em ex
    (ch_rng1 ch) (ch_rng2 ch) (ch_rng3 ch) rg rm rx (ch_m_raw ch) token _ _ url req
    Hb Hg Hm Hx Heg Hem Hname Hwf Hfit Hurl Hdial)
    as (msg1g & msg2g & tg & msg1m & msg2m & tm & msg1x & msg2x & tx & L & g & m & x & f1 & f2 & f3 & r1 & r2 & rr & b2 & b3 & i3 &
      Hl & Hag & Ham2 & Hax2 & Hd & Hrung & Hlogg & Hrunm & Hlogm & Hrunx & Hlogx & Hready).
  destruct (build_circuit_Ok ch c key d route _ _ _ _ L Hissue Hk ltac:(lia) Hpath Hd) as [c' Hc].
  apply Forall_cons in Hl as [Hl1 Hl]. apply Forall_cons in Hl as [Hl2 Hl]. apply Forall_cons in Hl as [Hl3 _].
  exists c', msg1g, msg2g, tg, msg1m, msg2m, tm, msg1x, msg2x, tx, L, g, m, x, f1, f2, f3, r1, r2, rr, b2, b3, i3.
  cbn zeta. fold token. split.
  { unfold socks_serve. erewrite st_bind_Ok_eq by (rewrite on_app_eq; cbn [ss_app ss_dialler];
      rewrite serve_request_accepts by done; reflexivity).
    destruct (request_dest r) as [host port]. cbn beta iota. unfold serve_circuit, on_dialler, on_field.
    cbn [ss_dialler fst snd] in *. rewrite Hc. unfold mbind, st_bind. rewrite on_app_eq. cbn.
    by rewrite <- app_assoc. }
  split_and!; try done; split; rewrite ?Hrg, ?Hrm, ?Hrx; done.
Qed.

(** C2. A request of an application is served by the whole system.  Take any
    well-formed SOCKS request, a logged-in client whose authority signs what it
    is sent, a path from its registry, and the three relays of that path as they
    run.  Then the application is told of success after exactly its request was
    read; the guard accepts the client's token and, like the middle and the exit
    after it, serves its connection from the first byte without an error; the
    exit's only act besides its handshake is to dial the host and port that the
    application named; every message a party reads is one its neighbour wrote;
    and the circuit is left ready, with one transport in step per hop. *)
Theorem socks_request_served k cg cm cx route ag am ax pg pm px em ex peer_g peer_m peer_x key d ch c
    rg rm rx wg wm wx msg msm msx r rest e out req :
  (5 + k ≤ budget)%nat → request_wf r → rsa_key_wf key → 2 ^ 256 ≤ rsa_n key → modulus_bytes key = TOKEN_LEN →
  length (ch_m_raw ch) = M_RAW_LEN → can_issue ch c key d →
  build_path c (ch_now ch) (ch_gen ch) = Ok route →
  relays_up cg cm cx route ag am ax pg pm px em ex peer_m peer_x key →
  ¬ seen wg (now_instant cg) (token_of key d (ch_m_raw ch)) →
  may_dial cx (request_dest r) req →
  ∃ c' msg1g msg2g tg msg1m msg2m tm msg1x msg2x tx L g m x f1 f2 f3 r1 r2 rr b2 b3 i3,
    let token := token_of key d (ch_m_raw ch) in
    socks_serve ch (mkSession (mkApp (request_bytes r ++ rest) e out [])
                              (mkDialler c (mkStreams [] (dial_replies msg2g r1 r2)))) =
      (mkSession (mkApp rest e (out ++ [[VER; METHOD_NO_AUTH]; reply_bytes REP_SUCCESS]) [])
         (mkDialler c' (mkStreams
           (dial_log ag (tls_name (sp_guard route)) (ch_m_raw ch) token msg1g f1 f2 f3) [])), Ok (Some L)) ∧
    relay_serves cg peer_g rg wg msg (client_preamble (ch_m_raw ch) token) msg1g tg msg2g (courier_script msg2m)
      [InFrame f1; InFrame f2; NextFrame rr; InFrame f3] g ∧
    io_log g = [WriteIn msg2g; FlushIn] ++ courier_log (mkExtendForward am msg1m) em r1 ++
      passed_on [b2] ++ passed_back [r2] ++ passed_on [b3] ∧
    relay_serves cm peer_m rm wm msm relay_preamble msg1m tm msg2m (courier_script msg2x) [InFrame b2; InFrame b3] m ∧
    io_log m = [WriteIn msg2m; FlushIn] ++ courier_log (mkExtendForward ax msg1x) ex rr ++ passed_on [i3] ∧
    relay_serves cx peer_x rx wx msx relay_preamble msg1x tx msg2x [] [InFrame i3] x ∧
    io_log x = [WriteIn msg2x; FlushIn; DialProxy req] ∧
    circuit_ready k L g m x.
Proof.
  intros Hb Hr Hk Hn Hlen Hraw Hissue Hpath Hup Hseen Hdial.
  destruct (request_runs k cg cm cx route ag am ax pg pm px em ex peer_m peer_x key d ch c rg rm rx r rest e out req
    Hb Hr Hk Hn Hissue Hpath Hup Hdial)
    as (c' & msg1g & msg2g & tg & msg1m & msg2m & tm & msg1x & msg2x & tx & L & g & m & x & f1 & f2 & f3 & r1 & r2 & rr & b2 & b3 & i3 &
      Hs & Hrung & Hlogg & Hrunm & Hlogm & Hrunx & Hlogx & Hready).
  destruct Hup as [(Hrg & Hrm & Hrx) _ _ _ _ Hkey (Hkm & Hkx) _ (Ham & Hax)].
  exists c', msg1g, msg2g, tg, msg1m, msg2m, tm, msg1x, msg2x, tx, L, g, m, x, f1, f2, f3, r1, r2, rr, b2, b3, i3.
  cbn zeta. split_and!; try done; apply relay_serves_intro; try done.
  - by rewrite Hkey.
  - intros script. apply client_presented; try done. apply Hissue.
  - intros script. apply admits_presented; [by rewrite Hrm|done].
  - intros script. apply admits_presented; [by rewrite Hrx|done].
Qed.
End service.

(** ** Witness *)

(** An authority key of the size of the token field, of exponent one. *)
Definition service_key : RsaPublicKey := mkRsaPublicKey (256 ^ 255 + 1) 1.
Definition service_chance : chance := mkChance sample_m_raw [2] sample_now (λ _, 0%nat) [] [x01] [x02].

(** A client with a session and the key, its registry primed. *)
Definition service_client : outcome ClientError QuietHopClient :=
  c ← client_new true [true] sample_client_cfg (mkDisk ∅ []) sample_client_net (mkApi [] []);
  Ok (mkClient sample_client_cfg (Some "jwt") (Some service_key)
        (qc_registry (run_clients [PrimeRegistry sample_now] c))
        (mkApi [] [Response 200 (Some (as_bytes (hex_lower (to_bytes_be
           (sign_blinded service_key 1 (2 * from_bytes_be sample_m_raw))))))])).
Lemma service_client_ok : is_ok service_client = true.
Proof. vm_compute. reflexivity. Qed.
Definition the_client : QuietHopClient := get_ok service_client service_client_ok.

Definition service_guard : ConnCtx :=
  mkConnCtx (sample_cfg Guard [80; 443]) service_key (replicate 32 x01) (mkHandle (Some sample_verified) false) sample_now 0.
Definition service_request : dial_request :=
  hd (mkDialRequest "" "" 0 None)
    (fst (dial_via_socks5 (λ _, DialConnected 0) sample_proxy "a.example" 443 [80; 443])).

Lemma service_can_issue : can_issue service_chance the_client service_key 1.
Proof.
  assert (∀ x, 0 ≤ x < rsa_n service_key → sign_blinded service_key 1 x = x) as Hsign.
  { intros x Hx. unfold sign_blinded. rewrite modpow_spec, Z.pow_1_r by lia. by apply Z.mod_small. }
  constructor.
  - reflexivity.
  - reflexivity.
  - reflexivity.
  - split; [lia|]. intros x Hx. change (rsa_e service_key * 1) with 1. rewrite Z.pow_1_r. by apply Z.mod_small.
  - repeat constructor; vm_compute; congruence.
  - left. split; [lia|]. eexists. split; [vm_compute; reflexivity|]. split; vm_compute; congruence.
  - intros req Hreq Hb.
    assert (blinded <$> blind service_key sample_m_raw [2] = Some (2 * from_bytes_be sample_m_raw)) as Hv by (vm_compute; reflexivity).
    change (blind service_key sample_m_raw [2] = Some req) in Hreq. rewrite Hreq in Hv. apply (inj Some) in Hv. rewrite Hv.
    do 3 eexists. split; [reflexivity|]. split; [lia|]. cbn [issue_signed sample_api_json]. by rewrite of_bytes_as_bytes.
Qed.

Lemma service_up :
  relays_up service_guard (sample_party Middle x02) (sample_party Exit x03) sample_route
    (sample_addr x01) (sample_addr x02) (sample_addr x03) (replicate 32 x01) (replicate 32 x02) (replicate 32 x03)
    (sp_middle sample_route) (sp_exit sample_route) (sample_addr x01) (sample_addr x02) service_key.
Proof.
  constructor.
  - split_and!; reflexivity.
  - constructor; [vm_compute; reflexivity|split; vm_compute; congruence|vm_compute; reflexivity|vm_compute; split; reflexivity].
  - constructor; [vm_compute; reflexivity|split; vm_compute; congruence|vm_compute; reflexivity|vm_compute; split; reflexivity].
  - constructor; [vm_compute; reflexivity|split; vm_compute; congruence|vm_compute; reflexivity|vm_compute; split; reflexivity].
  - reflexivity.
  - reflexivity.
  - split; split; vm_compute; congruence.
  - split; exists sample_verified; split; vm_compute; reflexivity.
  - split; exists sample_verified; split; vm_compute; reflexivity.
Qed.

Lemma socks_request_served_witness :
  ∃ msg2g r1 r2 s L,
    socks_serve service_chance (mkSession (mkApp (request_bytes sample_request1 ++ [x47]) UnexpectedEof [] [])
      (mkDialler the_client (mkStreams [] (dial_replies msg2g r1 r2)))) = (s, Ok (Some L)) ∧
    a_in (ss_app s) = [x47] ∧ a_out (ss_app s) = [[x05; x00]; [x05; x00; x00; x01; x00; x00; x00; x00; x00; x00]].
Proof.
  destruct (socks_request_served 0 service_guard (sample_party Middle x02) (sample_party Exit x03) sample_route
    (sample_addr x01) (sample_addr x02) (sample_addr x03) (replicate 32 x01) (replicate 32 x02) (replicate 32 x03)
    (sp_middle sample_route) (sp_exit sample_route) sample_peer (sample_addr x01) (sample_addr x02) service_key 1
    service_chance the_client [] [] [] (ReplayWindow_new 10) (ReplayWindow_new 10) (ReplayWindow_new 10)
    (mkMetrics 0 0 0 0) (mkMetrics 0 0 0 0) (mkMetrics 0 0 0 0)
    sample_request1 [x47] UnexpectedEof [] service_request)
    as (c' & msg1g & msg2g & tg & msg1m & msg2m & tm & msg1x & msg2x & tx & L & g & m & x & f1 & f2 & f3 & r1 & r2 & rr &
        b2 & b3 & i3 & Hs & _).
  - apply Nat.leb_le. reflexivity.
  - split; [vm_compute; lia|]. split; [left|]. split; [vm_compute; lia|vm_compute; reflexivity].
  - split; vm_compute; congruence.
  - vm_compute. congruence.
  - vm_compute. reflexivity.
  - reflexivity.
  - exact service_can_issue.
  - vm_compute. reflexivity.
  - exact service_up.
  - intros (t & Ht & _). vm_compute in Ht. discriminate.
  - exists sample_proxy. split; vm_compute; reflexivity.
  - exists msg2g, r1, r2. do 2 eexists. split; [exact Hs|]. split; reflexivity.
Defined.
