(* ===== verification/Load.v ===== *)
(** QuietHop: the request of an application, served by relays that are busy.

    [Service] has each relay of the path take its connection in one piece.  Here
    the three relays serve it among any number of other connections, as
    [accept_loop] of [relay/src/main.rs] does: the connection of the path is one
    task of each, cut at its waits, and anything may come between its turns. *)

From S2P Require Import Prelude Bytes Text NetAddr Ipv6 Cell Noise SampleNoise Layer Civil State Registry SampleRegistry.
From S2P Require Import RegistryCache Circuit Token Config Exit RelayRegistry Relay RelayTheorems StaticKey Path Blind Dial Client Socks5.
From S2P Require Import RelayNode Interleave Isolation EndToEnd Telescope Service.

#[local] Open Scope Z_scope.

(** ** One connection of a busy relay *)

Section task.
Context `{Base64Laws, Sha256, Ed25519, RegistryJson, StateJsonLaws, Snow, UrlParser, ApiJson, Pem}.

(** Up to the next turn of a task. *)
Lemma next_own i es x ts :
  own_turns i es = x :: ts →
  ∃ es1 now_unix now_instant es2, es = es1 ++ BTurn i x.1 x.2 now_unix now_instant :: es2 ∧
    own_turns i es1 = [] ∧ own_turns i es2 = ts.
Proof.
  induction es as [|e es IH]; [done|]. destruct (is_turn_of e i) as [(rng & ev & u & ni & ->)|He].
  - cbn [own_turns]. rewrite decide_True by done. intros [= <- <-]. by exists [], u, ni, es.
  - rewrite own_turns_other by done. intros (es1 & u & ni & es2 & -> & Hq & Hts)%IH.
    exists (e :: es1), u, ni, es2. by rewrite own_turns_other.
Qed.

Lemma own_turns_app i es es' : own_turns i (es ++ es') = own_turns i es ++ own_turns i es'.
Proof.
  induction es as [|e es IH]; [done|]. cbn [Datatypes.app]. destruct (is_turn_of e i) as [(rng & ev & u & ni & ->)|He].
  - cbn [own_turns]. rewrite !decide_True by done. cbn [Datatypes.app]. by rewrite IH.
  - by rewrite !own_turns_other by done.
Qed.

(** Nothing happens to a task between its turns. *)
Lemma quiet_task i es s t : own_turns i es = [] → bz_tasks s !! i = Some t → bz_tasks (run_busy es s) !! i = Some t.
Proof.
  revert s. induction es as [|e es IH]; intros s Hq Hi; [done|]. destruct (is_turn_of e i) as [(rng & ev & u & ni & ->)|He].
  - cbn [own_turns] in Hq. by rewrite decide_True in Hq.
  - rewrite own_turns_other in Hq by done. apply IH; [done|]. by apply busy_step_other.
Qed.

Lemma served_by_app i doc es es' s :
  served_by i doc (es ++ es') s ↔ served_by i doc es s ∧ served_by i doc es' (run_busy es s).
Proof.
  revert s. induction es as [|e es IH]; intros s; cbn [Datatypes.app served_by]; [naive_solver|].
  change (run_busy (e :: es) s) with (run_busy es (busy_step e s)). rewrite IH. naive_solver.
Qed.

Lemma run_busy_fits ctx es s doc : fits ctx (bz_node (run_busy es s)) doc ↔ fits ctx (bz_node s) doc.
Proof.
  revert s. induction es as [|e es IH]; intros s; [done|].
  change (run_busy (e :: es) s) with (run_busy es (busy_step e s)). by rewrite IH, busy_step_fits.
Qed.

(** The shared state task [i] finds at its second turn. *)
Definition second_turn_at (i : nat) (es : list busy_event) (s : busy) (n : node) (now_unix now_instant : Z) : Prop :=
  ∃ es1 rng ev es2, es = es1 ++ BTurn i rng ev now_unix now_instant :: es2 ∧
    length (own_turns i es1) = 1%nat ∧ n = bz_node (run_busy es1 s).

(** A new task, whatever else its relay does, ends as the connection alone
    does, with the window and the clock of its second turn. *)
Lemma task_alone doc es s i t x1 x2 ts :
  rsa_key_wf (nd_authority (bz_node s)) → tasks_ok s → served_by i doc es s →
  bz_tasks s !! i = Some t → tk_circuit t = None → tk_phase t = Opening → own_turns i es = x1 :: x2 :: ts →
  ∃ n now_unix now_instant, second_turn_at i es s n now_unix now_instant ∧ fits (node_ctx n now_unix now_instant) (bz_node s) doc ∧
    let x := turns (node_ctx n now_unix now_instant) (tk_peer t) (x1 :: x2 :: ts)
               (mkConn (tk_net t) (nd_replay n) (nd_metrics n) None, Opening) in
    bz_tasks (run_busy es s) !! i = Some (mkRelayTask (tk_peer t) (cn_net x.1) (cn_circuit x.1) x.2).
Proof.
  intros Hk Hok Hst Hi Hc Hph Hown.
  destruct (next_own i es x1 (x2 :: ts) Hown) as (esa & ua & nia & es' & -> & Hqa & Hown').
  destruct (next_own i es' x2 ts Hown') as (esb & u & ni & esc & -> & Hqb & Hownc).
  apply served_by_app in Hst as [_ [Hda Hst]]. apply served_by_app in Hst as [_ [Hdb Hst]].
  specialize (Hda eq_refl). specialize (Hdb eq_refl).
  set (sa := run_busy esa s) in *. set (ea := BTurn i x1.1 x1.2 ua nia) in *. set (eb := BTurn i x2.1 x2.2 u ni) in *.
  set (sb := run_busy esb (busy_step ea sa)) in *. set (ctx := node_ctx (bz_node sb) u ni).
  assert (run_busy (esa ++ ea :: esb) s = sb) as Hsb by (by rewrite run_busy_app).
  destruct (run_busy_ok esa s Hk Hok) as (_ & _ & Haa). fold sa in Haa.
  destruct (run_busy_ok (esa ++ ea :: esb) s Hk Hok) as (Hokb & _ & Hab). rewrite Hsb in Hokb, Hab.
  assert (rsa_key_wf (nd_authority (bz_node sb))) as Hkb by (by rewrite Hab).
  destruct (busy_step_ok eb sb Hkb Hokb) as (Hokb' & _ & Hab').
  assert (fits ctx (bz_node sb) doc) as Hfb by (by apply node_ctx_fits).
  assert (fits ctx (bz_node s) doc) as Hf by (by rewrite <- (run_busy_fits ctx (esa ++ ea :: esb)), Hsb).
  exists (bz_node sb), u, ni. split.
  { exists (esa ++ ea :: esb), x2.1, x2.2, esc. rewrite own_turns_app, Hqa, <- app_assoc, Hsb.
    cbn [Datatypes.app own_turns ea]. rewrite decide_True, Hqb by done. done. }
  split; [exact Hf|].
  set (a := mkAccepted (mkArrival (Some false) true true) (tk_peer t) (tk_net t) 0).
  destruct (standing_first doc sa i a t x1.1 x1.2 ua nia) as (t' & Ht' & _ & Hpeer & Hl & Hc' & Hfirst);
    [by rewrite Haa|by apply quiet_task|done|done|done|].
  cbn [ac_peer ac_sock a] in Hpeer, Hfirst.
  assert (bz_tasks sb !! i = Some t') as Hib by (by apply quiet_task).
  pose proof (busy_turn_task sb i t' x2.1 x2.2 u ni Hib) as Hi2. cbn zeta in Hi2. fold ctx eb in Hi2. rewrite Hpeer in Hi2.
  rewrite <- Hownc. cbn [turns fold_left fst snd]. fold ctx.
  rewrite (Hfirst ctx x1.1 x1.2 (nd_replay (bz_node sb)) (nd_metrics (bz_node sb))) by (unfold sa; by rewrite run_busy_fits).
  cbn [fst snd]. change (mkConn (tk_net t') _ _ _) with (conn_of (bz_node sb) t').
  destruct (conn_turn ctx (tk_peer t) x2.1 x2.2 (tk_phase t') (conn_of (bz_node sb) t')) as [c2 ph2] eqn:Ht2. cbn [fst snd] in Hi2.
  assert (run_busy ((esa ++ ea :: esb) ++ eb :: esc) s = run_busy esc (busy_step eb sb)) as Hend by (by rewrite run_busy_app, Hsb).
  rewrite <- app_assoc in Hend. cbn [Datatypes.app] in Hend. rewrite Hend.
  refine (late_task doc esc (busy_step eb sb) i (mkRelayTask (tk_peer t) (cn_net c2) (cn_circuit c2) ph2) ctx c2
    _ Hokb' Hst Hi2 _ _ _); [by rewrite Hab'| |by apply busy_step_fits|done].
  destruct (conn_turn_left ctx (tk_peer t) x2.1 x2.2 (tk_phase t') (conn_of (bz_node sb) t') c2 ph2 1 Hkb (Hokb i t' Hib)) as [Hl2 _];
    [destruct Hl as [->|[e ->]]; simpl; lia|exact Ht2|exact Hl2].
Qed.
End task.

(** ** A connection that presents itself well *)

Section well.
Context `{Snow, Sha256, Ed25519, UrlParser, ServerNames}.

(** A token the guard takes. *)
Lemma presenting_turn ctx peer rng ev m_raw token rest w ms :
  rsa_key_wf (authority_pubkey ctx) → length m_raw = M_RAW_LEN → length token = TOKEN_LEN →
  signed m_raw token (authority_pubkey ctx) → ¬ seen w (now_instant ctx) token →
  ∃ w', conn_turn ctx peer rng ev Presenting (mkConn (mkNet [] (Got (m_raw ++ token) :: rest)) w ms None) =
    (mkConn (mkNet [] rest) w' (record_verified ms) (Some Circuit_new), Handshaking).
Proof.
  intros Hk Hm Ht Hsig Hseen. eexists. unfold conn_turn. cbn [phase_turn]. unfold presenting.
  erewrite st_bind_Ok_eq by (apply (on_conn_read_Ok _ _ rest); [done|]; rewrite length_app, Hm, Ht; done).
  rewrite slice_app_l by done. erewrite st_bind_Ok_eq by apply lift_eq.
  rewrite slice_app_r by done. erewrite st_bind_Ok_eq by apply lift_eq. unfold mbind, st_bind. cbn [cn_replay].
  destruct (token_verify_cases m_raw token (authority_pubkey ctx) (now_instant ctx) w Hk)
    as [(_ & ? & _)|[(_ & _ & ->)|[? _]]]; done.
Qed.

(** The handshake. *)
Lemma handshaking_turn_Ok ctx peer rng ev msg1 rest t msg2 w ms :
  length msg1 = NOISE_MSG_LEN → respond (static_private ctx) msg1 rng = Ok (t, msg2) →
  conn_turn ctx peer rng ev Handshaking (mkConn (mkNet [] (Got msg1 :: Fine :: Fine :: rest)) w ms (Some Circuit_new)) =
    (mkConn (mkNet [WriteIn msg2; FlushIn] rest) w ms (Some (mkCircuit Active)), Looping t None None).
Proof.
  intros Hl Hr. unfold conn_turn. cbn [phase_turn]. unfold handshaking.
  erewrite st_bind_Ok_eq by (by apply (on_conn_read_Ok NOISE_MSG_LEN msg1 (Fine :: Fine :: rest))).
  unfold mbind, st_bind, lift. rewrite Hr. reflexivity.
Qed.

(** Its first three turns: it is let in, and the handshake is done. *)
Lemma presented_turns ctx peer x1 x2 x3 w ms pre msg1 rest t msg2 :
  rsa_key_wf (authority_pubkey ctx) → presented ctx peer (arriving w ms (pre ++ [Got msg1; Fine; Fine] ++ rest)) pre →
  length msg1 = NOISE_MSG_LEN → respond (static_private ctx) msg1 x3.1 = Ok (t, msg2) →
  ∃ w' ms', turns ctx peer [x1; x2; x3] (arriving w ms (pre ++ [Got msg1; Fine; Fine] ++ rest), Opening) =
    (mkConn (mkNet [WriteIn msg2; FlushIn] rest) w' ms' (Some (mkCircuit Active)), Looping t None None).
Proof.
  intros Hk Hpre Hl Hr. cbn [turns fold_left fst snd]. set (rest2 := [Got msg1; Fine; Fine] ++ rest).
  destruct Hpre as [(Hrole & m_raw & token & -> & Hm & Ht & Hsig & Hseen)|(Hrole & -> & doc & Hdoc & Hadm)].
  - destruct (presenting_turn ctx peer x2.1 x2.2 m_raw token rest2 w ms Hk Hm Ht Hsig Hseen) as [w' Hp].
    exists w', (record_verified ms).
    assert (conn_turn ctx peer x1.1 x1.2 Opening (arriving w ms ([Got [PROTO_CLIENT]; Got (m_raw ++ token)] ++ rest2)) =
      (mkConn (mkNet [] (Got (m_raw ++ token) :: rest2)) w ms None, Presenting)) as -> by
      (unfold conn_turn, arriving; cbn [phase_turn]; unfold opening, on_conn, on_field, mbind, st_bind, read_exact, lift; cbn; by rewrite Hrole).
    cbn [fst snd]. rewrite Hp. by apply handshaking_turn_Ok.
  - exists w, ms.
    assert (conn_turn ctx peer x1.1 x1.2 Opening (arriving w ms ([Got [PROTO_RELAY]; Got [CIRCUIT_START]] ++ rest2)) =
      (mkConn (mkNet [] (Got [CIRCUIT_START] :: rest2)) w ms None, Signalling)) as ->.
    { assert (∀ c, admission ctx peer c = (c, Ok Signalling)) as Ha.
      { intros c. unfold admission. rewrite Hdoc. erewrite st_bind_Ok_eq by apply lift_eq. by rewrite Hadm. }
      unfold conn_turn, arriving. cbn [phase_turn]. unfold opening.
      erewrite st_bind_Ok_eq by (by apply (on_conn_read_Ok 1 [PROTO_RELAY] (Got [CIRCUIT_START] :: rest2))).
      erewrite st_bind_Ok_eq by apply lift_eq. cbv beta iota delta [PROTO_RELAY].
      destruct (cfg_role (cfg ctx)); [done|by rewrite Ha..]. }
    cbn [fst snd].
    assert (conn_turn ctx peer x2.1 x2.2 Signalling (mkConn (mkNet [] (Got [CIRCUIT_START] :: rest2)) w ms None) =
      (mkConn (mkNet [] rest2) w ms (Some Circuit_new), Handshaking)) as -> by reflexivity.
    by apply handshaking_turn_Ok.
Qed.

Lemma turns_app ctx peer ts ts' x : turns ctx peer (ts ++ ts') x = turns ctx peer ts' (turns ctx peer ts x).
Proof. unfold turns. by rewrite fold_left_app. Qed.

(** The turns of the loop are the loop. *)
Lemma loop_turns_run ctx peer ts t nl dest n w ms s :
  run_circuit_io ctx (cfg_role (cfg ctx)) ts.*2 (mkCircuitIo t nl dest n) = (s, Ok Continue) →
  turns ctx peer ts (mkConn n w ms (Some (mkCircuit Active)), Looping t nl dest) =
    (mkConn (io_net s) w ms (Some (mkCircuit Active)), Looping (transport s) (next_link s) (dest_link s)).
Proof.
  revert t nl dest n. induction ts as [|[g ev] ts IH]; intros t nl dest n; [by intros [= <-]|].
  cbn [fmap list_fmap run_circuit_io snd]. unfold mbind, st_bind.
  destruct (io_turn ctx (cfg_role (cfg ctx)) ev (mkCircuitIo t nl dest n)) as [s1 [[]|e|]] eqn:Ht; [|done..].
  intros Hrun. cbn [turns fold_left fst snd]. unfold conn_turn at 2. cbn [phase_turn]. unfold looping. cbn [cn_net]. rewrite Ht.
  cbn [cn_replay cn_metrics cn_circuit]. apply IH. destruct s1; exact Hrun.
Qed.
End well.

(** ** Relays that serve it among others *)

Section serving.
Context `{Base64Laws, Sha256, Ed25519, RegistryJson, StateJsonLaws, Snow, UrlParser, ApiJson, Pem, ServerNames}.

(** A schedule [es], from a state in which task [i] has just been accepted, that
    gives the task its turns: the randomness of its handshake is [rng], its loop
    is handed [evs], the document it is served by is the usable one of [ctx],
    and [fresh] holds of the window and the clock it finds at its second turn.
    Nothing is asked of the other tasks, nor of the refreshes. *)
Record joining (ctx : ConnCtx) (rng : list byte) (evs : list io_event) (fresh : ReplayWindow → Z → Prop)
    (s : busy) (i : nat) (es : list busy_event) : Prop := {
  jn_identity : nd_cfg (bz_node s) = cfg ctx ∧ nd_authority (bz_node s) = authority_pubkey ctx ∧
                kp_private (nd_key (bz_node s)) = static_private ctx;
  jn_turns : ∃ x1 x2 x3 ts, own_turns i es = x1 :: x2 :: x3 :: ts ∧ x3.1 = rng ∧ ts.*2 = evs;
  jn_doc : served_by i (RegistryHandle_usable (cx_registry ctx) (now_unix ctx)) es s;
  jn_fresh : ∀ n now_unix now_instant, second_turn_at i es s n now_unix now_instant → fresh (nd_replay n) now_instant;
}.

(** The same as [relay_serves], of a relay that is busy: whatever it has done
    before the connection is accepted, and whatever comes between its turns. *)
Definition busy_serves (ctx : ConnCtx) (peer : SocketAddr) (rng : list byte) (fresh : ReplayWindow → Z → Prop)
    (pre : list answer) (msg1 msg2 : list byte) (rest : list answer) (evs : list io_event) (s' : circuit_io) : Prop :=
  ∀ n ar es0 es, rsa_key_wf (nd_authority n) → routed ar = true →
    let s := run_busy es0 (mkBusy n []) in
    let s1 := busy_step (BAccept ar peer (mkNet [] (pre ++ [Got msg1; Fine; Fine] ++ rest))) s in
    joining ctx rng evs fresh s1 (length (bz_tasks s)) es →
    bz_tasks (run_busy es s1) !! length (bz_tasks s) =
      Some (mkRelayTask peer (io_net s') (Some (mkCircuit Active)) (Looping (transport s') (next_link s') (dest_link s'))).

Lemma run_circuit_io_alike ctx ctx' r evs s :
  ctx_alike ctx ctx' → run_circuit_io ctx r evs s = run_circuit_io ctx' r evs s.
Proof.
  intros Hx. revert s. induction evs as [|ev evs IH]; intros s; [done|]. cbn [run_circuit_io]. unfold mbind, st_bind.
  rewrite (io_turn_alike ctx ctx') by done. by destruct (io_turn ctx' r ev s) as [s1 [[]|e|]].
Qed.

Lemma busy_serves_intro ctx peer rng fresh pre msg1 t msg2 rest evs s' :
  circuit_runs ctx rng msg1 t msg2 rest evs s' →
  (∀ ctx' w ms script, ctx_alike ctx ctx' → fresh w (now_instant ctx') → presented ctx' peer (arriving w ms script) pre) →
  busy_serves ctx peer rng fresh pre msg1 msg2 rest evs s'.
Proof.
  intros [Hl Hr Hrun] Hpre n ar es0 es Hk Har s s1 [(Hcfg & Hauth & Hkey) (x1 & x2 & x3 & ts & Hown & <- & <-) Hdoc Hfresh].
  destruct (run_busy_ok es0 (mkBusy n []) Hk) as (Hok & _ & Ha); [done|]. fold s in Hok, Ha.
  assert (rsa_key_wf (nd_authority (bz_node s))) as Hks by (by rewrite Ha).
  destruct (busy_step_ok (BAccept ar peer (mkNet [] (pre ++ [Got msg1; Fine; Fine] ++ rest))) s Hks Hok) as (Hok1 & _ & Ha1).
  fold s1 in Hok1, Ha1. set (task := mkRelayTask peer (mkNet [] (pre ++ [Got msg1; Fine; Fine] ++ rest)) None Opening).
  assert (bz_tasks s1 !! length (bz_tasks s) = Some task) as Hi.
  { unfold s1. cbn [busy_step]. rewrite Har. cbn [negb bz_tasks]. by apply list_lookup_middle. }
  destruct (task_alone _ es s1 (length (bz_tasks s)) task x1 x2 (x3 :: ts) ltac:(by rewrite Ha1) Hok1 Hdoc Hi eq_refl eq_refl Hown)
    as (nb & u & ni & Hsecond & Hfit & ->).
  set (ctx' := node_ctx nb u ni) in *. cbn [tk_peer tk_net task].
  assert (ctx_alike ctx ctx') as Hx by (destruct Hfit as (? & ? & ? & ?); unfold ctx_alike; split_and!; congruence).
  pose proof Hx as (Hc & Hau & Hst & _).
  destruct (presented_turns ctx' peer x1 x2 x3 (nd_replay nb) (nd_metrics nb) pre msg1 rest t msg2) as (w & ms & Hturns);
    [rewrite <- Hau, <- Hauth, Ha1; exact Hks|apply Hpre; [done|by apply Hfresh in Hsecond]|done|by rewrite <- Hst|].
  cbn zeta. rewrite (turns_app ctx' peer [x1; x2; x3] ts). unfold arriving in Hturns. rewrite Hturns.
  rewrite (loop_turns_run ctx' peer ts t None None _ w ms s'); [done|].
  rewrite <- Hc, <- (run_circuit_io_alike ctx ctx') by done. exact Hrun.
Qed.
End serving.

(** ** Properties *)

Section load.
Context `{Base64Laws, Sha256Laws, Ed25519, RegistryJson, StateJsonLaws, ModInverseLaws, SnowLaws, ServerNames}.
Context `{Urls, ApiJson, Pem, UrlParser}.

(** C1. The system serves a request while each of its relays is busy.  With the
    hypotheses under which a request is served by three relays at rest, the
    application is told of success after exactly its request was read; and in
    any schedule of each relay, whatever other connections it accepts, whatever
    their turns do and whenever it refreshes its registry, the connection of this
    circuit comes to its loop with the transport, the next link, the destination
    and the effects that make the circuit ready: provided the relay gives it its
    turns, serves it by one document, and the guard has not taken the token by
    the time it is presented. *)
Theorem socks_request_served_under_load k cg cm cx route ag am ax pg pm px em ex peer_g peer_m peer_x key d ch c
    rg rm rx r rest e out req :
  (5 + k ≤ budget)%nat → request_wf r → rsa_key_wf key → 2 ^ 256 ≤ rsa_n key → modulus_bytes key = TOKEN_LEN →
  length (ch_m_raw ch) = M_RAW_LEN → can_issue ch c key d →
  build_path c (ch_now ch) (ch_gen ch) = Ok route →
  relays_up cg cm cx route ag am ax pg pm px em ex peer_m peer_x key → may_dial cx (request_dest r) req →
  ∃ c' msg1g msg2g msg1m msg2m msg1x msg2x L g m x f1 f2 f3 r1 r2 rr b2 b3 i3,
    let token := token_of key d (ch_m_raw ch) in
    socks_serve ch (mkSession (mkApp (request_bytes r ++ rest) e out [])
                              (mkDialler c (mkStreams [] (dial_replies msg2g r1 r2)))) =
      (mkSession (mkApp rest e (out ++ [[VER; METHOD_NO_AUTH]; reply_bytes REP_SUCCESS]) [])
         (mkDialler c' (mkStreams
           (dial_log ag (tls_name (sp_guard route)) (ch_m_raw ch) token msg1g f1 f2 f3) [])), Ok (Some L)) ∧
    busy_serves cg peer_g rg (λ w now, ¬ seen w now token) (client_preamble (ch_m_raw ch) token) msg1g msg2g
      (courier_script msg2m) [InFrame f1; InFrame f2; NextFrame rr; InFrame f3] g ∧
    io_log g = [WriteIn msg2g; FlushIn] ++ courier_log (mkExtendForward am msg1m) em r1 ++
      passed_on [b2] ++ passed_back [r2] ++ passed_on [b3] ∧
    busy_serves cm peer_m rm (λ _ _, True) relay_preamble msg1m msg2m (courier_script msg2x) [InFrame b2; InFrame b3] m ∧
    io_log m = [WriteIn msg2m; FlushIn] ++ courier_log (mkExtendForward ax msg1x) ex rr ++ passed_on [i3] ∧
    busy_serves cx peer_x rx (λ _ _, True) relay_preamble msg1x msg2x [] [InFrame i3] x ∧
    io_log x = [WriteIn msg2x; FlushIn; DialProxy req] ∧
    circuit_ready k L g m x.
Proof.
  intros Hb Hr Hk Hn Hlen Hraw Hissue Hpath Hup Hdial.
  destruct (request_runs k cg cm cx route ag am ax pg pm px em ex peer_m peer_x key d ch c rg rm rx r rest e out req
    Hb Hr Hk Hn Hissue Hpath Hup Hdial)
    as (c' & msg1g & msg2g & tg & msg1m & msg2m & tm & msg1x & msg2x & tx & L & g & m & x & f1 & f2 & f3 & r1 & r2 & rr & b2 & b3 & i3 &
      Hs & Hrung & Hlogg & Hrunm & Hlogm & Hrunx & Hlogx & Hready).
  destruct Hup as [(Hrg & Hrm & Hrx) _ _ _ _ Hkey _ _ (Ham & Hax)].
  exists c', msg1g, msg2g, msg1m, msg2m, msg1x, msg2x, L, g, m, x, f1, f2, f3, r1, r2, rr, b2, b3, i3.
  cbn zeta. split_and!; try done; (eapply busy_serves_intro; [eassumption|]);
    intros ctx' w ms script (Hc & Ha & _ & Hu) Hfresh.
  - apply client_presented; rewrite <- ?Hc, <- ?Ha; try done. apply Hissue.
  - apply admits_presented; [by rewrite <- Hc, Hrm|]. unfold admits. by rewrite <- Hc, <- Hu.
  - apply admits_presented; [by rewrite <- Hc, Hrx|]. unfold admits. by rewrite <- Hc, <- Hu.
Qed.
End load.

(** ** Witness *)

(** The guard of [Service], with a connection already waiting. *)
Definition load_guard : node :=
  mkNode (cfg service_guard) (mkKeypair (replicate 32 x01) (replicate 32 x01)) service_key (nd_world sample_started)
    (mkHandle (Some sample_verified) false) (ReplayWindow_new 10) (mkMetrics 0 0 0 0).
Definition load_before : list busy_event :=
  [BAccept sample_arrival (sample_peer_at x04) (mkNet [] [Got [PROTO_CLIENT]; TimesOut]); BTurn 0 [] InTimeout sample_now 0].

(** The new connection is task 1; the other one is refused meanwhile, and a
    third comes. *)
Definition load_between (f1 f2 rr f3 : list byte) : list busy_event :=
  [BTurn 1 [] InTimeout sample_now 1; BTurn 0 [] InTimeout sample_now 2; BTurn 1 [] InTimeout sample_now 3;
   BAccept sample_arrival (sample_peer_at x05) (mkNet [] [Got [x09]]); BTurn 1 [] InTimeout sample_now 4;
   BTurn 2 [] InTimeout sample_now 5; BTurn 1 [] (InFrame f1) sample_now 6; BTurn 1 [] (InFrame f2) sample_now 7;
   BTurn 1 [] (NextFrame rr) sample_now 8; BTurn 1 [] (InFrame f3) sample_now 9].

(** Without a refresh the registry handle stays as it is. *)
Lemma served_by_turns i doc es s :
  Forall (λ e, match e with
               | BTick _ _ => False
               | BTurn _ _ _ now_unix _ => RegistryHandle_usable (nd_handle (bz_node s)) now_unix = doc
               | _ => True end) es → served_by i doc es s.
Proof.
  revert s. induction es as [|e es IH]; intros s Hall; [done|]. apply Forall_cons in Hall as [He Hall].
  assert (nd_handle (bz_node (busy_step e s)) = nd_handle (bz_node s)) as Hh.
  { destruct e as [|ar peer sock|j rng ev u ni]; [done|by cbn [busy_step]; destruct (negb (routed ar))|].
    cbn [busy_step]. destruct (bz_tasks s !! j); [|done]. by destruct (conn_turn _ _ _ _ _ _). }
  split; [by destruct e|]. apply IH. by rewrite Hh.
Qed.

Definition load_sock (m_raw token msg1 : list byte) (rest : list answer) : net :=
  mkNet [] (client_preamble m_raw token ++ [Got msg1; Fine; Fine] ++ rest).
Definition load_state (sock : net) : busy :=
  busy_step (BAccept sample_arrival sample_peer sock) (run_busy load_before (mkBusy load_guard [])).

Lemma load_joining m_raw token msg1 rest f1 f2 rr f3 :
  joining service_guard [] [InFrame f1; InFrame f2; NextFrame rr; InFrame f3] (λ w now, ¬ seen w now token)
    (load_state (load_sock m_raw token msg1 rest)) 1 (load_between f1 f2 rr f3).
Proof.
  split.
  - vm_compute. done.
  - do 4 eexists. split; [reflexivity|]. done.
  - apply served_by_turns. repeat constructor; vm_compute; reflexivity.
  - intros n u ni (es1 & g & ev & es2 & Hes & Hown & ->).
    destruct es1 as [|e1 [|e2 [|e3 es1]]]; [discriminate Hown|discriminate Hes| |].
    + injection Hes as <- <- _. intros (t & Ht & _). vm_compute in Ht. discriminate Ht.
    + injection Hes as <- <- <- _. discriminate Hown.
Qed.

Lemma socks_request_served_under_load_witness :
  ∃ msg1g msg2g msg2m f1 f2 rr f3 r1 r2 s L g,
    let token := token_of service_key 1 sample_m_raw in
    let sock := load_sock sample_m_raw token msg1g (courier_script msg2m) in
    socks_serve service_chance (mkSession (mkApp (request_bytes sample_request1 ++ [x47]) UnexpectedEof [] [])
      (mkDialler the_client (mkStreams [] (dial_replies msg2g r1 r2)))) = (s, Ok (Some L)) ∧
    bz_tasks (run_busy (load_between f1 f2 rr f3) (load_state sock)) !! 1%nat =
      Some (mkRelayTask sample_peer (io_net g) (Some (mkCircuit Active)) (Looping (transport g) (next_link g) (dest_link g))).
Proof.
  destruct (socks_request_served_under_load 0 service_guard (sample_party Middle x02) (sample_party Exit x03) sample_route
    (sample_addr x01) (sample_addr x02) (sample_addr x03) (replicate 32 x01) (replicate 32 x02) (replicate 32 x03)
    (sp_middle sample_route) (sp_exit sample_route) sample_peer (sample_addr x01) (sample_addr x02) service_key 1
    service_chance the_client [] [] [] sample_request1 [x47] UnexpectedEof [] service_request)
    as (c' & msg1g & msg2g & msg1m & msg2m & msg1x & msg2x & L & g & m & x & f1 & f2 & f3 & r1 & r2 & rr & b2 & b3 & i3 & Hs & Hg & _).
  - apply Nat.leb_le. reflexivity.
  - split; [vm_compute; lia|]. split; [left|]. split; [vm_compute; lia|vm_compute; reflexivity].
  - split; vm_compute; congruence.
  - vm_compute. congruence.
  - vm_compute. reflexivity.
  - reflexivity.
  - exact service_can_issue.
  - vm_compute. reflexivity.
  - exact service_up.
  - exists sample_proxy. split; vm_compute; reflexivity.
  - do 12 eexists. split; [exact Hs|].
    refine (Hg load_guard sample_arrival load_before (load_between f1 f2 rr f3) _ eq_refl _).
    + split; vm_compute; congruence.
    + exact (load_joining sample_m_raw (token_of service_key 1 sample_m_raw) msg1g (courier_script msg2m) f1 f2 rr f3).
Defined.
