(* ===== verification/Shutdown.v ===== *)
(** QuietHop: the relay's tasks, and how they are told to stop.

    The four tasks that [main] of [relay/src/main.rs] spawns (the heartbeat of
    [relay/src/heartbeat.rs], [accept_loop], [metrics_accept_loop], and
    [redirect_loop] of [relay/src/port80.rs]) and its shutdown sequence.  Each is
    a loop around a [tokio::select!] whose first branch is
    [shutdown.notified()]; the scheduler is a list of events, so a theorem over
    all lists covers every interleaving.  [tokio::sync::Notify] is the class
    [Notify] with the two guarantees its documentation gives. *)

From stdpp Require Import functions.
From S2P Require Import Prelude Bytes Text NetAddr Cell Noise SampleNoise Layer Civil State Registry SampleRegistry.
From S2P Require Import RegistryCache Circuit Token Config Exit RelayRegistry Relay RelayTheorems StaticKey.
From S2P Require Import Path Blind Dial Client RelayNode.

(** ** [tokio::sync::Notify] *)

Class Notify := {
  notify : Type;
  Notified : Type;
  Notify_new : notify;
  notified : notify → Notified;
  notify_waiters : notify → notify;
  is_notified : notify → Notified → bool;
}.

(** A future receives the wake-ups that come after it was made, and no others:
    [notify_waiters] stores nothing for later. *)
Class NotifyLaws `{Notify} := {
  notified_fresh n : is_notified n (notified n) = false;
  notified_woken n : is_notified (notify_waiters n) (notified n) = true;
}.

(** ** The tasks *)

Inductive task_id := HeartbeatTask | AcceptTask | MetricsTask | Port80Task.

#[export] Instance task_id_eq_dec : EqDecision task_id.
Proof. solve_decision. Defined.

(** How the other branch of a task's [select!] completes. *)
Inductive branch := Elapsed | Accepted_ | AcceptFailed.

(** What the tasks do to the outside. *)
Inductive effect :=
  | HeartbeatSent (to bearer : string) (p : HeartbeatPayload)
  | ServeConnection
  | ServeMetrics
  | ServeRedirect (hostname : string).

#[export] Instance HeartbeatPayload_eq_dec : EqDecision HeartbeatPayload.
Proof. solve_decision. Defined.
#[export] Instance effect_eq_dec : EqDecision effect.
Proof. solve_decision. Defined.

(** [send_one]. *)
Definition send_one (cfg : RelayConfig) (static_pubkey : string) : effect :=
  HeartbeatSent (authority_heartbeat_url cfg) (relay_api_key cfg) (heartbeat_payload cfg static_pubkey).

(** The body of each loop's other branch: what it does before the loop selects
    again, or [None] where the task has no such branch. *)
Definition heartbeat_arm (cfg : RelayConfig) (static_pubkey : string) (b : branch) : option (list effect) :=
  match b with Elapsed => Some [send_one cfg static_pubkey] | _ => None end.
Definition accept_arm (b : branch) : option (list effect) :=
  match b with Accepted_ => Some [ServeConnection] | AcceptFailed => Some [] | Elapsed => None end.
Definition metrics_arm (b : branch) : option (list effect) :=
  match b with Accepted_ => Some [ServeMetrics] | AcceptFailed => Some [] | Elapsed => None end.
Definition redirect_arm (hostname : string) (b : branch) : option (list effect) :=
  match b with Accepted_ => Some [ServeRedirect hostname] | AcceptFailed => Some [] | Elapsed => None end.

Definition task_arm (cfg : RelayConfig) (static_pubkey : string) (i : task_id) : branch → option (list effect) :=
  match i with
  | HeartbeatTask => heartbeat_arm cfg static_pubkey
  | AcceptTask => accept_arm
  | MetricsTask => metrics_arm
  | Port80Task => redirect_arm (relay_hostname cfg)
  end.

Section shutdown.
Context `{Notify}.

(** A task is outside its [select!] (before it, or in a branch), waits in it
    with a future of its own, or has returned. *)
Inductive task_pc := Outside | Selecting (f : Notified) | Returned.

(** [main] waits for ctrl-c, then for the handles one after the other. *)
Inductive main_pc := AwaitSignal | Joining (handles : list task_id) | Exited.

Record relay_tasks := mkTasks {
  rt_cfg : RelayConfig; rt_pubkey : string; rt_shutdown : notify;
  rt_pc : task_id → task_pc; rt_log : list effect; rt_main : main_pc;
}.

Definition set_pc (i : task_id) (p : task_pc) (s : relay_tasks) : relay_tasks :=
  mkTasks (rt_cfg s) (rt_pubkey s) (rt_shutdown s) (<[i := p]> (rt_pc s)) (rt_log s) (rt_main s).
Definition add_log (es : list effect) (s : relay_tasks) : relay_tasks :=
  mkTasks (rt_cfg s) (rt_pubkey s) (rt_shutdown s) (rt_pc s) (rt_log s ++ es) (rt_main s).
Definition set_main (m : main_pc) (s : relay_tasks) : relay_tasks :=
  mkTasks (rt_cfg s) (rt_pubkey s) (rt_shutdown s) (rt_pc s) (rt_log s) m.

(** The tasks as [main] spawns them: the first heartbeat is on its way. *)
Definition spawn_tasks (cfg : RelayConfig) (static_pubkey : string) : relay_tasks :=
  mkTasks cfg static_pubkey Notify_new (λ _, Outside) [send_one cfg static_pubkey] AwaitSignal.

(** [shutdown.notify_waiters()] and the handles in the order they are awaited. *)
Definition signal_shutdown (s : relay_tasks) : relay_tasks :=
  mkTasks (rt_cfg s) (rt_pubkey s) (notify_waiters (rt_shutdown s)) (rt_pc s) (rt_log s)
    (Joining [HeartbeatTask; AcceptTask; MetricsTask; Port80Task]).

Inductive sched :=
  | EnterSelect (i : task_id)           (* the loop comes round: a fresh [notified()] *)
  | OtherBranch (i : task_id) (b : branch)
  | ShutdownBranch (i : task_id)
  | CtrlC
  | Join
  | Finish.                             (* the ACME driver is aborted, [main] returns *)

(** One step; [None] when it is not enabled. *)
Definition sched_step (e : sched) (s : relay_tasks) : option relay_tasks :=
  match e with
  | EnterSelect i =>
      match rt_pc s i with
      | Outside => Some (set_pc i (Selecting (notified (rt_shutdown s))) s)
      | _ => None
      end
  | OtherBranch i b =>
      match rt_pc s i with
      | Selecting _ =>
          es ← task_arm (rt_cfg s) (rt_pubkey s) i b;
          Some (add_log es (set_pc i Outside s))
      | _ => None
      end
  | ShutdownBranch i =>
      match rt_pc s i with
      | Selecting f => if is_notified (rt_shutdown s) f then Some (set_pc i Returned s) else None
      | _ => None
      end
  | CtrlC => match rt_main s with AwaitSignal => Some (signal_shutdown s) | _ => None end
  | Join =>
      match rt_main s with
      | Joining (i :: handles) =>
          match rt_pc s i with Returned => Some (set_main (Joining handles) s) | _ => None end
      | _ => None
      end
  | Finish => match rt_main s with Joining [] => Some (set_main Exited s) | _ => None end
  end.

Fixpoint run_sched (es : list sched) (s : relay_tasks) : option relay_tasks :=
  match es with
  | [] => Some s
  | e :: es => s' ← sched_step e s; run_sched es s'
  end.
End shutdown.

(** ** Lemmas *)

Section shutdown_lemmas.
Context `{NotifyLaws}.
Implicit Types (s : relay_tasks) (i : task_id) (es : list sched).

Lemma run_sched_app es es' s s' :
  run_sched es s = Some s' → run_sched (es ++ es') s = run_sched es' s'.
Proof.
  revert s. induction es as [|e es IH]; intros s; cbn [run_sched app]; [by intros [= ->]|].
  destruct (sched_step e s) as [s1|]; [apply IH|done].
Qed.

(** What every step keeps, every run keeps. *)
Lemma run_sched_keeps (I : relay_tasks → Prop) es s s' :
  (∀ e s s', e ∈ es → I s → sched_step e s = Some s' → I s') → I s → run_sched es s = Some s' → I s'.
Proof.
  intros Hstep. revert s. induction es as [|e es IH]; intros s HI; cbn [run_sched]; [by intros [= <-]|].
  destruct (sched_step e s) as [s1|] eqn:He; [|done]. apply IH.
  - intros e' t t' Hin. apply Hstep. by right.
  - apply (Hstep e s); [left|done..].
Qed.

(** The steps as a relation, for case analysis. *)
Inductive moves : sched → relay_tasks → relay_tasks → Prop :=
  | moves_enter i s : rt_pc s i = Outside →
      moves (EnterSelect i) s (set_pc i (Selecting (notified (rt_shutdown s))) s)
  | moves_other i b f fx s : rt_pc s i = Selecting f → task_arm (rt_cfg s) (rt_pubkey s) i b = Some fx →
      moves (OtherBranch i b) s (add_log fx (set_pc i Outside s))
  | moves_woken i f s : rt_pc s i = Selecting f → is_notified (rt_shutdown s) f = true →
      moves (ShutdownBranch i) s (set_pc i Returned s)
  | moves_signal s : rt_main s = AwaitSignal → moves CtrlC s (signal_shutdown s)
  | moves_join i hs s : rt_main s = Joining (i :: hs) → rt_pc s i = Returned →
      moves Join s (set_main (Joining hs) s)
  | moves_finish s : rt_main s = Joining [] → moves Finish s (set_main Exited s).

Lemma sched_step_moves e s s' : sched_step e s = Some s' ↔ moves e s s'.
Proof.
  split.
  - destruct e as [i|i b|i| | |]; cbn [sched_step].
    + destruct (rt_pc s i) eqn:Hp; [|done..]. intros [= <-]. by constructor.
    + destruct (rt_pc s i) eqn:Hp; [done| |done]. destruct (task_arm _ _ i b) as [fx|] eqn:Ha; [|done].
      intros [= <-]. by econstructor.
    + destruct (rt_pc s i) eqn:Hp; [done| |done]. destruct (is_notified _ _) eqn:Hn; [|done].
      intros [= <-]. by econstructor.
    + destruct (rt_main s) eqn:Hm; [|done..]. intros [= <-]. by constructor.
    + destruct (rt_main s) as [|[|i hs]|] eqn:Hm; [done..| |done]. destruct (rt_pc s i) eqn:Hp; [done..|].
      intros [= <-]. by econstructor.
    + destruct (rt_main s) as [|[|i hs]|] eqn:Hm; [done| |done..]. intros [= <-]. by constructor.
  - intros [i t Hp|i b f fx t Hp Ha|i f t Hp Hw|t Hm|i hs t Hm Hp|t Hm]; cbn [sched_step];
      [rewrite Hp|rewrite Hp, Ha|rewrite Hp, Hw|rewrite Hm|rewrite Hm, Hp|rewrite Hm]; done.
Qed.

(** *** Before the signal *)

(** Nobody returns: the futures the tasks hold have not been woken. *)
Definition before_signal s : Prop :=
  rt_main s = AwaitSignal →
  rt_shutdown s = Notify_new ∧ ∀ i, rt_pc s i = Outside ∨ rt_pc s i = Selecting (notified Notify_new).

(** Updating one task's place. *)
Lemma set_pc_all (P : task_pc → Prop) i p s : (∀ j, P (rt_pc s j)) → P p → ∀ j, P (rt_pc (set_pc i p s) j).
Proof.
  intros Hall Hp j. cbn. destruct (decide (i = j)) as [<-|Hne]; [by rewrite fn_lookup_insert|].
  by rewrite fn_lookup_insert_ne.
Qed.

Lemma before_signal_run es cfg pubkey s : run_sched es (spawn_tasks cfg pubkey) = Some s → before_signal s.
Proof.
  apply run_sched_keeps; [|by intros _; split; [|left]].
  intros e t t' _ HI Hs%sched_step_moves Hm.
  destruct Hs as [i t Hp|i b f fx t Hp Ha|i f t Hp Hw|t Hm'|i hs t Hm' Hp|t Hm']; cbn in Hm; try congruence;
    destruct (HI Hm) as [Hn Hall]; (split; [exact Hn|]).
  - apply (set_pc_all (λ p, p = Outside ∨ p = Selecting (notified Notify_new))); [done|]. right. by rewrite Hn.
  - apply (set_pc_all (λ p, p = Outside ∨ p = Selecting (notified Notify_new))); [done|]. by left.
  - destruct (Hall i) as [Hi|Hi]; rewrite Hi in Hp; [done|]. injection Hp as <-.
    by rewrite Hn, notified_fresh in Hw.
Qed.

(** *** A task that missed the signal *)

(** It is outside its [select!], or waits in it with a future made after the
    signal; its handle is still to be awaited. *)
Definition missed i s : Prop :=
  rt_shutdown s = notify_waiters Notify_new ∧
  (rt_pc s i = Outside ∨ rt_pc s i = Selecting (notified (notify_waiters Notify_new))) ∧
  ∃ hs, rt_main s = Joining hs ∧ i ∈ hs.

Lemma missed_step i e s s' : missed i s → sched_step e s = Some s' → missed i s'.
Proof.
  intros (Hn & Hpc & hs & Hm & Hi) Hs%sched_step_moves.
  destruct Hs as [j t Hp|j b f fx t Hp Ha|j f t Hp Hw|t Hm'|j hs' t Hm' Hp|t Hm']; rewrite ?Hm in *; try done;
    (split; [exact Hn|]).
  1-3: split; [|by exists hs]; cbn; destruct (decide (j = i)) as [->|Hne];
    [rewrite fn_lookup_insert|by rewrite fn_lookup_insert_ne].
  - right. by rewrite Hn.
  - by left.
  - destruct Hpc as [Hpc|Hpc]; rewrite Hpc in Hp; [done|]. injection Hp as <-. by rewrite Hn, notified_fresh in Hw.
  - injection Hm' as ->. split; [exact Hpc|]. exists hs'. split; [done|].
    apply elem_of_cons in Hi as [->|Hi]; [|done]. destruct Hpc; congruence.
  - injection Hm' as ->. by apply elem_of_nil in Hi.
Qed.

Lemma missed_run i es s s' : missed i s → run_sched es s = Some s' → missed i s'.
Proof. apply run_sched_keeps. intros e t t' _. apply missed_step. Qed.

(** *** Everybody heard it *)

(** Every task has returned or waits with a future the signal woke; of the
    tasks not yet awaited nothing is known but that. *)
Definition heard s : Prop :=
  rt_shutdown s = notify_waiters Notify_new ∧
  (∀ i, rt_pc s i = Returned ∨ rt_pc s i = Selecting (notified Notify_new)) ∧ rt_main s ≠ AwaitSignal.

Definition still_in (p : task_pc) : nat := match p with Returned => 0 | _ => 1 end.

(** How many steps are left. *)
Definition left_to_do s : nat :=
  still_in (rt_pc s HeartbeatTask) + still_in (rt_pc s AcceptTask) + still_in (rt_pc s MetricsTask) +
  still_in (rt_pc s Port80Task) +
  match rt_main s with AwaitSignal => 0 | Joining hs => S (length hs) | Exited => 0 end.

Lemma heard_step e s s' :
  (∀ i b, e ≠ OtherBranch i b) → heard s → sched_step e s = Some s' →
  heard s' ∧ S (left_to_do s') = left_to_do s ∧ rt_log s' = rt_log s.
Proof.
  intros Hne (Hn & Hpc & Hm) Hs%sched_step_moves.
  destruct Hs as [i t Hp|i b f fx t Hp Ha|i f t Hp Hw|t Hm'|i hs t Hm' Hp|t Hm'].
  - destruct (Hpc i); congruence.
  - by destruct (Hne i b).
  - split; [|split; [|done]].
    + split; [exact Hn|split; [|exact Hm]].
      apply (set_pc_all (λ p, p = Returned ∨ p = Selecting (notified Notify_new))); [exact Hpc|]. by left.
    + unfold left_to_do. destruct i; cbn; rewrite Hp, fn_lookup_insert, !fn_lookup_insert_ne by done; cbn; lia.
  - done.
  - split; [by split|]. split; [|done]. unfold left_to_do. cbn. rewrite Hm'. cbn. lia.
  - split; [by split|]. split; [|done]. unfold left_to_do. cbn. rewrite Hm'. cbn. lia.
Qed.

Lemma heard_progress s :
  heard s → rt_main s = Exited ∨ ∃ e s', (∀ i b, e ≠ OtherBranch i b) ∧ sched_step e s = Some s'.
Proof.
  intros (Hn & Hpc & Hm). destruct (rt_main s) as [|[|i hs]|] eqn:Hmain; [done| | |by left]; right.
  - exists Finish. eexists. split; [done|]. cbn. by rewrite Hmain.
  - destruct (Hpc i) as [Hi|Hi].
    + exists Join. eexists. split; [done|]. cbn. by rewrite Hmain, Hi.
    + exists (ShutdownBranch i). eexists. split; [done|]. cbn. by rewrite Hi, Hn, notified_woken.
Qed.

Lemma heard_run es s s' :
  (∀ i b, OtherBranch i b ∉ es) → heard s → run_sched es s = Some s' →
  heard s' ∧ length es + left_to_do s' = left_to_do s ∧ rt_log s' = rt_log s.
Proof.
  revert s. induction es as [|e es IH]; intros s Hno Hh; cbn [run_sched]; [by intros [= <-]|].
  destruct (sched_step e s) as [s1|] eqn:He; [|done]. intros Hr.
  destruct (heard_step e s s1) as (Hh1 & Hl1 & Hlog1); [|done..|].
  { intros i b ->. apply (Hno i b). by left. }
  destruct (IH s1) as (Hh' & Hl & Hlog); [|done..|].
  { intros i b Hin. apply (Hno i b). by right. }
  cbn. split_and!; [done|lia|congruence].
Qed.

Lemma heard_exits s : heard s → ∃ es s', run_sched es s = Some s' ∧ rt_main s' = Exited.
Proof.
  remember (left_to_do s) as n eqn:Hn. revert s Hn. induction n as [|n IH]; intros s Hn Hh;
    (destruct (heard_progress s Hh) as [Hex|(e & s1 & Hne & Hs)]; [by exists [], s|]);
    destruct (heard_step e s s1 Hne Hh Hs) as (Hh1 & Hl & _); [lia|].
  destruct (IH s1) as (es & s' & Hr & Hex); [lia|done|]. exists (e :: es), s'. cbn. by rewrite Hs.
Qed.

Lemma all_selecting_hear s :
  before_signal s → rt_main s = AwaitSignal → (∀ i, ∃ f, rt_pc s i = Selecting f) → heard (signal_shutdown s).
Proof.
  intros Hb Hm Hsel. destruct (Hb Hm) as [Hn Hall]. split_and!; [cbn; by rewrite Hn| |done].
  intros i. right. destruct (Hsel i) as [f Hf], (Hall i) as [Hi|Hi]; cbn; congruence.
Qed.
End shutdown_lemmas.

(** ** Sample *)

(** [Notify] by counting the calls of [notify_waiters]. *)
#[export] Instance sample_notify : Notify := {|
  notify := nat; Notified := nat; Notify_new := 0; notified n := n; notify_waiters := S;
  is_notified n f := f <? n;
|}.
#[export] Instance sample_notify_laws : NotifyLaws.
Proof. constructor; intros n; simpl; [apply Nat.ltb_irrefl|apply Nat.ltb_lt; lia]. Qed.

(** ** Properties *)

Section shutdown_theorems.
Context `{NotifyLaws}.

(** C27. When a relay can be stopped, exactly.  At ctrl-c, in any state the
    scheduler can have brought the tasks to, the process can still reach its end
    if and only if each of the four tasks is inside its [select!] at that very
    moment.  One task that is not (the heartbeat waits up to ten seconds for its
    answer; an accept loop is between two turns) has lost the signal for good:
    whatever happens afterwards, [main] waits for its handle for ever. *)
Theorem shutdown_exact cfg pubkey es s :
  run_sched es (spawn_tasks cfg pubkey) = Some s → rt_main s = AwaitSignal →
  ((∃ es' s', run_sched (CtrlC :: es') s = Some s' ∧ rt_main s' = Exited) ↔
   (∀ i, ∃ f, rt_pc s i = Selecting f)).
Proof.
  intros Hb%before_signal_run Hm. cbn [run_sched sched_step]. rewrite Hm. cbn [mbind option_bind]. split.
  - intros (es' & s' & Hr & Hex) i. destruct (Hb Hm) as [Hn Hall].
    destruct (Hall i) as [Hi|Hi]; [|by eauto].
    assert (missed i (signal_shutdown s)) as Hmiss.
    { split; [cbn; by rewrite Hn|]. split; [by left|]. eexists. split; [done|].
      destruct i; repeat (left || right). }
    destruct (missed_run i es' _ _ Hmiss Hr) as (_ & _ & hs & Hm' & _). congruence.
  - intros Hsel. apply heard_exits. by apply all_selecting_hear.
Qed.

(** C28. A shutdown that everybody hears is orderly and finite.  If every task
    is in its [select!] at ctrl-c, and no other branch beats the notification,
    then no run has more than nine steps after the signal, one that has not
    reached the end can go on, and on the way no heartbeat is sent and no
    connection is taken. *)
Theorem shutdown_drains cfg pubkey es s es' s' :
  run_sched es (spawn_tasks cfg pubkey) = Some s → rt_main s = AwaitSignal →
  (∀ i, ∃ f, rt_pc s i = Selecting f) →
  run_sched (CtrlC :: es') s = Some s' → (∀ i b, OtherBranch i b ∉ es') →
  (length es' ≤ 9)%nat ∧ rt_log s' = rt_log s ∧
  (rt_main s' = Exited ∨ ∃ e s'', (∀ i b, e ≠ OtherBranch i b) ∧ sched_step e s' = Some s'').
Proof.
  intros Hb%before_signal_run Hm Hsel. cbn [run_sched sched_step]. rewrite Hm. cbn [mbind option_bind]. intros Hr Hno.
  pose proof (all_selecting_hear s Hb Hm Hsel) as Hh.
  destruct (heard_run es' _ _ Hno Hh Hr) as (Hh' & Hl & Hlog). split; [|split; [done|by apply heard_progress]].
  assert (left_to_do (signal_shutdown s) ≤ 9)%nat; [|lia]. unfold left_to_do. cbn.
  destruct (rt_pc s HeartbeatTask), (rt_pc s AcceptTask), (rt_pc s MetricsTask), (rt_pc s Port80Task); simpl; lia.
Qed.

(** What one event of the scheduler makes the tasks do. *)
Definition sched_effects (cfg : RelayConfig) (pubkey : string) (e : sched) : list effect :=
  match e with OtherBranch i b => default [] (task_arm cfg pubkey i b) | _ => [] end.

(** Everything the tasks do, they do because a branch of theirs fired: the
    first heartbeat goes out at once, then one for each time the interval has
    elapsed and one connection for each one accepted, in that order and nothing
    else.  Every heartbeat is the same: the configured address and key, and of
    the relay's static key only the public half. *)
Theorem tasks_do_exactly cfg pubkey es s :
  run_sched es (spawn_tasks cfg pubkey) = Some s →
  rt_log s = send_one cfg pubkey :: flat_map (sched_effects cfg pubkey) es ∧
  ∀ to bearer p, HeartbeatSent to bearer p ∈ rt_log s →
    to = authority_heartbeat_url cfg ∧ bearer = relay_api_key cfg ∧ hb_static_pubkey p = pubkey.
Proof.
  intros Hr. assert (∀ t t' es, rt_cfg t = cfg → rt_pubkey t = pubkey → run_sched es t = Some t' →
    rt_log t' = rt_log t ++ flat_map (sched_effects cfg pubkey) es) as Hlog.
  { clear. intros t t' es. revert t. induction es as [|e es IH]; intros t Hc Hp; cbn [run_sched];
      [intros [= <-]; by rewrite app_nil_r|].
    destruct (sched_step e t) as [t1|] eqn:Hs; [|done]. intros Hr.
    assert (rt_cfg t1 = cfg ∧ rt_pubkey t1 = pubkey ∧ rt_log t1 = rt_log t ++ sched_effects cfg pubkey e) as (Hc1 & Hp1 & Hl1).
    { apply sched_step_moves in Hs. destruct Hs as [| i b f fx t Hi Ha | | | |]; cbn; rewrite ?app_nil_r; try done.
      rewrite <- Hc, <- Hp, Ha. done. }
    rewrite (IH t1 Hc1 Hp1 Hr), Hl1, <- app_assoc. done. }
  specialize (Hlog (spawn_tasks cfg pubkey) s es eq_refl eq_refl Hr). cbn in Hlog. split; [done|]. intros to bearer p. rewrite Hlog.
  assert (∀ es, HeartbeatSent to bearer p ∈ flat_map (sched_effects cfg pubkey) es →
    HeartbeatSent to bearer p = send_one cfg pubkey) as Hin.
  { clear. intros es Hin. apply list_elem_of_In, in_flat_map in Hin as (e & _ & Hin%list_elem_of_In).
    destruct e as [|[] []| | | |]; cbn in Hin; rewrite ?list_elem_of_singleton in Hin;
      first [done|by apply elem_of_nil in Hin]. }
  intros [Hh|Hh%Hin]%elem_of_cons; injection Hh as -> -> ->; done.
Qed.
End shutdown_theorems.

(** ** Witnesses *)

(** Every task has come to its [select!] but the heartbeat, whose first
    request is still unanswered. *)
Definition sample_startup : list sched := [EnterSelect AcceptTask; EnterSelect MetricsTask; EnterSelect Port80Task].
Definition sample_tasks : relay_tasks := spawn_tasks (sample_cfg Guard [80; 443]%Z) "ab".
Definition sample_busy : relay_tasks := default sample_tasks (run_sched sample_startup sample_tasks).
Definition sample_quiet : relay_tasks :=
  default sample_tasks (run_sched (sample_startup ++ [EnterSelect HeartbeatTask]) sample_tasks).

Lemma shutdown_exact_witness :
  (¬ ∃ es s, run_sched (CtrlC :: es) sample_busy = Some s ∧ rt_main s = Exited) ∧
  ∃ es s, run_sched (CtrlC :: es) sample_quiet = Some s ∧ rt_main s = Exited.
Proof.
  split.
  - intros Hex.
    destruct (proj1 (shutdown_exact (sample_cfg Guard [80; 443]%Z) "ab" sample_startup sample_busy eq_refl eq_refl) Hex
      HeartbeatTask) as [f Hf]. discriminate Hf.
  - apply (proj2 (shutdown_exact (sample_cfg Guard [80; 443]%Z) "ab" (sample_startup ++ [EnterSelect HeartbeatTask])
      sample_quiet eq_refl eq_refl)). intros []; eexists; reflexivity.
Defined.

Lemma shutdown_drains_witness :
  ∃ s, run_sched [CtrlC; ShutdownBranch MetricsTask; ShutdownBranch HeartbeatTask; Join] sample_quiet = Some s ∧
    rt_log s = rt_log sample_quiet.
Proof.
  eexists. split; [reflexivity|].
  apply (shutdown_drains (sample_cfg Guard [80; 443]%Z) "ab" (sample_startup ++ [EnterSelect HeartbeatTask]) sample_quiet
    [ShutdownBranch MetricsTask; ShutdownBranch HeartbeatTask; Join]); [reflexivity..| |reflexivity|].
  - intros []; eexists; reflexivity.
  - intros i b Hin. rewrite !elem_of_cons in Hin. destruct Hin as [Hin|[Hin|[Hin|Hin]]]; [discriminate..|].
    by apply elem_of_nil in Hin.
Defined.

Lemma tasks_do_exactly_witness :
  ∃ s, run_sched (sample_startup ++ [OtherBranch Port80Task Accepted_; EnterSelect HeartbeatTask;
      OtherBranch HeartbeatTask Elapsed]) sample_tasks = Some s ∧
    rt_log s = [send_one (sample_cfg Guard [80; 443]%Z) "ab"; ServeRedirect "host";
                send_one (sample_cfg Guard [80; 443]%Z) "ab"].
Proof.
  eexists. split; [reflexivity|].
  apply (tasks_do_exactly (sample_cfg Guard [80; 443]%Z) "ab" (sample_startup ++ [OtherBranch Port80Task Accepted_;
    EnterSelect HeartbeatTask; OtherBranch HeartbeatTask Elapsed])). reflexivity.
Defined.
