(* ===== verification/Flight.v ===== *)
(** QuietHop: layers in flight.

    While both directions of a circuit are busy, frames are on their way: a
    sender's transport is ahead of its receiver's by the frames in between.
    [SnowFlight] says what the sources rely on of [snow] then: a transport
    decrypts what its peer encrypted, in order, however much of it is under
    way, and its two directions do not touch each other.  The lemmas carry this
    to the layers of [Layer]: what is sealed joins the queue, what is peeled
    leaves it. *)

From S2P Require Import Prelude Bytes Cell NetAddr Noise SampleNoise Layer.

Class SnowFlight `{SnowLaws} := {
  (** [flight k q a b]: [q] is what [a] has encrypted and [b] has not yet
      decrypted, each plaintext with its ciphertext, the oldest first, and the
      next [k] messages of [a] will not exhaust the nonce. *)
  flight : nat → list (list byte * list byte) → TransportState → TransportState → Prop;
  flight_empty k a b : chan k a b → flight k [] a b;
  flight_write k q a b pt :
    flight (S k) q a b → length pt + NOISE_TAG_LEN ≤ Z.to_nat 65535 →
    ∃ a' ct, ts_write_message a pt (length pt + NOISE_TAG_LEN) = (a', Some ct) ∧ length ct = length pt + NOISE_TAG_LEN ∧
      flight k (q ++ [(pt, ct)]) a' b ∧ (∀ j p c, flight j p c a → flight j p c a');
  flight_read k q a b pt ct :
    flight k ((pt, ct) :: q) a b →
    ∃ b', ts_read_message b ct (length pt) = (b', Some pt) ∧ flight k q a b' ∧ (∀ j p c, flight j p b c → flight j p b' c);
}.

(** The sample transport does so: a ciphertext is the tag of its number before
    the plaintext. *)
#[export, refine] Instance sample_snow_flight : SnowFlight := {|
  flight _ q a b := Sample.t_tx a = Sample.t_rx b ∧ Sample.t_tx_n a = Sample.t_rx_n b + length q ∧
    ∀ i pt ct, q !! i = Some (pt, ct) → ct = Sample.tag (Sample.t_tx a) (Sample.t_rx_n b + i) ++ pt |}.
Proof.
  - intros k a b [Hk Hn]. split; [exact Hk|]. split; [cbn [length]; lia|]. intros i pt ct Hi. by rewrite lookup_nil in Hi.
  - intros k q a b pt (Hk & Hn & Hq) Hpt.
    exists (Sample.mkTransport (Sample.t_tx a) (S (Sample.t_tx_n a)) (Sample.t_rx a) (Sample.t_rx_n a)),
      (Sample.tag (Sample.t_tx a) (Sample.t_tx_n a) ++ pt).
    split; [change ts_write_message with Sample.write; unfold Sample.write; rewrite decide_True by (split; lia); reflexivity|].
    split; [rewrite length_app, Sample.length_tag; lia|]. split; [|intros j p c Hc; exact Hc].
    split; [exact Hk|]. split; [rewrite length_app; cbn; lia|]. intros i pt' ct' Hi.
    apply lookup_app_Some in Hi as [Hi|[Hi Hl]]; [by apply Hq|]. apply list_lookup_singleton_Some in Hl as [Hz Hl].
    injection Hl as <- <-. cbn [Sample.t_tx]. rewrite Hn. by replace i with (length q) by lia.
  - intros k q a b pt ct (Hk & Hn & Hq). pose proof (Hq 0 pt ct eq_refl) as Hct. rewrite Nat.add_0_r in Hct.
    exists (Sample.mkTransport (Sample.t_tx b) (Sample.t_tx_n b) (Sample.t_rx b) (S (Sample.t_rx_n b))).
    pose proof (Sample.length_tag (Sample.t_tx a) (Sample.t_rx_n b)) as Ht.
    split; [|split; [|intros j p c Hc; exact Hc]].
    + change ts_read_message with Sample.read. unfold Sample.read. rewrite Hct, decide_True.
      * by rewrite drop_app_length' by done.
      * rewrite <- Hk. rewrite take_app_length' by done. split; [done|]. rewrite length_app. lia.
    + cbn [length] in Hn. split; [exact Hk|]. cbn. split; [lia|]. intros i pt' ct' Hi.
      rewrite (Hq (S i) pt' ct' Hi). by rewrite Nat.add_succ_r.
Defined.

(** *** Through the source's calls *)

Section flight_lemmas.
Context `{SnowFlight}.
Implicit Types (q : list (list byte * list byte)).

Lemma encrypt_flight k q a b pt out :
  flight (S k) q a b → length pt + NOISE_TAG_LEN ≤ Z.to_nat 65535 → length out = length pt + NOISE_TAG_LEN →
  ∃ a' ct, Transport_encrypt pt out a = (a', Ok ct) ∧ length ct = length pt + NOISE_TAG_LEN ∧
    flight k (q ++ [(pt, ct)]) a' b ∧ (∀ j p c, flight j p c a → flight j p c a').
Proof.
  intros Hf Hpt Hout. destruct (flight_write k q a b pt Hf Hpt) as (a' & ct & Hw & Hl & Hrest). exists a', ct.
  split; [|by split]. unfold Transport_encrypt. rewrite Hout, Nat.eqb_refl. cbn [negb]. rewrite Hw, Hl, Nat.eqb_refl. cbn [negb].
  by rewrite drop_ge, app_nil_r by lia.
Qed.

Lemma decrypt_flight k q a b pt ct out :
  flight k ((pt, ct) :: q) a b → length ct = length pt + NOISE_TAG_LEN → length out = length pt →
  ∃ b', Transport_decrypt ct out b = (b', Ok pt) ∧ flight k q a b' ∧ (∀ j p c, flight j p b c → flight j p b' c).
Proof.
  intros Hf Hct Hout. destruct (flight_read k q a b pt ct Hf) as (b' & Hr & Hrest). exists b'. split; [|done].
  unfold Transport_decrypt. rewrite (proj2 (Nat.ltb_ge _ _)) by lia. rewrite Hout, Hct, Nat.add_sub, Nat.eqb_refl. cbn [negb].
  rewrite Hr, Nat.eqb_refl. cbn [negb]. by rewrite drop_ge, app_nil_r by lia.
Qed.

(** Two transports with frames under way in both directions, and at least so
    many more messages to go. *)
Definition linked (ku kd : nat) (qu qd : list (list byte * list byte)) (a b : TransportState) : Prop :=
  (∃ k, ku ≤ k ∧ flight k qu a b) ∧ (∃ k, kd ≤ k ∧ flight k qd b a).

Lemma linked_sym ku kd qu qd a b : linked ku kd qu qd a b → linked kd ku qd qu b a.
Proof. intros [? ?]. by split. Qed.

Lemma linked_fewer ku kd ku' kd' qu qd a b : ku' ≤ ku → kd' ≤ kd → linked ku kd qu qd a b → linked ku' kd' qu qd a b.
Proof. intros Hu Hd [(k1 & Hk1 & ?) (k2 & Hk2 & ?)]. split; [exists k1|exists k2]; (split; [lia|done]). Qed.

Lemma linked_paired k a b : paired k a b → linked k k [] [] a b.
Proof. intros [? ?]. split; exists k; (split; [lia|by apply flight_empty]). Qed.

Lemma linked_encrypt ku kd qu qd a b plain layers :
  linked (S ku) kd qu qd a b → 1 ≤ layers ≤ MAX_LAYERS → length plain = DISPOSITION_LEN + body_len layers →
  ∃ a' wire,
    st_map_err LayerNoise (Transport_encrypt plain
      (replicate (DISPOSITION_LEN + body_len layers + NOISE_TAG_LEN) x00)) a = (a', Ok wire) ∧
    length wire = link_cell_len layers ∧ linked ku kd (qu ++ [(plain, wire)]) qd a' b.
Proof.
  intros [(k1 & Hk1 & Hf) (k2 & Hk2 & Hb)] [Hl Hm] Hp. pose proof (link_cell_len_noise layers Hm) as Hn.
  pose proof (link_cell_len_body layers Hl) as Hlc. destruct k1 as [|k1]; [lia|].
  destruct (encrypt_flight k1 qu a b plain (replicate (DISPOSITION_LEN + body_len layers + NOISE_TAG_LEN) x00) Hf)
    as (a' & ct & He & Hct & Hf' & Hside); rewrite ?length_replicate; try lia.
  exists a', ct. split; [by apply st_map_err_Ok|]. split; [lia|]. split; [exists k1; split; [lia|done]|]. exists k2. auto.
Qed.

Lemma linked_to_me ku kd qu qd a b c layers :
  linked (S ku) kd qu qd a b → 1 ≤ layers ≤ MAX_LAYERS → length (payload c) ≤ CELL_PAYLOAD_LEN →
  ∃ a' wire, seal_to_me c layers a = (a', Ok wire) ∧ length wire = link_cell_len layers ∧
    linked ku kd (qu ++ [(to_me_plain c layers, wire)]) qd a' b.
Proof.
  intros Hk Hl Hc. destruct (linked_encrypt ku kd qu qd a b (to_me_plain c layers) layers Hk Hl)
    as (a' & w & He & Hw & Hk'); [apply length_to_me_plain; [lia|done]|].
  exists a', w. rewrite seal_to_me_eq by (done || lia). done.
Qed.

Lemma linked_forward ku kd qu qd a b blob layers :
  linked (S ku) kd qu qd a b → 2 ≤ layers ≤ MAX_LAYERS → length blob = link_cell_len (layers - 1) →
  ∃ a' wire, seal_forward blob layers a = (a', Ok wire) ∧ length wire = link_cell_len layers ∧
    linked ku kd (qu ++ [(forward_plain blob, wire)]) qd a' b.
Proof.
  intros Hk Hl Hb. destruct layers as [|n]; [lia|]. rewrite Nat.sub_succ, Nat.sub_0_r in Hb.
  destruct (linked_encrypt ku kd qu qd a b (forward_plain blob) (S n) Hk) as (a' & w & He & Hw & Hk'); [lia| |].
  { rewrite body_len_succ. unfold forward_plain, DISPOSITION_LEN. simpl. lia. }
  exists a', w. rewrite seal_forward_eq by done. by rewrite body_len_succ in He.
Qed.

Lemma linked_peel ku kd qu qd a b plain wire layers :
  linked ku kd ((plain, wire) :: qu) qd a b → 1 ≤ layers →
  length plain = DISPOSITION_LEN + body_len layers → length wire = link_cell_len layers →
  ∃ b', peel wire layers b = (b', peel_plain plain layers) ∧ linked ku kd qu qd a b'.
Proof.
  intros [(k1 & Hk1 & Hf) (k2 & Hk2 & Hb)] Hl Hp Hw. pose proof (link_cell_len_body layers Hl) as Hlc.
  destruct (decrypt_flight k1 qu a b plain wire (replicate (DISPOSITION_LEN + body_len layers) x00) Hf)
    as (b' & Hd & Hf' & Hside); rewrite ?length_replicate; try lia.
  exists b'. split; [|split; [by exists k1|exists k2; auto]].
  unfold peel. rewrite Hw, Nat.eqb_refl. cbn [negb]. erewrite st_bind_Ok_eq by (by apply st_map_err_Ok). apply lift_eq.
Qed.

Lemma linked_peel_to_me ku kd qu qd a b c wire layers :
  linked ku kd ((to_me_plain c layers, wire) :: qu) qd a b → 1 ≤ layers → length (payload c) ≤ CELL_PAYLOAD_LEN →
  length wire = link_cell_len layers →
  ∃ b', peel wire layers b = (b', Ok (ToMe c)) ∧ linked ku kd qu qd a b'.
Proof.
  intros Hk Hl Hc Hw. pose proof (length_to_me_plain c layers Hl Hc) as Hlen.
  destruct (linked_peel ku kd qu qd a b _ wire layers Hk Hl Hlen Hw) as (b' & Hp & Hk'). exists b'. split; [|done].
  rewrite Hp. f_equal. apply peel_plain_to_me; [done|done|]. exists (replicate (CELL_PAYLOAD_LEN - length (payload c)) x00).
  fold (cell_frame c). split; [done|]. by apply length_cell_frame.
Qed.

Lemma linked_peel_forward ku kd qu qd a b blob wire layers :
  linked ku kd ((forward_plain blob, wire) :: qu) qd a b → 2 ≤ layers → length blob = link_cell_len (layers - 1) →
  length wire = link_cell_len layers →
  ∃ b', peel wire layers b = (b', Ok (Forward blob)) ∧ linked ku kd qu qd a b'.
Proof.
  intros Hk Hl Hb Hw. destruct layers as [|n]; [lia|]. rewrite Nat.sub_succ, Nat.sub_0_r in Hb.
  assert (length (forward_plain blob) = DISPOSITION_LEN + body_len (S n)) as Hlen
    by (rewrite body_len_succ; unfold forward_plain, DISPOSITION_LEN; simpl; lia).
  destruct (linked_peel ku kd qu qd a b _ wire (S n) Hk) as (b' & Hp & Hk'); [lia|done|done|]. exists b'. split; [|done].
  rewrite Hp. f_equal. apply peel_plain_forward; [done|]. split; [lia|done].
Qed.
End flight_lemmas.
