(* ===== verification/Splice.v ===== *)
(** QuietHop: the two copies between an application and its circuit.

    The end of [serve] of [quiethop-client/src/socks5.rs] (two
    [tokio::io::copy] under one [join!]) and the [CircuitStream] of
    [client/src/dial.rs], whose reads and writes only pass on to one end of a
    [tokio::io::duplex] pipe; the other end is [circuit_task]'s, of [Dial].  A
    session is a record, its life a list of events: what one of the copies or
    the task does next.  Each copy reads into a buffer of its own and writes
    from it, as two events; the pipe is two queues of bytes, both bounded by
    [DUPLEX_BUF]; while the task writes a cell's bytes to the pipe it does
    nothing else.  A copy ends at the end of its input, with all it read
    written, or with an error, and shuts nothing down.  How much a copy's
    buffer holds is tokio's, the class [TokioCopy]. *)

From S2P Require Import Prelude Bytes Text NetAddr Ipv6 Cell Noise SampleNoise Layer Civil State Registry SampleRegistry.
From S2P Require Import RegistryCache Circuit Token Config Exit RelayRegistry Relay RelayTheorems Path Dial.
From S2P Require Import EndToEnd.

Definition DUPLEX_BUF : nat := 64 * 1024.
Lemma duplex_buf_pos : 1 ≤ DUPLEX_BUF.
Proof. apply Nat.leb_le. vm_compute. reflexivity. Qed.
Lemma read_buf_pos : 1 ≤ USER_READ_BUF.
Proof. apply Nat.leb_le. vm_compute. reflexivity. Qed.

#[global] Arguments USER_READ_BUF : simpl never.
#[global] Arguments DUPLEX_BUF : simpl never.
#[global] Opaque USER_READ_BUF DUPLEX_BUF.

(** The buffer of one [tokio::io::copy]; it holds something. *)
Class TokioCopy := { COPY_BUF : nat; COPY_BUF_pos : 1 ≤ COPY_BUF }.
#[export, refine] Instance sample_copy : TokioCopy := {| COPY_BUF := 8 * 1024 |}.
Proof. apply Nat.leb_le. vm_compute. reflexivity. Defined.

Section splice.
Context `{Snow, ServerNames, TC : TokioCopy}.

Record session_io := mkSessionIo {
  sn_fwd_done : bool; sn_bck_done : bool; sn_dropped : bool;
  sn_fwd_buf : list byte; sn_bck_buf : list byte;  (* read by a copy and not yet written *)
  sn_up : list byte; sn_down : list byte;          (* in the pipe, to the task and from it *)
  sn_task : task;
  sn_handing : list byte;                          (* what its [write_all] to the user has still to write *)
  sn_task_done : bool;
}.

(** The bytes a log hands to the user. *)
Definition user_bytes (l : list client_action) : list byte :=
  concat (omap (λ a, match a with UserWrite p => Some p | _ => None end) l).

(** [serve] once the circuit is there. *)
Definition splice_start (layers : Layers) (log : list client_action) : session_io :=
  mkSessionIo false false false [] [] [] [] (mkTask layers (mkStreams log [])) [] false.

(** A turn of the task, [rs] being how its operations on the TLS stream go.
    What it has for the user it then hands over, byte by byte as the pipe has
    room; when the loop ends, the task tears down. *)
Definition task_step (ev : task_event) (rs : list reply) (s : session_io) : session_io :=
  let 'mkSessionIo fd bd dr fb bb up dn t _ _ := s in
  let '(t', r) := task_turn ev (mkTask (t_layers t) (mkStreams (sent (t_net t)) rs)) in
  match r with
  | Ok Again => mkSessionIo fd bd dr fb bb up dn t' (user_bytes (drop (length (sent (t_net t))) (sent (t_net t')))) false
  | Ok Break | Err _ => mkSessionIo fd bd dr fb bb up dn (teardown t') [] true
  | Panic => mkSessionIo fd bd dr fb bb up dn t' [] true
  end.

Inductive splice_event :=
  | FwdReads (l : list byte)                    (* the forward copy reads from the application *)
  | FwdWrites (n : nat)                         (* and writes to the circuit *)
  | FwdEnds                                     (* the application's end of stream, all of it written *)
  | FwdFails                                    (* an error; what is in the buffer is lost *)
  | BckReads (n : nat)                          (* the other copy reads from the circuit *)
  | BckWrites (n : nat)                         (* and writes to the application *)
  | BckEnds | BckFails
  | BothJoined                                  (* [join!] returns, [serve] returns, the stream is dropped *)
  | TaskReads (n : nat) (rs : list reply)
  | TaskReadsEnd (rs : list reply)
  | TaskFrame (f : list byte)
  | TaskWrites (n : nat) | TaskWriteFails
  | TaskLinkEnds (rs : list reply).

(** One step; [None] when it is not enabled. *)
Definition splice_step (e : splice_event) (s : session_io) : option session_io :=
  let 'mkSessionIo fd bd dr fb bb up dn t hd td := s in
  match e with
  | FwdReads l =>
      if decide (fd = false ∧ 1 ≤ length l ∧ length fb + length l ≤ COPY_BUF)
      then Some (mkSessionIo fd bd dr (fb ++ l) bb up dn t hd td) else None
  | FwdWrites n =>
      if decide (fd = false ∧ td = false ∧ 1 ≤ n ≤ length fb ∧ length up + n ≤ DUPLEX_BUF)
      then Some (mkSessionIo fd bd dr (drop n fb) bb (up ++ take n fb) dn t hd td) else None
  | FwdEnds => if decide (fd = false ∧ fb = []) then Some (mkSessionIo true bd dr fb bb up dn t hd td) else None
  | FwdFails => if decide (fd = false) then Some (mkSessionIo true bd dr fb bb up dn t hd td) else None
  | BckReads n =>
      if decide (bd = false ∧ 1 ≤ n ≤ length dn ∧ length bb + n ≤ COPY_BUF)
      then Some (mkSessionIo fd bd dr fb (bb ++ take n dn) up (drop n dn) t hd td) else None
  | BckWrites n =>
      if decide (bd = false ∧ 1 ≤ n ≤ length bb)
      then Some (mkSessionIo fd bd dr fb (drop n bb) up dn t hd td) else None
  | BckEnds =>
      if decide (bd = false ∧ bb = [] ∧ dn = [] ∧ td = true) then Some (mkSessionIo fd true dr fb bb up dn t hd td) else None
  | BckFails => if decide (bd = false ∧ bb ≠ []) then Some (mkSessionIo fd true dr fb bb up dn t hd td) else None
  | BothJoined =>
      if decide (fd = true ∧ bd = true ∧ dr = false) then Some (mkSessionIo fd bd true fb bb up dn t hd td) else None
  | TaskReads n rs =>
      if decide (td = false ∧ hd = [] ∧ 1 ≤ n ≤ length up ∧ n ≤ USER_READ_BUF)
      then Some (task_step (FromUser (take n up)) rs (mkSessionIo fd bd dr fb bb (drop n up) dn t hd td)) else None
  | TaskReadsEnd rs =>
      if decide (td = false ∧ hd = [] ∧ dr = true ∧ up = []) then Some (task_step UserGone rs s) else None
  | TaskFrame f => if decide (td = false ∧ hd = []) then Some (task_step (Inbound f) [] s) else None
  | TaskWrites n =>
      if decide (td = false ∧ dr = false ∧ 1 ≤ n ≤ length hd ∧ length dn + n ≤ DUPLEX_BUF)
      then Some (mkSessionIo fd bd dr fb bb up (dn ++ take n hd) t (drop n hd) td) else None
  | TaskWriteFails =>
      if decide (td = false ∧ dr = true ∧ hd ≠ []) then Some (mkSessionIo fd bd dr fb bb up dn (teardown t) [] true) else None
  | TaskLinkEnds rs => if decide (td = false ∧ hd = []) then Some (task_step InboundGone rs s) else None
  end.

Fixpoint run_splice (es : list splice_event) (s : session_io) : option session_io :=
  match es with
  | [] => Some s
  | e :: es => s' ← splice_step e s; run_splice es s'
  end.

(** What is on its way to the task, and to the application, in order. *)
Definition to_go (s : session_io) : list byte := sn_up s ++ sn_fwd_buf s.
Definition to_come (s : session_io) : list byte := sn_bck_buf s ++ sn_down s ++ sn_handing s.

(** *** What the events moved *)

(** What the task is given: a turn with the answers of its operations, or the
    failure of the write it is at. *)
Inductive task_input := Turn (ev : task_event) (rs : list reply) | WriteFailed.

(** What a step gives the task. *)
Definition input_of (e : splice_event) (s : session_io) : list task_input :=
  match e with
  | TaskReads n rs => [Turn (FromUser (take n (sn_up s))) rs]
  | TaskReadsEnd rs => [Turn UserGone rs]
  | TaskFrame f => [Turn (Inbound f) []]
  | TaskWriteFails => [WriteFailed]
  | TaskLinkEnds rs => [Turn InboundGone rs]
  | _ => []
  end.
(** What it takes from the application, and gives to it. *)
Definition heard_from (e : splice_event) : list byte := match e with FwdReads l => l | _ => [] end.
Definition told_to (e : splice_event) (s : session_io) : list byte :=
  match e with BckWrites n => take n (sn_bck_buf s) | _ => [] end.

(** The same of a run. *)
Fixpoint over_run {A} (f : splice_event → session_io → list A) (es : list splice_event) (s : session_io) : list A :=
  match es with
  | [] => []
  | e :: es => match splice_step e s with Some s' => f e s ++ over_run f es s' | None => [] end
  end.
Definition inputs : list splice_event → session_io → list task_input := over_run input_of.
Definition heard : list splice_event → session_io → list byte := over_run (λ e _, heard_from e).
Definition told : list splice_event → session_io → list byte := over_run told_to.

(** The user's bytes among the inputs. *)
Definition from_user (ins : list task_input) : list byte :=
  concat (omap (λ i, match i with Turn (FromUser l) _ => Some l | _ => None end) ins).

(** The task on these inputs, and whether it has ended: [circuit_task], with
    the answers given turn by turn. *)
Fixpoint task_fold (ins : list task_input) (t : task) : task * bool :=
  match ins with
  | [] => (t, false)
  | Turn ev rs :: ins =>
      match task_turn ev (mkTask (t_layers t) (mkStreams (sent (t_net t)) rs)) with
      | (t, Ok Again) => task_fold ins t
      | (t, Ok Break) | (t, Err _) => (teardown t, true)
      | (t, Panic) => (t, true)
      end
  | WriteFailed :: _ => (teardown t, true)
  end.
End splice.

(** Read the fields of a session that is spelled out. *)
Ltac sn_fields :=
  cbn [sn_fwd_done sn_bck_done sn_dropped sn_fwd_buf sn_bck_buf sn_up sn_down sn_task sn_handing sn_task_done].
(** The guard of a step that was taken, and what the step did. *)
Ltac splice_inv Hs := cbn [splice_step] in Hs; case_decide; [|done]; destruct_and?; simplify_eq; sn_fields.

(** ** Lemmas *)

Section splice_lemmas.
Context `{Snow, ServerNames, TC : TokioCopy}.
Implicit Types (s : session_io) (es : list splice_event).

Lemma run_splice_app es es' s s' : run_splice es s = Some s' → run_splice (es ++ es') s = run_splice es' s'.
Proof.
  revert s. induction es as [|e es IH]; intros s; cbn [run_splice app]; [by intros [= ->]|].
  destruct (splice_step e s) as [s1|]; [apply IH|done].
Qed.

(** What every step keeps holds after every run. *)
Lemma run_splice_keeps (I : session_io → Prop) es s s' :
  (∀ e s s', I s → splice_step e s = Some s' → I s') → I s → run_splice es s = Some s' → I s'.
Proof.
  intros Hstep. revert s. induction es as [|e es IH]; intros s HI; cbn [run_splice]; [by intros [= <-]|].
  destruct (splice_step e s) as [s1|] eqn:He; [|done]. apply IH. by apply (Hstep e s).
Qed.

Lemma user_bytes_app l1 l2 : user_bytes (l1 ++ l2) = user_bytes l1 ++ user_bytes l2.
Proof. unfold user_bytes. by rewrite omap_app, concat_app. Qed.

Lemma over_run_app {A} (f : splice_event → session_io → list A) es es' s s' :
  run_splice es s = Some s' → over_run f (es ++ es') s = over_run f es s ++ over_run f es' s'.
Proof.
  revert s. induction es as [|e es IH]; intros s; cbn [run_splice over_run app]; [by intros [= ->]|].
  destruct (splice_step e s) as [s1|]; [|done]. cbn [mbind option_bind]. intros Hr. by rewrite (IH s1 Hr), app_assoc.
Qed.

Lemma over_run_snoc {A} (f : splice_event → session_io → list A) es e s s' s1 :
  run_splice es s = Some s' → splice_step e s' = Some s1 → over_run f (es ++ [e]) s = over_run f es s ++ f e s'.
Proof. intros Hr He. rewrite (over_run_app f es [e] s s' Hr). cbn [over_run]. by rewrite He, app_nil_r. Qed.

(** A turn only adds to the log, and hands the user nothing unless a frame
    arrived. *)
Definition extends_log (t t' : task) (handed : list byte → Prop) : Prop :=
  ∃ more, sent (t_net t') = sent (t_net t) ++ more ∧ handed (user_bytes more).

Lemma extends_log_trans t1 t2 t3 (P Q R : list byte → Prop) :
  extends_log t1 t2 P → extends_log t2 t3 Q → (∀ x y, P x → Q y → R (x ++ y)) → extends_log t1 t3 R.
Proof.
  intros (m1 & H1 & HP) (m2 & H2 & HQ) HR. exists (m1 ++ m2). rewrite H2, H1, user_bytes_app. split; [by rewrite app_assoc|auto].
Qed.

Lemma extends_log_refl t (P : list byte → Prop) : P [] → extends_log t t P.
Proof. intros HP. exists []. by rewrite app_nil_r. Qed.

Lemma act_extends a n n' r : act a n = (n', r) → sent n' = sent n ++ [a].
Proof. unfold act. destruct (next_reply n) as [x rest]. intros Ha. by injection Ha as <- _. Qed.

Lemma on_streams_act a t t' r :
  on_streams (act a) t = (t', r) → t_layers t' = t_layers t ∧ extends_log t t' (λ x, x = user_bytes [a]).
Proof.
  unfold on_streams, on_field. destruct (act a (t_net t)) as [n o] eqn:Ha. intros [= <- <-]. split; [done|].
  exists [a]. cbn [t_net]. by rewrite (act_extends _ _ _ _ Ha).
Qed.

Lemma on_layers_log {A} (m : st Layers ClientError A) t t' r : on_layers m t = (t', r) → t_net t' = t_net t.
Proof. unfold on_layers, on_field. destruct (m (t_layers t)). by intros [= <- <-]. Qed.

Lemma send_user_log ps t t' r : send_user ps t = (t', r) → extends_log t t' (λ x, x = []).
Proof.
  revert t. induction ps as [|p ps IH]; intros t; cbn [send_user]; [by intros [= <- <-]; apply extends_log_refl|].
  unfold mbind, st_bind, lift. destruct (map_err CCell (Cell_new Data p)) as [cell|e|];
    [|by intros [= <- <-]; apply extends_log_refl..].
  destruct (on_layers (seal_for_exit cell) t) as [t1 [wire|e|]] eqn:Hl; pose proof (on_layers_log _ _ _ _ Hl) as Hn1;
    [|intros [= <- <-]; exists []; by rewrite Hn1, app_nil_r..].
  destruct (on_streams (act (TlsWrite wire)) t1) as [t2 o] eqn:Ha. apply on_streams_act in Ha as [_ Ha].
  assert (extends_log t t2 (λ x, x = [])) as H2 by (destruct Ha as (mo & Hs & Hu); exists mo; by rewrite <- Hn1).
  destruct o as [[]|e|]; [|by intros [= <- <-]..].
  intros Hr%IH. eapply extends_log_trans; [done..|]. by intros ? ? -> ->.
Qed.

Lemma task_turn_log ev t t' r : task_turn ev t = (t', r) → extends_log t t' (λ x, (∀ f, ev ≠ Inbound f) → x = []).
Proof.
  destruct ev as [[|b l]| |f|]; cbn [task_turn]; try (intros [= <- <-]; by apply extends_log_refl).
  - unfold mbind, st_bind. destruct (send_user _ t) as [t1 [[]|e|]] eqn:Hs; apply send_user_log in Hs;
      [|by intros [= <- <-]; destruct Hs as (mo & ? & ?); exists mo..].
    destruct (on_streams (act TlsFlush) t1) as [t2 o] eqn:Ha. apply on_streams_act in Ha as [_ Ha].
    intros Hr. assert (t' = t2) as -> by (destruct o; by injection Hr as <- _).
    eapply extends_log_trans; [done..|]. by intros ? ? -> ->.
  - unfold mbind, st_bind. destruct (on_layers (peel_inbound f) t) as [t1 o] eqn:Hl.
    pose proof (on_layers_log _ _ _ _ Hl) as Hn1.
    assert (extends_log t t1 (λ x, (∀ f', Inbound f ≠ Inbound f') → x = [])) as H1
      by (exists []; rewrite Hn1, app_nil_r; done).
    destruct o as [cell|e|]; [|by intros [= <- <-]..].
    destruct (cell_type cell); try (by intros [= <- <-]); destruct (payload cell) as [|b p]; try (by intros [= <- <-]).
    destruct (on_streams (act (UserWrite (b :: p))) t1) as [t2 o] eqn:Ha. apply on_streams_act in Ha as [_ Ha].
    intros Hr. assert (t' = t2) as -> by (destruct o; by injection Hr as <- _).
    eapply extends_log_trans; [done..|]. intros x y _ _ Hn. by destruct (Hn f).
Qed.

Lemma on_streams_ignored a t :
  extends_log t (fst (on_streams (act_ignored a) t)) (λ x, x = user_bytes [a]) ∧ snd (on_streams (act_ignored a) t) = Ok ().
Proof.
  unfold on_streams, on_field, act_ignored. destruct (act a (t_net t)) as [n r] eqn:Ha. split; [|done].
  exists [a]. cbn. by rewrite (act_extends _ _ _ _ Ha).
Qed.

Lemma ignored_twice a b t :
  user_bytes [a] = [] → user_bytes [b] = [] →
  extends_log t (fst ((_ ← on_streams (act_ignored a); on_streams (act_ignored b)) t)) (λ x, x = []).
Proof.
  intros Ha Hb. unfold mbind, st_bind. destruct (on_streams_ignored a t) as [H1 H2].
  destruct (on_streams (act_ignored a) t) as [t1 o]. cbn [fst snd] in H1, H2. subst o.
  destruct (on_streams_ignored b t1) as [H3 _]. eapply extends_log_trans; [done..|]. intros x y -> ->. by rewrite Ha, Hb.
Qed.

Lemma teardown_log t : extends_log t (teardown t) (λ x, x = []).
Proof.
  unfold teardown. set (t1 := match Cell_new CloseRequest [] with Ok _ => _ | _ => t end).
  assert (extends_log t t1 (λ x, x = [])) as H1.
  { unfold t1. destruct (Cell_new CloseRequest []) as [cell|e|]; [|by apply extends_log_refl..].
    destruct (on_layers (seal_for_exit cell) t) as [t2 o] eqn:Hl. pose proof (on_layers_log _ _ _ _ Hl) as Hn.
    assert (extends_log t t2 (λ x, x = [])) as H2 by (exists []; by rewrite Hn, app_nil_r).
    destruct o as [wire|e|]; [|done..]. eapply extends_log_trans; [done|by apply ignored_twice|]. by intros ? ? -> ->. }
  eapply extends_log_trans; [done|by apply ignored_twice|]. by intros ? ? -> ->.
Qed.

(** A turn in the session: what changes, and what stays. *)
Lemma task_step_cases ev rs s :
  let s' := task_step ev rs s in
  sn_fwd_done s' = sn_fwd_done s ∧ sn_bck_done s' = sn_bck_done s ∧ sn_dropped s' = sn_dropped s ∧
  sn_fwd_buf s' = sn_fwd_buf s ∧ sn_bck_buf s' = sn_bck_buf s ∧ sn_up s' = sn_up s ∧ sn_down s' = sn_down s ∧
  task_fold [Turn ev rs] (sn_task s) = (sn_task s', sn_task_done s') ∧
  ∃ more, sent (t_net (sn_task s')) = sent (t_net (sn_task s)) ++ more ∧
    sn_handing s' = if sn_task_done s' then [] else user_bytes more.
Proof.
  destruct s as [fd bd dr fb bb up dn t hd td]. cbn [task_step task_fold sn_task]. destruct (task_turn ev _) as [t' r] eqn:Ht.
  pose proof (task_turn_log _ _ _ _ Ht) as (m1 & Hm1 & _). cbn [t_net sent] in Hm1.
  destruct (teardown_log t') as (m2 & Hm2 & _).
  destruct r as [[]|e|]; cbn -[teardown]; (do 8 (split; [done|])).
  - exists m1. split; [exact Hm1|]. by rewrite Hm1, drop_app_length.
  - exists (m1 ++ m2). split; [rewrite Hm2, Hm1; symmetry; apply app_assoc|reflexivity].
  - exists (m1 ++ m2). split; [rewrite Hm2, Hm1; symmetry; apply app_assoc|reflexivity].
  - exists m1. split; [exact Hm1|reflexivity].
Qed.

(** Bytes are neither lost, made up nor put out of order in either direction,
    and the task does what it is given. *)
Definition moved s s' (ins : list task_input) (hrd tld : list byte) : Prop :=
  to_go s ++ hrd = from_user ins ++ to_go s' ∧
  (sn_task_done s = false → task_fold ins (sn_task s) = (sn_task s', sn_task_done s')) ∧
  ∃ more, sent (t_net (sn_task s')) = sent (t_net (sn_task s)) ++ more ∧
    (tld ++ to_come s') `prefix_of` (to_come s ++ user_bytes more) ∧
    (sn_task_done s' = false → tld ++ to_come s' = to_come s ++ user_bytes more) ∧
    (sn_task_done s = true → sn_task_done s' = true ∧ sn_task s' = sn_task s ∧ ins = [] ∧ more = []).

Lemma moved_quietly s s' ins hrd tld :
  to_go s ++ hrd = from_user ins ++ to_go s' → tld ++ to_come s' = to_come s →
  ins = [] → sn_task s' = sn_task s → sn_task_done s' = sn_task_done s → moved s s' ins hrd tld.
Proof.
  intros Hu Hd -> Ht Htd. split; [done|]. rewrite Ht, Htd. split; [by intros ->|]. exists []. rewrite Hd. cbn. rewrite !app_nil_r. done.
Qed.

Lemma moved_turn ev rs s s0 hrd :
  sn_task_done s = false → sn_handing s = [] → to_go s ++ hrd = from_user [Turn ev rs] ++ to_go s0 →
  sn_task s0 = sn_task s → sn_bck_buf s0 = sn_bck_buf s → sn_down s0 = sn_down s →
  moved s (task_step ev rs s0) [Turn ev rs] hrd [].
Proof.
  intros Htd Hhd Hu Ht Hb Hd.
  destruct (task_step_cases ev rs s0) as (_ & _ & _ & Hfb & Hbb & Hup & Hdn & Hf & more & Hm & Hh).
  unfold moved, to_go, to_come in *. split; [by rewrite Hfb, Hup|]. rewrite Ht in *. split; [done|]. exists more. split; [done|].
  rewrite Hbb, Hdn, Hhd, Hh, Hb, Hd, Htd, <- !app_assoc. cbn [app]. split; [|split; [by intros ->|done]].
  do 2 apply prefix_app. destruct (sn_task_done (task_step ev rs s0)); [apply prefix_nil|done].
Qed.

Lemma splice_step_moved e s s' :
  splice_step e s = Some s' → moved s s' (input_of e s) (heard_from e) (told_to e s).
Proof.
  destruct s as [fd bd dr fb bb up dn t hd td].
  destruct e as [l|n| | |n|n| | | |n rs|rs|f|n| |rs]; intros Hs; splice_inv Hs; cbn [input_of heard_from told_to];
    try (apply moved_quietly; unfold to_go, to_come; sn_fields; cbn; rewrite ?app_nil_r, <- ?app_assoc, ?take_drop; done).
  - apply moved_quietly; unfold to_go, to_come; sn_fields; cbn; rewrite ?app_nil_r; try done.
    by rewrite <- app_assoc, (app_assoc (take n dn)), take_drop.
  - apply moved_quietly; unfold to_go, to_come; sn_fields; cbn; rewrite ?app_nil_r; try done. by rewrite app_assoc, take_drop.
  - apply moved_turn; try done. unfold to_go. sn_fields. cbn. by rewrite !app_nil_r, app_assoc, take_drop.
  - apply moved_turn; try done. unfold to_go. sn_fields. cbn. by rewrite app_nil_r.
  - apply moved_turn; try done. unfold to_go. sn_fields. cbn. by rewrite app_nil_r.
  - destruct (teardown_log t) as (more & Hm & _). unfold moved, to_go, to_come. sn_fields. split; [cbn; by rewrite app_nil_r|].
    split; [done|]. exists more. split; [done|]. cbn [app]. split; [|done]. rewrite app_nil_r, <- !app_assoc.
    apply prefix_app. by apply prefix_app_r.
  - apply moved_turn; try done. unfold to_go. sn_fields. cbn. by rewrite app_nil_r.
Qed.

Lemma from_user_app l k : from_user (l ++ k) = from_user l ++ from_user k.
Proof. unfold from_user. by rewrite omap_app, concat_app. Qed.

Lemma task_fold_app l k t t' : task_fold l t = (t', false) → task_fold (l ++ k) t = task_fold k t'.
Proof.
  revert t. induction l as [|[ev rs|] l IH]; intros t; cbn [task_fold app]; [by intros [= ->]| |done].
  destruct (task_turn ev _) as [t1 [[]| |]]; [apply IH|done..].
Qed.

Lemma moved_trans s1 s2 s3 i1 i2 h1 h2 d1 d2 :
  moved s1 s2 i1 h1 d1 → moved s2 s3 i2 h2 d2 → moved s1 s3 (i1 ++ i2) (h1 ++ h2) (d1 ++ d2).
Proof.
  intros (Hu1 & Hf1 & m1 & Hm1 & Hp1 & He1 & Hk1) (Hu2 & Hf2 & m2 & Hm2 & Hp2 & He2 & Hk2).
  split; [by rewrite from_user_app, <- app_assoc, <- Hu2, !app_assoc, Hu1|].
  split.
  { intros Htd. specialize (Hf1 Htd). destruct (sn_task_done s2) eqn:Ht2.
    - destruct (Hk2 eq_refl) as (-> & -> & -> & ->). by rewrite app_nil_r, Hf1.
    - rewrite (task_fold_app _ _ _ _ Hf1). by apply Hf2. }
  exists (m1 ++ m2). rewrite Hm2, Hm1, user_bytes_app, <- !app_assoc. split; [done|].
  split; [|split; [|intros Htd; destruct (Hk1 Htd) as (Ht2 & Hs2 & -> & ->); destruct (Hk2 Ht2) as (-> & -> & -> & ->); done]].
  - destruct (sn_task_done s2) eqn:Ht2.
    + destruct (Hk2 eq_refl) as (_ & _ & _ & ->). cbn in Hp2 |- *. rewrite !app_nil_r in *.
      etrans; [by apply prefix_app|]. exact Hp1.
    + rewrite (app_assoc (to_come s1)), <- He1, <- app_assoc by done. by apply prefix_app.
  - intros Htd. destruct (sn_task_done s2) eqn:Ht2; [by destruct (Hk2 eq_refl); congruence|].
    by rewrite He2, app_assoc, He1, <- app_assoc.
Qed.

Lemma run_splice_moved es s s' : run_splice es s = Some s' → moved s s' (inputs es s) (heard es s) (told es s).
Proof.
  revert s. induction es as [|e es IH]; intros s; unfold inputs, heard, told; cbn [run_splice over_run].
  { intros [= <-]. apply moved_quietly; try done. by rewrite app_nil_r. }
  destruct (splice_step e s) as [s1|] eqn:He; [|done]. cbn [mbind option_bind]. intros Hr.
  eapply moved_trans; [by apply splice_step_moved|by apply IH].
Qed.

(** When nothing it does fails, the task of a session is [circuit_task]. *)
Lemma on_streams_quiet a t t' r : replies (t_net t) = [] → on_streams (act a) t = (t', r) → replies (t_net t') = [].
Proof. intros Hr. unfold on_streams, on_field, act, next_reply. rewrite Hr. by intros [= <- <-]. Qed.

Lemma send_user_quiet ps t t' r : replies (t_net t) = [] → send_user ps t = (t', r) → replies (t_net t') = [].
Proof.
  revert t. induction ps as [|p ps IH]; intros t Hr; cbn [send_user]; [by intros [= <- <-]|].
  unfold mbind, st_bind, lift. destruct (map_err CCell (Cell_new Data p)) as [cell|e|]; [|by intros [= <- <-]..].
  destruct (on_layers (seal_for_exit cell) t) as [t1 o] eqn:Hl. pose proof (on_layers_log _ _ _ _ Hl) as Hn1. rewrite <- Hn1 in Hr.
  destruct o as [wire|e|]; [|by intros [= <- <-]..].
  destruct (on_streams (act (TlsWrite wire)) t1) as [t2 o] eqn:Ha. apply on_streams_quiet in Ha; [|done].
  destruct o as [[]|e|]; [by apply IH|by intros [= <- <-]..].
Qed.

Lemma task_turn_quiet ev t t' r : replies (t_net t) = [] → task_turn ev t = (t', r) → replies (t_net t') = [].
Proof.
  intros Hr. destruct ev as [[|b l]| |f|]; cbn [task_turn]; try (by intros [= <- <-]); unfold mbind, st_bind.
  - destruct (send_user _ t) as [t1 o] eqn:Hs. apply send_user_quiet in Hs; [|done]. destruct o as [[]|e|]; [|by intros [= <- <-]..].
    destruct (on_streams (act TlsFlush) t1) as [t2 o] eqn:Ha. apply on_streams_quiet in Ha; [|done].
    intros Hq. assert (t' = t2) as -> by (destruct o; by injection Hq as <- _). exact Ha.
  - destruct (on_layers (peel_inbound f) t) as [t1 o] eqn:Hl. pose proof (on_layers_log _ _ _ _ Hl) as Hn1. rewrite <- Hn1 in Hr.
    destruct o as [cell|e|]; [|by intros [= <- <-]..].
    destruct (cell_type cell); try (by intros [= <- <-]); destruct (payload cell) as [|b p]; try (by intros [= <- <-]).
    destruct (on_streams (act (UserWrite (b :: p))) t1) as [t2 o] eqn:Ha. apply on_streams_quiet in Ha; [|done].
    intros Hq. assert (t' = t2) as -> by (destruct o; by injection Hq as <- _). exact Ha.
Qed.

Lemma task_fold_quiet evs t : replies (t_net t) = [] → task_fold ((λ ev, Turn ev []) <$> evs) t = circuit_task evs t.
Proof.
  revert t. induction evs as [|ev evs IH]; intros [L [sn rs]]; cbn [t_net replies]; intros ->; [done|].
  cbn [fmap list_fmap task_fold t_layers t_net sent]. unfold circuit_task. cbn [task_loop]. unfold mbind at 1, st_bind at 1.
  destruct (task_turn ev (mkTask L (mkStreams sn []))) as [t1 [[]|e|]] eqn:Ht; try done.
  apply IH. eapply task_turn_quiet; [|exact Ht]. done.
Qed.

(** *** The shape of a session *)

(** The stream is dropped only after both copies; no queue and no buffer is
    over its bound. *)
Definition session_wf s : Prop :=
  (sn_dropped s = true → sn_fwd_done s = true ∧ sn_bck_done s = true) ∧
  length (sn_up s) ≤ DUPLEX_BUF ∧ length (sn_down s) ≤ DUPLEX_BUF ∧
  length (sn_fwd_buf s) ≤ COPY_BUF ∧ length (sn_bck_buf s) ≤ COPY_BUF ∧
  (sn_task_done s = true → sn_handing s = []).

Lemma session_wf_start L log : session_wf (splice_start L log).
Proof. split; [done|]. cbn. split_and!; lia || done. Qed.

Lemma task_step_wf ev rs s : session_wf s → session_wf (task_step ev rs s).
Proof.
  destruct (task_step_cases ev rs s) as (Hf & Hb & Hd & Hfb & Hbb & Hu & Hdn & _ & more & _ & Hh).
  intros (Hdr & Hrest). unfold session_wf. rewrite Hf, Hb, Hd, Hfb, Hbb, Hu, Hdn, Hh.
  split; [exact Hdr|]. destruct Hrest as (? & ? & ? & ? & _). split_and!; try done. by intros ->.
Qed.

Lemma session_wf_step e s s' : session_wf s → splice_step e s = Some s' → session_wf s'.
Proof.
  destruct s as [fd bd dr fb bb up dn t hd td]. unfold session_wf. sn_fields. intros (Hdr & Hu & Hd & Hf & Hb & Hh) Hs.
  assert (session_wf (mkSessionIo fd bd dr fb bb up dn t hd td)) as Hwf by done.
  destruct e as [l|n| | |n|n| | | |n rs|rs|f|n| |rs]; splice_inv Hs;
    try (by apply task_step_wf);
    try (split; [first [done | by intros ?%Hdr | by intros []%Hdr]|]; rewrite ?length_app, ?length_take, ?length_drop;
         split_and!; first [assumption | lia | done | auto]).
  apply task_step_wf. unfold session_wf. sn_fields. rewrite length_drop. split_and!; try done; lia.
Qed.

Lemma run_splice_wf es L log s : run_splice es (splice_start L log) = Some s → session_wf s.
Proof. apply run_splice_keeps; [intros e s1 s2; apply session_wf_step|apply session_wf_start]. Qed.
(** *** How a session ends *)

(** Events that only the far side of the circuit brings about. *)
Definition from_circuit (e : splice_event) : bool :=
  match e with TaskFrame _ | TaskLinkEnds _ => true | _ => false end.

(** When a session waits for nothing but the circuit, exactly.  There are
    two such states: the session is over, both sides closed; or the application
    has ended, all it said is with the task and all that came is delivered, and
    the task still runs: nothing tells the circuit, and the destination, that
    the application is gone, and the session stays until the other side acts. *)
Lemma session_waits_exact s :
  session_wf s →
  (∀ e s', splice_step e s = Some s' → from_circuit e = true) ↔
  (sn_dropped s = true ∧ sn_task_done s = true) ∨
  (sn_fwd_done s = true ∧ sn_bck_done s = false ∧ sn_task_done s = false ∧ sn_up s = [] ∧ to_come s = []).
Proof.
  pose proof duplex_buf_pos. pose proof read_buf_pos. pose proof COPY_BUF_pos.
  destruct s as [fd bd dr fb bb up dn t hd td]. unfold session_wf, to_come. sn_fields. intros (Hdr & Hu & Hd & Hf & Hb & Hh). split.
  - intros Hq.
    assert (∀ e, from_circuit e = false → splice_step e (mkSessionIo fd bd dr fb bb up dn t hd td) = None) as Hno.
    { intros e He. destruct (splice_step e _) as [s'|] eqn:Hs; [|done]. by rewrite (Hq e s' Hs) in He. }
    clear Hq. pose proof (Hno FwdFails eq_refl) as Hn. cbn [splice_step] in Hn. case_decide as Hfd; [done|].
    destruct fd; [|done]. clear Hn Hfd.
    pose proof (Hno BothJoined eq_refl) as Hn. cbn [splice_step] in Hn. case_decide as Hjoin; [done|]. clear Hn.
    pose proof (Hno (TaskReads 1 []) eq_refl) as Hn. cbn [splice_step] in Hn. case_decide as Hrd; [done|]. clear Hn.
    destruct bd.
    + left. destruct dr; [|naive_solver]. split; [done|]. destruct td; [done|].
      pose proof (Hno TaskWriteFails eq_refl) as Hn. cbn [splice_step] in Hn. case_decide as Hw; [done|]. clear Hn.
      pose proof (Hno (TaskReadsEnd []) eq_refl) as Hn. cbn [splice_step] in Hn. case_decide as He; [done|]. clear Hn.
      destruct hd; [|naive_solver]. destruct up; [naive_solver|]. destruct Hrd. cbn. split_and!; try done; lia.
    + right.
      pose proof (Hno (BckWrites 1) eq_refl) as Hn. cbn [splice_step] in Hn. case_decide as Hw; [done|]. clear Hn.
      destruct bb; [|destruct Hw; cbn; split_and!; try done; lia].
      pose proof (Hno (BckReads 1) eq_refl) as Hn. cbn [splice_step] in Hn. case_decide as Hr; [done|]. clear Hn.
      destruct dn; [|destruct Hr; cbn; split_and!; try done; lia].
      pose proof (Hno BckEnds eq_refl) as Hn. cbn [splice_step] in Hn. case_decide as He; [done|]. clear Hn.
      destruct td; [naive_solver|]. destruct dr; [naive_solver|].
      pose proof (Hno (TaskWrites 1) eq_refl) as Hn. cbn [splice_step] in Hn. case_decide as Htw; [done|]. clear Hn.
      destruct hd; [|destruct Htw; cbn; split_and!; try done; lia].
      destruct up; [done|]. destruct Hrd. cbn. split_and!; try done; lia.
  - intros [[-> ->]|(-> & -> & -> & -> & [-> [-> ->]%app_nil]%app_nil)] e s' Hs.
    + destruct (Hdr eq_refl) as [-> ->]. specialize (Hh eq_refl) as ->. destruct e; cbn [splice_step] in Hs;
        (case_decide; [|done]); destruct_and?; done.
    + destruct dr; [by destruct (Hdr eq_refl)|].
      destruct e; try done; cbn [splice_step] in Hs; (case_decide; [|done]); destruct_and?; cbn [length] in *; done || lia.
Qed.
End splice_lemmas.

(** The application sends two bytes and ends; the destination is silent.  The
    session is in the second of these states. *)
Definition sample_half_closed : list splice_event :=
  [FwdReads [x41; x42]; FwdWrites 1; TaskReads 1 []; FwdWrites 1; FwdEnds; TaskReads 1 []].

Lemma sample_half_closed_waits :
  (λ s, (sn_fwd_done s, sn_bck_done s, sn_task_done s, sn_up s, to_come s)) <$>
    run_splice sample_half_closed (splice_start sample_layers []) = Some (true, false, false, [], []).
Proof. vm_compute. reflexivity. Qed.
