(* ===== verification/Traffic.v ===== *)
(** QuietHop: both directions of a circuit at once.

    The session of [Splice] and the three relays of [Relay] side by side, with
    the frames that are on their way between them: each moves when it likes, on
    what has reached it.  What a party reads on a link is the oldest frame its
    neighbour wrote there; the links hold whatever was written on them.  The
    theorem follows the bytes of both directions through every interleaving of
    the parties' moves. *)

From S2P Require Import Prelude Bytes Text NetAddr Ipv6 Cell Noise SampleNoise Layer Civil State Registry SampleRegistry.
From S2P Require Import RegistryCache Circuit Token Config Exit RelayRegistry Relay RelayTheorems Path Dial.
From S2P Require Import EndToEnd Flight Splice.

(** The exit's buffer for a read from the destination. *)
Definition DEST_READ_BUF : nat := CELL_PAYLOAD_LEN * 32.
Lemma dest_buf_pos : 1 ≤ DEST_READ_BUF.
Proof. apply Nat.leb_le. vm_compute. reflexivity. Qed.
#[global] Arguments DEST_READ_BUF : simpl never.
#[global] Opaque DEST_READ_BUF.

(** What a log puts on each link. *)
Definition tls_frames (l : list client_action) : list (list byte) :=
  omap (λ a, match a with TlsWrite f => Some f | _ => None end) l.
Definition to_next (l : list action) : list (list byte) := omap (λ a, match a with WriteNext b => Some b | _ => None end) l.
Definition to_prev (l : list action) : list (list byte) := omap (λ a, match a with WriteIn f => Some f | _ => None end) l.
Definition to_dest (l : list action) : list byte :=
  concat (omap (λ a, match a with WriteDest p => Some p | _ => None end) l).

Section traffic.
Context `{Snow, Sha256, Ed25519, UrlParser, ServerNames, TC : TokioCopy}.
Context (cg cm cx : ConnCtx).

Record traffic := mkTraffic {
  tr_says : list byte;                             (* what the application has still to say *)
  tr_session : session_io;
  tr_guard : circuit_io; tr_middle : circuit_io; tr_exit : circuit_io;
  tr_up1 : list (list byte); tr_up2 : list (list byte); tr_up3 : list (list byte);
                                                   (* on the way to the guard, the middle, the exit *)
  tr_down1 : list (list byte); tr_down2 : list (list byte); tr_down3 : list (list byte);
                                                   (* on the way back to the middle, the guard, the client *)
  tr_answers : list byte;                          (* what the destination has still to answer *)
  tr_reached : list byte; tr_heard : list byte;    (* what reached the destination, and the application *)
  tr_stopped : bool;                               (* the task or a relay's loop has ended *)
}.

Definition traffic_start (says answers : list byte) (L : Layers) (log : list client_action) (g m x : circuit_io) : traffic :=
  mkTraffic says (splice_start L log) g m x [] [] [] [] [] [] answers [] [] false.

(** A step of the session; [says] and [down3] are what it leaves of them. *)
Definition session_turn (e : splice_event) (says : list byte) (down3 : list (list byte)) (t : traffic) : option traffic :=
  let 'mkTraffic _ s g m x up1 up2 up3 down1 down2 _ ans reached heard stopped := t in
  s' ← splice_step e s;
  let new := drop (length (sent (t_net (sn_task s)))) (sent (t_net (sn_task s'))) in
  Some (mkTraffic says s' g m x (up1 ++ tls_frames new) up2 up3 down1 down2 down3 ans reached (heard ++ told_to e s)
          (stopped || sn_task_done s')).

(** A turn of a relay: what it adds to its log, and whether its loop ends. *)
Definition relay_turn (ctx : ConnCtx) (role : Role) (ev : io_event) (s : circuit_io) : circuit_io * list action * bool :=
  let '(s', r) := io_turn ctx role ev s in
  (s', drop (length (io_log s)) (io_log s'), match r with Ok Continue => false | _ => true end).

Definition guard_turn (ev : io_event) (up1 down2 : list (list byte)) (t : traffic) : traffic :=
  let 'mkTraffic says s g m x _ up2 up3 down1 _ down3 ans reached heard stopped := t in
  let '(g', new, st) := relay_turn cg Guard ev g in
  mkTraffic says s g' m x up1 (up2 ++ to_next new) up3 down1 down2 (down3 ++ to_prev new) ans reached heard (stopped || st).
Definition middle_turn (ev : io_event) (up2 down1 : list (list byte)) (t : traffic) : traffic :=
  let 'mkTraffic says s g m x up1 _ up3 _ down2 down3 ans reached heard stopped := t in
  let '(m', new, st) := relay_turn cm Middle ev m in
  mkTraffic says s g m' x up1 up2 (up3 ++ to_next new) down1 (down2 ++ to_prev new) down3 ans reached heard (stopped || st).
Definition exit_turn (ev : io_event) (up3 : list (list byte)) (ans : list byte) (t : traffic) : traffic :=
  let 'mkTraffic says s g m x up1 up2 _ down1 down2 down3 _ reached heard stopped := t in
  let '(x', new, st) := relay_turn cx Exit ev x in
  mkTraffic says s g m x' up1 up2 up3 (down1 ++ to_prev new) down2 down3 ans (reached ++ to_dest new) heard (stopped || st).

Inductive traffic_move :=
  | SessionMoves (e : splice_event)       (* one of the copies, or the task with the pipe *)
  | ClientReads                           (* the task, with the guard's next frame *)
  | GuardReads | MiddleReads | ExitReads  (* the next frame from the client's side *)
  | ExitHears (n : nat)                   (* [n] bytes of the destination *)
  | MiddleHears | GuardHears.             (* the next frame from the exit's side *)

(** One move; [None] when it is not enabled.  The application's bytes come from
    what it has to say, and it ends after the last; no socket fails. *)
Definition traffic_step (mv : traffic_move) (t : traffic) : option traffic :=
  match mv with
  | SessionMoves e =>
      match e with
      | FwdReads l =>
          if decide (take (length l) (tr_says t) = l) then session_turn e (drop (length l) (tr_says t)) (tr_down3 t) t else None
      | FwdEnds => if decide (tr_says t = []) then session_turn e [] (tr_down3 t) t else None
      | FwdFails | BckFails | TaskFrame _ | TaskLinkEnds _ | TaskReads _ (_ :: _) | TaskReadsEnd (_ :: _) => None
      | _ => session_turn e (tr_says t) (tr_down3 t) t
      end
  | ClientReads => match tr_down3 t with f :: rest => session_turn (TaskFrame f) (tr_says t) rest t | [] => None end
  | GuardReads => match tr_up1 t with f :: rest => Some (guard_turn (InFrame f) rest (tr_down2 t) t) | [] => None end
  | MiddleReads => match tr_up2 t with f :: rest => Some (middle_turn (InFrame f) rest (tr_down1 t) t) | [] => None end
  | ExitReads => match tr_up3 t with f :: rest => Some (exit_turn (InFrame f) rest (tr_answers t) t) | [] => None end
  | ExitHears n =>
      if decide (1 ≤ n ≤ length (tr_answers t) ∧ n ≤ DEST_READ_BUF)
      then Some (exit_turn (DestBytes (take n (tr_answers t))) (tr_up3 t) (drop n (tr_answers t)) t) else None
  | MiddleHears => match tr_down1 t with f :: rest => Some (middle_turn (NextFrame f) (tr_up2 t) rest t) | [] => None end
  | GuardHears => match tr_down2 t with f :: rest => Some (guard_turn (NextFrame f) (tr_up1 t) rest t) | [] => None end
  end.

Fixpoint run_traffic (ms : list traffic_move) (t : traffic) : option traffic :=
  match ms with
  | [] => Some t
  | mv :: ms => t' ← traffic_step mv t; run_traffic ms t'
  end.
End traffic.


(** ** Lemmas *)

Section traffic_lemmas.
Context `{SnowFlight, Sha256, Ed25519, UrlParser, ServerNames, TC : TokioCopy}.
Context (cg cm cx : ConnCtx).

(** *** Logs *)

Lemma tls_frames_user ps : tls_frames (UserWrite <$> ps) = [].
Proof. unfold tls_frames. induction ps; [done|]. done. Qed.
Lemma tls_frames_writes fs : tls_frames ((TlsWrite <$> fs) ++ [TlsFlush]) = fs.
Proof. induction fs as [|f fs IH]; [done|]. cbn. f_equal. exact IH. Qed.
Lemma user_bytes_writes fs : user_bytes ((TlsWrite <$> fs) ++ [TlsFlush]) = [].
Proof. induction fs as [|f fs IH]; [done|]. exact IH. Qed.
Lemma to_prev_writes fs : to_prev ((WriteIn <$> fs) ++ [FlushIn]) = fs.
Proof. induction fs as [|f fs IH]; [done|]. cbn. f_equal. exact IH. Qed.
Lemma to_dest_writes fs : to_dest ((WriteIn <$> fs) ++ [FlushIn]) = [].
Proof. induction fs as [|f fs IH]; [done|]. exact IH. Qed.

(** *** Cells on their way *)

(** A piece of data and the three frames it travels in. *)
Record cell_in_flight := mkFlying { fl_data : list byte; fl_i : list byte; fl_b : list byte; fl_f : list byte }.
Implicit Types (cs u d : list cell_in_flight).

Definition bytes_of cs : list byte := concat (fl_data <$> cs).

Definition sealed1 (c : cell_in_flight) : Prop := piece_ok (fl_data c) ∧ length (fl_i c) = link_cell_len 1.
Definition sealed2 (c : cell_in_flight) : Prop := sealed1 c ∧ length (fl_b c) = link_cell_len 2.
Definition sealed3 (c : cell_in_flight) : Prop := sealed2 c ∧ length (fl_f c) = link_cell_len 3.

(** What they are to each pair of transports. *)
Definition pairs_x cs := (λ c, (to_me_plain (mkCell Data (fl_data c)) 1, fl_i c)) <$> cs.
Definition pairs_m cs := (λ c, (forward_plain (fl_i c), fl_b c)) <$> cs.
Definition pairs_g cs := (λ c, (forward_plain (fl_b c), fl_f c)) <$> cs.

Lemma bytes_of_app cs cs' : bytes_of (cs ++ cs') = bytes_of cs ++ bytes_of cs'.
Proof. unfold bytes_of. by rewrite fmap_app, concat_app. Qed.
Lemma bytes_of_cons c cs : bytes_of (c :: cs) = fl_data c ++ bytes_of cs.
Proof. done. Qed.

Lemma bytes_of_one c : bytes_of [c] = fl_data c.
Proof. apply app_nil_r. Qed.

(** The client's three transports with the relays', and what is on the way
    between them: [u1], [u2] and [u3] up, [d1], [d2] and [d3] down. *)
Definition on_links (n a : nat) (u1 u2 u3 d1 d2 d3 : list cell_in_flight) (L : Layers) (tg tm tx : TransportState) : Prop :=
  linked n (a + length d1 + length d2) (pairs_g u1) (pairs_g d3) (l_guard L) tg ∧
  linked n (a + length d1) (pairs_m (u2 ++ u1)) (pairs_m (d3 ++ d2)) (l_middle L) tm ∧
  linked n a (pairs_x (u3 ++ u2 ++ u1)) (pairs_x (d3 ++ d2 ++ d1)) (l_exit L) tx ∧
  Forall sealed3 u1 ∧ Forall sealed2 u2 ∧ Forall sealed1 u3 ∧ Forall sealed1 d1 ∧ Forall sealed2 d2 ∧ Forall sealed3 d3.

Ltac pairs := unfold pairs_g, pairs_m, pairs_x in *; rewrite ?fmap_app, ?fmap_cons in *; rewrite <- ?app_assoc in *; cbn [fmap list_fmap app] in *.

(** The client seals a cell. *)
Lemma client_seals n a u1 u2 u3 d1 d2 d3 L tg tm tx p :
  on_links (S n) a u1 u2 u3 d1 d2 d3 L tg tm tx → piece_ok p →
  ∃ L' c, seal_for_exit (mkCell Data p) L = (L', Ok (fl_f c)) ∧ fl_data c = p ∧
    on_links n a (u1 ++ [c]) u2 u3 d1 d2 d3 L' tg tm tx.
Proof.
  intros (Hg & Hm & Hx & Hu1 & Hrest) Hp.
  destruct (linked_to_me n a _ _ _ _ (mkCell Data p) 1 Hx) as (ex & i & Hs1 & Hl1 & Hx'); [unfold MAX_LAYERS; lia|apply Hp|].
  destruct (linked_forward n (a + length d1) _ _ _ _ i 2 Hm) as (em & b & Hs2 & Hl2 & Hm'); [unfold MAX_LAYERS; lia|done|].
  destruct (linked_forward n (a + length d1 + length d2) _ _ _ _ b 3 Hg) as (eg & f & Hs3 & Hl3 & Hg'); [unfold MAX_LAYERS; lia|done|].
  exists (mkLayers eg em ex), (mkFlying p i b f). split; [|split; [done|]].
  - unfold seal_for_exit, on_exit, on_middle, on_guard, on_field, st_map_err, mbind, st_bind.
    change (CLIENT_LAYERS - 1) with 2. change CLIENT_LAYERS with 3.
    rewrite Hs1. cbn [map_err l_middle]. rewrite Hs2. cbn [map_err l_guard]. by rewrite Hs3.
  - unfold on_links. pairs. do 3 (split; [done|]). split; [|done]. apply Forall_app. split; [done|].
    apply Forall_singleton. exact (conj (conj (conj Hp Hl1) Hl2) Hl3).
Qed.

Lemma client_sends ps n a u1 u2 u3 d1 d2 d3 L tg tm tx sn :
  Forall piece_ok ps → on_links (length ps + n) a u1 u2 u3 d1 d2 d3 L tg tm tx →
  ∃ L' cs, send_user ps (mkTask L (mkStreams sn [])) = (mkTask L' (mkStreams (sn ++ (TlsWrite <$> (fl_f <$> cs))) []), Ok ()) ∧
    fl_data <$> cs = ps ∧ on_links n a (u1 ++ cs) u2 u3 d1 d2 d3 L' tg tm tx.
Proof.
  intros Hps. revert u1 L sn. induction Hps as [|p ps Hp Hps IH]; intros u1 L sn Hl.
  { exists L, []. cbn. by rewrite !app_nil_r. }
  destruct (client_seals _ _ _ _ _ _ _ _ _ _ _ _ p Hl Hp) as (L1 & c & Hs & Hd & Hl1).
  destruct (IH _ L1 (sn ++ [TlsWrite (fl_f c)]) Hl1) as (L' & cs & Hs' & Hds & Hl'). exists L', (c :: cs).
  rewrite (send_user_cons p ps L L1 (fl_f c) sn Hp Hs), Hs'. cbn [fmap list_fmap]. rewrite <- app_assoc in *.
  split; [done|]. split; [by rewrite Hd; f_equal|done].
Qed.

Lemma chunks_count n (l : list byte) : 0 < n → length (chunks n l) ≤ length l.
Proof.
  intros Hn. rewrite <- (chunks_concat n l Hn) at 2. pose proof (chunks_bound n l Hn) as Hb.
  induction Hb as [|p ps [Hp _] _ IH]; [done|]. cbn [length concat]. rewrite length_app. lia.
Qed.

(** The task takes the user's bytes. *)
Lemma task_takes data n a u1 u2 u3 d1 d2 d3 L tg tm tx sn :
  data ≠ [] → on_links (length data + n) a u1 u2 u3 d1 d2 d3 L tg tm tx →
  ∃ L' cs, task_turn (FromUser data) (mkTask L (mkStreams sn [])) =
      (mkTask L' (mkStreams (sn ++ (TlsWrite <$> (fl_f <$> cs)) ++ [TlsFlush]) []), Ok Again) ∧
    bytes_of cs = data ∧ on_links n a (u1 ++ cs) u2 u3 d1 d2 d3 L' tg tm tx.
Proof.
  intros Hne (Hg & Hm & Hx & Hrest). assert (0 < CELL_PAYLOAD_LEN) as Hpos by sizes.
  pose proof (chunks_count CELL_PAYLOAD_LEN data Hpos) as Hlen.
  destruct (client_sends (chunks CELL_PAYLOAD_LEN data) n a u1 u2 u3 d1 d2 d3 L tg tm tx sn) as (L' & cs & Hs & Hd & Hl).
  { by apply chunks_bound. }
  { split_and!; try apply Hrest; (eapply linked_fewer; [| |eassumption]); lia. }
  exists L', cs. split; [|split; [unfold bytes_of; rewrite Hd; by apply chunks_concat|done]].
  destruct data as [|b data]; [done|]. cbn [task_turn]. erewrite st_bind_Ok_eq by exact Hs.
  erewrite st_bind_Ok_eq by (unfold on_streams, on_field; cbn [t_net]; rewrite act_Ok; reflexivity).
  by rewrite <- app_assoc.
Qed.

(** The task takes the guard's next frame. *)
Lemma task_hears c n a u1 u2 u3 d1 d2 d3 L tg tm tx sn :
  on_links n a u1 u2 u3 d1 d2 (c :: d3) L tg tm tx →
  ∃ L', task_turn (Inbound (fl_f c)) (mkTask L (mkStreams sn [])) =
      (mkTask L' (mkStreams (sn ++ [UserWrite (fl_data c)]) []), Ok Again) ∧
    on_links n a u1 u2 u3 d1 d2 d3 L' tg tm tx.
Proof.
  intros (Hg & Hm & Hx & Hu1 & Hu2 & Hu3 & Hd1 & Hd2 & Hd3).
  apply Forall_cons in Hd3 as [[[[Hp Hi] Hb] Hf] Hd3]. apply linked_sym in Hg, Hm, Hx. pairs.
  destruct (linked_peel_forward _ _ _ _ _ _ (fl_b c) (fl_f c) 3 Hg) as (eg & Hp3 & Hg'); [lia|done|done|].
  destruct (linked_peel_forward _ _ _ _ _ _ (fl_i c) (fl_b c) 2 Hm) as (em & Hp2 & Hm'); [lia|done|done|].
  destruct (linked_peel_to_me _ _ _ _ _ _ (mkCell Data (fl_data c)) (fl_i c) 1 Hx) as (ex & Hp1 & Hx'); [lia|apply Hp|done|].
  apply linked_sym in Hg', Hm', Hx'. exists (mkLayers eg em ex). split; [|unfold on_links; pairs; done].
  assert (peel_inbound (fl_f c) L = (mkLayers eg em ex, Ok (mkCell Data (fl_data c)))) as Hpi.
  { unfold peel_inbound, on_exit, on_middle, on_guard, on_field, st_map_err, mbind, st_bind.
    change (CLIENT_LAYERS - 1) with 2. change CLIENT_LAYERS with 3.
    rewrite Hp3. cbn [map_err l_middle]. rewrite Hp2. cbn [map_err l_exit]. by rewrite Hp1. }
  cbn [task_turn]. erewrite st_bind_Ok_eq by (unfold on_layers, on_field; cbn [t_layers]; rewrite Hpi; reflexivity).
  cbn [cell_type payload t_net]. destruct (fl_data c) as [|b l]; [destruct Hp as [Hp _]; simpl in Hp; lia|done].
Qed.

(** *** The relays' turns *)

(** A relay in its loop, its next link open and nothing failing; the exit, its
    destination connected. *)
Definition relay_open (s : circuit_io) : Prop := script (io_net s) = [] ∧ is_some (next_link s) = true.
Definition exit_open (s : circuit_io) : Prop := script (io_net s) = [] ∧ is_some (dest_link s) = true.

Lemma relay_open_logged l t s : relay_open s → relay_open (with_log l (with_transport t s)).
Proof. by intros [Hs Hn]. Qed.
Lemma exit_open_logged l t s : exit_open s → exit_open (with_log l (with_transport t s)).
Proof. by intros [Hs Hn]. Qed.

Lemma relay_turn_logged ctx r ev s t new :
  io_turn ctx r ev s = (with_log new (with_transport t s), Ok Continue) →
  relay_turn ctx r ev s = (with_log new (with_transport t s), new, false).
Proof. intros Ht. unfold relay_turn. rewrite Ht, io_log_step. by rewrite drop_app_length. Qed.

Lemma guard_passes_on ctx c n a u1 u2 u3 d1 d2 d3 L s tm tx :
  on_links n a (c :: u1) u2 u3 d1 d2 d3 L (transport s) tm tx → relay_open s →
  ∃ t, relay_turn ctx Guard (InFrame (fl_f c)) s = (with_log [WriteNext (fl_b c); FlushNext] (with_transport t s),
      [WriteNext (fl_b c); FlushNext], false) ∧
    on_links n a u1 (u2 ++ [c]) u3 d1 d2 d3 L t tm tx.
Proof.
  intros (Hg & Hm & Hx & [[[[Hp Hi] Hb] Hf] Hu1]%Forall_cons & Hu2 & Hrest) [Hs Hn]. pairs.
  destruct (linked_peel_forward _ _ _ _ _ _ (fl_b c) (fl_f c) 3 Hg) as (t & Hpeel & Hg'); [lia|done|done|].
  exists t. split; [by apply relay_turn_logged, turn_forward|]. unfold on_links. pairs. do 3 (split; [done|]). split; [done|].
  split; [|done]. apply Forall_app. split; [done|]. apply Forall_singleton. exact (conj (conj Hp Hi) Hb).
Qed.

Lemma middle_passes_on ctx c n a u1 u2 u3 d1 d2 d3 L tg s tx :
  on_links n a u1 (c :: u2) u3 d1 d2 d3 L tg (transport s) tx → relay_open s →
  ∃ t, relay_turn ctx Middle (InFrame (fl_b c)) s = (with_log [WriteNext (fl_i c); FlushNext] (with_transport t s),
      [WriteNext (fl_i c); FlushNext], false) ∧
    on_links n a u1 u2 (u3 ++ [c]) d1 d2 d3 L tg t tx.
Proof.
  intros (Hg & Hm & Hx & Hu1 & [[[Hp Hi] Hb] Hu2]%Forall_cons & Hu3 & Hrest) [Hs Hn]. pairs.
  destruct (linked_peel_forward _ _ _ _ _ _ (fl_i c) (fl_b c) 2 Hm) as (t & Hpeel & Hm'); [lia|done|done|].
  exists t. split; [by apply relay_turn_logged, turn_forward|]. unfold on_links. pairs. do 4 (split; [done|]). split; [done|].
  split; [|done]. apply Forall_app. split; [done|]. apply Forall_singleton. exact (conj Hp Hi).
Qed.

Lemma exit_delivers ctx c n a u1 u2 u3 d1 d2 d3 L tg tm s :
  on_links n a u1 u2 (c :: u3) d1 d2 d3 L tg tm (transport s) → exit_open s →
  ∃ t, relay_turn ctx Exit (InFrame (fl_i c)) s = (with_log [WriteDest (fl_data c); FlushDest] (with_transport t s),
      [WriteDest (fl_data c); FlushDest], false) ∧
    on_links n a u1 u2 u3 d1 d2 d3 L tg tm t.
Proof.
  intros (Hg & Hm & Hx & Hu1 & Hu2 & [[Hp Hi] Hu3]%Forall_cons & Hrest) [Hs Hd]. pairs.
  destruct (linked_peel_to_me _ _ _ _ _ _ (mkCell Data (fl_data c)) (fl_i c) 1 Hx) as (t & Hpeel & Hx'); [lia|apply Hp|done|].
  exists t. split; [|unfold on_links; pairs; done]. apply relay_turn_logged.
  rewrite (turn_to_me ctx Exit s (fl_i c) t (mkCell Data (fl_data c)) Hpeel).
  change (handle_cell ctx Exit (mkCell Data (fl_data c))) with (handle_data Exit (fl_data c)).
  apply handle_data_Ok; [|done..]. intros He. rewrite He in Hp. destruct Hp as [Hp _]. simpl in Hp. lia.
Qed.

Lemma middle_passes_back ctx c n a u1 u2 u3 d1 d2 d3 L tg s tx :
  on_links n a u1 u2 u3 (c :: d1) d2 d3 L tg (transport s) tx → relay_open s →
  ∃ t c', relay_turn ctx Middle (NextFrame (fl_i c)) s = (with_log [WriteIn (fl_b c'); FlushIn] (with_transport t s),
      [WriteIn (fl_b c'); FlushIn], false) ∧ fl_data c' = fl_data c ∧
    on_links n a u1 u2 u3 d1 (d2 ++ [c']) d3 L tg t tx.
Proof.
  intros (Hg & Hm & Hx & Hu1 & Hu2 & Hu3 & [[Hp Hi] Hd1]%Forall_cons & Hd2 & Hd3) [Hs Hn].
  apply linked_sym, (linked_fewer _ _ (S (a + length d1)) n) in Hm; [|cbn [length]; lia..].
  destruct (linked_forward _ _ _ _ _ _ (fl_i c) 2 Hm)
    as (t & b & Hseal & Hlb & Hm'); [unfold MAX_LAYERS; lia|done|]. apply linked_sym in Hm'.
  exists t, (mkFlying (fl_data c) (fl_i c) b []). split; [by apply relay_turn_logged, turn_next|]. split; [done|].
  unfold on_links. pairs. split; [|split; [done|split; [done|]]].
  - eapply linked_fewer; [| |exact Hg]; [done|]. rewrite length_app. cbn. lia.
  - do 4 (split; [done|]). split; [|done]. apply Forall_app. split; [done|]. apply Forall_singleton. exact (conj (conj Hp Hi) Hlb).
Qed.

Lemma guard_passes_back ctx c n a u1 u2 u3 d1 d2 d3 L s tm tx :
  on_links n a u1 u2 u3 d1 (c :: d2) d3 L (transport s) tm tx → relay_open s →
  ∃ t c', relay_turn ctx Guard (NextFrame (fl_b c)) s = (with_log [WriteIn (fl_f c'); FlushIn] (with_transport t s),
      [WriteIn (fl_f c'); FlushIn], false) ∧ fl_data c' = fl_data c ∧
    on_links n a u1 u2 u3 d1 d2 (d3 ++ [c']) L t tm tx.
Proof.
  intros (Hg & Hm & Hx & Hu1 & Hu2 & Hu3 & Hd1 & [[[Hp Hi] Hb] Hd2]%Forall_cons & Hd3) [Hs Hn].
  apply linked_sym, (linked_fewer _ _ (S (a + length d1 + length d2)) n) in Hg; [|cbn [length]; lia..].
  destruct (linked_forward _ _ _ _ _ _ (fl_b c) 3 Hg)
    as (t & f & Hseal & Hlf & Hg'); [unfold MAX_LAYERS; lia|done|]. apply linked_sym in Hg'.
  exists t, (mkFlying (fl_data c) (fl_i c) (fl_b c) f). split; [by apply relay_turn_logged, turn_next|]. split; [done|].
  unfold on_links. pairs. do 3 (split; [done|]). do 5 (split; [done|]). apply Forall_app. split; [done|].
  apply Forall_singleton. exact (conj (conj (conj Hp Hi) Hb) Hlf).
Qed.

(** The exit seals what the destination sends. *)
Lemma exit_sends ps n a u1 u2 u3 d1 d2 d3 L tg tm s :
  Forall piece_ok ps → on_links n (length ps + a) u1 u2 u3 d1 d2 d3 L tg tm (transport s) → script (io_net s) = [] →
  ∃ t cs, send_chunks Exit ps s = (with_log (WriteIn <$> (fl_i <$> cs)) (with_transport t s), Ok ()) ∧ fl_data <$> cs = ps ∧
    on_links n a u1 u2 u3 (d1 ++ cs) d2 d3 L tg tm t.
Proof.
  intros Hps. revert d1 s. induction Hps as [|p ps Hp Hps IH]; intros d1 s Hl Hs.
  { exists (transport s), []. cbn [fmap list_fmap]. rewrite app_nil_r. split; [|done].
    destruct s as [t nl dl [lg sc]]. cbn in Hs. subst sc. unfold with_log, with_transport, io_log. cbn. by rewrite app_nil_r. }
  destruct Hl as (Hg & Hm & Hx & Hu1 & Hu2 & Hu3 & Hd1 & Hd2 & Hd3). apply linked_sym in Hx.
  destruct (linked_to_me (length ps + a) _ _ _ _ _ (mkCell Data p) 1 Hx) as (t1 & i & Hseal & Hli & Hx'); [unfold MAX_LAYERS; lia|apply Hp|].
  apply linked_sym in Hx'. set (c := mkFlying p i [] []).
  destruct (IH (d1 ++ [c]) (with_log [WriteIn i] (with_transport t1 s))) as (t & cs & Hsend & Hd & Hl'); [|done|].
  { unfold on_links. pairs. split; [|split; [|split; [done|]]].
    - eapply linked_fewer; [| |exact Hg]; [done|]. rewrite length_app. cbn. lia.
    - eapply linked_fewer; [| |exact Hm]; [done|]. rewrite length_app. cbn. lia.
    - do 3 (split; [done|]). split; [|done]. apply Forall_app. split; [done|]. apply Forall_singleton. exact (conj Hp Hli). }
  exists t, (c :: cs). rewrite (send_chunks_cons Exit p ps s t1 i Hp Hs Hseal), Hsend. cbn [fmap list_fmap].
  rewrite <- app_assoc in Hl'. split; [|split; [by rewrite Hd|done]].
  change (with_transport t (with_log [WriteIn i] (with_transport t1 s))) with (with_log [WriteIn i] (with_transport t s)).
  by rewrite with_log_app.
Qed.

Lemma exit_hears ctx data n a u1 u2 u3 d1 d2 d3 L tg tm s :
  data ≠ [] → on_links n (length data + a) u1 u2 u3 d1 d2 d3 L tg tm (transport s) → exit_open s →
  ∃ t cs, relay_turn ctx Exit (DestBytes data) s = (with_log ((WriteIn <$> (fl_i <$> cs)) ++ [FlushIn]) (with_transport t s),
      (WriteIn <$> (fl_i <$> cs)) ++ [FlushIn], false) ∧ bytes_of cs = data ∧
    on_links n a u1 u2 u3 (d1 ++ cs) d2 d3 L tg tm t.
Proof.
  intros Hne (Hg & Hm & Hx & Hrest) [Hs Hd]. assert (0 < CELL_PAYLOAD_LEN) as Hpos by sizes.
  pose proof (chunks_count CELL_PAYLOAD_LEN data Hpos) as Hlen.
  destruct (exit_sends (chunks CELL_PAYLOAD_LEN data) n a u1 u2 u3 d1 d2 d3 L tg tm s) as (t & cs & Hsend & Hdata & Hl).
  { by apply chunks_bound. }
  { split_and!; try apply Hrest; (eapply linked_fewer; [| |eassumption]); lia. }
  { done. }
  exists t, cs. split; [|split; [unfold bytes_of; rewrite Hdata; by apply chunks_concat|done]].
  apply relay_turn_logged. unfold io_turn. erewrite st_bind_Ok_eq by (unfold get_io; reflexivity). rewrite Hd.
  unfold handle_dest. destruct data as [|b data]; [done|]. erewrite st_bind_Ok_eq by exact Hsend.
  erewrite st_bind_Ok_eq by (by apply perform_Ok). by rewrite with_log_app.
Qed.

(** *** The whole of it *)

Lemma on_links_fewer n a n' a' u1 u2 u3 d1 d2 d3 L tg tm tx :
  n' ≤ n → a' ≤ a → on_links n a u1 u2 u3 d1 d2 d3 L tg tm tx → on_links n' a' u1 u2 u3 d1 d2 d3 L tg tm tx.
Proof.
  intros Hn Ha (Hg & Hm & Hx & Hrest). split; [|split; [|split; [|done]]]; (eapply linked_fewer; [| |eassumption]); lia.
Qed.

(** Every byte is at one place, in its order; the transports are in step with
    what is on the way; nothing has failed or ended but the application. *)
Record flowing (says answers : list byte) (t : traffic) u1 u2 u3 d1 d2 d3 : Prop := {
  fw_up1 : tr_up1 t = fl_f <$> u1; fw_up2 : tr_up2 t = fl_b <$> u2; fw_up3 : tr_up3 t = fl_i <$> u3;
  fw_down1 : tr_down1 t = fl_i <$> d1; fw_down2 : tr_down2 t = fl_b <$> d2; fw_down3 : tr_down3 t = fl_f <$> d3;
  fw_says : says = tr_reached t ++ bytes_of u3 ++ bytes_of u2 ++ bytes_of u1 ++ to_go (tr_session t) ++ tr_says t;
  fw_answers : answers = tr_heard t ++ to_come (tr_session t) ++ bytes_of d3 ++ bytes_of d2 ++ bytes_of d1 ++ tr_answers t;
  fw_links : on_links (length (to_go (tr_session t)) + length (tr_says t)) (length (tr_answers t)) u1 u2 u3 d1 d2 d3
    (t_layers (sn_task (tr_session t))) (transport (tr_guard t)) (transport (tr_middle t)) (transport (tr_exit t));
  fw_open : relay_open (tr_guard t) ∧ relay_open (tr_middle t) ∧ exit_open (tr_exit t);
  fw_running : sn_bck_done (tr_session t) = false ∧ sn_dropped (tr_session t) = false ∧ sn_task_done (tr_session t) = false ∧
    replies (t_net (sn_task (tr_session t))) = [] ∧ tr_stopped t = false;
  fw_ended : sn_fwd_done (tr_session t) = true → tr_says t = [] ∧ sn_fwd_buf (tr_session t) = [];
  fw_wf : session_wf (tr_session t);
}.

(** The moves that are left: each byte has six to make on its way up and seven
    on its way down. *)
Definition left_in (s : session_io) : nat :=
  5 * length (sn_fwd_buf s) + 4 * length (sn_up s) + 3 * length (sn_handing s) + 2 * length (sn_down s) + length (sn_bck_buf s) +
  (if sn_fwd_done s then 0 else 1).
Definition left_to_do (t : traffic) u1 u2 u3 d1 d2 d3 : nat :=
  6 * length (tr_says t) + left_in (tr_session t) +
  3 * length (bytes_of u1) + 2 * length (bytes_of u2) + length (bytes_of u3) +
  7 * length (tr_answers t) + 6 * length (bytes_of d1) + 5 * length (bytes_of d2) + 4 * length (bytes_of d3).

(** A move leads on. *)
Definition flows_on (says answers : list byte) (n : nat) (t : traffic) : Prop :=
  ∃ u1 u2 u3 d1 d2 d3, flowing says answers t u1 u2 u3 d1 d2 d3 ∧ left_to_do t u1 u2 u3 d1 d2 d3 < n.

Ltac traffic_fields := unfold to_go, to_come in *;
  cbn [tr_says tr_session tr_guard tr_middle tr_exit tr_up1 tr_up2 tr_up3 tr_down1 tr_down2 tr_down3 tr_answers tr_reached
    tr_heard tr_stopped transport with_log with_transport sn_fwd_done sn_bck_done sn_dropped sn_fwd_buf sn_bck_buf sn_up
    sn_down sn_task sn_handing sn_task_done t_layers t_net sent replies] in *.

(** The state of a session that flows, spelled out. *)
Lemma flowing_shape says answers t u1 u2 u3 d1 d2 d3 :
  flowing says answers t u1 u2 u3 d1 d2 d3 →
  ∃ sy fd fb bb up dn L sn hd g m x ans reached heard,
    t = mkTraffic sy (mkSessionIo fd false false fb bb up dn (mkTask L (mkStreams sn [])) hd false) g m x
      (fl_f <$> u1) (fl_b <$> u2) (fl_i <$> u3) (fl_i <$> d1) (fl_b <$> d2) (fl_f <$> d3) ans reached heard false.
Proof.
  intros [Hu1 Hu2 Hu3 Hd1 Hd2 Hd3 _ _ _ _ (Hb & Hd & Ht & Hr & Hs) _ _].
  destruct t as [sy [fd bd dr fb bb up dn [L [sn rs]] hd td] g m x up1 up2 up3 dn1 dn2 dn3 ans reached heard st].
  cbn in *. subst. do 15 eexists. reflexivity.
Qed.

(** A step that only moves bytes between the copies and the pipe. *)
Lemma session_moves_bytes says answers t u1 u2 u3 d1 d2 d3 e sy s' t' :
  flowing says answers t u1 u2 u3 d1 d2 d3 → splice_step e (tr_session t) = Some s' →
  sn_task s' = sn_task (tr_session t) → sn_task_done s' = false → sn_bck_done s' = false → sn_dropped s' = false →
  input_of e (tr_session t) = [] → tr_says t = heard_from e ++ sy → (sn_fwd_done s' = true → sy = [] ∧ sn_fwd_buf s' = []) →
  6 * length sy + left_in s' < 6 * length (tr_says t) + left_in (tr_session t) →
  session_turn e sy (tr_down3 t) t = Some t' → flows_on says answers (left_to_do t u1 u2 u3 d1 d2 d3) t'.
Proof.
  intros Hf Hs Ht Htd Hbd Hdr Hin Hsay Hend Hn Ht'.
  pose proof (session_wf_step _ _ _ (fw_wf _ _ _ _ _ _ _ _ _ Hf) Hs) as Hwf.
  destruct (splice_step_moved _ _ _ Hs) as (Hgo & _ & more & Hmore & _ & Hcome & _). rewrite Hin in Hgo. cbn in Hgo.
  specialize (Hcome Htd). assert (more = []) as ->.
  { rewrite Ht in Hmore. apply (app_inv_head (sent (t_net (sn_task (tr_session t))))). by rewrite app_nil_r. }
  cbn in Hcome. rewrite app_nil_r in Hcome.
  destruct (flowing_shape _ _ _ _ _ _ _ _ _ Hf) as (sy0 & fd & fb & bb & up & dn & L & sn & hd & g & m & x & ans & reached & heard & ->).
  destruct Hf as [_ _ _ _ _ _ Hsays Hans Hlinks Hopen _ _ _].
  cbn [tr_session tr_says tr_down3] in *. unfold session_turn in Ht'. rewrite Hs in Ht'. cbn [mbind option_bind] in Ht'. injection Ht' as <-.
  rewrite Ht. cbn [sn_task t_net sent]. rewrite drop_all. cbn [tls_frames omap list_omap]. rewrite app_nil_r, Htd.
  exists u1, u2, u3, d1, d2, d3. split; [|unfold left_to_do; traffic_fields; lia].
  cbn [tr_answers tr_reached tr_heard tr_guard tr_middle tr_exit] in *.
  constructor; cbn [tr_says tr_session tr_guard tr_middle tr_exit tr_up1 tr_up2 tr_up3 tr_down1 tr_down2 tr_down3 tr_answers tr_reached
    tr_heard tr_stopped]; try done.
  - rewrite Hsays, <- Hgo, Hsay. by rewrite <- !app_assoc.
  - rewrite Hans, <- Hcome. by rewrite <- !app_assoc.
  - rewrite Ht. eapply on_links_fewer; [| |exact Hlinks]; [|done]. rewrite <- Hgo, Hsay, !length_app. lia.
  - by rewrite Ht.
Qed.

(** The task reads what the user wrote. *)
Lemma session_reads says answers t u1 u2 u3 d1 d2 d3 n t' :
  flowing says answers t u1 u2 u3 d1 d2 d3 → session_turn (TaskReads n []) (tr_says t) (tr_down3 t) t = Some t' →
  flows_on says answers (left_to_do t u1 u2 u3 d1 d2 d3) t'.
Proof.
  intros Hf. destruct (flowing_shape _ _ _ _ _ _ _ _ _ Hf)
    as (sy & fd & fb & bb & up & dn & L & sn & hd & g & m & x & ans & reached & heard & ->).
  destruct Hf as [_ _ _ _ _ _ Hsays Hans Hlinks Hopen _ Hend Hwf]. cbn [tr_says tr_down3].
  unfold session_turn. destruct (splice_step _ _) as [s'|] eqn:Hs; [|done]. cbn [mbind option_bind]. intros [= <-].
  pose proof (session_wf_step _ _ _ Hwf Hs) as Hwf'. cbn [splice_step tr_session] in Hs. case_decide as Hg; [|done].
  destruct Hg as (_ & -> & Hn & _). apply (inj Some) in Hs as <-.
  destruct (task_takes (take n up) (length (drop n up ++ fb) + length sy) (length ans) u1 u2 u3 d1 d2 d3 L (transport g) (transport m)
    (transport x) sn) as (L' & cs & Ht & Hcs & Hl).
  { intros He. apply (f_equal length) in He. rewrite length_take in He. cbn in He. lia. }
  { eapply on_links_fewer; [| |exact Hlinks]; [|done]. unfold to_go. cbn. rewrite !length_app, length_take, length_drop. lia. }
  assert (task_step (FromUser (take n up)) [] (mkSessionIo fd false false fb bb (drop n up) dn (mkTask L (mkStreams sn [])) [] false) =
    mkSessionIo fd false false fb bb (drop n up) dn (mkTask L' (mkStreams (sn ++ (TlsWrite <$> (fl_f <$> cs)) ++ [TlsFlush]) [])) [] false)
    as Hstep.
  { unfold task_step. cbn [t_layers t_net sent]. rewrite Ht. cbn [t_net sent]. by rewrite drop_app_length, user_bytes_writes. }
  rewrite Hstep in *. clear Hstep. exists (u1 ++ cs), u2, u3, d1, d2, d3. split.
  - constructor; traffic_fields; try done.
    + by rewrite drop_app_length, tls_frames_writes, fmap_app.
    + rewrite Hsays, bytes_of_app, Hcs, <- !app_assoc. by rewrite (app_assoc (take n up)), take_drop.
    + by rewrite Hans, !app_nil_r.
  - unfold left_to_do, left_in. traffic_fields. rewrite bytes_of_app, Hcs, length_app, length_take, length_drop. lia.
Qed.

(** The task takes a frame. *)
Lemma session_hears says answers t u1 u2 u3 d1 d2 d3 t' :
  flowing says answers t u1 u2 u3 d1 d2 d3 → traffic_step cg cm cx ClientReads t = Some t' →
  flows_on says answers (left_to_do t u1 u2 u3 d1 d2 d3) t'.
Proof.
  intros Hf. destruct (flowing_shape _ _ _ _ _ _ _ _ _ Hf)
    as (sy & fd & fb & bb & up & dn & L & sn & hd & g & m & x & ans & reached & heard & ->).
  destruct Hf as [_ _ _ _ _ _ Hsays Hans Hlinks Hopen _ Hend Hwf]. cbn [traffic_step tr_down3].
  destruct d3 as [|c d3]; [done|]. cbn [fmap list_fmap tr_says].
  unfold session_turn. destruct (splice_step _ _) as [s'|] eqn:Hs; [|done]. cbn [mbind option_bind]. intros [= <-].
  pose proof (session_wf_step _ _ _ Hwf Hs) as Hwf'. cbn [splice_step tr_session] in Hs. case_decide as Hg; [|done].
  destruct Hg as (_ & ->). apply (inj Some) in Hs as <-.
  destruct (task_hears c _ _ _ _ _ _ _ _ _ _ _ _ sn Hlinks) as (L' & Ht & Hl).
  assert (task_step (Inbound (fl_f c)) [] (mkSessionIo fd false false fb bb up dn (mkTask L (mkStreams sn [])) [] false) =
    mkSessionIo fd false false fb bb up dn (mkTask L' (mkStreams (sn ++ [UserWrite (fl_data c)]) [])) (fl_data c) false) as Hstep.
  { unfold task_step. cbn [t_layers t_net sent]. cbn [sn_task tr_session t_layers] in Ht. rewrite Ht. cbn [t_net sent].
    rewrite drop_app_length. unfold user_bytes. cbn. by rewrite app_nil_r. }
  rewrite Hstep in *. clear Hstep.
  assert (0 < length (fl_data c)) as Hpos by (destruct Hlinks as (_ & _ & _ & _ & _ & _ & _ & _ & Hd3); by apply Forall_cons in Hd3 as [[[[[? _] _] _] _] _]).
  exists u1, u2, u3, d1, d2, d3. split.
  - constructor; traffic_fields; try done.
    + rewrite drop_app_length. cbn. by rewrite app_nil_r.
    + rewrite Hans, bytes_of_cons, !app_nil_r, <- !app_assoc. done.
  - unfold left_to_do, left_in. traffic_fields. rewrite bytes_of_cons, length_app. cbn [length]. lia.
Qed.

(** *** A relay's move *)

Lemma guard_reads says answers t u1 u2 u3 d1 d2 d3 t' :
  flowing says answers t u1 u2 u3 d1 d2 d3 → traffic_step cg cm cx GuardReads t = Some t' →
  flows_on says answers (left_to_do t u1 u2 u3 d1 d2 d3) t'.
Proof.
  intros Hf. destruct (flowing_shape _ _ _ _ _ _ _ _ _ Hf)
    as (sy & fd & fb & bb & up & dn & L & sn & hd & g & m & x & ans & reached & heard & ->).
  destruct Hf as [_ _ _ _ _ _ Hsays Hans Hlinks Hopen Hrun Hend Hwf]. cbn [traffic_step tr_up1].
  destruct u1 as [|c u1]; [done|]. cbn [fmap list_fmap]. unfold guard_turn.
  assert (0 < length (fl_data c)) as Hpos
    by (destruct Hlinks as (_ & _ & _ & Hu & _); by apply Forall_cons in Hu as [[[[[? _] _] _] _] _]).
  destruct (guard_passes_on cg c _ _ _ _ _ _ _ _ _ _ _ _ Hlinks) as (tg & Hr & Hl); [apply Hopen|]. cbn [tr_guard] in Hr. rewrite Hr.
  intros [= <-]. exists u1, (u2 ++ [c]), u3, d1, d2, d3. split.
  - constructor; traffic_fields; try done; cbn [to_next to_prev omap list_omap]; rewrite ?fmap_app, ?app_nil_r; try done.
    + by rewrite Hsays, bytes_of_app, bytes_of_one, bytes_of_cons, <- !app_assoc.
    + destruct Hopen as (? & ? & ?). auto using relay_open_logged, exit_open_logged.
  - unfold left_to_do. traffic_fields. rewrite bytes_of_app, bytes_of_one, bytes_of_cons, !length_app. lia.
Qed.

Lemma middle_reads says answers t u1 u2 u3 d1 d2 d3 t' :
  flowing says answers t u1 u2 u3 d1 d2 d3 → traffic_step cg cm cx MiddleReads t = Some t' →
  flows_on says answers (left_to_do t u1 u2 u3 d1 d2 d3) t'.
Proof.
  intros Hf. destruct (flowing_shape _ _ _ _ _ _ _ _ _ Hf)
    as (sy & fd & fb & bb & up & dn & L & sn & hd & g & m & x & ans & reached & heard & ->).
  destruct Hf as [_ _ _ _ _ _ Hsays Hans Hlinks Hopen Hrun Hend Hwf]. cbn [traffic_step tr_up2].
  destruct u2 as [|c u2]; [done|]. cbn [fmap list_fmap]. unfold middle_turn.
  assert (0 < length (fl_data c)) as Hpos
    by (destruct Hlinks as (_ & _ & _ & _ & Hu & _); by apply Forall_cons in Hu as [[[[? _] _] _] _]).
  destruct (middle_passes_on cm c _ _ _ _ _ _ _ _ _ _ _ _ Hlinks) as (tm & Hr & Hl); [apply Hopen|]. cbn [tr_middle] in Hr. rewrite Hr.
  intros [= <-]. exists u1, u2, (u3 ++ [c]), d1, d2, d3. split.
  - constructor; traffic_fields; try done; cbn [to_next to_prev omap list_omap]; rewrite ?fmap_app, ?app_nil_r; try done.
    + by rewrite Hsays, bytes_of_app, bytes_of_one, bytes_of_cons, <- !app_assoc.
    + destruct Hopen as (? & ? & ?). auto using relay_open_logged, exit_open_logged.
  - unfold left_to_do. traffic_fields. rewrite bytes_of_app, bytes_of_one, bytes_of_cons, !length_app. lia.
Qed.

Lemma exit_reads says answers t u1 u2 u3 d1 d2 d3 t' :
  flowing says answers t u1 u2 u3 d1 d2 d3 → traffic_step cg cm cx ExitReads t = Some t' →
  flows_on says answers (left_to_do t u1 u2 u3 d1 d2 d3) t'.
Proof.
  intros Hf. destruct (flowing_shape _ _ _ _ _ _ _ _ _ Hf)
    as (sy & fd & fb & bb & up & dn & L & sn & hd & g & m & x & ans & reached & heard & ->).
  destruct Hf as [_ _ _ _ _ _ Hsays Hans Hlinks Hopen Hrun Hend Hwf]. cbn [traffic_step tr_up3].
  destruct u3 as [|c u3]; [done|]. cbn [fmap list_fmap tr_answers]. unfold exit_turn.
  assert (0 < length (fl_data c)) as Hpos
    by (destruct Hlinks as (_ & _ & _ & _ & _ & Hu & _); by apply Forall_cons in Hu as [[[? _] _] _]).
  destruct (exit_delivers cx c _ _ _ _ _ _ _ _ _ _ _ _ Hlinks) as (tx & Hr & Hl); [apply Hopen|]. cbn [tr_exit] in Hr. rewrite Hr.
  intros [= <-]. exists u1, u2, u3, d1, d2, d3. split.
  - constructor; traffic_fields; try done; unfold to_dest; cbn [to_prev omap list_omap concat]; rewrite ?app_nil_r; try done.
    + by rewrite Hsays, bytes_of_cons, <- !app_assoc.
    + destruct Hopen as (? & ? & ?). auto using relay_open_logged, exit_open_logged.
  - unfold left_to_do. traffic_fields. rewrite bytes_of_cons, !length_app. lia.
Qed.

Lemma exit_hears_more says answers t u1 u2 u3 d1 d2 d3 n t' :
  flowing says answers t u1 u2 u3 d1 d2 d3 → traffic_step cg cm cx (ExitHears n) t = Some t' →
  flows_on says answers (left_to_do t u1 u2 u3 d1 d2 d3) t'.
Proof.
  intros Hf. destruct (flowing_shape _ _ _ _ _ _ _ _ _ Hf)
    as (sy & fd & fb & bb & up & dn & L & sn & hd & g & m & x & ans & reached & heard & ->).
  destruct Hf as [_ _ _ _ _ _ Hsays Hans Hlinks Hopen Hrun Hend Hwf]. cbn [traffic_step tr_answers tr_up3].
  case_decide as Hn; [|done]. unfold exit_turn.
  destruct (exit_hears cx (take n ans) (length (to_go (mkSessionIo fd false false fb bb up dn (mkTask L (mkStreams sn [])) hd false)) + length sy)
    (length (drop n ans)) u1 u2 u3 d1 d2 d3 L (transport g) (transport m) x) as (tx & cs & Hr & Hcs & Hl).
  { intros He. apply (f_equal length) in He. rewrite length_take in He. cbn in He. lia. }
  { eapply on_links_fewer; [| |exact Hlinks]; [done|]. cbn [tr_answers]. rewrite length_take, length_drop. lia. }
  { apply Hopen. }
  rewrite Hr. intros [= <-]. exists u1, u2, u3, (d1 ++ cs), d2, d3. split.
  - constructor; traffic_fields; try done; rewrite ?to_prev_writes, ?to_dest_writes, ?fmap_app, ?app_nil_r; try done.
    + by rewrite Hans, bytes_of_app, Hcs, <- !app_assoc, take_drop.
    + destruct Hopen as (? & ? & ?). auto using relay_open_logged, exit_open_logged.
  - unfold left_to_do. traffic_fields. rewrite bytes_of_app, Hcs, length_app, length_take, length_drop. lia.
Qed.

Lemma middle_hears says answers t u1 u2 u3 d1 d2 d3 t' :
  flowing says answers t u1 u2 u3 d1 d2 d3 → traffic_step cg cm cx MiddleHears t = Some t' →
  flows_on says answers (left_to_do t u1 u2 u3 d1 d2 d3) t'.
Proof.
  intros Hf. destruct (flowing_shape _ _ _ _ _ _ _ _ _ Hf)
    as (sy & fd & fb & bb & up & dn & L & sn & hd & g & m & x & ans & reached & heard & ->).
  destruct Hf as [_ _ _ _ _ _ Hsays Hans Hlinks Hopen Hrun Hend Hwf]. cbn [traffic_step tr_down1].
  destruct d1 as [|c d1]; [done|]. cbn [fmap list_fmap tr_up2]. unfold middle_turn.
  assert (0 < length (fl_data c)) as Hpos
    by (destruct Hlinks as (_ & _ & _ & _ & _ & _ & Hd & _); by apply Forall_cons in Hd as [[[? _] _] _]).
  destruct (middle_passes_back cm c _ _ _ _ _ _ _ _ _ _ _ _ Hlinks) as (tm & c' & Hr & Hc & Hl); [apply Hopen|].
  cbn [tr_middle] in Hr. rewrite Hr. intros [= <-]. exists u1, u2, u3, d1, (d2 ++ [c']), d3. split.
  - constructor; traffic_fields; try done; cbn [to_next to_prev omap list_omap]; rewrite ?fmap_app, ?app_nil_r; try done.
    + by rewrite Hans, bytes_of_app, bytes_of_one, bytes_of_cons, Hc, <- !app_assoc.
    + destruct Hopen as (? & ? & ?). auto using relay_open_logged, exit_open_logged.
  - unfold left_to_do. traffic_fields. rewrite bytes_of_app, bytes_of_one, bytes_of_cons, Hc, !length_app. lia.
Qed.

Lemma guard_hears says answers t u1 u2 u3 d1 d2 d3 t' :
  flowing says answers t u1 u2 u3 d1 d2 d3 → traffic_step cg cm cx GuardHears t = Some t' →
  flows_on says answers (left_to_do t u1 u2 u3 d1 d2 d3) t'.
Proof.
  intros Hf. destruct (flowing_shape _ _ _ _ _ _ _ _ _ Hf)
    as (sy & fd & fb & bb & up & dn & L & sn & hd & g & m & x & ans & reached & heard & ->).
  destruct Hf as [_ _ _ _ _ _ Hsays Hans Hlinks Hopen Hrun Hend Hwf]. cbn [traffic_step tr_down2].
  destruct d2 as [|c d2]; [done|]. cbn [fmap list_fmap tr_up1]. unfold guard_turn.
  assert (0 < length (fl_data c)) as Hpos
    by (destruct Hlinks as (_ & _ & _ & _ & _ & _ & _ & Hd & _); by apply Forall_cons in Hd as [[[[? _] _] _] _]).
  destruct (guard_passes_back cg c _ _ _ _ _ _ _ _ _ _ _ _ Hlinks) as (tg & c' & Hr & Hc & Hl); [apply Hopen|].
  cbn [tr_guard] in Hr. rewrite Hr. intros [= <-]. exists u1, u2, u3, d1, d2, (d3 ++ [c']). split.
  - constructor; traffic_fields; try done; cbn [to_next to_prev omap list_omap]; rewrite ?fmap_app, ?app_nil_r; try done.
    + by rewrite Hans, bytes_of_app, bytes_of_one, bytes_of_cons, Hc, <- !app_assoc.
    + destruct Hopen as (? & ? & ?). auto using relay_open_logged, exit_open_logged.
  - unfold left_to_do. traffic_fields. rewrite bytes_of_app, bytes_of_one, bytes_of_cons, Hc, !length_app. lia.
Qed.

(** *** The session's moves *)

Lemma session_turn_Some e sy down3 t t' : session_turn e sy down3 t = Some t' → ∃ s', splice_step e (tr_session t) = Some s'.
Proof. destruct t. unfold session_turn. cbn [tr_session]. destruct (splice_step _ _) as [s'|]; [by exists s'|done]. Qed.

Lemma session_moves says answers t u1 u2 u3 d1 d2 d3 e t' :
  flowing says answers t u1 u2 u3 d1 d2 d3 → traffic_step cg cm cx (SessionMoves e) t = Some t' →
  flows_on says answers (left_to_do t u1 u2 u3 d1 d2 d3) t'.
Proof.
  intros Hf Hstep. pose proof (fw_ended _ _ _ _ _ _ _ _ _ Hf) as Hend.
  destruct (flowing_shape _ _ _ _ _ _ _ _ _ Hf) as (sy & fd & fb & bb & up & dn & L & sn & hd & g & m & x & ans & reached & heard & ->).
  assert (∀ e' sy', session_turn e' sy' (fl_f <$> d3) (mkTraffic sy (mkSessionIo fd false false fb bb up dn (mkTask L (mkStreams sn [])) hd false)
      g m x (fl_f <$> u1) (fl_b <$> u2) (fl_i <$> u3) (fl_i <$> d1) (fl_b <$> d2) (fl_f <$> d3) ans reached heard false) = Some t' →
    ∃ s', splice_step e' (mkSessionIo fd false false fb bb up dn (mkTask L (mkStreams sn [])) hd false) = Some s') as Hsome
    by (intros e' sy' Ht; exact (session_turn_Some _ _ _ _ _ Ht)).
  cbn [traffic_step tr_says tr_down3 tr_session sn_fwd_done sn_fwd_buf] in *.
  destruct e as [l|k| | |k|k| | | |k [|r rs]|[|r rs]|f|k| |rs]; try done.
  all: try (by eapply session_reads; [exact Hf|exact Hstep]).
  1: case_decide as Hl; [|done].
  3: case_decide as Hl; [|done].
  all: pose proof Hstep as Ht; destruct (Hsome _ _ Ht) as [s' Hs]; pose proof Hs as Hg; cbn [splice_step] in Hg;
    (case_decide as Hd; [|done]); apply (inj Some) in Hg as <-; destruct_and?; try done;
    (eapply session_moves_bytes; [exact Hf|exact Hs|..|exact Ht]); try done;
    cbn [sn_fwd_done sn_bck_done sn_dropped sn_fwd_buf sn_bck_buf sn_up sn_down sn_task sn_handing sn_task_done tr_says
      tr_session heard_from].
  all: try (unfold left_in; cbn [sn_fwd_done sn_bck_done sn_dropped sn_fwd_buf sn_bck_buf sn_up sn_down sn_task sn_handing
    sn_task_done]; rewrite ?length_app, ?length_take, ?length_drop; subst; cbn [length]; lia).
  - rewrite <- (take_drop (length l) sy) at 1. by rewrite Hl.
  - assert (length l ≤ length sy) by (rewrite <- Hl, length_take; lia). unfold left_in.
    cbn [sn_fwd_done sn_bck_done sn_dropped sn_fwd_buf sn_bck_buf sn_up sn_down sn_task sn_handing sn_task_done].
    rewrite length_app, length_drop. lia.
Qed.

Lemma traffic_step_flows says answers t u1 u2 u3 d1 d2 d3 mv t' :
  flowing says answers t u1 u2 u3 d1 d2 d3 → traffic_step cg cm cx mv t = Some t' →
  flows_on says answers (left_to_do t u1 u2 u3 d1 d2 d3) t'.
Proof.
  destruct mv as [e| | | | |n| |];
    eauto using session_moves, session_hears, guard_reads, middle_reads, exit_reads, exit_hears_more, middle_hears, guard_hears.
Qed.

Lemma run_traffic_flows says answers ms t u1 u2 u3 d1 d2 d3 t' :
  flowing says answers t u1 u2 u3 d1 d2 d3 → run_traffic cg cm cx ms t = Some t' →
  ∃ v1 v2 v3 e1 e2 e3, flowing says answers t' v1 v2 v3 e1 e2 e3 ∧
    length ms + left_to_do t' v1 v2 v3 e1 e2 e3 ≤ left_to_do t u1 u2 u3 d1 d2 d3.
Proof.
  revert t u1 u2 u3 d1 d2 d3. induction ms as [|mv ms IH]; intros t u1 u2 u3 d1 d2 d3 Hf; cbn [run_traffic].
  { intros [= <-]. exists u1, u2, u3, d1, d2, d3. by split. }
  destruct (traffic_step cg cm cx mv t) as [t1|] eqn:Hm; [|done]. cbn [mbind option_bind]. intros Hr.
  destruct (traffic_step_flows _ _ _ _ _ _ _ _ _ _ _ Hf Hm) as (v1 & v2 & v3 & e1 & e2 & e3 & Hf1 & Hl).
  destruct (IH _ _ _ _ _ _ _ Hf1 Hr) as (w1 & w2 & w3 & f1 & f2 & f3 & Hf2 & Hl2).
  exists w1, w2, w3, f1, f2, f3. split; [done|]. cbn [length]. lia.
Qed.

Lemma flowing_start k says answers L log g m x :
  length says + length answers ≤ k → circuit_ready k L g m x →
  flowing says answers (traffic_start says answers L log g m x) [] [] [] [] [] [].
Proof.
  intros Hk [(Hg & Hm & Hx & Hng & Hnm & Hsg & Hsm & Hsx) Hd]. constructor; try done.
  - split_and!; try done; cbn; (eapply linked_fewer; [| |by apply linked_paired]); lia.
  - apply session_wf_start.
Qed.

Lemma left_start says answers L log g m x :
  left_to_do (traffic_start says answers L log g m x) [] [] [] [] [] [] = 6 * length says + 7 * length answers + 1.
Proof. unfold left_to_do, left_in. cbn [traffic_start splice_start tr_says tr_session tr_answers sn_fwd_buf sn_up sn_handing
  sn_down sn_bck_buf sn_fwd_done bytes_of fmap list_fmap concat length]. lia. Qed.

Lemma session_turn_None e sy down3 t : session_turn e sy down3 t = None → splice_step e (tr_session t) = None.
Proof. destruct t. unfold session_turn. cbn [tr_session]. by destruct (splice_step _ _). Qed.

(** A move of the session that is enabled, against [Hno] that none is. *)
Ltac can_move Hno e :=
  exfalso; let Hn := fresh in pose proof (Hno (SessionMoves e)) as Hn; cbn [traffic_step tr_says tr_down3] in Hn;
  try (rewrite decide_True in Hn by done); apply session_turn_None in Hn; cbn [tr_session splice_step] in Hn;
  rewrite decide_True in Hn; [discriminate Hn|cbn [length]; split_and!; done || lia].
Ltac can_turn Hno mv := exfalso; let Hn := fresh in pose proof (Hno mv) as Hn; done.

(** When nobody can move, everything has arrived. *)
Lemma all_arrived says answers t u1 u2 u3 d1 d2 d3 :
  flowing says answers t u1 u2 u3 d1 d2 d3 → (∀ mv, traffic_step cg cm cx mv t = None) →
  tr_reached t = says ∧ tr_heard t = answers.
Proof.
  intros Hf Hno. pose proof duplex_buf_pos. pose proof read_buf_pos. pose proof COPY_BUF_pos. pose proof dest_buf_pos.
  pose proof (fw_ended _ _ _ _ _ _ _ _ _ Hf) as Hend. pose proof (fw_says _ _ _ _ _ _ _ _ _ Hf) as Hsays.
  pose proof (fw_answers _ _ _ _ _ _ _ _ _ Hf) as Hans.
  destruct (flowing_shape _ _ _ _ _ _ _ _ _ Hf) as (sy & fd & fb & bb & up & dn & L & sn & hd & g & m & x & ans & reached & heard & ->).
  traffic_fields. clear Hf.
  destruct bb; [|can_move Hno (BckWrites 1)]. destruct dn; [|can_move Hno (BckReads 1)].
  destruct hd; [|can_move Hno (TaskWrites 1)].
  destruct d3 as [|c d3].
  2: { exfalso. pose proof (Hno ClientReads) as Hn. cbn [traffic_step tr_down3 fmap list_fmap tr_says] in Hn.
       apply session_turn_None in Hn. done. }
  destruct d2; [|can_turn Hno GuardHears]. destruct d1; [|can_turn Hno MiddleHears].
  destruct ans as [|a ans].
  2: { exfalso. pose proof (Hno (ExitHears 1)) as Hn. cbn [traffic_step tr_answers] in Hn.
       rewrite decide_True in Hn by (cbn [length]; lia). done. }
  destruct u3; [|can_turn Hno ExitReads]. destruct u2; [|can_turn Hno MiddleReads]. destruct u1; [|can_turn Hno GuardReads].
  destruct up; [|can_move Hno (TaskReads 1 [])].
  rewrite Hsays, Hans. cbn. rewrite !app_nil_r. split; [|done].
  destruct fd; [destruct (Hend eq_refl) as [-> ->]; by rewrite app_nil_r|].
  destruct fb; [|can_move Hno (FwdWrites 1)]. destruct sy as [|b sy]; [by rewrite app_nil_r|can_move Hno (FwdReads [b])].
Qed.
End traffic_lemmas.

(** ** Properties *)

(** C6. Both directions of a circuit work at once, over any schedule.  On a
    freshly built circuit, let the application and the destination each have
    something to say, and let the copies, the pipe, the circuit's task and the
    three relays move in any order, each on what has reached it, as much at a
    time as it likes.  While the transports have a message left for each byte
    and no socket fails: no operation of any of them
    fails and none of their loops ends; the pipe stays within its bound both
    ways and so do the copies' buffers; what has reached the destination is a
    prefix of what the application says, and what the application has heard is a
    prefix of what the destination answers, however the two are interleaved; no
    schedule goes on for ever; and one that cannot go on has brought every byte
    to its end, in both directions, also where the application has ended its
    side meanwhile. *)
Theorem session_full_duplex `{SnowFlight, Sha256, Ed25519, UrlParser, ServerNames, TokioCopy} k cg cm cx says answers L log g m x ms t :
  length says + length answers ≤ k → circuit_ready k L g m x →
  run_traffic cg cm cx ms (traffic_start says answers L log g m x) = Some t →
  tr_stopped t = false ∧
  (length (sn_up (tr_session t)) ≤ DUPLEX_BUF ∧ length (sn_down (tr_session t)) ≤ DUPLEX_BUF ∧
   length (sn_fwd_buf (tr_session t)) ≤ COPY_BUF ∧ length (sn_bck_buf (tr_session t)) ≤ COPY_BUF) ∧
  tr_reached t `prefix_of` says ∧ tr_heard t `prefix_of` answers ∧
  length ms ≤ 6 * length says + 7 * length answers + 1 ∧
  ((∀ mv, traffic_step cg cm cx mv t = None) → tr_reached t = says ∧ tr_heard t = answers).
Proof.
  intros Hk Hc Hr. pose proof (flowing_start k says answers L log g m x Hk Hc) as Hstart.
  destruct (run_traffic_flows cg cm cx _ _ ms _ _ _ _ _ _ _ t Hstart Hr) as (u1 & u2 & u3 & d1 & d2 & d3 & Hf & Hn).
  pose proof (all_arrived cg cm cx _ _ _ _ _ _ _ _ _ Hf) as Hall.
  destruct Hf as [_ _ _ _ _ _ Hsays Hans _ _ (_ & _ & _ & _ & Hst) _ (_ & Hwf)].
  split; [exact Hst|]. split; [by destruct Hwf as (? & ? & ? & ? & _)|].
  split; [rewrite Hsays; by apply prefix_app_r|]. split; [rewrite Hans; by apply prefix_app_r|].
  split; [|exact Hall]. rewrite left_start in Hn. lia.
Qed.

(** ** Witness *)

(** Both directions at once: the application says three bytes in two reads
    while the destination answers with four, and ends before it has heard them. *)
Definition sample_moves : list traffic_move :=
  [SessionMoves (FwdReads [x41; x42]); ExitHears 3; SessionMoves (FwdWrites 1); SessionMoves (TaskReads 1 []); MiddleHears;
   SessionMoves (FwdReads [x43]); GuardReads; GuardHears; SessionMoves (FwdWrites 2); ClientReads; MiddleReads; ExitHears 1;
   SessionMoves FwdEnds; SessionMoves (TaskWrites 2); SessionMoves (BckReads 2); SessionMoves (TaskWrites 1); ExitReads;
   SessionMoves (TaskReads 2 []); MiddleHears; SessionMoves (BckWrites 1); GuardReads; GuardHears; SessionMoves (BckReads 1);
   MiddleReads; ClientReads; SessionMoves (BckWrites 2); ExitReads; SessionMoves (TaskWrites 1); SessionMoves (BckReads 1)].
Definition sample_traffic : traffic :=
  traffic_start [x41; x42; x43] [x61; x62; x63; x64] sample_layers [] sample_guard_io sample_middle_io sample_exit_io.

Lemma session_full_duplex_witness :
  ∃ t, run_traffic (sample_ctx Guard) (sample_ctx Middle) (sample_ctx Exit) sample_moves sample_traffic = Some t ∧
    tr_reached t = [x41; x42; x43] ∧ tr_heard t = [x61; x62; x63] ∧ tr_stopped t = false ∧
    [x61; x62; x63] `prefix_of` [x61; x62; x63; x64].
Proof.
  assert ((λ t, (tr_reached t, tr_heard t)) <$>
      run_traffic (sample_ctx Guard) (sample_ctx Middle) (sample_ctx Exit) sample_moves sample_traffic =
    Some ([x41; x42; x43], [x61; x62; x63])) as Hrun by (vm_compute; reflexivity).
  destruct (run_traffic _ _ _ sample_moves sample_traffic) as [t|] eqn:Ht; [|discriminate Hrun]. simpl in Hrun.
  injection Hrun as Hreach Hheard. exists t. split; [reflexivity|]. split; [exact Hreach|]. split; [exact Hheard|].
  destruct (session_full_duplex 7 (sample_ctx Guard) (sample_ctx Middle) (sample_ctx Exit) [x41; x42; x43] [x61; x62; x63; x64]
    sample_layers [] sample_guard_io sample_middle_io sample_exit_io sample_moves t) as (Hst & _ & _ & Hp & _).
  - apply Nat.leb_le. reflexivity.
  - apply sample_circuit_ready.
  - exact Ht.
  - split; [exact Hst|]. rewrite <- Hheard. exact Hp.
Defined.
