(* ===== verification/Life.v ===== *)
(** QuietHop: the client's daemon, from an application's first byte to its last.

    [Daemon] takes a session up to the reply that a circuit is there; [Splice] is
    what [serve] of [quiethop-client/src/socks5.rs] and the circuit's task do
    after that.  Here both run together: the accept loop, the refresh task, the
    sessions that wait for the client, and the copies of the sessions that have
    their circuit, in any order.  The copies read what is left of the
    application's bytes after its request, and write after the reply. *)

From S2P Require Import Prelude Bytes Text NetAddr Ipv6 Cell Noise SampleNoise Layer Civil State Registry SampleRegistry.
From S2P Require Import RegistryCache Circuit Token Config Exit RelayRegistry Relay RelayTheorems Path Blind Dial Client Socks5.
From S2P Require Import Daemon EndToEnd Telescope Service Splice.

#[local] Open Scope Z_scope.

Section life.
Context `{Base64, Sha256, Ed25519, RegistryJson, StateJson, ModInverse, Snow, ServerNames}.
Context `{Urls, ApiJson, Pem, TC : TokioCopy}.

(** A session that has its circuit: the application's socket and the copies. *)
Record live := mkLive { lv_app : app; lv_io : session_io }.
Record life := mkLife { lf_daemon : daemon; lf_live : gmap nat live }.

Inductive life_event := Serves (e : devent) | Copies (i : nat) (e : splice_event).

(** What a step of the copies does with the application's socket: [None] where
    it cannot give the bytes, or has no end or failure to give.  A write of the
    other copy may fail at any time. *)
Definition socket_step (e : splice_event) (s : session_io) (a : app) : option app :=
  match e with
  | FwdReads l =>
      if bool_decide (take (length l) (a_in a) = l) then Some (mkApp (drop (length l) (a_in a)) (a_end a) (a_out a) (a_fails a)) else None
  | FwdEnds => if bool_decide (a_in a = [] ∧ a_end a = UnexpectedEof) then Some a else None
  | FwdFails =>
      (* a failed read, or a write to a task that has ended *)
      if bool_decide (a_in a = [] ∧ a_end a ≠ UnexpectedEof) || (sn_task_done s && negb (length (sn_fwd_buf s) =? 0)%nat)
      then Some a else None
  | BckWrites n => Some (mkApp (a_in a) (a_end a) (a_out a ++ [take n (sn_bck_buf s)]) (a_fails a))
  | _ => Some a
  end.

Definition live_step (e : splice_event) (v : live) : option live :=
  a ← socket_step e (lv_io v) (lv_app v);
  s ← splice_step e (lv_io v);
  Some (mkLive a s).

(** A session whose circuit has just been built goes on to its copies. *)
Definition joined_at (e : devent) (d' : daemon) : option (nat * live) :=
  match e with
  | TakeLock i _ _ =>
      match dm_sessions d' !! i with
      | Some (Joined a n layers) => Some (i, mkLive a (splice_start layers (sent n)))
      | _ => None
      end
  | _ => None
  end.

Definition life_step (e : life_event) (l : life) : option life :=
  match e with
  | Serves e =>
      let d' := daemon_step e (lf_daemon l) in
      Some (mkLife d'
        match joined_at e d' with
        | Some (i, v) => match lf_live l !! i with Some _ => lf_live l | None => <[i := v]> (lf_live l) end
        | None => lf_live l
        end)
  | Copies i e =>
      v ← lf_live l !! i;
      v ← live_step e v;
      Some (mkLife (lf_daemon l) (<[i := v]> (lf_live l)))
  end.

Fixpoint run_life (es : list life_event) (l : life) : option life :=
  match es with
  | [] => Some l
  | e :: es => l ← life_step e l; run_life es l
  end.

Definition life_start (c : QuietHopClient) : life := mkLife (listening c) ∅.

(** The daemon's part of a life, and the copies' of one session. *)
Definition daemon_events (es : list life_event) : list devent :=
  omap (λ e, match e with Serves e => Some e | _ => None end) es.
Definition copies_of (i : nat) (es : list life_event) : list splice_event :=
  omap (λ e, match e with Copies j e => if decide (j = i) then Some e else None | _ => None end) es.
End life.

(** ** Lemmas *)

Section life_lemmas.
Context `{Base64Laws, Sha256, Ed25519, RegistryJson, StateJsonLaws, ModInverse, Snow, ServerNames}.
Context `{Urls, ApiJson, Pem, TC : TokioCopy}.

(** How a session with a circuit came about, and what its copies have done. *)
Definition live_story (d : daemon) (es : list splice_event) (i : nat) (v : live) : Prop :=
  ∃ a n layers, dm_sessions d !! i = Some (Joined a n layers) ∧
    run_splice es (splice_start layers (sent n)) = Some (lv_io v) ∧
    a_in a = heard es (splice_start layers (sent n)) ++ a_in (lv_app v) ∧
    concat (a_out (lv_app v)) = concat (a_out a) ++ told es (splice_start layers (sent n)).

(** The socket gives what a step hears, and is given what it tells. *)
Lemma socket_step_bytes e s a a' :
  socket_step e s a = Some a' → a_in a = heard_from e ++ a_in a' ∧ concat (a_out a') = concat (a_out a) ++ told_to e s.
Proof.
  destruct e; cbn [socket_step heard_from told_to]; try (intros [= <-]; by rewrite app_nil_r).
  - case_bool_decide as Ht; [|done]. intros [= <-]. cbn [a_in a_out]. rewrite app_nil_r. split; [|done].
    rewrite <- (take_drop (length l) (a_in a)) at 1. by rewrite Ht.
  - case_bool_decide; [|done]. intros [= <-]. by rewrite app_nil_r.
  - destruct (_ || _); [|done]. intros [= <-]. by rewrite app_nil_r.
  - intros [= <-]. cbn [a_in a_out]. rewrite concat_app. cbn [concat]. by rewrite app_nil_r.
Qed.

Lemma live_step_story d es i v e v' :
  live_story d es i v → live_step e v = Some v' → live_story d (es ++ [e]) i v'.
Proof.
  intros (a & n & layers & Hd & Hr & Hin & Hout). unfold live_step.
  destruct (socket_step e (lv_io v) (lv_app v)) as [a'|] eqn:Ha; [|done]. cbn [mbind option_bind].
  destruct (splice_step e (lv_io v)) as [s'|] eqn:Hs; [|done]. cbn [mbind option_bind]. intros [= <-].
  exists a, n, layers. split; [done|]. split; [rewrite (run_splice_app _ _ _ _ Hr); cbn [run_splice]; by rewrite Hs|].
  cbn [lv_app lv_io]. apply socket_step_bytes in Ha as [Hi Ho]. unfold heard, told in *.
  rewrite !(over_run_snoc _ _ _ _ _ _ Hr Hs), <- !app_assoc, <- Hi. split; [done|]. by rewrite Ho, Hout, <- app_assoc.
Qed.

(** A circuit that is there stays: no step of the daemon touches it. *)
Lemma daemon_step_joined e d i a n layers :
  dm_sessions d !! i = Some (Joined a n layers) → dm_sessions (daemon_step e d) !! i = Some (Joined a n layers).
Proof.
  intros Hi. destruct e as [now| |a'|j|j ch m]; cbn [daemon_step].
  - unfold refresh_turn. destruct (dm_refreshing d); [|done]. by destruct (refresh_registry now (dm_client d)).
  - done.
  - by apply lookup_app_l_Some.
  - unfold read_turn. destruct (dm_sessions d !! j) as [[]|] eqn:Hj; try done. cbn [set_served dm_sessions].
    rewrite list_lookup_insert_ne; [done|]. intros ->. congruence.
  - unfold lock_turn. destruct (dm_sessions d !! j) as [[]|] eqn:Hj; try done.
    assert (j ≠ i) as Hne by (intros ->; congruence).
    destruct (serve_circuit _ _ _ _) as [s [[]| |]]; cbn [dm_sessions]; rewrite ?list_lookup_insert_ne by done; done.
Qed.

Lemma live_story_daemon d e es i v : live_story d es i v → live_story (daemon_step e d) es i v.
Proof.
  intros (a & n & layers & Hd & Hr). exists a, n, layers. split; [by apply daemon_step_joined|done].
Qed.

Lemma live_story_start d i a n layers :
  dm_sessions d !! i = Some (Joined a n layers) → live_story d [] i (mkLive a (splice_start layers (sent n))).
Proof. intros Hd. exists a, n, layers. split_and!; try done. cbn. by rewrite app_nil_r. Qed.

(** Every session is the daemon's and the copies' own. *)
Lemma run_life_inv es l l' (past : nat → list splice_event) :
  (∀ i, lf_live l !! i = None → past i = []) →
  (∀ i v, lf_live l !! i = Some v → live_story (lf_daemon l) (past i) i v) →
  run_life es l = Some l' →
  lf_daemon l' = run_daemon (daemon_events es) (lf_daemon l) ∧
  ∀ i v, lf_live l' !! i = Some v → live_story (lf_daemon l') (past i ++ copies_of i es) i v.
Proof.
  revert l past. induction es as [|e es IH]; intros l past Hnone Hall; cbn [run_life].
  { intros [= <-]. split; [done|]. intros i v Hv. cbn. rewrite app_nil_r. by apply Hall. }
  destruct (life_step e l) as [l1|] eqn:He; [|done]. cbn [mbind option_bind]. intros Hr.
  destruct e as [e|j e]; cbn [life_step] in He.
  - injection He as <-. refine (IH _ past _ _ Hr); cbn [lf_live lf_daemon].
    + intros i Hi. apply Hnone. destruct (joined_at _ _) as [[k v0]|]; [|done]. destruct (lf_live l !! k); [done|].
      by apply lookup_insert_None in Hi as [? _].
    + intros i v Hv. destruct (joined_at e (daemon_step e (lf_daemon l))) as [[k v0]|] eqn:Hj; [|by apply live_story_daemon, Hall].
      destruct (lf_live l !! k) eqn:Hk; [by apply live_story_daemon, Hall|].
      apply lookup_insert_Some in Hv as [[-> <-]|[_ Hv]]; [|by apply live_story_daemon, Hall]. rewrite (Hnone i Hk).
      unfold joined_at in Hj. destruct e as [| | | |j ch m]; try done.
      destruct (dm_sessions _ !! j) as [[| |a n layers|]|] eqn:Hd; try done. injection Hj as -> <-. by apply live_story_start.
  - destruct (lf_live l !! j) as [v|] eqn:Hj; [|done]. cbn [mbind option_bind] in He.
    destruct (live_step e v) as [v1|] eqn:Hs; [|done]. cbn [mbind option_bind] in He. injection He as <-.
    change (daemon_events (Copies j e :: es)) with (daemon_events es).
    destruct (IH (mkLife (lf_daemon l) (<[j:=v1]> (lf_live l))) (λ i, past i ++ if decide (j = i) then [e] else [])) as [Hd Hl];
      cbn [lf_live lf_daemon] in *; [| |exact Hr|].
    + intros i [Hi Hne]%lookup_insert_None. rewrite decide_False, app_nil_r by done. by apply Hnone.
    + intros i u [[-> <-]|[Hne Hu]]%lookup_insert_Some.
      * rewrite decide_True by done. eapply live_step_story; [by apply Hall|done].
      * rewrite decide_False, app_nil_r by done. by apply Hall.
    + split; [exact Hd|]. intros i u Hu. specialize (Hl i u Hu). cbn beta in Hl. rewrite <- app_assoc in Hl.
      unfold copies_of in *. cbn [omap list_omap]. by destruct (decide (j = i)).
Qed.
End life_lemmas.

(** ** Properties *)

Section life_theorems.
Context `{Base64Laws, Sha256, Ed25519, RegistryJson, StateJsonLaws, ModInverse, Snow, ServerNames}.
Context `{Urls, ApiJson, Pem, TC : TokioCopy}.

(** C7. The client serves an application from its first byte to its last, and no
    session touches another.  Whatever the order of accepts, refreshes, requests,
    circuits and copies, and whatever fails, the copies never touch the daemon:
    the shared client, its registry and the other sessions are as without them.
    And a session that has its circuit has been served by one whole
    [socks_serve] run alone, has run its own copies and nothing else, and has
    kept every byte.  After a well-formed request, what the application sent is,
    in order, what its circuit's task has taken, what waits in the pipe, what the
    copy holds and what is not yet read; the task's state is that of
    [task_turn] run on exactly the pieces it took and the frames that came.  What
    the application was given is the two replies and then bytes that, with those
    still waiting for it, are in order those the task handed over: all of them
    while the task runs, and a prefix once it has ended. *)
Theorem application_served c es l i a v :
  run_life es (life_start c) = Some l → arrivals (daemon_events es) !! i = Some a → lf_live l !! i = Some v →
  lf_daemon l = run_daemon (daemon_events es) (listening c) ∧
  ∃ ch n s layers, whole_turn c (daemon_calls (daemon_events es) (listening c)) a ch n s (Ok (Some layers)) ∧
    let log := sent (dl_streams (ss_dialler s)) in
    let ins := inputs (copies_of i es) (splice_start layers log) in
    let S := lv_io v in
    run_splice (copies_of i es) (splice_start layers log) = Some S ∧
    task_fold ins (mkTask layers (mkStreams log [])) = (sn_task S, sn_task_done S) ∧
    ∀ r data, request_wf r → a_fails a = [] → a_in a = request_bytes r ++ data →
      data = from_user ins ++ sn_up S ++ sn_fwd_buf S ++ a_in (lv_app v) ∧
      ∃ told more, concat (a_out (lv_app v)) = concat (a_out a) ++ [VER; METHOD_NO_AUTH] ++ reply_bytes REP_SUCCESS ++ told ∧
        sent (t_net (sn_task S)) = log ++ more ∧
        (told ++ sn_bck_buf S ++ sn_down S ++ sn_handing S) `prefix_of` user_bytes more ∧
        (sn_task_done S = false → told ++ sn_bck_buf S ++ sn_down S ++ sn_handing S = user_bytes more).
Proof.
  intros Hrun Ha Hv.
  destruct (run_life_inv es (life_start c) l (λ _, [])) as [Hd Hl]; [done| |done|].
  { intros j u Hu. cbn in Hu. by rewrite lookup_empty in Hu. }
  split; [exact Hd|]. destruct (Hl i v Hv) as (a1 & n1 & layers & Hj & Hio & Hin & Hout). cbn [Datatypes.app] in Hio, Hin, Hout.
  assert (daemon_inv c (daemon_calls (daemon_events es) (listening c)) (arrivals (daemon_events es)) (lf_daemon l)) as (_ & _ & Hf)
    by (rewrite Hd; apply (run_daemon_inv (daemon_events es) c [] []); by repeat constructor).
  destruct (Forall2_lookup_l _ _ _ i a Hf Ha) as (v1 & Hv1 & Hstory). rewrite Hj in Hv1. injection Hv1 as <-.
  destruct Hstory as (ch & n & s & Hw & <- & <-). exists ch, n, s, layers. split; [exact Hw|]. cbn zeta.
  destruct (run_splice_moved _ _ _ Hio) as (Hu & Hfold & more & Hm & Hp & He & _).
  cbn [to_go splice_start sn_up sn_fwd_buf Datatypes.app] in Hu. rewrite Hu in Hin. unfold to_go in Hin. clear Hu.
  rewrite <- !app_assoc in Hin. split; [exact Hio|]. split; [by apply Hfold|].
  intros r data Hr Hfails Hreq. destruct a as [ain ae aout af]. cbn [a_fails a_in a_out] in *. subst ain af.
  destruct Hw as (before & after & _ & Hs & _).
  unfold socks_serve in Hs. erewrite st_bind_Ok_eq in Hs by (rewrite on_app_eq; cbn [ss_app ss_dialler];
    rewrite serve_request_accepts by done; reflexivity).
  destruct (request_dest r) as [host port]. cbn beta iota in Hs.
  destruct (serve_circuit_cases ch host port (mkApp data ae (aout ++ [[VER; METHOD_NO_AUTH]]) []) (mkDialler (run_clients before c) n))
    as (a' & res & Heq & Hc). cbn [ss_dialler] in Hs. rewrite Heq in Hs. injection Hs as <- ->.
  assert (a_out a' = aout ++ [[VER; METHOD_NO_AUTH]] ++ [reply_bytes REP_SUCCESS] ∧ a_in a' = data) as [Ho Hi].
  { destruct (snd (build_circuit _ _ _ _)) as [[layers'|]|e|]; [|by destruct Hc..|done].
    destruct Hc as [(_ & -> & ->)|[? _]]; [|done]. cbn [a_out a_in]. by rewrite <- app_assoc. }
  cbn [ss_app] in *. rewrite Hi in Hin. split; [exact Hin|].
  eexists _, more. split; [|split; [exact Hm|split; [exact Hp|exact He]]].
  rewrite Hout, Ho, !concat_app. cbn [concat]. by rewrite !app_nil_r, <- !app_assoc.
Qed.
End life_theorems.

(** ** Witness *)

(** An application that asks for a circuit and goes on with one byte, while
    another hangs up at once. *)
Definition life_app : app := mkApp (request_bytes sample_request1 ++ [x47]) UnexpectedEof [] [].
Definition life_events (n : streams) : list life_event :=
  [Serves (Accepted sample_dropped); Serves (Accepted life_app); Serves (ReadRequest 1);
   Serves (TakeLock 1 service_chance n); Copies 1 (FwdReads [x47]); Serves (ReadRequest 0); Copies 1 (FwdWrites 1)].

Lemma life_served :
  ∃ n s L, socks_serve service_chance (mkSession life_app (mkDialler the_client n)) = (s, Ok (Some L)) ∧ a_in (ss_app s) = [x47].
Proof.
  destruct (request_runs 0 service_guard (sample_party Middle x02) (sample_party Exit x03) sample_route
    (sample_addr x01) (sample_addr x02) (sample_addr x03) (replicate 32 x01) (replicate 32 x02) (replicate 32 x03)
    (sp_middle sample_route) (sp_exit sample_route) (sample_addr x01) (sample_addr x02) service_key 1
    service_chance the_client [] [] [] sample_request1 [x47] UnexpectedEof [] service_request)
    as (c' & msg1g & msg2g & tg & msg1m & msg2m & tm & msg1x & msg2x & tx & L & g & m & x & f1 & f2 & f3 & r1 & r2 & rr &
        b2 & b3 & i3 & Hs & _).
  - apply Nat.leb_le. reflexivity.
  - split; [vm_compute; lia|]. split; [left|]. split; [vm_compute; lia|vm_compute; reflexivity].
  - split; vm_compute; congruence.
  - vm_compute. congruence.
  - exact service_can_issue.
  - vm_compute. reflexivity.
  - exact service_up.
  - exists sample_proxy. split; vm_compute; reflexivity.
  - do 3 eexists. split; [exact Hs|]. reflexivity.
Qed.

(** The run of these events, up to the circuit and after it. *)
Lemma life_events_run n s L host port :
  request_dest sample_request1 = (host, port) → request_wf sample_request1 →
  serve_circuit service_chance host port (mkSession (mkApp [x47] UnexpectedEof [[VER; METHOD_NO_AUTH]] []) (mkDialler the_client n)) =
    (s, Ok (Some L)) → a_in (ss_app s) = [x47] →
  ∃ l v, run_life (life_events n) (life_start the_client) = Some l ∧ lf_live l !! 1%nat = Some v.
Proof.
  intros Hdest Hwf Hs Hin. pose proof (serve_request_accepts sample_request1 [x47] UnexpectedEof [] Hwf) as Hreq.
  rewrite Hdest in Hreq. change (mkApp (request_bytes sample_request1 ++ [x47]) UnexpectedEof [] []) with life_app in Hreq.
  set (d1 := mkDaemon the_client true [Fresh sample_dropped; Asked (mkApp [x47] UnexpectedEof [[VER; METHOD_NO_AUTH]] []) host port]).
  set (d2 := mkDaemon (dl_client (ss_dialler s)) true [Fresh sample_dropped; Joined (ss_app s) (dl_streams (ss_dialler s)) L]).
  set (v0 := mkLive (ss_app s) (splice_start L (sent (dl_streams (ss_dialler s))))).
  assert (life_step (Serves (ReadRequest 1))
      (mkLife (mkDaemon the_client true [Fresh sample_dropped; Fresh life_app]) ∅) = Some (mkLife d1 ∅)) as H1.
  { cbn [life_step daemon_step lf_daemon joined_at lf_live]. unfold read_turn. cbn [dm_sessions lookup list_lookup]. by rewrite Hreq. }
  assert (life_step (Serves (TakeLock 1 service_chance n)) (mkLife d1 ∅) = Some (mkLife d2 (<[1%nat := v0]> ∅))) as H2.
  { cbn [life_step daemon_step lf_daemon joined_at lf_live]. unfold lock_turn. cbn [d1 dm_sessions dm_client lookup list_lookup].
    by rewrite Hs. }
  unfold life_events. cbn [run_life]. change (life_step (Serves (Accepted sample_dropped)) (life_start the_client)) with
    (Some (mkLife (mkDaemon the_client true [Fresh sample_dropped]) ∅)). cbn [mbind option_bind].
  change (life_step (Serves (Accepted life_app)) _) with
    (Some (mkLife (mkDaemon the_client true [Fresh sample_dropped; Fresh life_app]) ∅)). cbn [mbind option_bind].
  rewrite H1. cbn [mbind option_bind]. rewrite H2. cbn [mbind option_bind].
  set (t := mkTask L (mkStreams (sent (dl_streams (ss_dialler s))) [])).
  set (a1 := mkApp [] (a_end (ss_app s)) (a_out (ss_app s)) (a_fails (ss_app s))).
  set (v1 := mkLive a1 (mkSessionIo false false false [x47] [] [] [] t [] false)).
  set (v2 := mkLive a1 (mkSessionIo false false false [] [] [x47] [] t [] false)).
  assert (live_step (FwdReads [x47]) v0 = Some v1) as H3.
  { unfold live_step. cbn [v0 lv_app lv_io socket_step]. rewrite Hin, bool_decide_true by done. cbn [mbind option_bind].
    unfold splice_start, splice_step. rewrite decide_True; [done|]. pose proof COPY_BUF_pos. cbn [length]. split_and!; done || lia. }
  assert (live_step (FwdWrites 1) v1 = Some v2) as H3'.
  { unfold live_step. cbn [v1 lv_app lv_io socket_step mbind option_bind]. unfold splice_step.
    rewrite decide_True; [done|]. pose proof duplex_buf_pos. cbn [length]. split_and!; done || lia. }
  assert (∀ d m e v v', m !! 1%nat = Some v → live_step e v = Some v' → life_step (Copies 1 e) (mkLife d m) = Some (mkLife d (<[1%nat := v']> m))) as H4
    by (intros d m e v v' Hm He; cbn [life_step lf_live lf_daemon]; rewrite Hm; cbn [mbind option_bind]; by rewrite He).
  rewrite (H4 _ _ _ v0 _ (lookup_insert_eq _ _ _) H3). cbn [mbind option_bind]. rewrite insert_insert_eq.
  assert (∃ d3, life_step (Serves (ReadRequest 0)) (mkLife d2 (<[1%nat := v1]> ∅)) = Some (mkLife d3 (<[1%nat := v1]> ∅))) as [d3 ->]
    by (eexists; reflexivity).
  cbn [mbind option_bind]. rewrite (H4 d3 _ _ v1 _ (lookup_insert_eq _ _ _) H3').
  cbn [mbind option_bind]. eexists _, _. split; [reflexivity|]. cbn [lf_live]. apply lookup_insert_eq.
Qed.

Lemma application_served_witness :
  ∃ n l v layers log told, run_life (life_events n) (life_start the_client) = Some l ∧ lf_live l !! 1%nat = Some v ∧
    [x47] = from_user (inputs (copies_of 1 (life_events n)) (splice_start layers log)) ++
      sn_up (lv_io v) ++ sn_fwd_buf (lv_io v) ++ a_in (lv_app v) ∧
    concat (a_out (lv_app v)) = [x05; x00; x05; x00; x00; x01; x00; x00; x00; x00; x00; x00] ++ told.
Proof.
  destruct life_served as (n & s & L & Hs & Hin).
  assert (request_wf sample_request1) as Hwf
    by (split; [vm_compute; lia|]; split; [left|]; split; [vm_compute; lia|vm_compute; reflexivity]).
  pose proof (serve_request_accepts sample_request1 [x47] UnexpectedEof [] Hwf) as Hreq.
  destruct (request_dest sample_request1) as [host port] eqn:Hdest.
  rewrite (serve_circuit_whole service_chance host port life_app _ (mkDialler the_client n) Hreq) in Hs.
  destruct (life_events_run n s L host port Hdest Hwf Hs Hin) as (l & v & Hrun & Hv).
  destruct (application_served the_client (life_events n) l 1 life_app v Hrun eq_refl Hv)
    as (_ & ch & n' & s' & layers & _ & _ & _ & Hall).
  destruct (Hall sample_request1 [x47] Hwf eq_refl eq_refl) as (Hdata & told & more & Hout & _).
  exists n, l, v, layers, (sent (dl_streams (ss_dialler s'))), told.
  split; [exact Hrun|]. split; [exact Hv|]. split; [exact Hdata|exact Hout].
Defined.
