(* ===== verification/UnitTest.v ===== *)
(** QuietHop: running the repository's own unit tests on the model.

    The sources carry a test module in most files.  The files [RelayUnit],
    [ClientUnit] and [CryptoUnit] translate those modules: a test function is a
    boolean, its assertions are its conjuncts, and what a test takes from another
    crate (a URL, a key, a signature) is the sample instance of that interface.
    That every one of them evaluates to [true] says that the model gives, on the
    inputs the authors chose, the answers they expect of the code.  Here are the
    assertions and the small part of the standard library they use. *)

From S2P Require Import Prelude Bytes Text NetAddr Config.

#[local] Open Scope Z_scope.

(** [assert_eq!]. *)
Definition assert_eq {A} `{EqDecision A} (a b : A) : bool := bool_decide (a = b).

Definition is_none {A} (o : option A) : bool := negb (is_some o).
Definition is_err {E A} (o : outcome E A) : bool := match o with Err _ => true | _ => false end.

(** [x.unwrap()] followed by assertions on the value. *)
Definition unwrap {A} (o : option A) (k : A → bool) : bool := match o with Some a => k a | None => false end.
Definition expect {E A} (o : outcome E A) (k : A → bool) : bool := match o with Ok a => k a | _ => false end.
Definition is_ok {E A} (o : outcome E A) : bool := match o with Ok _ => true | _ => false end.

(** An operation on a state that must succeed, then assertions on the state and
    the value; and one that must fail. *)
Definition stepped {S E A} (r : S * outcome E A) (k : S → A → bool) : bool :=
  match r with (s, Ok a) => k s a | _ => false end.
Definition refused {S E A} (r : S * outcome E A) (k : E → bool) : bool :=
  match r with (_, Err e) => k e | _ => false end.

(** An index or a slice, then assertions on the result. *)
Definition indexed {A} (o : outcome Empty_set A) (k : A → bool) : bool := expect o k.
Definition unwrap_err {E A} (o : outcome E A) (k : E → bool) : bool := match o with Err e => k e | _ => false end.

(** [matches!]. *)
Notation "'matches' ( e , p )" := (match e with p => true | _ => false end)
  (at level 0, e at level 200, p pattern at level 200, only parsing).

(** [assert!] over every element of an array, and [for x in a..b]. *)
Definition all {A} (l : list A) (f : A → bool) : bool := forallb f l.
Definition zrange (from to : Z) : list Z := seqZ from (to - from).

(** ["..".parse::<IpAddr>().unwrap()] and its socket form. *)
Definition ip_of (s : string) : IpAddr := default (V4 (Ipv4 x00 x00 x00 x00)) (parse_ip s).
Definition addr_of (s : string) : SocketAddr := default (mkSocketAddr (V4 (Ipv4 x00 x00 x00 x00)) 0) (parse_sockaddr s).

(** [str::contains], on bytes. *)
Fixpoint contains (needle hay : list byte) : bool :=
  bool_decide (take (length needle) hay = needle) ||
  match hay with [] => false | _ :: hay => contains needle hay end.

(** [str::repeat]. *)
Fixpoint str_repeat (s : string) (n : nat) : string := match n with O => "" | S n => s +:+ str_repeat s n end.

(** A test module: all of its tests. *)
Definition tests_pass (l : list bool) : bool := forallb id l.
