(* ===== verification/Fixtures.v ===== *)
(** QuietHop: executable stand-ins for the crates the unit tests need.

    Base64 (STANDARD) is the real codec, JSON a parser and a printer for the
    text the tests feed to [serde_json] (strings without escapes, integers,
    objects, arrays and literals).  URLs are parsed for
    the parts the sources read.  Noise, Ed25519 and SHA-256 have the shape of
    the real primitives over a checksum that covers every input: a changed byte,
    key, counter or prologue changes the tag.  Nothing is proved from them; they
    only run tests. *)

From S2P Require Import Prelude Bytes Text NetAddr Cell Noise Civil State Registry Token Config Blind.

Module Toy.

(** ** A checksum *)

(** Sixty-four bits, turned by five places before each byte is added to them:
    a change of one byte changes them, and so does most of everything else. *)
Fixpoint turn (k : nat) (s : list bool) : list bool :=
  match k, s with S k, b :: s => turn k (s ++ [b]) | _, _ => s end.
Fixpoint mix (bits s : list bool) : list bool :=
  match bits, s with b :: bits, c :: s => xorb b c :: mix bits s | _, _ => s end.
Definition bits_of (b : byte) : list bool :=
  let '(b0, (b1, (b2, (b3, (b4, (b5, (b6, b7))))))) := Byte.to_bits b in [b0; b1; b2; b3; b4; b5; b6; b7].
Definition state64 (l : list byte) : list bool :=
  fold_left (λ s b, mix (bits_of b) (turn 5 s)) l (replicate 64 false).
Fixpoint pack (n : nat) (s : list bool) : list byte :=
  match n, s with
  | S n, b0 :: b1 :: b2 :: b3 :: b4 :: b5 :: b6 :: b7 :: s =>
      Byte.of_bits (b0, (b1, (b2, (b3, (b4, (b5, (b6, b7))))))) :: pack n s
  | _, _ => []
  end.
(** Sixteen bytes. *)
Definition digest (l : list byte) : list byte := let d := pack 8 (state64 l) in d ++ d.
Definition digest32 (l : list byte) : list byte := digest (x00 :: l) ++ digest (x01 :: l).

(** [b ^ 0x01]. *)
Definition flip (b : byte) : byte := as_u8 (Z.lxor (u8 b) 1).
Definition fit (n : nat) (l : list byte) : list byte := take n (l ++ replicate n x00).

(** ** Noise *)

Record builder := mkBuilder { b_prologue : list byte; b_remote : list byte; b_local : list byte }.
Record handshake := mkHandshake {
  h_initiator : bool; h_bound : list byte; h_e_i : list byte; h_e_r : list byte; h_stage : nat }.
Record transport := mkTransport {
  t_tx : list byte; t_tx_n : nat; t_rx : list byte; t_rx_n : nat }.

Definition tag (key : list byte) (n : nat) (pt : list byte) : list byte :=
  digest (key ++ u16_to_be_bytes (Z.of_nat n) ++ pt).

Definition write (t : transport) (pt : list byte) (cap : nat) : transport * option (list byte) :=
  if length pt + NOISE_TAG_LEN <=? cap
  then (mkTransport (t_tx t) (S (t_tx_n t)) (t_rx t) (t_rx_n t), Some (pt ++ tag (t_tx t) (t_tx_n t) pt))
  else (t, None).

Definition read (t : transport) (ct : list byte) (cap : nat) : transport * option (list byte) :=
  let n := length ct - NOISE_TAG_LEN in
  let pt := take n ct in
  if (n <=? cap) && bool_decide (drop n ct = tag (t_rx t) (t_rx_n t) pt)
  then (mkTransport (t_tx t) (t_tx_n t) (t_rx t) (S (t_rx_n t)), Some pt)
  else (t, None).

(** [h_bound] is the prologue and the responder's public key. *)
Definition hs_write (h : handshake) (rng pt : list byte) (cap : nat) : handshake * option (list byte) :=
  let e := fit 32 rng in
  match h_initiator h, h_stage h with
  | true, 0 => (mkHandshake true (h_bound h) e [] 1, Some (e ++ digest (h_bound h ++ e)))
  | false, 1 => (mkHandshake false (h_bound h) (h_e_i h) e 2, Some (e ++ digest (h_bound h ++ h_e_i h ++ e)))
  | _, _ => (h, None)
  end.

Definition hs_read (h : handshake) (msg : list byte) (cap : nat) : handshake * option (list byte) :=
  let e := take 32 msg in
  match h_initiator h, h_stage h with
  | false, 0 => if bool_decide (drop 32 msg = digest (h_bound h ++ e))
                then (mkHandshake false (h_bound h) e [] 1, Some []) else (h, None)
  | true, 1 => if bool_decide (drop 32 msg = digest (h_bound h ++ h_e_i h ++ e))
               then (mkHandshake true (h_bound h) (h_e_i h) e 2, Some []) else (h, None)
  | _, _ => (h, None)
  end.

Definition into_transport (h : handshake) : option transport :=
  if h_stage h =? 2 then
    let k1 := digest (x01 :: h_bound h ++ h_e_i h ++ h_e_r h) in
    let k2 := digest (x02 :: h_bound h ++ h_e_i h ++ h_e_r h) in
    Some (if h_initiator h then mkTransport k1 0 k2 0 else mkTransport k2 0 k1 0)
  else None.

Definition public_of (private : list byte) : list byte := flip <$> private.

(** ** Base64, the STANDARD alphabet with padding *)

Definition alphabet : list byte :=
  as_bytes "ABCDEFGHIJKLMNOPQRSTUVWXYZabcdefghijklmnopqrstuvwxyz0123456789+/".
(** Six bits, the lowest first, and the character that stands for them. *)
Fixpoint nat_of_bits (l : list bool) : nat :=
  match l with [] => 0 | b :: l => (if b then 1 else 0) + 2 * nat_of_bits l end.
Definition sextet (bits : list bool) : byte := default x41 (alphabet !! nat_of_bits bits).
Fixpoint bits_of_nat (k n : nat) : list bool :=
  match k with O => [] | S k => Nat.odd n :: bits_of_nat k (Nat.div2 n) end.
Fixpoint position (c : byte) (l : list byte) (i : nat) : option nat :=
  match l with [] => None | b :: l => if Byte.eqb b c then Some i else position c l (S i) end.
Definition sextet_of (c : byte) : option (list bool) := bits_of_nat 6 <$> position c alphabet 0.

(** The four characters of three bytes: their bits, in groups of six. *)
Definition b64_quad (a b c : byte) : list byte :=
  let bits := bits_of c ++ bits_of b ++ bits_of a in
  [sextet (drop 18 bits); sextet (take 6 (drop 12 bits)); sextet (take 6 (drop 6 bits)); sextet (take 6 bits)].

Fixpoint b64_enc (l : list byte) : list byte :=
  match l with
  | a :: b :: c :: l => b64_quad a b c ++ b64_enc l
  | [a; b] => take 3 (b64_quad a b x00) ++ [x3d]
  | [a] => take 2 (b64_quad a x00 x00) ++ [x3d; x3d]
  | [] => []
  end.

(** The bytes of four characters.  The trailing bits of a short group must be
    zero. *)
Definition b64_group (a b c d : byte) : option (list byte) :=
  let is_pad e := Byte.eqb e x3d in
  x ← sextet_of a; y ← sextet_of b;
  if is_pad c && is_pad d then
    if existsb id (take 4 y) then None else Some (pack 1 (drop 4 y ++ x))
  else
    z ← sextet_of c;
    if is_pad d then
      if existsb id (take 2 z) then None else Some (rev (pack 2 (drop 2 z ++ y ++ x)))
    else
      w ← sextet_of d;
      Some (rev (pack 3 (w ++ z ++ y ++ x))).

(** A short group is the last one. *)
Fixpoint b64_dec (l : list byte) : option (list byte) :=
  match l with
  | [] => Some []
  | a :: b :: c :: d :: l =>
      g ← b64_group a b c d;
      rest ← b64_dec l;
      if (length g <? 3) && negb (length l =? 0) then None else Some (g ++ rest)
  | _ => None
  end.

(** ** JSON *)

Inductive json :=
  | JNull | JBool (b : bool) | JNum (z : Z) | JStr (s : string)
  | JArr (l : list json) | JObj (l : list (string * json)).

Fixpoint skip_ws (l : list byte) : list byte :=
  match l with (x20 | x0a | x0d | x09) :: r => skip_ws r | _ => l end.

(** The rest of a string literal. *)
Fixpoint read_str (l : list byte) : option (list byte * list byte) :=
  match l with
  | [] | x5c :: _ => None
  | x22 :: r => Some ([], r)
  | b :: r => '(s, r) ← read_str r; Some (b :: s, r)
  end.

Fixpoint read_nat (acc : Z) (l : list byte) : Z * list byte :=
  match l with
  | b :: r => match dec_digit b with Some d => read_nat (acc * 10 + d)%Z r | None => (acc, l) end
  | [] => (acc, [])
  end.

Definition read_literal (word : string) (v : json) (l : list byte) : option (json * list byte) :=
  let w := as_bytes word in
  if bool_decide (take (length w) l = w) then Some (v, drop (length w) l) else None.

Fixpoint read_value (fuel : nat) (l : list byte) : option (json * list byte) :=
  match fuel with
  | O => None
  | S fuel =>
      match skip_ws l with
      | x7b :: r =>
          match skip_ws r with
          | x7d :: r => Some (JObj [], r)
          | r => '(ms, r) ← read_members fuel r; Some (JObj ms, r)
          end
      | x5b :: r =>
          match skip_ws r with
          | x5d :: r => Some (JArr [], r)
          | r => '(es, r) ← read_elements fuel r; Some (JArr es, r)
          end
      | x22 :: r => '(s, r) ← read_str r; s ← from_utf8 s; Some (JStr s, r)
      | x2d :: ((b :: _) as r) =>
          _ ← dec_digit b; let '(v, r) := read_nat 0 r in Some (JNum (- v), r)
      | (b :: _) as r =>
          match dec_digit b with
          | Some _ => let '(v, r) := read_nat 0 r in Some (JNum v, r)
          | None =>
              match read_literal "null" JNull r with
              | Some x => Some x
              | None => match read_literal "true" (JBool true) r with
                        | Some x => Some x | None => read_literal "false" (JBool false) r end
              end
          end
      | [] => None
      end
  end
with read_members (fuel : nat) (l : list byte) : option (list (string * json) * list byte) :=
  match fuel with
  | O => None
  | S fuel =>
      match skip_ws l with
      | x22 :: r =>
          '(k, r) ← read_str r; k ← from_utf8 k;
          match skip_ws r with
          | x3a :: r =>
              '(v, r) ← read_value fuel r;
              match skip_ws r with
              | x2c :: r => '(ms, r) ← read_members fuel r; Some ((k, v) :: ms, r)
              | x7d :: r => Some ([(k, v)], r)
              | _ => None
              end
          | _ => None
          end
      | _ => None
      end
  end
with read_elements (fuel : nat) (l : list byte) : option (list json * list byte) :=
  match fuel with
  | O => None
  | S fuel =>
      '(v, r) ← read_value fuel l;
      match skip_ws r with
      | x2c :: r => '(es, r) ← read_elements fuel r; Some (v :: es, r)
      | x5d :: r => Some ([v], r)
      | _ => None
      end
  end.

(** A whole text: nothing but white space may follow the value. *)
Definition from_slice (l : list byte) : option json :=
  '(v, r) ← read_value (S (length l)) l;
  match skip_ws r with [] => Some v | _ => None end.

(** Fields of an object. *)
Definition member (k : string) (j : json) : option json :=
  match j with JObj l => snd <$> List.find (λ p, String.eqb p.1 k) l | _ => None end.
Definition as_str (j : json) : option string := match j with JStr s => Some s | _ => None end.
Definition as_array (j : json) : option (list json) := match j with JArr l => Some l | _ => None end.
Definition as_int (lo hi : Z) (j : json) : option Z :=
  match j with JNum z => if bool_decide (lo ≤ z ≤ hi)%Z then Some z else None | _ => None end.
Definition str_of (k : string) (j : json) : option string := v ← member k j; as_str v.
Definition strs_of (k : string) (j : json) : option (list string) :=
  v ← member k j; l ← as_array v; mapM as_str l.

Definition relay_entry (j : json) : option RelayEntry :=
  id ← str_of "id" j; op ← str_of "operator_id" j; host ← str_of "host_id" j;
  role ← str_of "role" j; ip ← str_of "ip" j; port ← member "port" j ≫= as_int 0 65535;
  tls ← str_of "tls_name" j; key ← str_of "static_pubkey" j;
  Some (mkRelayEntry id op host role ip port tls key).

Definition document_of (j : json) : option Document :=
  v ← member "version" j ≫= as_int i64_MIN i64_MAX;
  after ← str_of "valid_after" j; fresh ← str_of "fresh_until" j; until ← str_of "valid_until" j;
  l ← member "relays" j ≫= as_array;
  relays ← mapM relay_entry l;
  Some (mkDocument v after fresh until relays).

Definition signature_of (j : json) : option SignatureEntry :=
  k ← str_of "key_id" j; s ← str_of "sig" j; Some (mkSignatureEntry k s).

Definition envelope_of (j : json) : option Envelope :=
  d ← str_of "document" j;
  l ← member "signatures" j ≫= as_array;
  sigs ← mapM signature_of l;
  Some (mkEnvelope d sigs).

(** [envelope_b64] has a default, and [null] is [None]. *)
Definition state_of (j : json) : option RegistryState :=
  v ← member "highest_version" j ≫= as_int i64_MIN i64_MAX;
  d ← str_of "document_b64" j;
  ks ← strs_of "key_ids" j;
  e ← match member "envelope_b64" j with
      | None | Some JNull => Some None
      | Some j => Some <$> as_str j
      end;
  Some (mkRegistryState v d ks e).

(** Printing.  Rocq strings in this development hold no double quote, so the
    literals write a single one and [json_text] turns it into the other. *)
Definition json_text (s : string) : list byte :=
  (λ b, if Byte.eqb b x27 then x22 else b) <$> as_bytes s.

Fixpoint dec_digits (fuel : nat) (v : Z) : list byte :=
  match fuel with
  | O => []
  | S fuel => (if (v <? 10)%Z then [] else dec_digits fuel (v / 10)) ++ [dec_char v]
  end.
Definition show_i64 (v : Z) : string :=
  of_bytes (if (v <? 0)%Z then x2d :: dec_digits 20 (- v) else dec_digits 20 v).

Fixpoint commas (l : list string) : string :=
  match l with [] => "" | [s] => s | s :: l => s +:+ "," +:+ commas l end.
Definition quoted (s : string) : string := "'" +:+ s +:+ "'".

Definition state_text (s : RegistryState) : list byte :=
  json_text ("{'highest_version':" +:+ show_i64 (highest_version s)
    +:+ ",'document_b64':" +:+ quoted (document_b64 s)
    +:+ ",'key_ids':[" +:+ commas (quoted <$> key_ids s)
    +:+ "],'envelope_b64':" +:+ match envelope_b64 s with Some e => quoted e | None => "null" end +:+ "}").

(** ** Ed25519 *)

(** [SigningKey::from_bytes], [verifying_key] and [sign]. *)
Definition verifying_key (seed : list byte) : list byte := flip <$> seed.
Definition sign_with (public msg : list byte) : list byte :=
  digest32 (x02 :: public ++ msg) ++ digest32 (x03 :: public ++ msg).
Definition sign (seed msg : list byte) : list byte := sign_with (verifying_key seed) msg.

(** ** URLs

    [scheme://[user[:password]@]host[:port]], with nothing after the authority
    but a path. *)
Fixpoint cut (c : byte) (l : list byte) : option (list byte * list byte) :=
  match l with
  | [] => None
  | b :: l => if Byte.eqb b c then Some ([], l) else '(x, y) ← cut c l; Some (b :: x, y)
  end.
Definition cut_or_all (c : byte) (l : list byte) : list byte * option (list byte) :=
  match cut c l with Some (x, y) => (x, Some y) | None => (l, None) end.

Definition url_of (s : string) : option Url :=
  '(scheme, rest) ← cut x3a (as_bytes s);
  match rest with
  | x2f :: x2f :: rest =>
      let authority := fst (cut_or_all x2f rest) in
      let '(user, hostport) := match cut x40 authority with
                               | Some (u, h) => (u, h) | None => ([], authority) end in
      let '(name, password) := cut_or_all x3a user in
      let '(host, port) := cut_or_all x3a hostport in
      port ← match port with
             | None => Some None
             | Some p => Some <$> parse_u16 p
             end;
      Some (mkUrl (of_bytes scheme) (Some (of_bytes host)) port (of_bytes name) (of_bytes <$> password))
  | _ => None
  end.

(** ** RSA

    A square-free modulus of 280 bits whose primes [p] all have [p - 1] dividing
    720720, so that the private exponent is short. *)
Definition rsa_n : Z := 1208296499226094720976218059443968093217084708422679320755886176545811443963829713479.
Definition rsa_public : RsaPublicKey := mkRsaPublicKey rsa_n 65537.
Definition rsa_d : Z := 554993.

(** [BigUint::to_bytes_be] into [modsize] bytes. *)
Fixpoint be_bytes (n : nat) (v : Z) (acc : list byte) : list byte :=
  match n with O => acc | S n => be_bytes n (v / 256) (as_u8 v :: acc) end.
End Toy.

(** The order of every unit divides 720720. *)
#[export] Instance toy_mod_inverse : ModInverse := {|
  mod_inverse r n := let i := modpow r 720719 n in if ((r * i) mod n =? 1)%Z then Some i else None
|}.

#[export] Instance toy_url_parser : UrlParser := {| url_parse := Toy.url_of |}.

#[export] Instance toy_snow : Snow := {|
  NoiseParams := unit;
  Builder := Toy.builder;
  HandshakeState := Toy.handshake;
  TransportState := Toy.transport;
  params_parse s := if String.eqb s NOISE_PARAMS then Some tt else None;
  builder_new _ := Toy.mkBuilder [] [] [];
  builder_prologue b p := Some (Toy.mkBuilder p (Toy.b_remote b) (Toy.b_local b));
  builder_remote_public_key b k := Some (Toy.mkBuilder (Toy.b_prologue b) k (Toy.b_local b));
  builder_local_private_key b k := Some (Toy.mkBuilder (Toy.b_prologue b) (Toy.b_remote b) k);
  builder_build_initiator b :=
    Some (Toy.mkHandshake true (Toy.b_prologue b ++ Toy.b_remote b) [] [] 0);
  builder_build_responder b :=
    Some (Toy.mkHandshake false (Toy.b_prologue b ++ Toy.public_of (Toy.b_local b)) [] [] 0);
  builder_generate_keypair _ rng := let priv := Toy.fit 32 rng in Some (priv, Toy.public_of priv);
  hs_write_message := Toy.hs_write;
  hs_read_message := Toy.hs_read;
  hs_into_transport_mode := Toy.into_transport;
  ts_write_message := Toy.write;
  ts_read_message := Toy.read;
|}.

#[export] Instance toy_base64 : Base64 := {|
  b64_decode := Toy.b64_dec;
  b64_encode l := of_bytes (Toy.b64_enc l);
|}.

#[export] Instance toy_sha256 : Sha256 := {| sha256 := Toy.digest32 |}.

#[export] Instance toy_ed25519 : Ed25519 := {|
  VerifyingKey := list byte;
  vk_from_bytes raw := if (length raw =? 32)%nat then Some raw else None;
  verify_strict k msg s := bool_decide (s = Toy.sign_with k msg);
|}.

#[export] Instance toy_registry_json : RegistryJson := {|
  envelope_from_slice l := Toy.from_slice l ≫= Toy.envelope_of;
  document_from_slice l := Toy.from_slice l ≫= Toy.document_of;
|}.

#[export] Instance toy_state_json : StateJson := {|
  state_from_slice l := Toy.from_slice l ≫= Toy.state_of;
  state_to_vec_pretty s := Some (Toy.state_text s);
|}.
