(* ===== verification/CryptoUnit.v ===== *)
(** QuietHop: the unit tests of the shared crate, on the model.

    One module per test module of [quiethop-crypto/src]: cell.rs, layer.rs and
    noise.rs here; the registry's files are in [RegistryUnit].
    Noise is that of [Fixtures]; where a
    test draws a key, the draw is a constant that differs from the others of the
    test.  Left out: [read_exact_in_select_loses_partial_bytes], a control on
    tokio. *)

From S2P Require Import Prelude Bytes Text NetAddr Cell Noise Layer Frame.
From S2P Require Import UnitTest Fixtures.

(** ** [cell.rs] *)

Module CellTests.
Definition link_sizes_match_the_specification : bool :=
  assert_eq CELL_PLAINTEXT_LEN 513 &&
  assert_eq (link_cell_len 1) 530 &&
  assert_eq (link_cell_len 2) 547 &&
  assert_eq (link_cell_len 3) 564.

Definition each_hop_costs_a_disposition_byte_and_a_tag : bool :=
  all [1; 2; 3] (λ layers,
    assert_eq (link_cell_len (layers + 1) - link_cell_len layers) (DISPOSITION_LEN + NOISE_TAG_LEN)).

Definition body_len_is_the_adjacent_link_size : bool :=
  assert_eq (body_len 1) CELL_PLAINTEXT_LEN &&
  assert_eq (body_len 2) (link_cell_len 1) &&
  assert_eq (body_len 3) (link_cell_len 2).

Definition peeled_len_is_one_tag_less_than_the_link : bool :=
  assert_eq (peeled_len 3) (link_cell_len 3 - NOISE_TAG_LEN) &&
  assert_eq (peeled_len 1) (DISPOSITION_LEN + CELL_PLAINTEXT_LEN).

Definition cell_round_trip_is_always_full_size : bool :=
  all [0; 1; 64; CELL_PAYLOAD_LEN] (λ n,
    expect (Cell_new Data (replicate n xa5)) (λ c,
    expect (Cell_encode c) (λ bytes,
    assert_eq (length bytes) CELL_PLAINTEXT_LEN &&
    expect (Cell_decode bytes) (λ d, assert_eq d c)))).

Definition padding_is_zero : bool :=
  let buf := replicate CELL_PLAINTEXT_LEN xff in
  expect (Cell_new Data (replicate 3 xa1)) (λ c,
  expect (Cell_encode_into c buf) (λ buf,
  indexed (slice buf CELL_HEADER_LEN (CELL_HEADER_LEN + 3)) (λ head,
    assert_eq head [xa1; xa1; xa1]) &&
  indexed (slice_from buf (CELL_HEADER_LEN + 3)) (λ pad, forallb (λ b, bool_decide (b = x00)) pad))).

Definition zero_length_data_cell_is_legal : bool :=
  expect (Cell_new Data []) (λ c,
  expect (Cell_encode c) (λ bytes,
  expect (Cell_decode bytes) (λ d, assert_eq (length (payload d)) 0))).

Definition new_rejects_an_oversize_payload : bool :=
  unwrap_err (Cell_new Data (replicate (CELL_PAYLOAD_LEN + 1) x00)) (λ err, matches (err, TooLarge _)).

Definition decode_rejects_a_wrong_size_buffer : bool :=
  all [0; CELL_PLAINTEXT_LEN - 1; CELL_PLAINTEXT_LEN + 1] (λ len,
    unwrap_err (Cell_decode (replicate len x00)) (λ err, matches (err, WrongSize _))).

Definition decode_rejects_nonzero_flags : bool :=
  expect (Cell_new Data [x01; x02; x03]) (λ c,
  expect (Cell_encode c) (λ bytes,
  indexed (index_set bytes 1 x01) (λ bytes,
  unwrap_err (Cell_decode bytes) (λ err, matches (err, ReservedFlags))))).

Definition decode_rejects_a_declared_length_past_the_payload : bool :=
  expect (Cell_new Data [x01; x02; x03]) (λ c,
  expect (Cell_encode c) (λ bytes,
  indexed (copy_at bytes 2 4 (u16_to_be_bytes (usize_as_u16 (CELL_PAYLOAD_LEN + 1)))) (λ bytes,
  unwrap_err (Cell_decode bytes) (λ err, matches (err, TooLarge _))))).

Definition decode_rejects_the_retired_relay_type : bool :=
  expect (Cell_new Data []) (λ c,
  expect (Cell_encode c) (λ bytes,
  indexed (index_set bytes 0 x02) (λ bytes,
  unwrap_err (Cell_decode bytes) (λ err, matches (err, UnknownType x02))))).

Definition extend_forward_round_trips_v4_and_v6 : bool :=
  all ["127.0.0.1:9001"; "[2001:db8::1]:443"] (λ addr,
    let f := mkExtendForward (addr_of addr) (replicate NOISE_MSG_LEN x07) in
    let bytes := ExtendForward_encode f in
    assert_eq (length bytes) EXTEND_FORWARD_LEN &&
    expect (ExtendForward_decode bytes) (λ d,
      assert_eq (next_hop d) (next_hop f) && assert_eq (noise_msg1 d) (noise_msg1 f))).

Definition extend_forward_is_66_bytes : bool :=
  assert_eq EXTEND_FORWARD_LEN 66 && (EXTEND_FORWARD_LEN <=? CELL_PAYLOAD_LEN).

Definition extend_forward_rejects_a_wrong_length : bool :=
  all [0; EXTEND_FORWARD_LEN - 1; EXTEND_FORWARD_LEN + 1] (λ len,
    unwrap_err (ExtendForward_decode (replicate len x00)) (λ err, matches (err, BadExtend _))).

Definition extend_backward_round_trips : bool :=
  let msg := replicate NOISE_MSG_LEN x09 in
  expect (parse_extend_backward (extend_backward_payload msg)) (λ m, assert_eq m msg).

Definition extend_backward_rejects_a_wrong_length : bool :=
  unwrap_err (parse_extend_backward (replicate (NOISE_MSG_LEN - 1) x00)) (λ err, matches (err, BadExtend _)).

Definition connect_round_trips_and_fits_a_cell : bool :=
  let c := mkConnectPayload "example.com" 443 in
  expect (ConnectPayload_encode c) (λ bytes,
  (length bytes <=? CELL_PAYLOAD_LEN) &&
  expect (ConnectPayload_decode bytes) (λ d,
    assert_eq (cp_host d) (cp_host c) && assert_eq (cp_port d) (cp_port c))).

Definition connect_rejects_a_host_that_does_not_fit : bool :=
  let c := mkConnectPayload (str_repeat "a" (MAX_CONNECT_HOST_LEN + 1)) 80 in
  unwrap_err (ConnectPayload_encode c) (λ err, matches (err, BadConnect _)).

Definition connect_rejects_a_length_mismatch : bool :=
  let bytes := u16_to_be_bytes 5 ++ as_bytes "abc" ++ u16_to_be_bytes 80 in
  unwrap_err (ConnectPayload_decode bytes) (λ err, matches (err, BadConnect _)).

Example cell_tests_pass : tests_pass
  [link_sizes_match_the_specification; each_hop_costs_a_disposition_byte_and_a_tag;
   body_len_is_the_adjacent_link_size; peeled_len_is_one_tag_less_than_the_link;
   cell_round_trip_is_always_full_size; padding_is_zero; zero_length_data_cell_is_legal;
   new_rejects_an_oversize_payload; decode_rejects_a_wrong_size_buffer; decode_rejects_nonzero_flags;
   decode_rejects_a_declared_length_past_the_payload; decode_rejects_the_retired_relay_type;
   extend_forward_round_trips_v4_and_v6; extend_forward_is_66_bytes; extend_forward_rejects_a_wrong_length;
   extend_backward_round_trips; extend_backward_rejects_a_wrong_length; connect_round_trips_and_fits_a_cell;
   connect_rejects_a_host_that_does_not_fit; connect_rejects_a_length_mismatch] = true.
Proof. vm_compute. reflexivity. Qed.
End CellTests.

(** ** [layer.rs] *)

Module LayerTests.
Definition pair (seed : byte) : outcome NoiseError (TransportState * TransportState) :=
  kp ← generate_static_keypair (replicate 32 seed);
  '(init, msg1) ← Initiator_start (kp_public kp) (seed :: replicate 31 x0a);
  '(relay_tx, msg2) ← respond (kp_private kp) msg1 (seed :: replicate 31 x0b);
  client ← Initiator_finish init msg2;
  Ok (client, relay_tx).

Definition to_me_round_trips_at_every_depth : bool :=
  all [1; 2; 3] (λ layers,
    expect (pair x01) (λ '(client, relay),
    expect (Cell_new Data (replicate 100 x5a)) (λ cell,
    stepped (seal_to_me cell layers client) (λ _ wire,
    assert_eq (length wire) (link_cell_len layers) &&
    stepped (peel wire layers relay) (λ _ p,
      match p with ToMe got => assert_eq got cell | Forward _ => false end))))).

Definition on_wire_size_is_constant_regardless_of_payload : bool :=
  all [1; 2; 3] (λ layers,
    let want := link_cell_len layers in
    all [0; 1; 7; 200; CELL_PAYLOAD_LEN] (λ n,
      expect (pair x01) (λ '(client, _),
      expect (Cell_new Data (replicate n x01)) (λ cell,
      stepped (seal_to_me cell layers client) (λ _ wire, assert_eq (length wire) want))))).

Definition forward_round_trips_and_sizes_telescope : bool :=
  expect (pair x01) (λ '(client, relay),
  let blob := replicate (link_cell_len 1) xc3 in
  stepped (seal_forward blob 2 client) (λ _ wire,
  assert_eq (length wire) (link_cell_len 2) &&
  stepped (peel wire 2 relay) (λ _ p,
    match p with Forward got => assert_eq got blob | ToMe _ => false end))).

Definition three_hop_onion_telescopes_to_564 : bool :=
  expect (pair x01) (λ '(k_exit, exit_rx),
  expect (pair x02) (λ '(k_mid, mid_rx),
  expect (pair x03) (λ '(k_guard, guard_rx),
  expect (Cell_new Data (as_bytes "payload")) (λ cell,
  stepped (seal_to_me cell 1 k_exit) (λ _ inner,
  assert_eq (length inner) 530 &&
  stepped (seal_forward inner 2 k_mid) (λ _ mid,
  assert_eq (length mid) 547 &&
  stepped (seal_forward mid 3 k_guard) (λ _ outer,
  assert_eq (length outer) 564 &&
  stepped (peel outer 3 guard_rx) (λ _ p,
    match p with
    | ToMe _ => false
    | Forward fwd1 =>
        assert_eq (length fwd1) 547 &&
        stepped (peel fwd1 2 mid_rx) (λ _ p,
          match p with
          | ToMe _ => false
          | Forward fwd2 =>
              assert_eq (length fwd2) 530 &&
              stepped (peel fwd2 1 exit_rx) (λ _ p,
                match p with ToMe got => assert_eq got cell | Forward _ => false end)
          end)
    end)))))))).

Definition peel_rejects_a_wrong_size_frame : bool :=
  expect (pair x01) (λ '(client, relay),
  expect (Cell_new Data []) (λ cell,
  stepped (seal_to_me cell 3 client) (λ _ wire,
  all [take (length wire - 1) wire; take 1 wire] (λ bad,
    refused (peel bad 3 relay) (λ err,
      match err with LayerWrongSize _ want => assert_eq want (link_cell_len 3) | _ => false end))))).

Definition peel_rejects_a_tampered_frame : bool :=
  expect (pair x01) (λ '(client, relay),
  expect (Cell_new Data (as_bytes "x")) (λ cell,
  stepped (seal_to_me cell 3 client) (λ _ wire,
  let wire := alter Toy.flip 20 wire in
  refused (peel wire 3 relay) (λ err, matches (err, LayerNoise _))))).

Definition peel_rejects_dirty_padding : bool :=
  expect (pair x01) (λ '(client, relay),
  let layers := 3 in
  let body := body_len layers in
  let plain := replicate (DISPOSITION_LEN + body) x00 in
  indexed (index_set plain 0 DISPOSITION_TO_ME) (λ plain,
  expect (Cell_new Data []) (λ c,
  indexed (slice plain DISPOSITION_LEN (DISPOSITION_LEN + CELL_PLAINTEXT_LEN)) (λ part,
  expect (Cell_encode_into c part) (λ part,
  indexed (copy_at plain DISPOSITION_LEN (DISPOSITION_LEN + CELL_PLAINTEXT_LEN) part) (λ plain,
  indexed (index_set plain (length plain - 1) xff) (λ plain,
  let wire := replicate (length plain + NOISE_TAG_LEN) x00 in
  stepped (Transport_encrypt plain wire client) (λ _ wire,
  refused (peel wire layers relay) (λ err, matches (err, DirtyPadding)))))))))).

Definition peel_rejects_an_unknown_disposition : bool :=
  expect (pair x01) (λ '(client, relay),
  let layers := 3 in
  let plain := replicate (DISPOSITION_LEN + body_len layers) x00 in
  indexed (index_set plain 0 x7f) (λ plain,
  let wire := replicate (length plain + NOISE_TAG_LEN) x00 in
  stepped (Transport_encrypt plain wire client) (λ _ wire,
  refused (peel wire layers relay) (λ err, matches (err, UnknownDisposition x7f))))).

Definition forward_is_illegal_at_the_innermost_layer : bool :=
  expect (pair x01) (λ '(client, relay),
  let plain := replicate (DISPOSITION_LEN + body_len 1) x00 in
  indexed (index_set plain 0 DISPOSITION_FORWARD) (λ plain,
  let wire := replicate (length plain + NOISE_TAG_LEN) x00 in
  stepped (Transport_encrypt plain wire client) (λ _ wire,
  refused (peel wire 1 relay) (λ err, matches (err, ForwardAtInnermost))))).

Definition seal_forward_rejects_a_blob_that_is_not_the_adjacent_link_size : bool :=
  expect (pair x01) (λ '(client, _),
  let right := replicate (link_cell_len 1) x00 in
  stepped (seal_forward right 2 client) (λ _ _, true)) &&
  all [link_cell_len 1 - 1; link_cell_len 1 + 1; 0; link_cell_len 2] (λ bad,
    expect (pair x01) (λ '(c, _),
    let blob := replicate bad x00 in
    refused (seal_forward blob 2 c) (λ err,
      match err with
      | LayerWrongSize got want => assert_eq got bad && assert_eq want (link_cell_len 1)
      | _ => false
      end))).

Definition seal_forward_wants_the_depth_specific_size : bool :=
  let blob := replicate (link_cell_len 2) x00 in
  expect (pair x01) (λ '(a, _), stepped (seal_forward blob 3 a) (λ _ _, true)) &&
  expect (pair x02) (λ '(b, _), refused (seal_forward blob 2 b) (λ err, matches (err, LayerWrongSize _ _))).

(** The [while] loop: [sent], [chunk], [got]; each turn sends at least a byte. *)
Fixpoint dribble (fuel : nat) (frame : list byte) (acc : FrameAccumulator) (sent chunk : nat)
    (got : option (list byte)) : FrameAccumulator * option (list byte) :=
  match fuel with
  | O => (acc, got)
  | S fuel =>
      let n := length frame in
      if n <=? sent then (acc, got) else
      let k := Nat.min chunk (n - sent) in
      let acc := FrameAccumulator_push acc (take k (drop sent frame)) in
      let '(acc, f) := FrameAccumulator_next_frame acc in
      dribble fuel frame acc (sent + k) (if chunk =? 7 then 1 else chunk + 1)
        (match f with Some f => Some f | None => got end)
  end.

Definition accumulator_yields_whole_frames_from_dribbled_bytes : bool :=
  let n := link_cell_len 3 in
  let acc := FrameAccumulator_new n in
  let frame := (λ i, as_u8 (Z.of_nat i mod 251)) <$> seq 0 n in
  let '(acc, got) := dribble (n + 1) frame acc 0 1 None in
  unwrap got (λ f, assert_eq f frame) && assert_eq (FrameAccumulator_pending acc) 0.

Definition accumulator_keeps_a_partial_frame_and_splits_several : bool :=
  let n := link_cell_len 1 in
  let acc := FrameAccumulator_new n in
  let acc := FrameAccumulator_push acc (replicate (n - 1) x01) in
  let '(acc, none) := FrameAccumulator_next_frame acc in
  is_none none && assert_eq (FrameAccumulator_pending acc) (n - 1) &&
  let acc := FrameAccumulator_push acc (replicate (1 + 2 * n) x02) in
  let '(acc, first) := FrameAccumulator_next_frame acc in
  unwrap first (λ first, assert_eq (length first) n && assert_eq (first !! 0) (Some x01)) &&
  let '(acc, second) := FrameAccumulator_next_frame acc in
  is_some second &&
  let '(acc, third) := FrameAccumulator_next_frame acc in
  is_some third &&
  let '(acc, fourth) := FrameAccumulator_next_frame acc in
  is_none fourth && assert_eq (FrameAccumulator_pending acc) 0.

Definition replayed_frame_is_rejected_at_the_layer : bool :=
  expect (pair x01) (λ '(client, relay),
  expect (Cell_new Data (as_bytes "once")) (λ cell,
  stepped (seal_to_me cell 3 client) (λ _ wire,
  stepped (peel wire 3 relay) (λ relay _,
  refused (peel wire 3 relay) (λ err, matches (err, LayerNoise _)))))).

(** The tests of [cancel_safety]: the other branch of the [select!] wins whenever
    the read is not ready, and the loop polls again. *)
Definition FRAME : nat := 8.

Fixpoint select_next_frame (turns : nat) (r : FrameReader) : FrameReader * option (list byte) :=
  match turns with
  | O => (r, None)
  | S turns =>
      match FrameReader_next_frame r with
      | (r, NotReady) => select_next_frame turns r
      | (r, Ready (Ok frame)) => (r, Some frame)
      | (r, Ready _) => (r, None)
      end
  end.

Definition feed : list read_event :=
  [Chunk [x01; x02; x03]; WouldBlock; Chunk [x04; x05; x06; x07; x08]; WouldBlock].

Definition frame_reader_in_select_keeps_partial_bytes : bool :=
  let reader := FrameReader_new feed FRAME in
  unwrap (snd (select_next_frame 3 reader)) (λ frame,
    assert_eq frame [x01; x02; x03; x04; x05; x06; x07; x08]).

Definition next_frame_never_reads_past_the_frame_it_returns : bool :=
  let rx := [Chunk [x01; x02; x03]; WouldBlock; Chunk [x04; x05; x06; x07; x08; xaa; xbb; xcc]; WouldBlock] in
  let reader := FrameReader_new rx FRAME in
  let '(reader, frame) := select_next_frame 3 reader in
  unwrap frame (λ frame, assert_eq frame [x01; x02; x03; x04; x05; x06; x07; x08]) &&
  assert_eq (FrameReader_pending reader) 0 &&
  let inner := FrameReader_into_inner reader in
  match async_read 3 inner with
  | (_, Ready (Ok trailing)) => assert_eq trailing [xaa; xbb; xcc]
  | _ => false
  end.

Definition cancelled_next_frame_retains_the_partial_and_reports_it : bool :=
  let reader := FrameReader_new [Chunk [x01; x02; x03]; WouldBlock] FRAME in
  match FrameReader_next_frame reader with
  | (reader, NotReady) => assert_eq (FrameReader_pending reader) 3
  | _ => false
  end.

Example layer_tests_pass : tests_pass
  [to_me_round_trips_at_every_depth; on_wire_size_is_constant_regardless_of_payload;
   forward_round_trips_and_sizes_telescope; three_hop_onion_telescopes_to_564;
   peel_rejects_a_wrong_size_frame; peel_rejects_a_tampered_frame; peel_rejects_dirty_padding;
   peel_rejects_an_unknown_disposition; forward_is_illegal_at_the_innermost_layer;
   seal_forward_rejects_a_blob_that_is_not_the_adjacent_link_size;
   seal_forward_wants_the_depth_specific_size; accumulator_yields_whole_frames_from_dribbled_bytes;
   accumulator_keeps_a_partial_frame_and_splits_several; replayed_frame_is_rejected_at_the_layer;
   frame_reader_in_select_keeps_partial_bytes; next_frame_never_reads_past_the_frame_it_returns;
   cancelled_next_frame_retains_the_partial_and_reports_it] = true.
Proof. vm_compute. reflexivity. Qed.
End LayerTests.

(** ** [noise.rs] *)

Module NoiseTests.
Definition handshake : outcome NoiseError (TransportState * TransportState) :=
  server ← generate_static_keypair (replicate 32 x01);
  '(init, msg1) ← Initiator_start (kp_public server) (replicate 32 x02);
  '(resp_tx, msg2) ← respond (kp_private server) msg1 (replicate 32 x03);
  client ← Initiator_finish init msg2;
  Ok (client, resp_tx).

Definition handshake_messages_are_the_declared_length : bool :=
  expect (generate_static_keypair (replicate 32 x01)) (λ server,
  expect (Initiator_start (kp_public server) (replicate 32 x02)) (λ '(_, msg1),
  expect (respond (kp_private server) msg1 (replicate 32 x03)) (λ '(_, msg2),
  assert_eq (length msg1) NOISE_MSG_LEN && assert_eq (length msg2) NOISE_MSG_LEN))).

Definition transport_round_trips_both_directions : bool :=
  expect handshake (λ '(client, relay),
  let plain := as_bytes "one cell's worth of plaintext" in
  stepped (Transport_encrypt plain (replicate (length plain + NOISE_TAG_LEN) x00) client) (λ client ct,
  stepped (Transport_decrypt ct (replicate (length plain) x00) relay) (λ relay out,
  assert_eq out plain &&
  let back := as_bytes "and the reply" in
  stepped (Transport_encrypt back (replicate (length back + NOISE_TAG_LEN) x00) relay) (λ _ ct2,
  stepped (Transport_decrypt ct2 (replicate (length back) x00) client) (λ _ out2,
  assert_eq out2 back))))).

Definition wrong_static_key_fails_the_handshake : bool :=
  expect (generate_static_keypair (replicate 32 x01)) (λ server,
  expect (generate_static_keypair (replicate 32 x04)) (λ impostor,
  negb (assert_eq (kp_public server) (kp_public impostor)) &&
  expect (Initiator_start (kp_public server) (replicate 32 x02)) (λ '(_, good),
  is_ok (respond (kp_private server) good (replicate 32 x03))) &&
  expect (Initiator_start (kp_public impostor) (replicate 32 x05)) (λ '(_, bad),
  unwrap_err (respond (kp_private server) bad (replicate 32 x03)) (λ err, matches (err, Handshake))))).

Definition prologue_mismatch_fails_the_handshake : bool :=
  expect (generate_static_keypair (replicate 32 x01)) (λ server,
  expect (Initiator_start (kp_public server) (replicate 32 x02)) (λ '(_, msg1),
  is_ok (respond (kp_private server) msg1 (replicate 32 x03)) &&
  expect params (λ p,
  unwrap (builder_prologue (builder_new p) (as_bytes "quiethop/v1/nk-other")) (λ b,
  unwrap (builder_local_private_key b (kp_private server)) (λ b,
  unwrap (builder_build_responder b) (λ hs,
  is_none (snd (hs_read_message hs msg1 NOISE_MSG_LEN)))))))).

Definition replayed_frame_is_rejected : bool :=
  expect handshake (λ '(client, relay),
  let plain := as_bytes "replay me" in
  stepped (Transport_encrypt plain (replicate (length plain + NOISE_TAG_LEN) x00) client) (λ _ ct,
  stepped (Transport_decrypt ct (replicate (length plain) x00) relay) (λ relay _,
  refused (Transport_decrypt ct (replicate (length plain) x00) relay) (λ err, matches (err, TransportFailed))))).

Definition reordered_frames_are_rejected : bool :=
  expect handshake (λ '(client, relay),
  stepped (Transport_encrypt (as_bytes "aaaa") (replicate (4 + NOISE_TAG_LEN) x00) client) (λ client first,
  stepped (Transport_encrypt (as_bytes "bbbb") (replicate (4 + NOISE_TAG_LEN) x00) client) (λ _ second,
  refused (Transport_decrypt second (replicate 4 x00) relay) (λ err, matches (err, TransportFailed))))).

Definition tampered_frame_is_rejected : bool :=
  expect handshake (λ '(client, relay),
  let plain := as_bytes "integrity" in
  stepped (Transport_encrypt plain (replicate (length plain + NOISE_TAG_LEN) x00) client) (λ _ ct,
  let ct := alter Toy.flip 0 ct in
  refused (Transport_decrypt ct (replicate (length plain) x00) relay) (λ err, matches (err, TransportFailed)))).

Definition decrypt_rejects_a_mismatched_output_buffer : bool :=
  expect handshake (λ '(client, relay),
  stepped (Transport_encrypt (as_bytes "12345678") (replicate (8 + NOISE_TAG_LEN) x00) client) (λ _ ct,
  refused (Transport_decrypt ct (replicate 4 x00) relay) (λ err, matches (err, Length _ _)))).

Definition static_keypair_round_trips_from_parts : bool :=
  expect (generate_static_keypair (replicate 32 x01)) (λ kp,
  expect (StaticKeypair_from_parts (kp_private kp) (kp_public kp) (replicate 32 x02) (replicate 32 x03)) (λ again,
  assert_eq (kp_public kp) (kp_public again))).

Definition from_parts_rejects_halves_that_do_not_correspond : bool :=
  let from_parts priv pub := StaticKeypair_from_parts priv pub (replicate 32 x02) (replicate 32 x03) in
  expect (generate_static_keypair (replicate 32 x01)) (λ a,
  expect (generate_static_keypair (replicate 32 x04)) (λ b,
  is_ok (from_parts (kp_private a) (kp_public a)) &&
  is_ok (from_parts (kp_private b) (kp_public b)) &&
  unwrap_err (from_parts (kp_private a) (kp_public b)) (λ err, matches (err, Handshake)))).

Example noise_tests_pass : tests_pass
  [handshake_messages_are_the_declared_length; transport_round_trips_both_directions;
   wrong_static_key_fails_the_handshake; prologue_mismatch_fails_the_handshake;
   replayed_frame_is_rejected; reordered_frames_are_rejected; tampered_frame_is_rejected;
   decrypt_rejects_a_mismatched_output_buffer; static_keypair_round_trips_from_parts;
   from_parts_rejects_halves_that_do_not_correspond] = true.
Proof. vm_compute. reflexivity. Qed.
End NoiseTests.
