(* ===== verification/RegistryUnit.v ===== *)
(** QuietHop: the unit tests of the shared crate's registry, on the model.

    The test modules of [quiethop-crypto/src/registry.rs] (with the date tests),
    [registry_cache.rs] and [state.rs].  Ed25519, SHA-256, Base64 and JSON are
    those of [Fixtures]; an assertion on the text of an error message is one on
    the template the model has for it.  A JSON literal is written with single
    quotes, which [Toy.json_text] turns into double ones.  Left out: the tests of
    the Ed25519 implementation itself (the RFC 8032 vectors and the vector the
    Go authority signed). *)

From S2P Require Import Prelude Bytes Text NetAddr Cell Civil State Registry RegistryCache.
From S2P Require Import UnitTest Fixtures.

#[local] Open Scope Z_scope.

(** ** [state.rs] *)

Module StateTests.
(** [tempfile::tempdir]. *)
Definition tempdir : string := "/tmp/t".

Definition sample : RegistryState :=
  mkRegistryState 42 "eyJ2ZXJzaW9uIjo0Mn0=" ["219ec80850bdf73c"] (Some "eyJkb2N1bWVudCI6IiJ9").

(** [std::fs::write] of a whole file. *)
Definition fs_put (path : string) (body : list byte) : disk := mkDisk {[ path := mkFile body 420 false ]} [].

Definition first_run_has_no_state : bool :=
  stepped (load tempdir empty_disk) (λ _ s, assert_eq s None).

Definition store_then_load_round_trips : bool :=
  stepped (store tempdir sample empty_disk) (λ d _,
  stepped (load tempdir d) (λ _ s, assert_eq s (Some sample))).

Definition stored_file_is_mode_0600_and_leaves_no_temp_behind : bool :=
  stepped (store tempdir sample empty_disk) (λ d _,
  unwrap (files d !! state_path tempdir) (λ meta, assert_eq (f_mode meta) STATE_MODE) &&
  is_none (files d !! path_join tempdir "registry.json.tmp")).

Definition corrupt_state_is_an_error_not_a_silent_reset : bool :=
  let d := fs_put (state_path tempdir) (as_bytes "{not json") in
  refused (load tempdir d) (λ err, matches (err, RegState Corrupt)).

Definition non_positive_version_is_rejected : bool :=
  let bad := mkRegistryState 0 (document_b64 sample) (key_ids sample) (envelope_b64 sample) in
  unwrap (state_to_vec_pretty bad) (λ body,
  let d := fs_put (state_path tempdir) body in
  refused (load tempdir d) (λ err, matches (err, RegState _))).

Definition a_state_file_without_the_envelope_still_loads : bool :=
  let d := fs_put (state_path tempdir)
    (Toy.json_text "{'highest_version':7,'document_b64':'e30=','key_ids':['abc']}") in
  stepped (load tempdir d) (λ _ got,
  unwrap got (λ got, assert_eq (highest_version got) 7 && assert_eq (envelope_b64 got) None)).

Definition store_replaces_an_existing_file : bool :=
  stepped (store tempdir sample empty_disk) (λ d _,
  let newer := mkRegistryState 43 "eyJ2ZXJzaW9uIjo0M30=" ["aaaaaaaaaaaaaaaa"] None in
  stepped (store tempdir newer d) (λ d _,
  stepped (load tempdir d) (λ _ s, assert_eq s (Some newer)))).

(** The environment is given, so nothing is saved and restored. *)
Definition quiethop_state_dir_wins_over_xdg : bool :=
  let env := <["QUIETHOP_STATE_DIR" := "/tmp/quiethop-explicit"]>
             (<["XDG_STATE_HOME" := "/tmp/quiethop-xdg"]> (∅ : gmap string string)) in
  expect (state_dir (λ k, env !! k)) (λ p, assert_eq p "/tmp/quiethop-explicit") &&
  let env := delete "QUIETHOP_STATE_DIR" env in
  expect (state_dir (λ k, env !! k)) (λ p, assert_eq p "/tmp/quiethop-xdg/quiethop").

Example state_tests_pass : tests_pass
  [first_run_has_no_state; store_then_load_round_trips; stored_file_is_mode_0600_and_leaves_no_temp_behind;
   corrupt_state_is_an_error_not_a_silent_reset; non_positive_version_is_rejected;
   a_state_file_without_the_envelope_still_loads; store_replaces_an_existing_file;
   quiethop_state_dir_wins_over_xdg] = true.
Proof. vm_compute. reflexivity. Qed.
End StateTests.

(** ** [registry.rs] *)

Module VerifyTests.
(** 2026-10-07T14:30:00Z. *)
Definition NOW : Z := 1791383400.

Definition signing_key (seed : byte) : list byte := replicate 32 seed.

(** [PinnedKey::from_bytes(..).unwrap()]. *)
Definition pinned_of (k : list byte) : PinnedKey :=
  match PinnedKey_from_bytes (Toy.verifying_key k) with Ok p => p | _ => mkPinnedKey "" ([] : VerifyingKey) end.

(** [parse_rfc3339(..).unwrap()]. *)
Definition unix (s : string) : Z := match parse_rfc3339 s with Ok v => v | _ => -1 end.

Definition doc_bytes_versioned (version : Z) (valid_after valid_until : string) : list byte :=
  Toy.json_text ("{'version':" +:+ Toy.show_i64 version +:+ ",'valid_after':'" +:+ valid_after
    +:+ "','fresh_until':'" +:+ valid_after +:+ "','valid_until':'" +:+ valid_until +:+ "','relays':[]}").

Definition doc_bytes (valid_after valid_until : string) : list byte :=
  let version := Z.quot (unix valid_after) 3600 in
  doc_bytes_versioned version valid_after valid_until.

Definition sample_doc : list byte := doc_bytes "2026-10-07T14:00:00Z" "2026-10-07T20:00:00Z".

Definition sample_version : Z := Z.quot (unix "2026-10-07T14:00:00Z") 3600.

(** The envelope text the tests build with [format!]. *)
Definition envelope_text (document : list byte) (key_id : string) (sig : list byte) : list byte :=
  Toy.json_text ("{'document':'" +:+ b64_encode document +:+ "','signatures':[{'key_id':'" +:+ key_id
    +:+ "','sig':'" +:+ b64_encode sig +:+ "'}]}").

Definition envelope (k document : list byte) : list byte :=
  let sig := Toy.sign k (signed_message document) in
  let pin := pinned_of k in
  envelope_text document (pk_key_id pin) sig.

Definition a_valid_document_verifies : bool :=
  let k := signing_key x01 in
  let doc := sample_doc in
  expect (verify (envelope k doc) [pinned_of k] 1 NOW None) (λ v,
  assert_eq (version (document v)) sample_version &&
  assert_eq (bytes v) doc &&
  assert_eq (v_key_ids v) [pk_key_id (pinned_of k)]).

Definition one_flipped_byte_fails : bool :=
  let k := signing_key x02 in
  let doc := sample_doc in
  let good := envelope k doc in
  is_ok (verify good [pinned_of k] 1 NOW None) &&
  let flipped := alter Toy.flip 10%nat doc in
  let sig := Toy.sign k (signed_message doc) in
  let body := envelope_text flipped (pk_key_id (pinned_of k)) sig in
  unwrap_err (verify body [pinned_of k] 1 NOW None) (λ err, matches (err, RegRegistry _)).

Definition a_signature_from_a_non_pinned_key_fails : bool :=
  let real := signing_key x03 in
  let other := signing_key x04 in
  let doc := sample_doc in
  is_ok (verify (envelope real doc) [pinned_of real] 1 NOW None) &&
  unwrap_err (verify (envelope other doc) [pinned_of real] 1 NOW None) (λ err, matches (err, RegRegistry _)).

Definition an_expired_document_fails_with_no_grace_period : bool :=
  let k := signing_key x05 in
  let doc := sample_doc in
  let expired_at := unix "2026-10-07T20:00:00Z" in
  unwrap_err (verify (envelope k doc) [pinned_of k] 1 expired_at None) (λ err, matches (err, RegRegistry _)) &&
  is_ok (verify (envelope k doc) [pinned_of k] 1 (expired_at - 1) None).

Definition a_not_yet_valid_document_fails_outside_the_skew_allowance : bool :=
  let k := signing_key x06 in
  let doc := sample_doc in
  let after := unix "2026-10-07T14:00:00Z" in
  is_ok (verify (envelope k doc) [pinned_of k] 1 (after - SKEW_ALLOWANCE_SECS) None) &&
  unwrap_err (verify (envelope k doc) [pinned_of k] 1 (after - SKEW_ALLOWANCE_SECS - 1) None)
    (λ err, matches (err, RegRegistry _)).

Definition a_lower_version_after_a_higher_one_is_a_rollback : bool :=
  let k := signing_key x07 in
  let high := doc_bytes "2026-10-07T14:00:00Z" "2026-10-07T20:00:00Z" in
  let prev := mkRegistryState sample_version (b64_encode high) [pk_key_id (pinned_of k)] None in
  is_ok (verify (envelope k high) [pinned_of k] 1 NOW (Some prev)) &&
  let low := doc_bytes "2026-10-07T13:00:00Z" "2026-10-07T19:00:00Z" in
  unwrap_err (verify (envelope k low) [pinned_of k] 1 NOW (Some prev))
    (λ m, matches (m, RegRegistry (Rollback _ _))).

Definition the_same_version_with_different_bytes_is_equivocation : bool :=
  let k := signing_key x08 in
  let first := doc_bytes "2026-10-07T14:00:00Z" "2026-10-07T20:00:00Z" in
  let second := Toy.json_text ("{'version':" +:+ Toy.show_i64 sample_version
    +:+ ",'valid_after':'2026-10-07T14:00:00Z','fresh_until':'2026-10-07T15:00:00Z','valid_until':'2026-10-07T20:00:00Z',"
    +:+ "'relays':[{'id':'x','operator_id':'o','host_id':'h','role':'guard','ip':'203.0.113.1','port':443,"
    +:+ "'tls_name':'n','static_pubkey':'00'}]}") in
  let prev := mkRegistryState sample_version (b64_encode first) [pk_key_id (pinned_of k)] None in
  unwrap_err (verify (envelope k second) [pinned_of k] 1 NOW (Some prev))
    (λ err, match err with RegEquivocation v => assert_eq v sample_version | _ => false end).

Definition a_version_that_does_not_match_valid_after_is_rejected : bool :=
  let k := signing_key x14 in
  let right := doc_bytes "2026-10-07T14:00:00Z" "2026-10-07T20:00:00Z" in
  is_ok (verify (envelope k right) [pinned_of k] 1 NOW None) &&
  all [sample_version + 1; sample_version - 1; 1; 0] (λ wrong,
    let doc := doc_bytes_versioned wrong "2026-10-07T14:00:00Z" "2026-10-07T20:00:00Z" in
    unwrap_err (verify (envelope k doc) [pinned_of k] 1 NOW None)
      (λ m, matches (m, RegRegistry (VersionMismatch _ _)))).

Definition an_off_hour_valid_after_is_rejected : bool :=
  let k := signing_key x15 in
  let doc := doc_bytes_versioned sample_version "2026-10-07T14:30:00Z" "2026-10-07T20:30:00Z" in
  unwrap_err (verify (envelope k doc) [pinned_of k] 1 NOW None)
    (λ m, matches (m, RegRegistry (NotOnExactHour _))).

Definition the_threshold_is_enforced : bool :=
  let k := signing_key x09 in
  let doc := sample_doc in
  let body := envelope k doc in
  is_ok (verify body [pinned_of k] 1 NOW None) &&
  unwrap_err (verify body [pinned_of k] 2 NOW None) (λ m, matches (m, RegRegistry (TooFewSignatures _ 2))).

Definition a_signature_over_the_bare_document_does_not_verify : bool :=
  let k := signing_key x0a in
  let doc := sample_doc in
  is_ok (verify (envelope k doc) [pinned_of k] 1 NOW None) &&
  let bare := Toy.sign k doc in
  let body := envelope_text doc (pk_key_id (pinned_of k)) bare in
  unwrap_err (verify body [pinned_of k] 1 NOW None) (λ err, matches (err, RegRegistry _)).

Definition a_document_is_not_parsed_before_it_verifies : bool :=
  let k := signing_key x0b in
  let junk := as_bytes "not json at all" in
  let other := signing_key x0c in
  let body := envelope_text junk (pk_key_id (pinned_of other)) (Toy.sign other (signed_message junk)) in
  unwrap_err (verify body [pinned_of k] 1 NOW None) (λ m, matches (m, RegRegistry (TooFewSignatures _ _))).

Definition key_id_matches_the_authority_derivation : bool :=
  let k := signing_key x0d in
  let raw := Toy.verifying_key k in
  let want := of_bytes (flat_map hex_byte (take 8 (sha256 raw))) in
  expect (key_id_for raw) (λ kid, assert_eq kid want).

Definition timestamps_must_be_rfc3339_utc_with_z : bool :=
  is_ok (timestamp "2026-10-07T14:00:00Z") &&
  all ["2026-10-07T14:00:00+01:00"; "2026-10-07 14:00:00Z"; "2026-10-07T14:00:00.5Z";
       "2026-13-07T14:00:00Z"; "2026-10-07T24:00:00Z"; ""]
    (λ bad, is_err (timestamp bad)).

Definition civil_date_conversion_matches_known_epochs : bool :=
  expect (timestamp "1970-01-01T00:00:00Z") (λ v, assert_eq v 0) &&
  expect (timestamp "2000-01-01T00:00:00Z") (λ v, assert_eq v 946684800) &&
  expect (timestamp "2026-10-07T14:00:00Z") (λ v, assert_eq v 1791381600).

Definition sample_entry (ip : string) (port : Z) (key : string) : RelayEntry :=
  mkRelayEntry "r1" "op" "h" "guard" ip port "r1.example" key.

Definition addr_parses_v4_and_v6_literals : bool :=
  expect (RelayEntry_addr (sample_entry "10.0.0.1" 443 "")) (λ a, assert_eq a (addr_of "10.0.0.1:443")) &&
  expect (RelayEntry_addr (sample_entry "2001:db8::1" 443 "")) (λ a, assert_eq a (addr_of "[2001:db8::1]:443")).

Definition addr_refuses_a_hostname : bool :=
  all ["node01.example"; "localhost"; ""] (λ name, is_err (RelayEntry_addr (sample_entry name 443 ""))).

Definition canonical_form_reduces_a_mapped_address_and_leaves_others_alone : bool :=
  let mapped := ip_of "::ffff:10.1.0.1" in
  let plain := ip_of "10.1.0.1" in
  let real_v6 := ip_of "2001:db8::1" in
  assert_eq (canonical_ip mapped) plain &&
  assert_eq (canonical_ip plain) plain &&
  assert_eq (canonical_ip real_v6) real_v6 &&
  negb (assert_eq mapped plain).

Definition an_entry_address_is_canonical_in_both_spellings : bool :=
  let want := ip_of "10.1.0.1" in
  all ["10.1.0.1"; "::ffff:10.1.0.1"] (λ spelling,
    let e := sample_entry spelling 443 (str_repeat "ab" STATIC_KEY_LEN) in
    expect (RelayEntry_ip_addr e) (λ a, assert_eq a want) &&
    expect (RelayEntry_addr e) (λ a, assert_eq a (addr_of "10.1.0.1:443"))).

Definition canonical_addr_keeps_the_port : bool :=
  let a := addr_of "[::ffff:10.1.0.1]:8443" in
  assert_eq (canonical_addr a) (addr_of "10.1.0.1:8443").

Definition addr_refuses_port_zero : bool := is_err (RelayEntry_addr (sample_entry "10.0.0.1" 0 "")).

Definition static_key_decodes_exactly_32_bytes : bool :=
  let key := str_repeat "ab" STATIC_KEY_LEN in
  expect (RelayEntry_static_key (sample_entry "10.0.0.1" 443 key)) (λ k,
    assert_eq k (replicate STATIC_KEY_LEN xab)).

Definition static_key_rejects_wrong_length_and_bad_hex : bool :=
  all [str_repeat "ab" (STATIC_KEY_LEN - 1); str_repeat "zz" STATIC_KEY_LEN; "abc"] (λ bad,
    is_err (RelayEntry_static_key (sample_entry "10.0.0.1" 443 bad))).

Example verify_tests_pass : tests_pass
  [a_valid_document_verifies; one_flipped_byte_fails; a_signature_from_a_non_pinned_key_fails;
   an_expired_document_fails_with_no_grace_period;
   a_not_yet_valid_document_fails_outside_the_skew_allowance;
   a_lower_version_after_a_higher_one_is_a_rollback;
   the_same_version_with_different_bytes_is_equivocation;
   a_version_that_does_not_match_valid_after_is_rejected; an_off_hour_valid_after_is_rejected;
   the_threshold_is_enforced; a_signature_over_the_bare_document_does_not_verify;
   a_document_is_not_parsed_before_it_verifies; key_id_matches_the_authority_derivation;
   timestamps_must_be_rfc3339_utc_with_z; civil_date_conversion_matches_known_epochs;
   addr_parses_v4_and_v6_literals; addr_refuses_a_hostname;
   canonical_form_reduces_a_mapped_address_and_leaves_others_alone;
   an_entry_address_is_canonical_in_both_spellings; canonical_addr_keeps_the_port;
   addr_refuses_port_zero; static_key_decodes_exactly_32_bytes;
   static_key_rejects_wrong_length_and_bad_hex] = true.
Proof. vm_compute. reflexivity. Qed.
End VerifyTests.

(** ** The date tests of [registry.rs]: its reference counter is in [Civil] *)

Module DateTests.
(** [days.windows(2)]. *)
Fixpoint day_apart (l : list (Z * Z * Z * Z)) : bool :=
  match l with
  | a :: ((b :: _) as r) => assert_eq (b.2 - a.2) 86400 && day_apart r
  | _ => true
  end.

Definition reference_counter_is_internally_consistent : bool :=
  let days := reference_days LAST_YEAR in
  unwrap (head days) (λ d, assert_eq d (1970, 1, 1, 0)) &&
  unwrap (last days) (λ d, assert_eq d.1.1.1 LAST_YEAR && assert_eq d.1.1.2 12 && assert_eq d.1.2 31) &&
  day_apart days &&
  let leaps := length (List.filter ref_is_leap (zrange FIRST_YEAR (LAST_YEAR + 1))) in
  assert_eq (Z.of_nat (length days)) (365 * 131 + Z.of_nat leaps) &&
  negb (ref_is_leap 2100) && ref_is_leap 2000.

Definition every_day_round_trips_at_midnight_and_last_second : bool :=
  let days := reference_days LAST_YEAR in
  (47000 <? Z.of_nat (length days)) &&
  all days (λ '(y, m, d, midnight),
    expect (timestamp (rfc3339 y m d 0 0 0)) (λ got, assert_eq got midnight) &&
    let want := midnight + 23 * 3600 + 59 * 60 + 59 in
    expect (timestamp (rfc3339 y m d 23 59 59)) (λ got, assert_eq got want)).

Definition impossible_dates_are_rejected : bool :=
  all ["2026-02-29T00:00:00Z"; "2100-02-29T00:00:00Z"; "2026-04-31T00:00:00Z";
       "2026-13-01T00:00:00Z"; "2026-00-10T00:00:00Z"]
    (λ s, unwrap_err (timestamp s) (λ err, matches (err, RegRegistry _))).

Definition real_leap_days_are_accepted : bool :=
  all ["2000-02-29T00:00:00Z"; "2024-02-29T00:00:00Z"] (λ s, is_ok (timestamp s)).

Definition day_zero_and_month_zero_are_rejected_in_every_month : bool :=
  all (zrange 1 13) (λ m, is_err (timestamp (rfc3339 2026 m 0 0 0 0))).

Definition one_past_the_end_of_every_month_is_rejected : bool :=
  all [2024; 2026; 2100; 2000] (λ y, all (zrange 1 13) (λ m,
    let past := ref_month_len y m + 1 in
    if 31 <? past then true else is_err (timestamp (rfc3339 y m past 0 0 0)))).

(** This one follows from what [Civil] proves of the parser and the counter. *)
Lemma every_day_round_trips_passes : every_day_round_trips_at_midnight_and_last_second = true.
Proof.
  unfold every_day_round_trips_at_midnight_and_last_second.
  apply andb_true_intro. split; [by vm_compute|].
  apply forallb_forall. intros [[[y m] d] secs] Hin%list_elem_of_In.
  pose proof (reference_days_ok LAST_YEAR ltac:(done)) as Hall. rewrite Forall_forall in Hall.
  apply Hall in Hin as (Hy & Hv & ->). unfold timestamp.
  rewrite !parse_rfc3339_fields by (done || (repeat split; lia)).
  unfold expect, assert_eq. cbn [map_err]. by rewrite !bool_decide_true by lia.
Qed.

Example date_tests_pass : tests_pass
  [reference_counter_is_internally_consistent; every_day_round_trips_at_midnight_and_last_second;
   impossible_dates_are_rejected; real_leap_days_are_accepted;
   day_zero_and_month_zero_are_rejected_in_every_month;
   one_past_the_end_of_every_month_is_rejected] = true.
Proof. unfold tests_pass. cbn [forallb]. rewrite every_day_round_trips_passes. by vm_compute. Qed.
End DateTests.

(** ** [registry_cache.rs] *)

Module CacheTests.
Definition AFTER : Z := 1791468000.
Definition FRESH : Z := AFTER + 3600.
Definition UNTIL : Z := AFTER + 6 * 3600.

(** Nothing listens there: the network gives no answer. *)
Definition UNROUTABLE : string := "http://127.0.0.1:1/api/v1/registry".

Definition key : list byte := replicate 32 x33.

(** [pinned], [document] and [envelope] of the test module; the first and the
    last are those of [VerifyTests]. *)
Definition document_14 : list byte :=
  Toy.json_text ("{'version':" +:+ Toy.show_i64 (Z.quot AFTER 3600)
    +:+ ",'valid_after':'2026-10-08T14:00:00Z','fresh_until':'2026-10-08T15:00:00Z',"
    +:+ "'valid_until':'2026-10-08T20:00:00Z','relays':[]}").

Definition tempdir : string := "/tmp/c".

(** [cache(dir)] over a disk. *)
Definition cache_on (d : disk) : outcome RegistryError world :=
  c ← RegistryCache_new UNROUTABLE tempdir [VerifyTests.pinned_of key] 1;
  Ok (mkWorld c d [] 0).

Definition a_failed_refresh_serves_until_valid_until_and_refuses_after : bool :=
  expect (cache_on empty_disk) (λ w,
  stepped (accept_body (VerifyTests.envelope key document_14) (AFTER + 60) w) (λ w _,
  let c := cache w in
  is_ok (usable c (AFTER + 60)) &&
  is_ok (usable c (FRESH + 1)) &&
  is_ok (usable c (UNTIL - 1)) &&
  unwrap_err (usable c UNTIL) (λ err, matches (err, RegRegistry OutsideValidity)) &&
  is_err (usable c (UNTIL + 3600)))).

Definition staleness_begins_exactly_at_fresh_until : bool :=
  expect (cache_on empty_disk) (λ w,
  expect (is_stale (cache w) AFTER) id &&
  stepped (accept_body (VerifyTests.envelope key document_14) (AFTER + 60) w) (λ w _,
  expect (is_stale (cache w) (FRESH - 1)) negb &&
  expect (is_stale (cache w) FRESH) id)).

Definition a_restart_inside_the_fresh_window_reuses_the_stored_envelope : bool :=
  expect (cache_on empty_disk) (λ first,
  stepped (accept_body (VerifyTests.envelope key document_14) (AFTER + 60) first) (λ first _,
  expect (cache_on (w_disk first)) (λ second,
  stepped (prime (AFTER + 120) second) (λ second _,
  is_ok (usable (cache second) (AFTER + 120)))))).

Definition a_restart_past_the_fresh_window_does_not_reuse : bool :=
  expect (cache_on empty_disk) (λ first,
  stepped (accept_body (VerifyTests.envelope key document_14) (AFTER + 60) first) (λ first _,
  expect (cache_on (w_disk first)) (λ second,
  refused (prime (FRESH + 1) second) (λ err, matches (err, RegRegistry FetchFailed))))).

Definition a_tampered_stored_envelope_is_not_reused : bool :=
  expect (cache_on empty_disk) (λ first,
  let good := VerifyTests.envelope key document_14 in
  stepped (accept_body good (AFTER + 60) first) (λ first _,
  let forged_doc := document_14 in
  let forged := VerifyTests.envelope (replicate 32 x44) forged_doc in
  stepped (load tempdir (w_disk first)) (λ d stored,
  unwrap stored (λ stored,
  let stored := mkRegistryState (highest_version stored) (b64_encode forged_doc) (key_ids stored)
                  (Some (b64_encode forged)) in
  stepped (store tempdir stored d) (λ d _,
  expect (cache_on d) (λ second,
  refused (prime (AFTER + 120) second) (λ _, true))))))).

Definition an_unmeetable_threshold_is_rejected_at_construction : bool :=
  let k := VerifyTests.pinned_of key in
  is_err (RegistryCache_new UNROUTABLE tempdir [k] 2) &&
  is_err (RegistryCache_new UNROUTABLE tempdir [k] 0) &&
  is_err (RegistryCache_new UNROUTABLE tempdir [] 1) &&
  is_ok (RegistryCache_new UNROUTABLE tempdir [k] 1).

Example cache_tests_pass : tests_pass
  [a_failed_refresh_serves_until_valid_until_and_refuses_after; staleness_begins_exactly_at_fresh_until;
   a_restart_inside_the_fresh_window_reuses_the_stored_envelope;
   a_restart_past_the_fresh_window_does_not_reuse; a_tampered_stored_envelope_is_not_reused;
   an_unmeetable_threshold_is_rejected_at_construction] = true.
Proof. vm_compute. reflexivity. Qed.
End CacheTests.
