(* ===== verification/ClientUnit.v ===== *)
(** QuietHop: the unit tests of the client, on the model.

    The test modules of [client/src/path.rs] and [client/src/blind.rs].  The
    generator is its draws: [select_does_not_return_a_fixed_path] goes through
    200 of them, and the chi-square test is not translated, because [Path] proves
    what it samples: the draw is an index into the list of valid paths.  The RSA
    key is that of [Fixtures]. *)

From S2P Require Import Prelude Bytes Text NetAddr Cell Civil State Registry Token Path Blind.
From S2P Require Import UnitTest Fixtures.

#[local] Open Scope Z_scope.

(** ** [client/src/path.rs] *)

Module PathTests.
Definition AFTER : Z := 1791468000.
Definition AFTER_STR : string := "2026-10-08T14:00:00Z".
Definition FRESH_STR : string := "2026-10-08T15:00:00Z".
Definition UNTIL : Z := 1791489600.
Definition UNTIL_STR : string := "2026-10-08T20:00:00Z".
Definition NOW : Z := AFTER + 60.

Definition relay (id op host role ip : string) : RelayEntry :=
  mkRelayEntry id op host role ip 443 (id +:+ ".example") (str_repeat "ab" STATIC_KEY_LEN).

Definition doc (relays : list RelayEntry) : Document :=
  mkDocument (Z.quot AFTER 3600) AFTER_STR FRESH_STR UNTIL_STR relays.

Definition clean : list RelayEntry :=
  [relay "g1" "op-a" "host-1" "guard" "10.1.0.1";
   relay "m1" "op-b" "host-2" "middle" "10.2.0.1";
   relay "e1" "op-c" "host-3" "exit" "10.3.0.1"].

Definition strict : PathRules := mkPathRules true.

(** [pick(..)]: the first draw is as good as any. *)
Definition pick (relays : list RelayEntry) (rules : PathRules) : outcome ClientError SelectedPath :=
  select (doc relays) rules NOW (λ _, 0%nat).

(** [assert_eq!(reason(r.unwrap_err()), want)]. *)
Definition fails_for (want : NoPathReason) (r : outcome ClientError SelectedPath) : bool :=
  unwrap_err r (λ e, match e with NoPath got => String.eqb (NoPathReason_fmt got) (NoPathReason_fmt want) | _ => false end).

(** Assignments to a field of one entry. *)
Definition set_id (v : string) (e : RelayEntry) : RelayEntry :=
  mkRelayEntry v (operator_id e) (host_id e) (role e) (ip e) (port e) (tls_name e) (static_pubkey e).
Definition set_operator (v : string) (e : RelayEntry) : RelayEntry :=
  mkRelayEntry (re_id e) v (host_id e) (role e) (ip e) (port e) (tls_name e) (static_pubkey e).
Definition set_host (v : string) (e : RelayEntry) : RelayEntry :=
  mkRelayEntry (re_id e) (operator_id e) v (role e) (ip e) (port e) (tls_name e) (static_pubkey e).
Definition set_role (v : string) (e : RelayEntry) : RelayEntry :=
  mkRelayEntry (re_id e) (operator_id e) (host_id e) v (ip e) (port e) (tls_name e) (static_pubkey e).
Definition set_ip (v : string) (e : RelayEntry) : RelayEntry :=
  mkRelayEntry (re_id e) (operator_id e) (host_id e) (role e) v (port e) (tls_name e) (static_pubkey e).
Definition set_port (v : Z) (e : RelayEntry) : RelayEntry :=
  mkRelayEntry (re_id e) (operator_id e) (host_id e) (role e) (ip e) v (tls_name e) (static_pubkey e).
Definition set_tls_name (v : string) (e : RelayEntry) : RelayEntry :=
  mkRelayEntry (re_id e) (operator_id e) (host_id e) (role e) (ip e) (port e) v (static_pubkey e).
Definition set_pubkey (v : string) (e : RelayEntry) : RelayEntry :=
  mkRelayEntry (re_id e) (operator_id e) (host_id e) (role e) (ip e) (port e) (tls_name e) v.

Definition a_valid_path_is_found_and_reports_its_operator_span : bool :=
  expect (pick clean PathRules_default) (λ p,
  assert_eq (re_id (sp_guard p), re_id (sp_middle p), re_id (sp_exit p)) ("g1", "m1", "e1") &&
  assert_eq (role (sp_guard p)) "guard" &&
  assert_eq (role (sp_middle p)) "middle" &&
  assert_eq (role (sp_exit p)) "exit" &&
  assert_eq (sp_operator_span p) 3%nat).

Definition operator_span_counts_distinct_operators_not_hops : bool :=
  let r := set_operator "op-only" <$> clean in
  expect (pick r PathRules_default) (λ p, assert_eq (sp_operator_span p) 1%nat) &&
  let r := alter (set_operator "op-a") 1%nat clean in
  expect (pick r PathRules_default) (λ p, assert_eq (sp_operator_span p) 2%nat).

Definition same_operator_is_rejected_when_diversity_is_required : bool :=
  let r := alter (set_operator "op-a") 1%nat clean in
  fails_for DiversityUnsatisfiable (pick r strict) &&
  is_ok (pick r PathRules_default).

Definition same_host_is_always_rejected : bool :=
  let r := alter (set_host "host-1") 2%nat clean in
  fails_for DiversityUnsatisfiable (pick r PathRules_default) &&
  let r := alter (set_host "host-3") 2%nat r in
  is_ok (pick r PathRules_default).

Definition same_ipv4_slash_16_is_rejected_and_a_different_one_is_not : bool :=
  let r := alter (set_ip "10.1.255.254") 2%nat clean in
  fails_for DiversityUnsatisfiable (pick r PathRules_default) &&
  let r := alter (set_ip "10.4.0.1") 2%nat r in
  is_ok (pick r PathRules_default).

Definition same_ipv6_slash_32_is_rejected_and_a_different_one_is_not : bool :=
  let r := alter (set_ip "2001:db8::1") 0%nat clean in
  let r := alter (set_ip "2001:db8:ffff::1") 1%nat r in
  let r := alter (set_ip "2001:dba::1") 2%nat r in
  fails_for DiversityUnsatisfiable (pick r PathRules_default) &&
  let r := alter (set_ip "2001:db9::1") 1%nat r in
  is_ok (pick r PathRules_default).

Definition a_mapped_address_is_compared_as_ipv4_for_the_slash_16_rule : bool :=
  let r := alter (set_ip "::ffff:10.1.0.1") 0%nat clean in
  let r := alter (set_ip "10.1.0.2") 2%nat r in
  fails_for DiversityUnsatisfiable (pick r PathRules_default).

Definition a_mapped_address_in_a_different_slash_16_is_accepted : bool :=
  let r := alter (set_ip "::ffff:10.1.0.1") 0%nat clean in
  let r := alter (set_ip "10.9.0.1") 2%nat r in
  is_ok (pick r PathRules_default).

Definition reduction_does_not_disturb_genuine_ipv6_comparison : bool :=
  let r := alter (set_ip "2001:db8::1") 0%nat clean in
  let r := alter (set_ip "2001:db8:ffff::1") 1%nat r in
  let r := alter (set_ip "2001:dba::1") 2%nat r in
  fails_for DiversityUnsatisfiable (pick r PathRules_default) &&
  let r := alter (set_ip "2001:db9::1") 1%nat r in
  is_ok (pick r PathRules_default).

Definition addresses_in_different_families_are_never_in_the_same_prefix : bool :=
  let r := alter (set_ip "10.1.0.1") 0%nat clean in
  let r := alter (set_ip "2001:db8::1") 1%nat r in
  let r := alter (set_ip "2001:db9::1") 2%nat r in
  is_ok (pick r PathRules_default).

Definition a_role_with_no_relay_fails_closed : bool :=
  let r := List.filter (λ e, negb (String.eqb (role e) "exit")) clean in
  fails_for InsufficientRelays (pick r PathRules_default).

Definition too_few_relays_fails_closed : bool :=
  let r := [relay "g1" "op-a" "host-1" "guard" "10.1.0.1"; relay "m1" "op-b" "host-2" "middle" "10.2.0.1"] in
  fails_for InsufficientRelays (pick r PathRules_default) &&
  fails_for InsufficientRelays (pick [] PathRules_default).

Definition every_relay_on_one_host_fails_closed : bool :=
  let r := set_host "host-1" <$> clean in
  fails_for DiversityUnsatisfiable (pick r PathRules_default).

Definition a_registry_outside_its_window_is_unusable : bool :=
  let d := doc clean in
  let at_time now := select d PathRules_default now (λ _, 0%nat) in
  fails_for RegistryUnusable (at_time UNTIL) &&
  is_ok (at_time (UNTIL - 1)) &&
  fails_for RegistryUnusable (at_time (AFTER - 61)) &&
  is_ok (at_time (AFTER - 60)).

(** The entries the [while] loop pushes. *)
Definition an_oversized_registry_fails_loudly : bool :=
  let more := (λ n : nat, let s := Toy.show_i64 (Z.of_nat n) in
                 relay ("x" +:+ s) "op-x" ("h" +:+ s) "middle" "10.9.0.1")
              <$> seq (length clean) (MAX_RELAYS + 1 - length clean) in
  let r := clean ++ more in
  assert_eq (length r) (MAX_RELAYS + 1)%nat &&
  fails_for RegistryTooLarge (pick r PathRules_default).

(** The cases of [with_malformed_exit], each a change of the exit's entry. *)
Definition with_malformed_exit : list (RelayEntry → RelayEntry) :=
  [set_id ""; set_operator ""; set_host ""; set_tls_name ""; set_port 0; set_role "bridge";
   (λ e, set_pubkey (of_bytes (take 10 (as_bytes (static_pubkey e)))) e);
   set_pubkey (str_repeat "zz" STATIC_KEY_LEN); set_ip "10.3.0.1/32"].

Definition a_malformed_entry_rejects_the_whole_document : bool :=
  all with_malformed_exit (λ case,
    fails_for InvalidRegistryEntry (pick (alter case 2%nat clean) PathRules_default)) &&
  is_ok (pick clean PathRules_default).

Definition a_hostname_in_the_ip_field_is_refused_rather_than_resolved : bool :=
  all ["relay.example"; "localhost"; ""; "10.3.0.1:443"] (λ name,
    let r := alter (set_ip name) 2%nat clean in
    fails_for InvalidRegistryEntry (pick r PathRules_default)).

Definition uniform_fixture : list RelayEntry :=
  '(role, block) ← [("guard", 1); ("middle", 2); ("exit", 3)];
  (λ i : Z, let n := Toy.show_i64 i in
    relay (role +:+ "-" +:+ n) ("op-" +:+ role +:+ "-" +:+ n) ("host-" +:+ role +:+ "-" +:+ n) role
      (Toy.show_i64 (10 + block) +:+ "." +:+ Toy.show_i64 (100 + i) +:+ ".0.1")) <$> zrange 0 5.

(** The paths of 200 draws, without repetition. *)
Definition select_does_not_return_a_fixed_path : bool :=
  let d := doc uniform_fixture in
  let paths := (λ i : nat, select d PathRules_default NOW (λ n, i mod n)%nat) <$> seq 0 200 in
  all paths is_ok &&
  let seen := fold_left (λ seen r,
    match r with
    | Ok p => btree_insert (re_id (sp_guard p) +:+ re_id (sp_middle p) +:+ re_id (sp_exit p)) seen
    | _ => seen
    end) paths [] in
  (1 <? length seen)%nat.

Example path_tests_pass : tests_pass
  [a_valid_path_is_found_and_reports_its_operator_span;
   operator_span_counts_distinct_operators_not_hops;
   same_operator_is_rejected_when_diversity_is_required; same_host_is_always_rejected;
   same_ipv4_slash_16_is_rejected_and_a_different_one_is_not;
   same_ipv6_slash_32_is_rejected_and_a_different_one_is_not;
   a_mapped_address_is_compared_as_ipv4_for_the_slash_16_rule;
   a_mapped_address_in_a_different_slash_16_is_accepted;
   reduction_does_not_disturb_genuine_ipv6_comparison;
   addresses_in_different_families_are_never_in_the_same_prefix; a_role_with_no_relay_fails_closed;
   too_few_relays_fails_closed; every_relay_on_one_host_fails_closed;
   a_registry_outside_its_window_is_unusable; an_oversized_registry_fails_loudly;
   a_malformed_entry_rejects_the_whole_document;
   a_hostname_in_the_ip_field_is_refused_rather_than_resolved;
   select_does_not_return_a_fixed_path] = true.
Proof. vm_compute. reflexivity. Qed.
End PathTests.

(** ** [client/src/blind.rs] *)

Module BlindTests.
Definition pubkey : RsaPublicKey := Toy.rsa_public.

(** The draws: two the loop refuses, then one it takes. *)
Definition draws : list Z := [0; 1; 123456789012345678901234567].

Definition round_trip_with_test_key : bool :=
  let m_raw := replicate 32 xab in
  unwrap (blind pubkey m_raw draws) (λ req,
  let s_blind := modpow (blinded req) Toy.rsa_d (rsa_n pubkey) in
  expect (unblind_and_verify pubkey req s_blind) (λ token,
  assert_eq (modpow token (rsa_e pubkey) (rsa_n pubkey)) (m req))).

Definition rejects_oversized_signed : bool :=
  let m_raw := replicate 32 xcd in
  unwrap (blind pubkey m_raw draws) (λ req,
  let too_big := rsa_n pubkey + 1 in
  unwrap_err (unblind_and_verify pubkey req too_big) (λ err, matches (err, BlindOversized))).

Definition rejects_wrong_signed : bool :=
  let m_raw := replicate 32 xef in
  unwrap (blind pubkey m_raw draws) (λ req,
  let bogus := blinded req mod rsa_n pubkey in
  unwrap_err (unblind_and_verify pubkey req bogus) (λ err, matches (err, BlindVerifyFailed))).

Definition token_pads_to_modulus_size : bool :=
  let small := 7 in
  let padded := token_to_wire small 256 in
  assert_eq (length padded) 256%nat && assert_eq (padded !! 255%nat) (Some x07) &&
  forallb (λ b, bool_decide (b = x00)) (take 255 padded).

Example blind_tests_pass : tests_pass
  [round_trip_with_test_key; rejects_oversized_signed; rejects_wrong_signed;
   token_pads_to_modulus_size] = true.
Proof. vm_compute. reflexivity. Qed.
End BlindTests.
